(** * MiniOSGB: the OSGB reader of [miniosgb.h], embedded and verified

    The reader walks a forward cursor over an immutable byte buffer and
    builds a graph of shared objects.  The embedding keeps the shape of the
    C++ code:

    - the [Reader] struct is a record threaded through a state-and-error
      monad; [throw Error(_pos, msg)] is the [Throw] outcome, which carries
      the reader state at the point of the throw;
    - [std::make_shared<T>()] allocates a cell in a store (a list of
      instances indexed by address); a [std::shared_ptr] is an optional
      address, [None] being [nullptr]; field readers receive the address of
      the object they fill, so aliasing is visible;
    - the three [std::unordered_map] registries are [gmap]s from identity
      to address;
    - [unsigned int] is 32 bits and [size_t] 64 bits wide, with the
      wrap-around written out; [float] and [double] are only copied by the
      reader and are kept as their IEEE-754 bit patterns;
    - the recursion through [readObject] is tied with a fuel counter;
      [Data_read_returns] shows that the fuel [Data_read] takes is enough;
    - an instance is named by the number of its allocation and a byte of
      the buffer by its offset; the module [Heap] has the reader at the
      addresses of a run, and [Data_read_fuel_placed] relates the two;
    - allocation ([make_shared], [vector::resize], [std::string]) is taken
      to succeed, and the bytes a view past the end of the buffer would
      cover are not modelled: [bytes_at] yields the bytes that exist. *)

From Stdlib Require Import ZArith Lia String.
From Stdlib.Strings Require Import Byte.
From stdpp Require Import gmap strings list pretty.

Open Scope Z_scope.

(** ** Machine integers *)

Definition wrap (w z : Z) : Z := z mod 2 ^ w.

(** [size_t] arithmetic (64 bits). *)
Definition size_t (z : Z) : Z := wrap 64 z.

(** [unsigned int] arithmetic (32 bits). *)
Definition uint (z : Z) : Z := wrap 32 z.

(** Reinterpretation of a 32-bit pattern as [int], and of a 64-bit one as
    [long long]. *)
Definition to_int (z : Z) : Z := if z <? 2 ^ 31 then z else z - 2 ^ 32.
Definition to_longlong (z : Z) : Z := if z <? 2 ^ 63 then z else z - 2 ^ 64.

Definition byte_val (b : byte) : Z := Z.of_N (Byte.to_N b).

(** Little-endian value of a run of bytes. *)
Fixpoint le_val (l : list byte) : Z :=
  match l with
  | [] => 0
  | b :: l' => byte_val b + 256 * le_val l'
  end.

(** ** The object model (namespace [miniosgb]) *)

(** A [shared_ptr]: [None] is [nullptr], [Some a] the instance at address
    [a] of the store. *)
Definition ptr : Type := option nat.

(** A [const unsigned char*] into the input buffer, as an offset from
    [_buffer]; [None] is [nullptr]. *)
Definition bufptr : Type := option Z.

Record Vec4f := { v4_x : Z; v4_y : Z; v4_z : Z; v4_w : Z }.
Record Vec3d := { v3_x : Z; v3_y : Z; v3_z : Z }.

Record Object := { uniqueId : Z }.

Record Array := {
  Array_Object : Object;
  arrayType : Z;
  elementSize : Z;
  elementCount : Z;
  elementData : bufptr;
  binding : Z;
  normalize : bool }.

Record StateSet := {
  StateSet_Object : Object;
  modes : list (Z * Z);
  attributes : list (ptr * Z);
  textureModesList : list (list (Z * Z));
  textureAttributesList : list (list (ptr * Z));
  renderingHint : Z }.

Record Node := { Node_Object : Object; stateSet : ptr }.

Record PrimitiveSet := {
  PrimitiveSet_Object : Object;
  mode : Z;
  indexData : bufptr;
  indexCount : Z }.

(** [Drawable] adds no member to [Node]. *)
Record Geometry := {
  Geometry_Drawable : Node;
  primitives : list ptr;
  vertexData : ptr;
  normalData : ptr;
  colorData : ptr;
  secondaryColorData : ptr;
  fogCoordData : ptr;
  texCoordDataList : list ptr }.

Record Geode := { Geode_Node : Node; drawables : list ptr }.

Record Group := { Group_Node : Node; children : list ptr }.

Record Range := { range_min : Z; range_max : Z }.

Record LOD := {
  LOD_Group : Group;
  centerMode : Z;
  userDefinedCenter : Vec3d;
  userDefinedRadius : Z;
  rangeList : list Range }.

Record RangeData := { filename : string; priorityOffset : Z; priorityScale : Z }.

Record PagedLOD := { PagedLOD_LOD : LOD; rangeDataList : list RangeData }.

Record Property (T : Type) := { frontAndBack : bool; front : T; back : T }.
Arguments frontAndBack {T}.
Arguments front {T}.
Arguments back {T}.

Record Material := {
  Material_Object : Object;
  ambient : Property Vec4f;
  diffuse : Property Vec4f;
  specular : Property Vec4f;
  emission : Property Vec4f;
  shininess : Property Z }.

Record Texture := { Texture_Object : Object; wrapS : Z; wrapT : Z; wrapR : Z }.

Record Image := { Image_Object : Object; data : bufptr; dataLength : Z }.

Record Texture2D := { Texture2D_Texture : Texture; image : ptr }.

(** The dynamic type of an allocated instance: one constructor per class
    the reader instantiates.  [IPrimitiveSet] is the plain [PrimitiveSet]
    the legacy Geometry layer makes. *)
Inductive Instance :=
| IPagedLOD (o : PagedLOD)
| IGroup (o : Group)
| IGeode (o : Geode)
| IGeometry (o : Geometry)
| IStateSet (o : StateSet)
| IMaterial (o : Material)
| ITexture2D (o : Texture2D)
| IDefaultUserDataContainer (o : Object)
| IPrimitiveSet (o : PrimitiveSet)
| IDrawElementsUInt (o : PrimitiveSet)
| IVec2Array (o : Array)
| IVec3Array (o : Array)
| IVec4Array (o : Array)
| IImage (o : Image).

(** *** Freshly constructed instances

    [make_shared<T>()] value-initialises a class without a user-provided
    constructor, so its scalars start at zero; the array classes have a
    constructor fixing [arrayType] and [elementSize]. *)

Definition Object0 : Object := {| uniqueId := 0 |}.
Definition Node0 : Node := {| Node_Object := Object0; stateSet := None |}.
Definition Group0 : Group := {| Group_Node := Node0; children := [] |}.
Definition Vec3d0 : Vec3d := {| v3_x := 0; v3_y := 0; v3_z := 0 |}.
Definition Vec4f0 : Vec4f := {| v4_x := 0; v4_y := 0; v4_z := 0; v4_w := 0 |}.
Definition LOD0 : LOD :=
  {| LOD_Group := Group0; centerMode := 0; userDefinedCenter := Vec3d0;
     userDefinedRadius := 0; rangeList := [] |}.
Definition RangeData0 : RangeData :=
  {| filename := EmptyString; priorityOffset := 0; priorityScale := 0 |}.
Definition PagedLOD0 : PagedLOD := {| PagedLOD_LOD := LOD0; rangeDataList := [] |}.
Definition Geode0 : Geode := {| Geode_Node := Node0; drawables := [] |}.
Definition Geometry0 : Geometry :=
  {| Geometry_Drawable := Node0; primitives := []; vertexData := None;
     normalData := None; colorData := None; secondaryColorData := None;
     fogCoordData := None; texCoordDataList := [] |}.
Definition StateSet0 : StateSet :=
  {| StateSet_Object := Object0; modes := []; attributes := [];
     textureModesList := []; textureAttributesList := []; renderingHint := 0 |}.
Definition Property0 {T} (z : T) : Property T :=
  {| frontAndBack := false; front := z; back := z |}.
Definition Material0 : Material :=
  {| Material_Object := Object0; ambient := Property0 Vec4f0;
     diffuse := Property0 Vec4f0; specular := Property0 Vec4f0;
     emission := Property0 Vec4f0; shininess := Property0 0 |}.

(** [WrapMode::ClampToEdge]. *)
Definition ClampToEdge : Z := 0x812F.
Definition Texture0 : Texture :=
  {| Texture_Object := Object0; wrapS := ClampToEdge; wrapT := ClampToEdge;
     wrapR := ClampToEdge |}.
Definition Texture2D0 : Texture2D := {| Texture2D_Texture := Texture0; image := None |}.
Definition PrimitiveSet0 : PrimitiveSet :=
  {| PrimitiveSet_Object := Object0; mode := 0; indexData := None; indexCount := 0 |}.
Definition Image0 : Image := {| Image_Object := Object0; data := None; dataLength := 0 |}.

(** [Array(arrayType_, elementSize_)], with [binding = Binding::Off]. *)
Definition Array_new (arrayType_ elementSize_ : Z) : Array :=
  {| Array_Object := Object0; arrayType := arrayType_; elementSize := elementSize_;
     elementCount := 0; elementData := None; binding := 0; normalize := false |}.
Definition Vec2Array0 : Array := Array_new 27 8.
Definition Vec3Array0 : Array := Array_new 28 12.
Definition Vec4Array0 : Array := Array_new 29 16.

(** *** Member updates

    One function per member the reader assigns. *)

Definition set_uniqueId (v : Z) (o : Object) : Object := {| uniqueId := v |}.

Definition over_Node_Object (f : Object -> Object) (o : Node) : Node :=
  {| Node_Object := f (Node_Object o); stateSet := stateSet o |}.
Definition set_stateSet (v : ptr) (o : Node) : Node :=
  {| Node_Object := Node_Object o; stateSet := v |}.

Definition over_Group_Node (f : Node -> Node) (o : Group) : Group :=
  {| Group_Node := f (Group_Node o); children := children o |}.
Definition over_children (f : list ptr -> list ptr) (o : Group) : Group :=
  {| Group_Node := Group_Node o; children := f (children o) |}.

Definition over_LOD_Group (f : Group -> Group) (o : LOD) : LOD :=
  {| LOD_Group := f (LOD_Group o); centerMode := centerMode o;
     userDefinedCenter := userDefinedCenter o;
     userDefinedRadius := userDefinedRadius o; rangeList := rangeList o |}.
Definition set_centerMode (v : Z) (o : LOD) : LOD :=
  {| LOD_Group := LOD_Group o; centerMode := v;
     userDefinedCenter := userDefinedCenter o;
     userDefinedRadius := userDefinedRadius o; rangeList := rangeList o |}.
Definition set_userDefinedCenter (v : Vec3d) (o : LOD) : LOD :=
  {| LOD_Group := LOD_Group o; centerMode := centerMode o;
     userDefinedCenter := v;
     userDefinedRadius := userDefinedRadius o; rangeList := rangeList o |}.
Definition set_userDefinedRadius (v : Z) (o : LOD) : LOD :=
  {| LOD_Group := LOD_Group o; centerMode := centerMode o;
     userDefinedCenter := userDefinedCenter o;
     userDefinedRadius := v; rangeList := rangeList o |}.
Definition over_rangeList (f : list Range -> list Range) (o : LOD) : LOD :=
  {| LOD_Group := LOD_Group o; centerMode := centerMode o;
     userDefinedCenter := userDefinedCenter o;
     userDefinedRadius := userDefinedRadius o; rangeList := f (rangeList o) |}.

Definition over_PagedLOD_LOD (f : LOD -> LOD) (o : PagedLOD) : PagedLOD :=
  {| PagedLOD_LOD := f (PagedLOD_LOD o); rangeDataList := rangeDataList o |}.
Definition over_rangeDataList (f : list RangeData -> list RangeData)
    (o : PagedLOD) : PagedLOD :=
  {| PagedLOD_LOD := PagedLOD_LOD o; rangeDataList := f (rangeDataList o) |}.

Definition set_filename (v : string) (o : RangeData) : RangeData :=
  {| filename := v; priorityOffset := priorityOffset o;
     priorityScale := priorityScale o |}.
Definition set_priorityOffset (v : Z) (o : RangeData) : RangeData :=
  {| filename := filename o; priorityOffset := v;
     priorityScale := priorityScale o |}.
Definition set_priorityScale (v : Z) (o : RangeData) : RangeData :=
  {| filename := filename o; priorityOffset := priorityOffset o;
     priorityScale := v |}.

Definition over_Geode_Node (f : Node -> Node) (o : Geode) : Geode :=
  {| Geode_Node := f (Geode_Node o); drawables := drawables o |}.
Definition over_drawables (f : list ptr -> list ptr) (o : Geode) : Geode :=
  {| Geode_Node := Geode_Node o; drawables := f (drawables o) |}.

Definition over_Geometry_Drawable (f : Node -> Node) (o : Geometry) : Geometry :=
  {| Geometry_Drawable := f (Geometry_Drawable o); primitives := primitives o;
     vertexData := vertexData o; normalData := normalData o;
     colorData := colorData o; secondaryColorData := secondaryColorData o;
     fogCoordData := fogCoordData o; texCoordDataList := texCoordDataList o |}.
Definition over_primitives (f : list ptr -> list ptr) (o : Geometry) : Geometry :=
  {| Geometry_Drawable := Geometry_Drawable o; primitives := f (primitives o);
     vertexData := vertexData o; normalData := normalData o;
     colorData := colorData o; secondaryColorData := secondaryColorData o;
     fogCoordData := fogCoordData o; texCoordDataList := texCoordDataList o |}.
Definition set_vertexData (v : ptr) (o : Geometry) : Geometry :=
  {| Geometry_Drawable := Geometry_Drawable o; primitives := primitives o;
     vertexData := v; normalData := normalData o;
     colorData := colorData o; secondaryColorData := secondaryColorData o;
     fogCoordData := fogCoordData o; texCoordDataList := texCoordDataList o |}.
Definition set_normalData (v : ptr) (o : Geometry) : Geometry :=
  {| Geometry_Drawable := Geometry_Drawable o; primitives := primitives o;
     vertexData := vertexData o; normalData := v;
     colorData := colorData o; secondaryColorData := secondaryColorData o;
     fogCoordData := fogCoordData o; texCoordDataList := texCoordDataList o |}.
Definition set_colorData (v : ptr) (o : Geometry) : Geometry :=
  {| Geometry_Drawable := Geometry_Drawable o; primitives := primitives o;
     vertexData := vertexData o; normalData := normalData o;
     colorData := v; secondaryColorData := secondaryColorData o;
     fogCoordData := fogCoordData o; texCoordDataList := texCoordDataList o |}.
Definition set_secondaryColorData (v : ptr) (o : Geometry) : Geometry :=
  {| Geometry_Drawable := Geometry_Drawable o; primitives := primitives o;
     vertexData := vertexData o; normalData := normalData o;
     colorData := colorData o; secondaryColorData := v;
     fogCoordData := fogCoordData o; texCoordDataList := texCoordDataList o |}.
Definition set_fogCoordData (v : ptr) (o : Geometry) : Geometry :=
  {| Geometry_Drawable := Geometry_Drawable o; primitives := primitives o;
     vertexData := vertexData o; normalData := normalData o;
     colorData := colorData o; secondaryColorData := secondaryColorData o;
     fogCoordData := v; texCoordDataList := texCoordDataList o |}.
Definition over_texCoordDataList (f : list ptr -> list ptr) (o : Geometry) : Geometry :=
  {| Geometry_Drawable := Geometry_Drawable o; primitives := primitives o;
     vertexData := vertexData o; normalData := normalData o;
     colorData := colorData o; secondaryColorData := secondaryColorData o;
     fogCoordData := fogCoordData o; texCoordDataList := f (texCoordDataList o) |}.

Definition over_StateSet_Object (f : Object -> Object) (o : StateSet) : StateSet :=
  {| StateSet_Object := f (StateSet_Object o); modes := modes o;
     attributes := attributes o; textureModesList := textureModesList o;
     textureAttributesList := textureAttributesList o;
     renderingHint := renderingHint o |}.
Definition over_modes (f : list (Z * Z) -> list (Z * Z)) (o : StateSet) : StateSet :=
  {| StateSet_Object := StateSet_Object o; modes := f (modes o);
     attributes := attributes o; textureModesList := textureModesList o;
     textureAttributesList := textureAttributesList o;
     renderingHint := renderingHint o |}.
Definition over_attributes (f : list (ptr * Z) -> list (ptr * Z))
    (o : StateSet) : StateSet :=
  {| StateSet_Object := StateSet_Object o; modes := modes o;
     attributes := f (attributes o); textureModesList := textureModesList o;
     textureAttributesList := textureAttributesList o;
     renderingHint := renderingHint o |}.
Definition over_textureModesList (f : list (list (Z * Z)) -> list (list (Z * Z)))
    (o : StateSet) : StateSet :=
  {| StateSet_Object := StateSet_Object o; modes := modes o;
     attributes := attributes o; textureModesList := f (textureModesList o);
     textureAttributesList := textureAttributesList o;
     renderingHint := renderingHint o |}.
Definition over_textureAttributesList
    (f : list (list (ptr * Z)) -> list (list (ptr * Z))) (o : StateSet) : StateSet :=
  {| StateSet_Object := StateSet_Object o; modes := modes o;
     attributes := attributes o; textureModesList := textureModesList o;
     textureAttributesList := f (textureAttributesList o);
     renderingHint := renderingHint o |}.
Definition set_renderingHint (v : Z) (o : StateSet) : StateSet :=
  {| StateSet_Object := StateSet_Object o; modes := modes o;
     attributes := attributes o; textureModesList := textureModesList o;
     textureAttributesList := textureAttributesList o;
     renderingHint := v |}.

Definition set_frontAndBack {T} (v : bool) (p : Property T) : Property T :=
  {| frontAndBack := v; front := front p; back := back p |}.
Definition set_front {T} (v : T) (p : Property T) : Property T :=
  {| frontAndBack := frontAndBack p; front := v; back := back p |}.
Definition set_back {T} (v : T) (p : Property T) : Property T :=
  {| frontAndBack := frontAndBack p; front := front p; back := v |}.

Definition over_Material_Object (f : Object -> Object) (o : Material) : Material :=
  {| Material_Object := f (Material_Object o); ambient := ambient o;
     diffuse := diffuse o; specular := specular o; emission := emission o;
     shininess := shininess o |}.
Definition over_ambient (f : Property Vec4f -> Property Vec4f) (o : Material) : Material :=
  {| Material_Object := Material_Object o; ambient := f (ambient o);
     diffuse := diffuse o; specular := specular o; emission := emission o;
     shininess := shininess o |}.
Definition over_diffuse (f : Property Vec4f -> Property Vec4f) (o : Material) : Material :=
  {| Material_Object := Material_Object o; ambient := ambient o;
     diffuse := f (diffuse o); specular := specular o; emission := emission o;
     shininess := shininess o |}.
Definition over_specular (f : Property Vec4f -> Property Vec4f) (o : Material) : Material :=
  {| Material_Object := Material_Object o; ambient := ambient o;
     diffuse := diffuse o; specular := f (specular o); emission := emission o;
     shininess := shininess o |}.
Definition over_emission (f : Property Vec4f -> Property Vec4f) (o : Material) : Material :=
  {| Material_Object := Material_Object o; ambient := ambient o;
     diffuse := diffuse o; specular := specular o; emission := f (emission o);
     shininess := shininess o |}.
Definition over_shininess (f : Property Z -> Property Z) (o : Material) : Material :=
  {| Material_Object := Material_Object o; ambient := ambient o;
     diffuse := diffuse o; specular := specular o; emission := emission o;
     shininess := f (shininess o) |}.

Definition over_Texture_Object (f : Object -> Object) (o : Texture) : Texture :=
  {| Texture_Object := f (Texture_Object o); wrapS := wrapS o; wrapT := wrapT o;
     wrapR := wrapR o |}.
Definition set_wrapS (v : Z) (o : Texture) : Texture :=
  {| Texture_Object := Texture_Object o; wrapS := v; wrapT := wrapT o;
     wrapR := wrapR o |}.
Definition set_wrapT (v : Z) (o : Texture) : Texture :=
  {| Texture_Object := Texture_Object o; wrapS := wrapS o; wrapT := v;
     wrapR := wrapR o |}.
Definition set_wrapR (v : Z) (o : Texture) : Texture :=
  {| Texture_Object := Texture_Object o; wrapS := wrapS o; wrapT := wrapT o;
     wrapR := v |}.

Definition over_Texture2D_Texture (f : Texture -> Texture) (o : Texture2D) : Texture2D :=
  {| Texture2D_Texture := f (Texture2D_Texture o); image := image o |}.
Definition set_image (v : ptr) (o : Texture2D) : Texture2D :=
  {| Texture2D_Texture := Texture2D_Texture o; image := v |}.

Definition over_PrimitiveSet_Object (f : Object -> Object)
    (o : PrimitiveSet) : PrimitiveSet :=
  {| PrimitiveSet_Object := f (PrimitiveSet_Object o); mode := mode o;
     indexData := indexData o; indexCount := indexCount o |}.
Definition set_mode (v : Z) (o : PrimitiveSet) : PrimitiveSet :=
  {| PrimitiveSet_Object := PrimitiveSet_Object o; mode := v;
     indexData := indexData o; indexCount := indexCount o |}.
Definition set_indexData (v : bufptr) (o : PrimitiveSet) : PrimitiveSet :=
  {| PrimitiveSet_Object := PrimitiveSet_Object o; mode := mode o;
     indexData := v; indexCount := indexCount o |}.
Definition set_indexCount (v : Z) (o : PrimitiveSet) : PrimitiveSet :=
  {| PrimitiveSet_Object := PrimitiveSet_Object o; mode := mode o;
     indexData := indexData o; indexCount := v |}.

Definition over_Array_Object (f : Object -> Object) (o : Array) : Array :=
  {| Array_Object := f (Array_Object o); arrayType := arrayType o;
     elementSize := elementSize o; elementCount := elementCount o;
     elementData := elementData o; binding := binding o;
     normalize := normalize o |}.
Definition set_elementCount (v : Z) (o : Array) : Array :=
  {| Array_Object := Array_Object o; arrayType := arrayType o;
     elementSize := elementSize o; elementCount := v;
     elementData := elementData o; binding := binding o;
     normalize := normalize o |}.
Definition set_elementData (v : bufptr) (o : Array) : Array :=
  {| Array_Object := Array_Object o; arrayType := arrayType o;
     elementSize := elementSize o; elementCount := elementCount o;
     elementData := v; binding := binding o; normalize := normalize o |}.
Definition set_binding (v : Z) (o : Array) : Array :=
  {| Array_Object := Array_Object o; arrayType := arrayType o;
     elementSize := elementSize o; elementCount := elementCount o;
     elementData := elementData o; binding := v; normalize := normalize o |}.
Definition set_normalize (v : bool) (o : Array) : Array :=
  {| Array_Object := Array_Object o; arrayType := arrayType o;
     elementSize := elementSize o; elementCount := elementCount o;
     elementData := elementData o; binding := binding o; normalize := v |}.

Definition over_Image_Object (f : Object -> Object) (o : Image) : Image :=
  {| Image_Object := f (Image_Object o); data := data o;
     dataLength := dataLength o |}.
Definition set_data (v : bufptr) (o : Image) : Image :=
  {| Image_Object := Image_Object o; data := v; dataLength := dataLength o |}.
Definition set_dataLength (v : Z) (o : Image) : Image :=
  {| Image_Object := Image_Object o; data := data o; dataLength := v |}.

(** *** Base-class subobjects of an instance

    A field reader [readObjectFields<T>(T& obj)] works on the [T] subobject
    of whatever instance it is handed.  [as_T] is the upcast,
    [over_T f] applies [f] to that subobject; an instance without a [T]
    base is left alone. *)

Definition over_Object (f : Object -> Object) (i : Instance) : Instance :=
  match i with
  | IPagedLOD o =>
      IPagedLOD (over_PagedLOD_LOD (over_LOD_Group (over_Group_Node (over_Node_Object f))) o)
  | IGroup o => IGroup (over_Group_Node (over_Node_Object f) o)
  | IGeode o => IGeode (over_Geode_Node (over_Node_Object f) o)
  | IGeometry o => IGeometry (over_Geometry_Drawable (over_Node_Object f) o)
  | IStateSet o => IStateSet (over_StateSet_Object f o)
  | IMaterial o => IMaterial (over_Material_Object f o)
  | ITexture2D o => ITexture2D (over_Texture2D_Texture (over_Texture_Object f) o)
  | IDefaultUserDataContainer o => IDefaultUserDataContainer (f o)
  | IPrimitiveSet o => IPrimitiveSet (over_PrimitiveSet_Object f o)
  | IDrawElementsUInt o => IDrawElementsUInt (over_PrimitiveSet_Object f o)
  | IVec2Array o => IVec2Array (over_Array_Object f o)
  | IVec3Array o => IVec3Array (over_Array_Object f o)
  | IVec4Array o => IVec4Array (over_Array_Object f o)
  | IImage o => IImage (over_Image_Object f o)
  end.

Definition as_Object (i : Instance) : Object :=
  match i with
  | IPagedLOD o => Node_Object (Group_Node (LOD_Group (PagedLOD_LOD o)))
  | IGroup o => Node_Object (Group_Node o)
  | IGeode o => Node_Object (Geode_Node o)
  | IGeometry o => Node_Object (Geometry_Drawable o)
  | IStateSet o => StateSet_Object o
  | IMaterial o => Material_Object o
  | ITexture2D o => Texture_Object (Texture2D_Texture o)
  | IDefaultUserDataContainer o => o
  | IPrimitiveSet o | IDrawElementsUInt o => PrimitiveSet_Object o
  | IVec2Array o | IVec3Array o | IVec4Array o => Array_Object o
  | IImage o => Image_Object o
  end.

Definition over_Node (f : Node -> Node) (i : Instance) : Instance :=
  match i with
  | IPagedLOD o => IPagedLOD (over_PagedLOD_LOD (over_LOD_Group (over_Group_Node f)) o)
  | IGroup o => IGroup (over_Group_Node f o)
  | IGeode o => IGeode (over_Geode_Node f o)
  | IGeometry o => IGeometry (over_Geometry_Drawable f o)
  | _ => i
  end.

Definition as_Node (i : Instance) : option Node :=
  match i with
  | IPagedLOD o => Some (Group_Node (LOD_Group (PagedLOD_LOD o)))
  | IGroup o => Some (Group_Node o)
  | IGeode o => Some (Geode_Node o)
  | IGeometry o => Some (Geometry_Drawable o)
  | _ => None
  end.

Definition over_Group (f : Group -> Group) (i : Instance) : Instance :=
  match i with
  | IPagedLOD o => IPagedLOD (over_PagedLOD_LOD (over_LOD_Group f) o)
  | IGroup o => IGroup (f o)
  | _ => i
  end.

Definition as_Group (i : Instance) : option Group :=
  match i with
  | IPagedLOD o => Some (LOD_Group (PagedLOD_LOD o))
  | IGroup o => Some o
  | _ => None
  end.

Definition over_LOD (f : LOD -> LOD) (i : Instance) : Instance :=
  match i with IPagedLOD o => IPagedLOD (over_PagedLOD_LOD f o) | _ => i end.

Definition over_PagedLOD (f : PagedLOD -> PagedLOD) (i : Instance) : Instance :=
  match i with IPagedLOD o => IPagedLOD (f o) | _ => i end.

Definition as_PagedLOD (i : Instance) : option PagedLOD :=
  match i with IPagedLOD o => Some o | _ => None end.

Definition over_Geode (f : Geode -> Geode) (i : Instance) : Instance :=
  match i with IGeode o => IGeode (f o) | _ => i end.

Definition as_Geode (i : Instance) : option Geode :=
  match i with IGeode o => Some o | _ => None end.

Definition over_Geometry (f : Geometry -> Geometry) (i : Instance) : Instance :=
  match i with IGeometry o => IGeometry (f o) | _ => i end.

Definition as_Geometry (i : Instance) : option Geometry :=
  match i with IGeometry o => Some o | _ => None end.

Definition over_StateSet (f : StateSet -> StateSet) (i : Instance) : Instance :=
  match i with IStateSet o => IStateSet (f o) | _ => i end.

Definition over_Material (f : Material -> Material) (i : Instance) : Instance :=
  match i with IMaterial o => IMaterial (f o) | _ => i end.

Definition over_Texture (f : Texture -> Texture) (i : Instance) : Instance :=
  match i with ITexture2D o => ITexture2D (over_Texture2D_Texture f o) | _ => i end.

Definition over_Texture2D (f : Texture2D -> Texture2D) (i : Instance) : Instance :=
  match i with ITexture2D o => ITexture2D (f o) | _ => i end.

Definition as_Texture2D (i : Instance) : option Texture2D :=
  match i with ITexture2D o => Some o | _ => None end.

Definition over_PrimitiveSet (f : PrimitiveSet -> PrimitiveSet) (i : Instance) : Instance :=
  match i with
  | IPrimitiveSet o => IPrimitiveSet (f o)
  | IDrawElementsUInt o => IDrawElementsUInt (f o)
  | _ => i
  end.

Definition as_PrimitiveSet (i : Instance) : option PrimitiveSet :=
  match i with IPrimitiveSet o | IDrawElementsUInt o => Some o | _ => None end.

Definition over_Array (f : Array -> Array) (i : Instance) : Instance :=
  match i with
  | IVec2Array o => IVec2Array (f o)
  | IVec3Array o => IVec3Array (f o)
  | IVec4Array o => IVec4Array (f o)
  | _ => i
  end.

Definition as_Array (i : Instance) : option Array :=
  match i with IVec2Array o | IVec3Array o | IVec4Array o => Some o | _ => None end.

Definition over_Image (f : Image -> Image) (i : Instance) : Instance :=
  match i with IImage o => IImage (f o) | _ => i end.

Definition as_Image (i : Instance) : option Image :=
  match i with IImage o => Some o | _ => None end.

(** The tests behind [std::dynamic_pointer_cast<T>]. *)
Definition is_Node (i : Instance) : bool := bool_decide (is_Some (as_Node i)).
Definition is_Drawable (i : Instance) : bool :=
  match i with IGeometry _ => true | _ => false end.
Definition is_StateSet (i : Instance) : bool :=
  match i with IStateSet _ => true | _ => false end.
Definition is_StateAttribute (i : Instance) : bool :=
  match i with IMaterial _ | ITexture2D _ => true | _ => false end.
Definition is_PrimitiveSet (i : Instance) : bool :=
  bool_decide (is_Some (as_PrimitiveSet i)).
Definition is_Array (i : Instance) : bool := bool_decide (is_Some (as_Array i)).

(** ** The reader state ([details::Reader]) *)

(** [Reader::Error]: a message and the offset at which it was raised. *)
Record Error := { offset : Z; message : string }.

(** The members of [Reader], and the [store] in which [make_shared]
    allocates.  [_length] is the length of [_buffer]. *)
Record Reader := {
  _buffer : list byte;
  _pos : Z;
  _version : Z;
  _useBinaryBrackets : bool;
  _objects : gmap Z nat;
  _images : gmap Z nat;
  _arrays : gmap Z nat;
  store : list Instance }.

Definition _length (r : Reader) : Z := Z.of_nat (length (_buffer r)).

(** [Reader(buffer, length)]. *)
Definition Reader_new (buffer : list byte) : Reader :=
  {| _buffer := buffer; _pos := 0; _version := 0; _useBinaryBrackets := false;
     _objects := ∅; _images := ∅; _arrays := ∅; store := [] |}.

Definition with_pos (v : Z) (r : Reader) : Reader :=
  {| _buffer := _buffer r; _pos := v; _version := _version r;
     _useBinaryBrackets := _useBinaryBrackets r; _objects := _objects r;
     _images := _images r; _arrays := _arrays r; store := store r |}.
Definition with_version (v : Z) (r : Reader) : Reader :=
  {| _buffer := _buffer r; _pos := _pos r; _version := v;
     _useBinaryBrackets := _useBinaryBrackets r; _objects := _objects r;
     _images := _images r; _arrays := _arrays r; store := store r |}.
Definition with_useBinaryBrackets (v : bool) (r : Reader) : Reader :=
  {| _buffer := _buffer r; _pos := _pos r; _version := _version r;
     _useBinaryBrackets := v; _objects := _objects r;
     _images := _images r; _arrays := _arrays r; store := store r |}.
Definition with_objects (v : gmap Z nat) (r : Reader) : Reader :=
  {| _buffer := _buffer r; _pos := _pos r; _version := _version r;
     _useBinaryBrackets := _useBinaryBrackets r; _objects := v;
     _images := _images r; _arrays := _arrays r; store := store r |}.
Definition with_images (v : gmap Z nat) (r : Reader) : Reader :=
  {| _buffer := _buffer r; _pos := _pos r; _version := _version r;
     _useBinaryBrackets := _useBinaryBrackets r; _objects := _objects r;
     _images := v; _arrays := _arrays r; store := store r |}.
Definition with_arrays (v : gmap Z nat) (r : Reader) : Reader :=
  {| _buffer := _buffer r; _pos := _pos r; _version := _version r;
     _useBinaryBrackets := _useBinaryBrackets r; _objects := _objects r;
     _images := _images r; _arrays := v; store := store r |}.
Definition with_store (v : list Instance) (r : Reader) : Reader :=
  {| _buffer := _buffer r; _pos := _pos r; _version := _version r;
     _useBinaryBrackets := _useBinaryBrackets r; _objects := _objects r;
     _images := _images r; _arrays := _arrays r; store := v |}.

(** ** The reader monad *)

(** A member function either returns, throws an [Error], or the model
    runs out of fuel. *)
Inductive outcome (A : Type) :=
| Ok (a : A) (r : Reader)
| Throw (e : Error) (r : Reader)
| OutOfFuel.
Arguments Ok {A}.
Arguments Throw {A}.
Arguments OutOfFuel {A}.

Definition M (A : Type) : Type := Reader -> outcome A.

Definition ret {A} (a : A) : M A := fun r => Ok a r.

Definition bind {A B} (m : M A) (f : A -> M B) : M B :=
  fun r =>
    match m r with
    | Ok a r' => f a r'
    | Throw e r' => Throw e r'
    | OutOfFuel => OutOfFuel
    end.

Declare Scope reader_scope.
Delimit Scope reader_scope with reader.
Bind Scope reader_scope with M.
Notation "x ← y ; z" := (bind y (fun x => z))
  (at level 20, y at level 100, z at level 200, only parsing) : reader_scope.
Notation "x ;; z" := (bind x (fun _ => z))
  (at level 100, z at level 200, only parsing, right associativity) : reader_scope.
Open Scope reader_scope.

Definition fmap_M {A B} (f : A -> B) (m : M A) : M B := x ← m; ret (f x).

Definition get : M Reader := fun r => Ok r r.
Definition gets {A} (f : Reader -> A) : M A := fun r => Ok (f r) r.
Definition modify (f : Reader -> Reader) : M unit := fun r => Ok tt (f r).

(** [throw Error(_pos, msg)]. *)
Definition throw {A} (msg : string) : M A :=
  fun r => Throw {| offset := _pos r; message := msg |} r.

Definition when (b : bool) (m : M unit) : M unit := if b then m else ret tt.

(** [for (unsigned int i = 0; i < size; ++i) body]. *)
Fixpoint for_from (n : nat) (i : Z) (body : Z -> M unit) : M unit :=
  match n with
  | O => ret tt
  | S n' => body i;; for_from n' (i + 1) body
  end.
Definition for_ (size : Z) (body : Z -> M unit) : M unit :=
  for_from (Z.to_nat size) 0 body.

(** *** The store *)

(** [std::make_shared<T>()]: the new instance gets the next address. *)
Definition make_shared (i : Instance) : M nat :=
  fun r => Ok (length (store r)) (with_store (store r ++ [i]) r).

(** An assignment through the reference [obj]: [f] is applied to the
    instance at address [a]. *)
Definition assign (a : nat) (f : Instance -> Instance) : M unit :=
  modify (fun r => with_store (alter f a (store r)) r).

(** Reading members of [obj]. *)
Definition load_Array (a : nat) : M Array :=
  gets (fun r => default Vec4Array0 (store r !! a ≫= as_Array)).
Definition load_PrimitiveSet (a : nat) : M PrimitiveSet :=
  gets (fun r => default PrimitiveSet0 (store r !! a ≫= as_PrimitiveSet)).

(** [std::dynamic_pointer_cast<T>(p)], [is_T] testing the dynamic type. *)
Definition dynamic_pointer_cast (is_T : Instance -> bool) (p : ptr) : M ptr :=
  gets (fun r =>
    match p with
    | Some a =>
        match store r !! a with
        | Some i => if is_T i then Some a else None
        | None => None
        end
    | None => None
    end).

(** [v.resize(n)] and [v[i] = x] on a [std::vector]. *)
Definition vector_resize {A} (n : Z) (d : A) (v : list A) : list A :=
  resize (Z.to_nat n) d v.
Definition vector_set {A} (i : Z) (x : A) (v : list A) : list A :=
  <[Z.to_nat i := x]> v.
Definition vector_over {A} (i : Z) (f : A -> A) (v : list A) : list A :=
  alter f (Z.to_nat i) v.

(** ** The cursor *)

Definition ended (r : Reader) : bool := _pos r =? _length r.

(** The [n] bytes at the cursor. *)
Definition bytes_at (r : Reader) (n : Z) : list byte :=
  take (Z.to_nat n) (drop (Z.to_nat (_pos r)) (_buffer r)).

(** [_pos += n]. *)
Definition advance (n : Z) : M unit :=
  modify (fun r => with_pos (size_t (_pos r + n)) r).

(** The bounds check shared by every [read]. *)
Definition check (n : Z) : M unit :=
  fun r =>
    if size_t (_pos r + n) >? _length r
    then throw "read beyond data length" r
    else Ok tt r.

(** The copy of a [T] of [n] bytes out of the buffer at [_buffer + _pos],
    followed by [_pos += sizeof(T)]. *)
Definition read_raw (n : Z) : M (list byte) :=
  r ← get;
  advance n;;
  ret (bytes_at r n).

(** [read<T>()] for a [T] of [n] bytes: the raw little-endian value. *)
Definition read (n : Z) : M Z :=
  check n;;
  fmap_M le_val (read_raw n).

Definition read_uint : M Z := read 4.
Definition read_int : M Z := fmap_M to_int (read 4).
Definition read_longlong : M Z := fmap_M to_longlong (read 8).
Definition read_float : M Z := read 4.
Definition read_double : M Z := read 8.

(** An [enum class] is read as its underlying [int]. *)
Definition read_enum : M Z := read_int.

(** [read<Vec3d>()] and [read<Vec4f>()]: one check for the whole struct. *)
Definition read_Vec3d : M Vec3d :=
  check 24;;
  bs ← read_raw 24;
  ret {| v3_x := le_val (take 8 bs); v3_y := le_val (take 8 (drop 8 bs));
          v3_z := le_val (drop 16 bs) |}.

Definition read_Vec4f : M Vec4f :=
  check 16;;
  bs ← read_raw 16;
  ret {| v4_x := le_val (take 4 bs); v4_y := le_val (take 4 (drop 4 bs));
          v4_z := le_val (take 4 (drop 8 bs)); v4_w := le_val (drop 12 bs) |}.

(** [read(T* value, size_t count)] for a [T] of [n] bytes: one check, then
    [count] copies. *)
Fixpoint read_each (n : Z) (count : nat) : M (list (list byte)) :=
  match count with
  | O => ret []
  | S c => v ← read_raw n; vs ← read_each n c; ret (v :: vs)
  end.
Definition read_n (n count : Z) : M (list (list byte)) :=
  check (size_t (n * count));;
  read_each n (Z.to_nat count).

(** [read<bool>()]. *)
Definition read_bool : M bool :=
  check 1;;
  r ← get;
  let value := le_val (bytes_at r 1) in
  if negb (value =? 1) && negb (value =? 0)
  then throw "invalid bool value"
  else advance 1;; ret (value =? 1).

(** [read<std::string>()]. *)
Definition read_string : M string :=
  size ← read_int;
  if size <? 0
  then throw "invalid string length"
  else
    s ← read_n 1 size;
    ret (string_of_list_byte (concat s)).

(** ** Brackets and header *)

Definition ReadBeginBracket : M unit :=
  r ← get;
  if _useBinaryBrackets r
  then if _version r >? 148 then advance 8 else advance 4
  else ret tt.

Definition ReadEndBracket : M unit := ret tt.

Definition to_string (z : Z) : string := pretty z.

Definition readHeader : M unit :=
  magic ← read_longlong;
  (if negb (magic =? 0x1AFB45456C910EA1) then throw "invalid data magic" else ret tt);;
  type ← read_uint;
  (if type =? 0 then throw ("invalid data type: " ++ to_string type) else ret tt);;
  version ← read_uint;
  modify (with_version version);;
  attributes ← read_uint;
  (if negb (Z.land attributes 0x01 =? 0) || negb (Z.land attributes 0x02 =? 0)
   then throw ("unsupported attribute: " ++ to_string type)
   else ret tt);;
  modify (with_useBinaryBrackets (negb (Z.land attributes 0x04 =? 0)));;
  compressorName ← read_string;
  if negb (String.eqb compressorName "0")
  then throw ("unsupported compressor: " ++ compressorName)
  else ret tt.

(** A loop that carries a local variable. *)
Fixpoint for_acc_from {A} (n : nat) (i : Z) (acc : A) (body : Z -> A -> M A) : M A :=
  match n with
  | O => ret acc
  | S n' => acc' ← body i acc; for_acc_from n' (i + 1) acc' body
  end.
Definition for_acc {A} (size : Z) (acc : A) (body : Z -> A -> M A) : M A :=
  for_acc_from (Z.to_nat size) 0 acc body.

(** ** The inline array reader *)

Definition ReadArray : M ptr :=
  hasArray ← read_bool;
  if hasArray then
    uniqueId ← read_uint;
    r ← get;
    match _arrays r !! uniqueId with
    | Some a => ret (Some a)
    | None =>
        type ← read_int;
        arr ← (if type =? 15 then make_shared (IVec2Array Vec2Array0)
               else if type =? 16 then make_shared (IVec3Array Vec3Array0)
               else if type =? 17 then make_shared (IVec4Array Vec4Array0)
               else throw ("unsupported array type: " ++ to_string type));
        assign arr (over_Object (set_uniqueId uniqueId));;
        modify (fun r => with_arrays (<[uniqueId := arr]> (_arrays r)) r);;
        elementCount ← read_uint;
        assign arr (over_Array (set_elementCount elementCount));;
        when (elementCount >? 0)
          (pos ← gets _pos; assign arr (over_Array (set_elementData (Some pos))));;
        o ← load_Array arr;
        advance (uint (elementCount * elementSize o));;
        hasIndices ← read_bool;
        if hasIndices then throw "unsupported feature: array with indices"
        else
          b ← read_enum;
          assign arr (over_Array (set_binding b));;
          n ← read_uint;
          assign arr (over_Array (set_normalize (negb (n =? 0))));;
          ret (Some arr)
    end
  else ret None.

(** ** Field readers and dispatcher

    [readObject] and the field readers call each other.  The field readers
    are written over the dispatcher they call, a section variable; the knot
    is tied below. *)

Section FieldReaders.

Variable readObject : M ptr.

Definition readObjectIfTrue : M ptr :=
  b ← read_bool;
  if b then readObject else ret None.

Definition readObjectFields_Object (obj : nat) : M unit :=
  name ← read_string;
  read_uint;;
  version ← gets _version;
  if version <? 77 then readObject;; ret tt
  else readObjectIfTrue;; ret tt.

Definition readObjectFields_Node (obj : nat) : M unit :=
  b ← read_bool;
  when b
    (ReadBeginBracket;;
     read_double;; read_double;; read_double;; read_float;;
     ReadEndBracket);;
  readObjectIfTrue;;
  readObjectIfTrue;;
  readObjectIfTrue;;
  readObjectIfTrue;;
  read_bool;;
  read_uint;;
  version ← gets _version;
  b ← (if version <? 77 then read_bool else ret false);
  when b
    (size ← read_uint;
     ReadBeginBracket;;
     for_ size (fun i => read_string;; ret tt);;
     ReadEndBracket);;
  o ← readObjectIfTrue;
  c ← dynamic_pointer_cast is_StateSet o;
  assign obj (over_Node (set_stateSet c)).

Definition readObjectFields_Group (obj : nat) : M unit :=
  b ← read_bool;
  when b
    (size ← read_uint;
     assign obj (over_Group (over_children (vector_resize size None)));;
     ReadBeginBracket;;
     for_ size (fun i =>
       o ← readObject;
       c ← dynamic_pointer_cast is_Node o;
       assign obj (over_Group (over_children (vector_set i c))));;
     ReadEndBracket).

Definition readObjectFields_LOD (obj : nat) : M unit :=
  cm ← read_int;
  assign obj (over_LOD (set_centerMode cm));;
  b ← read_bool;
  when b
    (c ← read_Vec3d;
     assign obj (over_LOD (set_userDefinedCenter c));;
     r ← read_double;
     assign obj (over_LOD (set_userDefinedRadius r)));;
  rangeMode ← read_uint;
  b ← read_bool;
  when b
    (size ← read_uint;
     assign obj (over_LOD (over_rangeList
       (vector_resize size {| range_min := 0; range_max := 0 |})));;
     ReadBeginBracket;;
     for_ size (fun i =>
       min ← read_float;
       max ← read_float;
       assign obj (over_LOD (over_rangeList
         (vector_set i {| range_min := min; range_max := max |}))));;
     ReadEndBracket).

(** The block of [readObjectFields<PagedLOD>] under its RangedDataList
    flag. *)
Definition readObjectFields_PagedLOD_RangeDataList (obj : nat) : M unit :=
  fsize ← read_uint;
  assign obj (over_PagedLOD (over_rangeDataList (vector_resize fsize RangeData0)));;
  ReadBeginBracket;;
  for_ fsize (fun i =>
    s ← read_string;
    assign obj (over_PagedLOD (over_rangeDataList (vector_over i (set_filename s)))));;
  ReadEndBracket;;
  psize ← read_uint;
  when (psize >? fsize)
    (assign obj (over_PagedLOD (over_rangeDataList (vector_resize psize RangeData0))));;
  ReadBeginBracket;;
  for_ psize (fun i =>
    po ← read_float;
    assign obj (over_PagedLOD (over_rangeDataList (vector_over i (set_priorityOffset po))));;
    ps ← read_float;
    assign obj (over_PagedLOD (over_rangeDataList (vector_over i (set_priorityScale ps)))));;
  ReadEndBracket.

(** The block of [readObjectFields<PagedLOD>] under its Children flag. *)
Definition readObjectFields_PagedLOD_Children (obj : nat) : M unit :=
  size ← read_uint;
  assign obj (over_Group (over_children (vector_resize size None)));;
  ReadBeginBracket;;
  for_ size (fun i =>
    o ← readObject;
    c ← dynamic_pointer_cast is_Node o;
    assign obj (over_Group (over_children (vector_set i c))));;
  ReadEndBracket.

Definition readObjectFields_PagedLOD (obj : nat) : M unit :=
  b ← read_bool;
  when b
    (hasDatabasePath ← read_bool;
     when hasDatabasePath (read_string;; ret tt));;
  version ← gets _version;
  when (version <? 70) (read_uint;; ret tt);;
  read_uint;;
  read_bool;;
  b ← read_bool;
  when b (readObjectFields_PagedLOD_RangeDataList obj);;
  b ← read_bool;
  when b (readObjectFields_PagedLOD_Children obj).

Definition readObjectFields_Geode (obj : nat) : M unit :=
  b ← read_bool;
  when b
    (size ← read_uint;
     assign obj (over_Geode (over_drawables (vector_resize size None)));;
     ReadBeginBracket;;
     for_ size (fun i =>
       o ← readObject;
       c ← dynamic_pointer_cast is_Drawable o;
       assign obj (over_Geode (over_drawables (vector_set i c))));;
     ReadEndBracket).

Definition readObjectFields_Drawable (obj : nat) : M unit :=
  o ← readObjectIfTrue;
  c ← dynamic_pointer_cast is_StateSet o;
  assign obj (over_Node (set_stateSet c));;
  b ← read_bool;
  when b (read_n 8 6;; ret tt);;
  readObjectIfTrue;;
  readObjectIfTrue;;
  read_bool;;
  read_bool;;
  read_bool;;
  readObjectIfTrue;;
  readObjectIfTrue;;
  readObjectIfTrue;;
  readObjectIfTrue;;
  ret tt.

Definition readObjectFields_PrimitiveSet (obj : nat) : M unit :=
  read_int;;
  m ← read_uint;
  assign obj (over_PrimitiveSet (set_mode m));;
  c ← read_uint;
  assign obj (over_PrimitiveSet (set_indexCount c));;
  pos ← gets _pos;
  assign obj (over_PrimitiveSet (set_indexData (Some pos))).

Definition readObjectFields_DrawElementsUInt (obj : nat) : M unit :=
  o ← load_PrimitiveSet obj;
  advance (size_t (indexCount o * 4)).

(** An optional inline array of the legacy Geometry layer whose result is
    dropped. *)
Definition skip_inline_array : M unit :=
  b ← read_bool;
  when b (ReadBeginBracket;; ReadArray;; ReadEndBracket).

Definition readObjectFields_Geometry (obj : nat) : M unit :=
  size ← read_uint;
  version ← gets _version;
  (if version <? 112 then
     ReadBeginBracket;;
     assign obj (over_Geometry (over_primitives (vector_resize size None)));;
     for_ size (fun p =>
       prim ← make_shared (IPrimitiveSet PrimitiveSet0);
       read_uint;;
       m ← read_uint;
       assign prim (over_PrimitiveSet (set_mode m));;
       indexCount ← read_uint;
       assign prim (over_PrimitiveSet (set_indexCount indexCount));;
       when (indexCount >? 0)
         (pos ← gets _pos;
          assign prim (over_PrimitiveSet (set_indexData (Some pos)));;
          advance (size_t (4 * indexCount)));;
       assign obj (over_Geometry (over_primitives (vector_set p (Some prim)))));;
     ReadEndBracket
   else
     assign obj (over_Geometry (over_primitives (vector_resize size None)));;
     for_ size (fun p =>
       o ← readObject;
       c ← dynamic_pointer_cast is_PrimitiveSet o;
       assign obj (over_Geometry (over_primitives (vector_set p c)))));;
  if version <? 112 then
    b ← read_bool;
    when b
      (ReadBeginBracket;;
       a ← ReadArray;
       assign obj (over_Geometry (set_vertexData a));;
       ReadEndBracket);;
    skip_inline_array;;
    skip_inline_array;;
    skip_inline_array;;
    skip_inline_array;;
    b ← read_bool;
    when b
      (size ← read_uint;
       assign obj (over_Geometry (over_texCoordDataList (vector_resize size None)));;
       ReadBeginBracket;;
       for_ size (fun i =>
         ReadBeginBracket;;
         a ← ReadArray;
         assign obj (over_Geometry (over_texCoordDataList (vector_set i a)));;
         ReadEndBracket);;
       ReadEndBracket);;
    b ← read_bool;
    when b
      (size ← read_uint;
       assign obj (over_Geometry (over_texCoordDataList (vector_resize size None)));;
       ReadBeginBracket;;
       for_ size (fun i => ReadBeginBracket;; ReadArray;; ReadEndBracket);;
       ReadEndBracket);;
    read_bool;;
    ret tt
  else
    o ← readObjectIfTrue;
    c ← dynamic_pointer_cast is_Array o;
    assign obj (over_Geometry (set_vertexData c));;
    o ← readObjectIfTrue;
    c ← dynamic_pointer_cast is_Array o;
    assign obj (over_Geometry (set_normalData c));;
    o ← readObjectIfTrue;
    c ← dynamic_pointer_cast is_Array o;
    assign obj (over_Geometry (set_colorData c));;
    o ← readObjectIfTrue;
    c ← dynamic_pointer_cast is_Array o;
    assign obj (over_Geometry (set_secondaryColorData c));;
    o ← readObjectIfTrue;
    c ← dynamic_pointer_cast is_Array o;
    assign obj (over_Geometry (set_fogCoordData c));;
    size ← read_uint;
    assign obj (over_Geometry (over_texCoordDataList (vector_resize size None)));;
    for_ size (fun i =>
      o ← readObject;
      c ← dynamic_pointer_cast is_Array o;
      assign obj (over_Geometry (over_texCoordDataList (vector_set i c))));;
    size ← read_uint;
    for_ size (fun i =>
      o ← readObject;
      dynamic_pointer_cast is_Array o;;
      ret tt).

(** A list of [count] (mode, value) pairs appended to [l]. *)
Definition read_modes (size : Z) (l : list (Z * Z)) : M (list (Z * Z)) :=
  for_acc size l (fun i modes =>
    m ← read_uint;
    value ← read_uint;
    ret (modes ++ [(m, value)])).

(** A list of [count] (attribute, value) pairs appended to [l]; a null
    attribute is not appended. *)
Definition read_attributes (size : Z) (l : list (ptr * Z)) : M (list (ptr * Z)) :=
  for_acc size l (fun i attributes =>
    o ← readObject;
    attribute ← dynamic_pointer_cast is_StateAttribute o;
    value ← read_uint;
    ret (match attribute with
         | Some _ => attributes ++ [(attribute, value)]
         | None => attributes
         end)).

Definition readObjectFields_StateSet (obj : nat) : M unit :=
  b ← read_bool;
  when b
    (size ← read_uint;
     ReadBeginBracket;;
     for_ size (fun i =>
       m ← read_uint;
       value ← read_uint;
       assign obj (over_StateSet (over_modes (fun l => l ++ [(m, value)]))));;
     ReadEndBracket);;
  b ← read_bool;
  when b
    (size ← read_uint;
     ReadBeginBracket;;
     for_ size (fun i =>
       o ← readObject;
       attribute ← dynamic_pointer_cast is_StateAttribute o;
       value ← read_uint;
       match attribute with
       | Some _ =>
           assign obj (over_StateSet (over_attributes (fun l => l ++ [(attribute, value)])))
       | None => ret tt
       end);;
     ReadEndBracket);;
  b ← read_bool;
  when b
    (size ← read_uint;
     ReadBeginBracket;;
     for_ size (fun i =>
       size_ ← read_uint;
       ReadBeginBracket;;
       ms ← read_modes size_ [];
       ReadEndBracket;;
       assign obj (over_StateSet (over_textureModesList (fun l => l ++ [ms]))));;
     ReadEndBracket);;
  b ← read_bool;
  when b
    (size ← read_uint;
     ReadBeginBracket;;
     for_ size (fun i =>
       size_ ← read_uint;
       ReadBeginBracket;;
       attrs ← read_attributes size_ [];
       ReadEndBracket;;
       assign obj (over_StateSet (over_textureAttributesList (fun l => l ++ [attrs]))));;
     ReadEndBracket);;
  b ← read_bool;
  when b
    (size ← read_uint;
     ReadBeginBracket;;
     for_ size (fun i => readObject;; read_uint;; ret tt);;
     ReadEndBracket);;
  h ← read_enum;
  assign obj (over_StateSet (set_renderingHint h));;
  read_uint;;
  read_uint;;
  read_string;;
  read_bool;;
  readObjectIfTrue;;
  readObjectIfTrue;;
  version ← gets _version;
  b ← (if version >=? 151 then read_bool else ret false);
  when b
    (size ← read_uint;
     ReadBeginBracket;;
     for_ size (fun i => read_string;; read_string;; read_int;; ret tt);;
     ReadEndBracket).

Definition readObjectFields_StateAttribute (obj : nat) : M unit :=
  readObjectIfTrue;;
  readObjectIfTrue;;
  ret tt.

(** One [Property<Vec4f>] of the Material layer, [over] selecting it. *)
Definition read_Property_Vec4f (obj : nat)
    (over : (Property Vec4f -> Property Vec4f) -> Material -> Material) : M unit :=
  b ← read_bool;
  when b
    (fb ← read_bool;
     assign obj (over_Material (over (set_frontAndBack fb)));;
     f ← read_Vec4f;
     assign obj (over_Material (over (set_front f)));;
     k ← read_Vec4f;
     assign obj (over_Material (over (set_back k)))).

Definition readObjectFields_Material (obj : nat) : M unit :=
  read_uint;;
  read_Property_Vec4f obj over_ambient;;
  read_Property_Vec4f obj over_diffuse;;
  read_Property_Vec4f obj over_specular;;
  read_Property_Vec4f obj over_emission;;
  b ← read_bool;
  when b
    (fb ← read_bool;
     assign obj (over_Material (over_shininess (set_frontAndBack fb)));;
     f ← read_float;
     assign obj (over_Material (over_shininess (set_front f)));;
     k ← read_float;
     assign obj (over_Material (over_shininess (set_back k)))).

(** An optional [unsigned int] whose value is dropped. *)
Definition skip_optional_uint : M unit :=
  b ← read_bool;
  when b (read_uint;; ret tt).

Definition readObjectFields_Texture (obj : nat) : M unit :=
  b ← read_bool;
  when b (w ← read_enum; assign obj (over_Texture (set_wrapS w)));;
  b ← read_bool;
  when b (w ← read_enum; assign obj (over_Texture (set_wrapT w)));;
  b ← read_bool;
  when b (w ← read_enum; assign obj (over_Texture (set_wrapR w)));;
  skip_optional_uint;;
  skip_optional_uint;;
  read_float;;
  read_bool;;
  read_bool;;
  read_bool;;
  read_bool;;
  read_n 8 4;;
  read_int;;
  read_int;;
  skip_optional_uint;;
  skip_optional_uint;;
  skip_optional_uint;;
  read_bool;;
  read_uint;;
  read_uint;;
  read_float;;
  version ← gets _version;
  b ← (if (version >=? 95) && (version <? 154) then read_bool else ret false);
  when b (read_n 4 6;; ret tt);;
  b ← (if version >=? 98 then read_bool else ret false);
  when b (read_string;; ret tt);;
  when (version >=? 155) (read_float;; read_float;; read_float;; ret tt).

Definition readImage : M ptr :=
  b ← read_bool;
  if b then
    version ← gets _version;
    when (version >? 94) (read_string;; ret tt);;
    uniqueId ← read_uint;
    r ← get;
    match _images r !! uniqueId with
    | Some a => ret (Some a)
    | None =>
        image ← make_shared (IImage Image0);
        assign image (over_Object (set_uniqueId uniqueId));;
        modify (fun r => with_images (<[uniqueId := image]> (_images r)) r);;
        name ← read_string;
        writeHint ← read_uint;
        decision ← read_uint;
        (if decision =? 1 then
           size ← read_uint;
           pos ← gets _pos;
           assign image (over_Image (set_data (Some pos)));;
           assign image (over_Image (set_dataLength size));;
           advance size
         else throw ("invalid image decision: " ++ to_string decision));;
        readObjectFields_Object image;;
        ret (Some image)
    end
  else ret None.

Definition readObjectFields_Texture2D (obj : nat) : M unit :=
  i ← readImage;
  assign obj (over_Texture2D (set_image i));;
  read_uint;;
  read_uint;;
  ret tt.

Definition readObjectFields_DefaultUserDataContainer (obj : nat) : M unit :=
  b ← read_bool;
  when b (ReadBeginBracket;; readObject;; ReadEndBracket);;
  b ← read_bool;
  when b
    (size ← read_uint;
     ReadBeginBracket;;
     for_ size (fun i => read_string;; ret tt);;
     ReadEndBracket);;
  b ← read_bool;
  when b
    (size ← read_uint;
     ReadBeginBracket;;
     for_ size (fun i => readObject;; ret tt);;
     ReadEndBracket).

Definition readObjectFields_Array (obj : nat) : M unit :=
  b ← read_enum;
  assign obj (over_Array (set_binding b));;
  n ← read_bool;
  assign obj (over_Array (set_normalize n));;
  read_bool;;
  c ← read_uint;
  assign obj (over_Array (set_elementCount c));;
  pos ← gets _pos;
  assign obj (over_Array (set_elementData (Some pos))).

Definition readObjectFields_Vec2Array (obj : nat) : M unit :=
  o ← load_Array obj;
  advance (size_t (size_t (elementCount o * 4) * 2)).

Definition readObjectFields_Vec3Array (obj : nat) : M unit :=
  o ← load_Array obj;
  advance (size_t (size_t (elementCount o * 4) * 3)).

(** *** [readObjectData<T>]: allocate, then run the chain of layers *)

Definition readObjectData_PagedLOD : M ptr :=
  obj ← make_shared (IPagedLOD PagedLOD0);
  readObjectFields_Object obj;;
  readObjectFields_Node obj;;
  readObjectFields_LOD obj;;
  readObjectFields_PagedLOD obj;;
  ret (Some obj).

Definition readObjectData_Group : M ptr :=
  obj ← make_shared (IGroup Group0);
  readObjectFields_Object obj;;
  readObjectFields_Node obj;;
  readObjectFields_Group obj;;
  ret (Some obj).

Definition readObjectData_Geode : M ptr :=
  obj ← make_shared (IGeode Geode0);
  readObjectFields_Object obj;;
  readObjectFields_Node obj;;
  readObjectFields_Geode obj;;
  ret (Some obj).

Definition readObjectData_Geometry : M ptr :=
  obj ← make_shared (IGeometry Geometry0);
  readObjectFields_Object obj;;
  version ← gets _version;
  when (version >=? 154) (readObjectFields_Node obj);;
  readObjectFields_Drawable obj;;
  readObjectFields_Geometry obj;;
  ret (Some obj).

Definition readObjectData_DrawElementsUInt : M ptr :=
  obj ← make_shared (IDrawElementsUInt PrimitiveSet0);
  readObjectFields_Object obj;;
  readObjectFields_PrimitiveSet obj;;
  readObjectFields_DrawElementsUInt obj;;
  ret (Some obj).

Definition readObjectData_StateSet : M ptr :=
  obj ← make_shared (IStateSet StateSet0);
  readObjectFields_Object obj;;
  readObjectFields_StateSet obj;;
  ret (Some obj).

Definition readObjectData_Material : M ptr :=
  obj ← make_shared (IMaterial Material0);
  readObjectFields_Object obj;;
  readObjectFields_StateAttribute obj;;
  readObjectFields_Material obj;;
  ret (Some obj).

Definition readObjectData_Texture2D : M ptr :=
  obj ← make_shared (ITexture2D Texture2D0);
  readObjectFields_Object obj;;
  readObjectFields_StateAttribute obj;;
  readObjectFields_Texture obj;;
  readObjectFields_Texture2D obj;;
  ret (Some obj).

Definition readObjectData_DefaultUserDataContainer : M ptr :=
  obj ← make_shared (IDefaultUserDataContainer Object0);
  readObjectFields_Object obj;;
  readObjectFields_DefaultUserDataContainer obj;;
  ret (Some obj).

Definition readObjectData_Vec3Array : M ptr :=
  obj ← make_shared (IVec3Array Vec3Array0);
  readObjectFields_Object obj;;
  readObjectFields_Array obj;;
  readObjectFields_Vec3Array obj;;
  ret (Some obj).

Definition readObjectData_Vec2Array : M ptr :=
  obj ← make_shared (IVec2Array Vec2Array0);
  readObjectFields_Object obj;;
  readObjectFields_Array obj;;
  readObjectFields_Vec2Array obj;;
  ret (Some obj).

(** *** The dispatcher *)

(** The chain selected by the class tag. *)
Definition dispatch (className : string) : M ptr :=
  if String.eqb className "osg::PagedLOD" then readObjectData_PagedLOD
  else if String.eqb className "osg::Group" then readObjectData_Group
  else if String.eqb className "osg::Geode" then readObjectData_Geode
  else if String.eqb className "osg::Geometry" then readObjectData_Geometry
  else if String.eqb className "osg::StateSet" then readObjectData_StateSet
  else if String.eqb className "osg::Material" then readObjectData_Material
  else if String.eqb className "osg::Texture2D" then readObjectData_Texture2D
  else if String.eqb className "osg::DefaultUserDataContainer"
       then readObjectData_DefaultUserDataContainer
  else if String.eqb className "osg::DrawElementsUInt"
       then readObjectData_DrawElementsUInt
  else if String.eqb className "osg::Vec3Array" then readObjectData_Vec3Array
  else if String.eqb className "osg::Vec2Array" then readObjectData_Vec2Array
  else throw ("unsupported object class: " ++ className).

(** The body of [readObject], its recursive calls going to the section
    variable. *)
Definition readObject_body : M ptr :=
  className ← read_string;
  if String.eqb className "" then ret None
  else
    ReadBeginBracket;;
    uniqueId ← read_uint;
    r ← get;
    match _objects r !! uniqueId with
    | Some a => ret (Some a)
    | None =>
        object ← dispatch className;
        ReadEndBracket;;
        match object with
        | Some a =>
            assign a (over_Object (set_uniqueId uniqueId));;
            modify (fun r => with_objects (<[uniqueId := a]> (_objects r)) r)
        | None => ret tt
        end;;
        ret object
    end.

End FieldReaders.

(** [readObject], with [fuel] bounding the depth of nested calls. *)
Fixpoint readObject (fuel : nat) : M ptr :=
  match fuel with
  | O => fun _ => OutOfFuel
  | S fuel' => readObject_body (readObject fuel')
  end.

(** ** The entry point *)

(** [struct Data]: the root, with the store its pointers refer to. *)
Record Data := { rootObject : ptr; objects : list Instance }.

(** What [Data::read] hands back: a [Data], or [nullptr] together with
    what it wrote to [*error] (nothing when the parse did not throw). *)
Inductive Result :=
| Parsed (data : Data)
| Null (error : option string).

Definition error_message (e : Error) : string :=
  "miniosgb reader error at offset " ++ to_string (offset e) ++ ": " ++ message e.

(** The reader's part of [Data::read]: construct, [readHeader], one
    [readObject]. *)
Definition parse (fuel : nat) (buffer : list byte) : outcome ptr :=
  (readHeader;; readObject fuel) (Reader_new buffer).

Definition Data_read_fuel (fuel : nat) (buffer : list byte) : option Result :=
  match parse fuel buffer with
  | Ok root reader =>
      if bool_decide (is_Some root) && ended reader
      then Some (Parsed {| rootObject := root; objects := store reader |})
      else Some (Null None)
  | Throw ex _ => Some (Null (Some (error_message ex)))
  | OutOfFuel => None
  end.

(** [Data::read(buffer, length, &error)].  A call of [readObject] reads at
    least the four bytes of a string length before it calls itself, so the
    fuel is taken from the length of the buffer; [None] would mean that it
    ran out, which [Data_read_returns] excludes for a buffer of less than
    2^62 bytes. *)
Definition Data_read (buffer : list byte) : option Result :=
  Data_read_fuel (S (length buffer)) buffer.

(** ** Writing buffers

    The encoders used to state inputs. *)

Definition byte_of (z : Z) : byte := default x00 (Byte.of_N (Z.to_N (z mod 256))).

Fixpoint le (n : nat) (z : Z) : list byte :=
  match n with
  | O => []
  | S n' => byte_of z :: le n' (z / 256)
  end.

Definition u8 (z : Z) : list byte := le 1 z.
Definition u32 (z : Z) : list byte := le 4 z.
Definition u64 (z : Z) : list byte := le 8 z.

(** A length-prefixed string. *)
Definition str (s : string) : list byte :=
  u32 (Z.of_nat (String.length s)) ++ list_byte_of_string s.

(** The prologue: magic, kind 1 (scene), version, attributes, compressor. *)
Definition header (version attributes : Z) : list byte :=
  u64 0x1AFB45456C910EA1 ++ u32 1 ++ u32 version ++ u32 attributes ++ str "0".


(** ** Accessors of the object model *)

(** [Object::className()], as each instantiated class overrides it. *)
Definition className (i : Instance) : string :=
  match i with
  | IPagedLOD _ => "PagedLOD"
  | IGroup _ => "Group"
  | IGeode _ => "Geode"
  | IGeometry _ => "Geometry"
  | IStateSet _ => "StateSet"
  | IMaterial _ => "Material"
  | ITexture2D _ => "Texture2D"
  | IDefaultUserDataContainer _ => "DefaultUserDataContainer"
  | IPrimitiveSet _ => "PrimitiveSet"
  | IDrawElementsUInt _ => "DrawElementsUInt"
  | IVec2Array _ => "Vec2Array"
  | IVec3Array _ => "Vec3Array"
  | IVec4Array _ => "Vec4Array"
  | IImage _ => "Image"
  end.

(** What a call of [readFloats] does: it returns [false]; or it returns
    [true] after [memcpy] has written [dest]; or the source of the
    [memcpy] is not inside the buffer ([elementData] being null
    included), which the C++ leaves undefined. *)
Inductive Copy :=
| Refused
| Copied (dest : list byte)
| OutsideBuffer.

(** [VecNArray::readFloats(index, dest, count)], the elements being
    [VecNf]s of [n] floats:
    [false] when [index >= elementCount] or [count > n]; otherwise
    [sizeof(float) * count] bytes are copied to [dest] from the element
    at [index], which starts [index * sizeof(VecNf)] bytes after
    [elementData], and the result is [true].  [elementData] points into
    [buffer]. *)
Definition readFloats_n (n : Z) (buffer : list byte) (arr : Array)
    (index count : Z) : Copy :=
  if (index >=? elementCount arr) || (count >? n) then Refused
  else
    match elementData arr with
    | Some off =>
        let src := off + index * (4 * n) in
        let len := 4 * count in
        if (0 <=? src) && (src + len <=? Z.of_nat (length buffer))
        then Copied (take (Z.to_nat len) (drop (Z.to_nat src) buffer))
        else OutsideBuffer
    | None => OutsideBuffer
    end.

(** The virtual call; [None] for an instance that is no [Array]. *)
Definition readFloats (buffer : list byte) (i : Instance) (index count : Z)
    : option Copy :=
  match i with
  | IVec2Array o => Some (readFloats_n 2 buffer o index count)
  | IVec3Array o => Some (readFloats_n 3 buffer o index count)
  | IVec4Array o => Some (readFloats_n 4 buffer o index count)
  | _ => None
  end.

(** ** The driver ([testosgb.cpp])

    [ReadFile(filename, dump)] once the file is in [fileBuf]: what it
    prints after the file name, the dump of the graph left out. *)
Definition newline : string := String (Ascii.ascii_of_nat 10) EmptyString.

Definition ReadFile (fileBuf : list byte) : option string :=
  match Data_read fileBuf with
  | Some (Parsed data) =>
      match rootObject data with
      | Some _ => Some ("OK" ++ newline)%string
      | None => Some ("EMPTY" ++ newline)%string
      end
  | Some (Null error) => Some ("FAILED: " ++ default "" error ++ newline)%string
  | None => None
  end.
(** * The reader with the addresses of a run

    Two runs of the reader on the same bytes need not place anything at
    the same address: [std::make_shared] puts each instance where the
    allocator of the run has room, and the buffer is where the caller
    has it.  The model above names an instance by the number of the
    allocation that made it and a place in the buffer by its offset.
    Here the reader is written once more with the addresses of a run:
    [alloc k] is the address at which the run places the instance of its
    allocation number [k], counted from 0, and [base] is the address of
    the first byte of the buffer.  A [shared_ptr] then holds the address
    [make_shared] returned, the registries map identities to such
    addresses, and [elementData], [indexData] and [data] hold
    [_buffer + _pos] as an address.  The store keeps the instances in the
    order of their allocation; the instance at an address is the one
    whose allocation was given that address.  Everything that does not
    touch the store (the cursor, the reads, the header) is shared with
    the model above; the readers below are those of the model, written
    over the operations of this section. *)

Module Heap.

Section Addresses.

Context (alloc : nat -> nat) (base : Z).

(** The number of the allocation that was given the address [a], among
    the first [n]. *)
Definition index_of (a : nat) (n : nat) : option nat :=
  fst <$> list_find (fun k => alloc k = a) (seq 0 n).

(** The instance at the address [a]. *)
Definition deref (a : nat) (r : Reader) : option Instance :=
  index_of a (length (store r)) ≫= fun k => store r !! k.

(** [_buffer + _pos]. *)
Definition here (r : Reader) : Z := base + _pos r.

(** [std::make_shared<T>()]: the new instance is placed at the address
    the run has for this allocation. *)
Definition make_shared (i : Instance) : M nat :=
  fun r => Ok (alloc (length (store r))) (with_store (store r ++ [i]) r).

(** An assignment through the reference [obj]: [f] is applied to the
    instance at the address [a]. *)
Definition assign (a : nat) (f : Instance -> Instance) : M unit :=
  modify (fun r =>
    match index_of a (length (store r)) with
    | Some k => with_store (alter f k (store r)) r
    | None => r
    end).

(** Reading members of [obj]. *)
Definition load_Array (a : nat) : M Array :=
  gets (fun r => default Vec4Array0 (deref a r ≫= as_Array)).
Definition load_PrimitiveSet (a : nat) : M PrimitiveSet :=
  gets (fun r => default PrimitiveSet0 (deref a r ≫= as_PrimitiveSet)).

(** [std::dynamic_pointer_cast<T>(p)]. *)
Definition dynamic_pointer_cast (is_T : Instance -> bool) (p : ptr) : M ptr :=
  gets (fun r =>
    match p with
    | Some a =>
        match deref a r with
        | Some i => if is_T i then Some a else None
        | None => None
        end
    | None => None
    end).

#[using="alloc base"] Definition ReadArray : M ptr :=
  hasArray ← read_bool;
  if hasArray then
    uniqueId ← read_uint;
    r ← get;
    match _arrays r !! uniqueId with
    | Some a => ret (Some a)
    | None =>
        type ← read_int;
        arr ← (if type =? 15 then make_shared (IVec2Array Vec2Array0)
               else if type =? 16 then make_shared (IVec3Array Vec3Array0)
               else if type =? 17 then make_shared (IVec4Array Vec4Array0)
               else throw ("unsupported array type: " ++ to_string type));
        assign arr (over_Object (set_uniqueId uniqueId));;
        modify (fun r => with_arrays (<[uniqueId := arr]> (_arrays r)) r);;
        elementCount ← read_uint;
        assign arr (over_Array (set_elementCount elementCount));;
        when (elementCount >? 0)
          (pos ← gets here; assign arr (over_Array (set_elementData (Some pos))));;
        o ← load_Array arr;
        advance (uint (elementCount * elementSize o));;
        hasIndices ← read_bool;
        if hasIndices then throw "unsupported feature: array with indices"
        else
          b ← read_enum;
          assign arr (over_Array (set_binding b));;
          n ← read_uint;
          assign arr (over_Array (set_normalize (negb (n =? 0))));;
          ret (Some arr)
    end
  else ret None.

Section FieldReaders.

Variable readObject : M ptr.

#[using="alloc base"] Definition readObjectIfTrue : M ptr :=
  b ← read_bool;
  if b then readObject else ret None.

#[using="alloc base"] Definition readObjectFields_Object (obj : nat) : M unit :=
  name ← read_string;
  read_uint;;
  version ← gets _version;
  if version <? 77 then readObject;; ret tt
  else readObjectIfTrue;; ret tt.

#[using="alloc base"] Definition readObjectFields_Node (obj : nat) : M unit :=
  b ← read_bool;
  when b
    (ReadBeginBracket;;
     read_double;; read_double;; read_double;; read_float;;
     ReadEndBracket);;
  readObjectIfTrue;;
  readObjectIfTrue;;
  readObjectIfTrue;;
  readObjectIfTrue;;
  read_bool;;
  read_uint;;
  version ← gets _version;
  b ← (if version <? 77 then read_bool else ret false);
  when b
    (size ← read_uint;
     ReadBeginBracket;;
     for_ size (fun i => read_string;; ret tt);;
     ReadEndBracket);;
  o ← readObjectIfTrue;
  c ← dynamic_pointer_cast is_StateSet o;
  assign obj (over_Node (set_stateSet c)).

#[using="alloc base"] Definition readObjectFields_Group (obj : nat) : M unit :=
  b ← read_bool;
  when b
    (size ← read_uint;
     assign obj (over_Group (over_children (vector_resize size None)));;
     ReadBeginBracket;;
     for_ size (fun i =>
       o ← readObject;
       c ← dynamic_pointer_cast is_Node o;
       assign obj (over_Group (over_children (vector_set i c))));;
     ReadEndBracket).

#[using="alloc base"] Definition readObjectFields_LOD (obj : nat) : M unit :=
  cm ← read_int;
  assign obj (over_LOD (set_centerMode cm));;
  b ← read_bool;
  when b
    (c ← read_Vec3d;
     assign obj (over_LOD (set_userDefinedCenter c));;
     r ← read_double;
     assign obj (over_LOD (set_userDefinedRadius r)));;
  rangeMode ← read_uint;
  b ← read_bool;
  when b
    (size ← read_uint;
     assign obj (over_LOD (over_rangeList
       (vector_resize size {| range_min := 0; range_max := 0 |})));;
     ReadBeginBracket;;
     for_ size (fun i =>
       min ← read_float;
       max ← read_float;
       assign obj (over_LOD (over_rangeList
         (vector_set i {| range_min := min; range_max := max |}))));;
     ReadEndBracket).

#[using="alloc base"] Definition readObjectFields_PagedLOD_RangeDataList (obj : nat) : M unit :=
  fsize ← read_uint;
  assign obj (over_PagedLOD (over_rangeDataList (vector_resize fsize RangeData0)));;
  ReadBeginBracket;;
  for_ fsize (fun i =>
    s ← read_string;
    assign obj (over_PagedLOD (over_rangeDataList (vector_over i (set_filename s)))));;
  ReadEndBracket;;
  psize ← read_uint;
  when (psize >? fsize)
    (assign obj (over_PagedLOD (over_rangeDataList (vector_resize psize RangeData0))));;
  ReadBeginBracket;;
  for_ psize (fun i =>
    po ← read_float;
    assign obj (over_PagedLOD (over_rangeDataList (vector_over i (set_priorityOffset po))));;
    ps ← read_float;
    assign obj (over_PagedLOD (over_rangeDataList (vector_over i (set_priorityScale ps)))));;
  ReadEndBracket.

#[using="alloc base"] Definition readObjectFields_PagedLOD_Children (obj : nat) : M unit :=
  size ← read_uint;
  assign obj (over_Group (over_children (vector_resize size None)));;
  ReadBeginBracket;;
  for_ size (fun i =>
    o ← readObject;
    c ← dynamic_pointer_cast is_Node o;
    assign obj (over_Group (over_children (vector_set i c))));;
  ReadEndBracket.

#[using="alloc base"] Definition readObjectFields_PagedLOD (obj : nat) : M unit :=
  b ← read_bool;
  when b
    (hasDatabasePath ← read_bool;
     when hasDatabasePath (read_string;; ret tt));;
  version ← gets _version;
  when (version <? 70) (read_uint;; ret tt);;
  read_uint;;
  read_bool;;
  b ← read_bool;
  when b (readObjectFields_PagedLOD_RangeDataList obj);;
  b ← read_bool;
  when b (readObjectFields_PagedLOD_Children obj).

#[using="alloc base"] Definition readObjectFields_Geode (obj : nat) : M unit :=
  b ← read_bool;
  when b
    (size ← read_uint;
     assign obj (over_Geode (over_drawables (vector_resize size None)));;
     ReadBeginBracket;;
     for_ size (fun i =>
       o ← readObject;
       c ← dynamic_pointer_cast is_Drawable o;
       assign obj (over_Geode (over_drawables (vector_set i c))));;
     ReadEndBracket).

#[using="alloc base"] Definition readObjectFields_Drawable (obj : nat) : M unit :=
  o ← readObjectIfTrue;
  c ← dynamic_pointer_cast is_StateSet o;
  assign obj (over_Node (set_stateSet c));;
  b ← read_bool;
  when b (read_n 8 6;; ret tt);;
  readObjectIfTrue;;
  readObjectIfTrue;;
  read_bool;;
  read_bool;;
  read_bool;;
  readObjectIfTrue;;
  readObjectIfTrue;;
  readObjectIfTrue;;
  readObjectIfTrue;;
  ret tt.

#[using="alloc base"] Definition readObjectFields_PrimitiveSet (obj : nat) : M unit :=
  read_int;;
  m ← read_uint;
  assign obj (over_PrimitiveSet (set_mode m));;
  c ← read_uint;
  assign obj (over_PrimitiveSet (set_indexCount c));;
  pos ← gets here;
  assign obj (over_PrimitiveSet (set_indexData (Some pos))).

#[using="alloc base"] Definition readObjectFields_DrawElementsUInt (obj : nat) : M unit :=
  o ← load_PrimitiveSet obj;
  advance (size_t (indexCount o * 4)).

#[using="alloc base"] Definition skip_inline_array : M unit :=
  b ← read_bool;
  when b (ReadBeginBracket;; ReadArray;; ReadEndBracket).

#[using="alloc base"] Definition readObjectFields_Geometry (obj : nat) : M unit :=
  size ← read_uint;
  version ← gets _version;
  (if version <? 112 then
     ReadBeginBracket;;
     assign obj (over_Geometry (over_primitives (vector_resize size None)));;
     for_ size (fun p =>
       prim ← make_shared (IPrimitiveSet PrimitiveSet0);
       read_uint;;
       m ← read_uint;
       assign prim (over_PrimitiveSet (set_mode m));;
       indexCount ← read_uint;
       assign prim (over_PrimitiveSet (set_indexCount indexCount));;
       when (indexCount >? 0)
         (pos ← gets here;
          assign prim (over_PrimitiveSet (set_indexData (Some pos)));;
          advance (size_t (4 * indexCount)));;
       assign obj (over_Geometry (over_primitives (vector_set p (Some prim)))));;
     ReadEndBracket
   else
     assign obj (over_Geometry (over_primitives (vector_resize size None)));;
     for_ size (fun p =>
       o ← readObject;
       c ← dynamic_pointer_cast is_PrimitiveSet o;
       assign obj (over_Geometry (over_primitives (vector_set p c)))));;
  if version <? 112 then
    b ← read_bool;
    when b
      (ReadBeginBracket;;
       a ← ReadArray;
       assign obj (over_Geometry (set_vertexData a));;
       ReadEndBracket);;
    skip_inline_array;;
    skip_inline_array;;
    skip_inline_array;;
    skip_inline_array;;
    b ← read_bool;
    when b
      (size ← read_uint;
       assign obj (over_Geometry (over_texCoordDataList (vector_resize size None)));;
       ReadBeginBracket;;
       for_ size (fun i =>
         ReadBeginBracket;;
         a ← ReadArray;
         assign obj (over_Geometry (over_texCoordDataList (vector_set i a)));;
         ReadEndBracket);;
       ReadEndBracket);;
    b ← read_bool;
    when b
      (size ← read_uint;
       assign obj (over_Geometry (over_texCoordDataList (vector_resize size None)));;
       ReadBeginBracket;;
       for_ size (fun i => ReadBeginBracket;; ReadArray;; ReadEndBracket);;
       ReadEndBracket);;
    read_bool;;
    ret tt
  else
    o ← readObjectIfTrue;
    c ← dynamic_pointer_cast is_Array o;
    assign obj (over_Geometry (set_vertexData c));;
    o ← readObjectIfTrue;
    c ← dynamic_pointer_cast is_Array o;
    assign obj (over_Geometry (set_normalData c));;
    o ← readObjectIfTrue;
    c ← dynamic_pointer_cast is_Array o;
    assign obj (over_Geometry (set_colorData c));;
    o ← readObjectIfTrue;
    c ← dynamic_pointer_cast is_Array o;
    assign obj (over_Geometry (set_secondaryColorData c));;
    o ← readObjectIfTrue;
    c ← dynamic_pointer_cast is_Array o;
    assign obj (over_Geometry (set_fogCoordData c));;
    size ← read_uint;
    assign obj (over_Geometry (over_texCoordDataList (vector_resize size None)));;
    for_ size (fun i =>
      o ← readObject;
      c ← dynamic_pointer_cast is_Array o;
      assign obj (over_Geometry (over_texCoordDataList (vector_set i c))));;
    size ← read_uint;
    for_ size (fun i =>
      o ← readObject;
      dynamic_pointer_cast is_Array o;;
      ret tt).

#[using="alloc base"] Definition read_modes (size : Z) (l : list (Z * Z)) : M (list (Z * Z)) :=
  for_acc size l (fun i modes =>
    m ← read_uint;
    value ← read_uint;
    ret (modes ++ [(m, value)])).

#[using="alloc base"] Definition read_attributes (size : Z) (l : list (ptr * Z)) : M (list (ptr * Z)) :=
  for_acc size l (fun i attributes =>
    o ← readObject;
    attribute ← dynamic_pointer_cast is_StateAttribute o;
    value ← read_uint;
    ret (match attribute with
         | Some _ => attributes ++ [(attribute, value)]
         | None => attributes
         end)).

#[using="alloc base"] Definition readObjectFields_StateSet (obj : nat) : M unit :=
  b ← read_bool;
  when b
    (size ← read_uint;
     ReadBeginBracket;;
     for_ size (fun i =>
       m ← read_uint;
       value ← read_uint;
       assign obj (over_StateSet (over_modes (fun l => l ++ [(m, value)]))));;
     ReadEndBracket);;
  b ← read_bool;
  when b
    (size ← read_uint;
     ReadBeginBracket;;
     for_ size (fun i =>
       o ← readObject;
       attribute ← dynamic_pointer_cast is_StateAttribute o;
       value ← read_uint;
       match attribute with
       | Some _ =>
           assign obj (over_StateSet (over_attributes (fun l => l ++ [(attribute, value)])))
       | None => ret tt
       end);;
     ReadEndBracket);;
  b ← read_bool;
  when b
    (size ← read_uint;
     ReadBeginBracket;;
     for_ size (fun i =>
       size_ ← read_uint;
       ReadBeginBracket;;
       ms ← read_modes size_ [];
       ReadEndBracket;;
       assign obj (over_StateSet (over_textureModesList (fun l => l ++ [ms]))));;
     ReadEndBracket);;
  b ← read_bool;
  when b
    (size ← read_uint;
     ReadBeginBracket;;
     for_ size (fun i =>
       size_ ← read_uint;
       ReadBeginBracket;;
       attrs ← read_attributes size_ [];
       ReadEndBracket;;
       assign obj (over_StateSet (over_textureAttributesList (fun l => l ++ [attrs]))));;
     ReadEndBracket);;
  b ← read_bool;
  when b
    (size ← read_uint;
     ReadBeginBracket;;
     for_ size (fun i => readObject;; read_uint;; ret tt);;
     ReadEndBracket);;
  h ← read_enum;
  assign obj (over_StateSet (set_renderingHint h));;
  read_uint;;
  read_uint;;
  read_string;;
  read_bool;;
  readObjectIfTrue;;
  readObjectIfTrue;;
  version ← gets _version;
  b ← (if version >=? 151 then read_bool else ret false);
  when b
    (size ← read_uint;
     ReadBeginBracket;;
     for_ size (fun i => read_string;; read_string;; read_int;; ret tt);;
     ReadEndBracket).

#[using="alloc base"] Definition readObjectFields_StateAttribute (obj : nat) : M unit :=
  readObjectIfTrue;;
  readObjectIfTrue;;
  ret tt.

#[using="alloc base"] Definition read_Property_Vec4f (obj : nat)
    (over : (Property Vec4f -> Property Vec4f) -> Material -> Material) : M unit :=
  b ← read_bool;
  when b
    (fb ← read_bool;
     assign obj (over_Material (over (set_frontAndBack fb)));;
     f ← read_Vec4f;
     assign obj (over_Material (over (set_front f)));;
     k ← read_Vec4f;
     assign obj (over_Material (over (set_back k)))).

#[using="alloc base"] Definition readObjectFields_Material (obj : nat) : M unit :=
  read_uint;;
  read_Property_Vec4f obj over_ambient;;
  read_Property_Vec4f obj over_diffuse;;
  read_Property_Vec4f obj over_specular;;
  read_Property_Vec4f obj over_emission;;
  b ← read_bool;
  when b
    (fb ← read_bool;
     assign obj (over_Material (over_shininess (set_frontAndBack fb)));;
     f ← read_float;
     assign obj (over_Material (over_shininess (set_front f)));;
     k ← read_float;
     assign obj (over_Material (over_shininess (set_back k)))).

#[using="alloc base"] Definition skip_optional_uint : M unit :=
  b ← read_bool;
  when b (read_uint;; ret tt).

#[using="alloc base"] Definition readObjectFields_Texture (obj : nat) : M unit :=
  b ← read_bool;
  when b (w ← read_enum; assign obj (over_Texture (set_wrapS w)));;
  b ← read_bool;
  when b (w ← read_enum; assign obj (over_Texture (set_wrapT w)));;
  b ← read_bool;
  when b (w ← read_enum; assign obj (over_Texture (set_wrapR w)));;
  skip_optional_uint;;
  skip_optional_uint;;
  read_float;;
  read_bool;;
  read_bool;;
  read_bool;;
  read_bool;;
  read_n 8 4;;
  read_int;;
  read_int;;
  skip_optional_uint;;
  skip_optional_uint;;
  skip_optional_uint;;
  read_bool;;
  read_uint;;
  read_uint;;
  read_float;;
  version ← gets _version;
  b ← (if (version >=? 95) && (version <? 154) then read_bool else ret false);
  when b (read_n 4 6;; ret tt);;
  b ← (if version >=? 98 then read_bool else ret false);
  when b (read_string;; ret tt);;
  when (version >=? 155) (read_float;; read_float;; read_float;; ret tt).

#[using="alloc base"] Definition readImage : M ptr :=
  b ← read_bool;
  if b then
    version ← gets _version;
    when (version >? 94) (read_string;; ret tt);;
    uniqueId ← read_uint;
    r ← get;
    match _images r !! uniqueId with
    | Some a => ret (Some a)
    | None =>
        image ← make_shared (IImage Image0);
        assign image (over_Object (set_uniqueId uniqueId));;
        modify (fun r => with_images (<[uniqueId := image]> (_images r)) r);;
        name ← read_string;
        writeHint ← read_uint;
        decision ← read_uint;
        (if decision =? 1 then
           size ← read_uint;
           pos ← gets here;
           assign image (over_Image (set_data (Some pos)));;
           assign image (over_Image (set_dataLength size));;
           advance size
         else throw ("invalid image decision: " ++ to_string decision));;
        readObjectFields_Object image;;
        ret (Some image)
    end
  else ret None.

#[using="alloc base"] Definition readObjectFields_Texture2D (obj : nat) : M unit :=
  i ← readImage;
  assign obj (over_Texture2D (set_image i));;
  read_uint;;
  read_uint;;
  ret tt.

#[using="alloc base"] Definition readObjectFields_DefaultUserDataContainer (obj : nat) : M unit :=
  b ← read_bool;
  when b (ReadBeginBracket;; readObject;; ReadEndBracket);;
  b ← read_bool;
  when b
    (size ← read_uint;
     ReadBeginBracket;;
     for_ size (fun i => read_string;; ret tt);;
     ReadEndBracket);;
  b ← read_bool;
  when b
    (size ← read_uint;
     ReadBeginBracket;;
     for_ size (fun i => readObject;; ret tt);;
     ReadEndBracket).

#[using="alloc base"] Definition readObjectFields_Array (obj : nat) : M unit :=
  b ← read_enum;
  assign obj (over_Array (set_binding b));;
  n ← read_bool;
  assign obj (over_Array (set_normalize n));;
  read_bool;;
  c ← read_uint;
  assign obj (over_Array (set_elementCount c));;
  pos ← gets here;
  assign obj (over_Array (set_elementData (Some pos))).

#[using="alloc base"] Definition readObjectFields_Vec2Array (obj : nat) : M unit :=
  o ← load_Array obj;
  advance (size_t (size_t (elementCount o * 4) * 2)).

#[using="alloc base"] Definition readObjectFields_Vec3Array (obj : nat) : M unit :=
  o ← load_Array obj;
  advance (size_t (size_t (elementCount o * 4) * 3)).

#[using="alloc base"] Definition readObjectData_PagedLOD : M ptr :=
  obj ← make_shared (IPagedLOD PagedLOD0);
  readObjectFields_Object obj;;
  readObjectFields_Node obj;;
  readObjectFields_LOD obj;;
  readObjectFields_PagedLOD obj;;
  ret (Some obj).

#[using="alloc base"] Definition readObjectData_Group : M ptr :=
  obj ← make_shared (IGroup Group0);
  readObjectFields_Object obj;;
  readObjectFields_Node obj;;
  readObjectFields_Group obj;;
  ret (Some obj).

#[using="alloc base"] Definition readObjectData_Geode : M ptr :=
  obj ← make_shared (IGeode Geode0);
  readObjectFields_Object obj;;
  readObjectFields_Node obj;;
  readObjectFields_Geode obj;;
  ret (Some obj).

#[using="alloc base"] Definition readObjectData_Geometry : M ptr :=
  obj ← make_shared (IGeometry Geometry0);
  readObjectFields_Object obj;;
  version ← gets _version;
  when (version >=? 154) (readObjectFields_Node obj);;
  readObjectFields_Drawable obj;;
  readObjectFields_Geometry obj;;
  ret (Some obj).

#[using="alloc base"] Definition readObjectData_DrawElementsUInt : M ptr :=
  obj ← make_shared (IDrawElementsUInt PrimitiveSet0);
  readObjectFields_Object obj;;
  readObjectFields_PrimitiveSet obj;;
  readObjectFields_DrawElementsUInt obj;;
  ret (Some obj).

#[using="alloc base"] Definition readObjectData_StateSet : M ptr :=
  obj ← make_shared (IStateSet StateSet0);
  readObjectFields_Object obj;;
  readObjectFields_StateSet obj;;
  ret (Some obj).

#[using="alloc base"] Definition readObjectData_Material : M ptr :=
  obj ← make_shared (IMaterial Material0);
  readObjectFields_Object obj;;
  readObjectFields_StateAttribute obj;;
  readObjectFields_Material obj;;
  ret (Some obj).

#[using="alloc base"] Definition readObjectData_Texture2D : M ptr :=
  obj ← make_shared (ITexture2D Texture2D0);
  readObjectFields_Object obj;;
  readObjectFields_StateAttribute obj;;
  readObjectFields_Texture obj;;
  readObjectFields_Texture2D obj;;
  ret (Some obj).

#[using="alloc base"] Definition readObjectData_DefaultUserDataContainer : M ptr :=
  obj ← make_shared (IDefaultUserDataContainer Object0);
  readObjectFields_Object obj;;
  readObjectFields_DefaultUserDataContainer obj;;
  ret (Some obj).

#[using="alloc base"] Definition readObjectData_Vec3Array : M ptr :=
  obj ← make_shared (IVec3Array Vec3Array0);
  readObjectFields_Object obj;;
  readObjectFields_Array obj;;
  readObjectFields_Vec3Array obj;;
  ret (Some obj).

#[using="alloc base"] Definition readObjectData_Vec2Array : M ptr :=
  obj ← make_shared (IVec2Array Vec2Array0);
  readObjectFields_Object obj;;
  readObjectFields_Array obj;;
  readObjectFields_Vec2Array obj;;
  ret (Some obj).

#[using="alloc base"] Definition dispatch (className : string) : M ptr :=
  if String.eqb className "osg::PagedLOD" then readObjectData_PagedLOD
  else if String.eqb className "osg::Group" then readObjectData_Group
  else if String.eqb className "osg::Geode" then readObjectData_Geode
  else if String.eqb className "osg::Geometry" then readObjectData_Geometry
  else if String.eqb className "osg::StateSet" then readObjectData_StateSet
  else if String.eqb className "osg::Material" then readObjectData_Material
  else if String.eqb className "osg::Texture2D" then readObjectData_Texture2D
  else if String.eqb className "osg::DefaultUserDataContainer"
       then readObjectData_DefaultUserDataContainer
  else if String.eqb className "osg::DrawElementsUInt"
       then readObjectData_DrawElementsUInt
  else if String.eqb className "osg::Vec3Array" then readObjectData_Vec3Array
  else if String.eqb className "osg::Vec2Array" then readObjectData_Vec2Array
  else throw ("unsupported object class: " ++ className).

#[using="alloc base"] Definition readObject_body : M ptr :=
  className ← read_string;
  if String.eqb className "" then ret None
  else
    ReadBeginBracket;;
    uniqueId ← read_uint;
    r ← get;
    match _objects r !! uniqueId with
    | Some a => ret (Some a)
    | None =>
        object ← dispatch className;
        ReadEndBracket;;
        match object with
        | Some a =>
            assign a (over_Object (set_uniqueId uniqueId));;
            modify (fun r => with_objects (<[uniqueId := a]> (_objects r)) r)
        | None => ret tt
        end;;
        ret object
    end.

End FieldReaders.

#[using="alloc base"] Fixpoint readObject (fuel : nat) : M ptr :=
  match fuel with
  | O => fun _ => OutOfFuel
  | S fuel' => readObject_body (readObject fuel')
  end.

#[using="alloc base"] Definition parse (fuel : nat) (buffer : list byte) : outcome ptr :=
  (readHeader;; readObject fuel) (Reader_new buffer).

#[using="alloc base"] Definition Data_read_fuel (fuel : nat) (buffer : list byte) : option Result :=
  match parse fuel buffer with
  | Ok root reader =>
      if bool_decide (is_Some root) && ended reader
      then Some (Parsed {| rootObject := root; objects := store reader |})
      else Some (Null None)
  | Throw ex _ => Some (Null (Some (error_message ex)))
  | OutOfFuel => None
  end.

End Addresses.

End Heap.
(** * Vocabulary of the statements *)

(** ** Properties kept by every step

    [preserves P m]: whenever [m] returns or throws, the state it leaves is
    related by [P] to the one it started from. *)

Definition preserves (P : Reader -> Reader -> Prop) {A} (m : M A) : Prop :=
  forall r,
    match m r with
    | Ok _ r' | Throw _ r' => P r r'
    | OutOfFuel => True
    end.

(** The relations of interest are preorders that do not look at the
    cursor. *)
Class Invariant (P : Reader -> Reader -> Prop) : Prop := {
  P_refl : forall r, P r r;
  P_trans : forall r1 r2 r3, P r1 r2 -> P r2 r3 -> P r1 r3;
  P_pos : forall v r, P r (with_pos v r) }.

(** ** What a call leaves alone

    [stable n r r']: provided the store of [r] has at least [n] cells, the
    buffer, the version and the bracket flag are the same in [r'] as in
    [r]; the image and array registries only grew; the store did not
    shrink below [n]; and the instances at the addresses below [n] are
    untouched. *)

Record stable_at (n : nat) (r r' : Reader) : Prop := {
  stable_buffer : _buffer r' = _buffer r;
  stable_version : _version r' = _version r;
  stable_brackets : _useBinaryBrackets r' = _useBinaryBrackets r;
  stable_images : _images r ⊆ _images r';
  stable_arrays : _arrays r ⊆ _arrays r';
  stable_length : (n <= length (store r'))%nat;
  stable_store : forall a, (a < n)%nat -> store r' !! a = store r !! a }.

Definition stable (n : nat) (r r' : Reader) : Prop :=
  (n <= length (store r))%nat -> stable_at n r r'.

(** The pointwise form of [preserves]. *)
Definition post (P : Reader -> Reader -> Prop) {A} (m : M A) (r : Reader) : Prop :=
  match m r with
  | Ok _ r' | Throw _ r' => P r r'
  | OutOfFuel => True
  end.

(** [returns v m]: when [m] returns, it returns [v]. *)
Definition returns {A} (v : A) (m : M A) : Prop :=
  forall r a r', m r = Ok a r' -> a = v.

(** ** Fuel

    [refines m m']: wherever [m] does not run out of fuel, [m'] does what
    [m] does. *)

Definition refines {A} (m m' : M A) : Prop :=
  forall r, m r <> OutOfFuel -> m' r = m r.


(** ** Inputs

    The byte strings the statements below are about.  Version 100 with
    attribute bit 2 set gives 4-byte brackets, written [u32 0]. *)

(** The Object layer with an empty name and no user-data container, and
    the Node, Drawable and Texture layers with every optional block
    absent. *)
Definition Object_fields : list byte := str "" ++ u32 0 ++ u8 0.
Definition Node_fields : list byte :=
  u8 0 ++ u8 0 ++ u8 0 ++ u8 0 ++ u8 0 ++ u8 1 ++ u32 0xffffffff ++ u8 0.
Definition Drawable_fields : list byte :=
  u8 0 ++ u8 0 ++ u8 0 ++ u8 0 ++ u8 1 ++ u8 1 ++ u8 1 ++ u8 0 ++ u8 0 ++ u8 0 ++ u8 0.
Definition Texture_fields : list byte :=
  u8 0 ++ u8 0 ++ u8 0 ++ u8 0 ++ u8 0 ++ u32 0 ++ u8 0 ++ u8 0 ++ u8 0 ++ u8 0
  ++ u64 0 ++ u64 0 ++ u64 0 ++ u64 0 ++ u32 0 ++ u32 0 ++ u8 0 ++ u8 0 ++ u8 0
  ++ u8 0 ++ u32 0 ++ u32 0 ++ u32 0 ++ u8 0 ++ u8 0.

(** An [osg::Group] with the given identity and children. *)
Definition Group_bytes (id : Z) (children : list (list byte)) : list byte :=
  str "osg::Group" ++ u32 0 ++ u32 id ++ Object_fields ++ Node_fields
  ++ u8 1 ++ u32 (Z.of_nat (length children)) ++ u32 0 ++ concat children.

(** The back-reference form: class name, bracket, identity. *)
Definition reference_bytes (className : string) (id : Z) : list byte :=
  str className ++ u32 0 ++ u32 id.

(** An [osg::Texture2D] around the bytes of an inline image. *)
Definition Texture2D_bytes (id : Z) (image : list byte) : list byte :=
  str "osg::Texture2D" ++ u32 0 ++ u32 id ++ Object_fields ++ u8 0 ++ u8 0
  ++ Texture_fields ++ image ++ u32 0 ++ u32 0.

(** An inline image: flag, class name, identity, name, write hint,
    decision 1, size, payload, Object layer. *)
Definition Image_bytes (id : Z) (payload fields : list byte) : list byte :=
  u8 1 ++ str "osg::Image" ++ u32 id ++ str "" ++ u32 0 ++ u32 1
  ++ u32 (Z.of_nat (length payload)) ++ payload ++ fields.

(** An inline array: flag, identity, type, count, payload, no indices,
    binding 4, normalize 0. *)
Definition Array_bytes (id type count : Z) (payload : list byte) : list byte :=
  u8 1 ++ u32 id ++ u32 type ++ u32 count ++ payload ++ u8 0 ++ u32 4 ++ u32 0.

(** The empty scene of the specification: prologue, a zero bracket, an
    empty class name. *)
Definition empty_scene : list byte := header 100 4 ++ u32 0 ++ str "".

(** The same without the bracket, which a null object does not have. *)
Definition null_root : list byte := header 100 4 ++ str "".

(** A Group of identity 5 whose only child is a Group of identity 5
    written in full. *)
Definition nested_same_identity : list byte :=
  header 100 4 ++ Group_bytes 5 [Group_bytes 5 []].

(** A Group 1 holding a Group 5, which holds a Group 5 written in full and
    a reference to 5; then a second reference to 5. *)
Definition shadowed_identity : list byte :=
  header 100 4
  ++ Group_bytes 1
       [Group_bytes 5 [Group_bytes 5 []; reference_bytes "osg::Group" 5];
        reference_bytes "osg::Group" 5].

(** A Group cut right after its identity. *)
Definition cut_after_identity : list byte :=
  header 100 4 ++ str "osg::Group" ++ u32 0 ++ u32 5.

(** An inline image cut right after its identity; an inline array cut
    right after its type. *)
Definition image_cut_after_identity : list byte :=
  header 100 4 ++ str "osg::Texture2D" ++ u32 0 ++ u32 1 ++ Object_fields
  ++ u8 0 ++ u8 0 ++ Texture_fields ++ u8 1 ++ str "osg::Image" ++ u32 2.
Definition array_cut_after_type : list byte :=
  header 100 0 ++ str "osg::Geometry" ++ u32 1 ++ Object_fields ++ Drawable_fields
  ++ u32 0 ++ u8 1 ++ u8 1 ++ u32 7 ++ u32 16.

(** An image 2 whose user data is a Texture2D 3 that refers to image 2. *)
Definition image_self_reference : list byte :=
  header 100 4
  ++ Texture2D_bytes 1
       (Image_bytes 2 [x00; x01]
          (str "" ++ u32 0 ++ u8 1
           ++ Texture2D_bytes 3 (u8 1 ++ str "osg::Image" ++ u32 2))).

(** A class name at the very end of the buffer: the bracket that follows
    it starts past the end. *)
Definition bracket_past_end : list byte := header 100 4 ++ str "osg::Group".

(** A Vec3Array announcing 5 elements, a DrawElementsUInt announcing 100
    indices and an inline image announcing 1000 bytes, each with no
    payload behind it. *)
Definition elements_past_end : list byte :=
  header 100 4 ++ str "osg::Vec3Array" ++ u32 0 ++ u32 1 ++ Object_fields
  ++ u32 4 ++ u8 0 ++ u8 0 ++ u32 5.
Definition indices_past_end : list byte :=
  header 100 4 ++ str "osg::DrawElementsUInt" ++ u32 0 ++ u32 1 ++ Object_fields
  ++ u32 0 ++ u32 4 ++ u32 100.
Definition image_past_end : list byte :=
  header 100 4 ++ str "osg::Texture2D" ++ u32 0 ++ u32 1 ++ Object_fields
  ++ u8 0 ++ u8 0 ++ Texture_fields
  ++ u8 1 ++ str "osg::Image" ++ u32 2 ++ str "" ++ u32 0 ++ u32 1 ++ u32 1000.

(** A version-100 Geometry whose inline vertex array is a Vec4Array
    announcing 0x10000000 elements, with no payload. *)
Definition overflowing_inline_array : list byte :=
  header 100 0 ++ str "osg::Geometry" ++ u32 1 ++ Object_fields ++ Drawable_fields
  ++ u32 0 ++ u8 1 ++ Array_bytes 7 17 0x10000000 []
  ++ u8 0 ++ u8 0 ++ u8 0 ++ u8 0 ++ u8 0 ++ u8 0 ++ u8 0.

(** Does the slice of [count * size] bytes at [p] lie in a buffer of
    [len] bytes? *)
Definition slice_in_buffer (p : bufptr) (count size len : Z) : Prop :=
  match p with
  | Some off => 0 <= off /\ off + count * size <= len
  | None => count = 0
  end.

(** [cursor_moved r r']: [r'] is [r] with the cursor elsewhere. *)
Definition cursor_moved (r r' : Reader) : Prop := r' = with_pos (_pos r') r.

(** What [readObject] does to the state its field readers returned:
    [object->uniqueId = uniqueId; _objects[uniqueId] = object]. *)
Definition registered (uniqueId : Z) (object : ptr) (r : Reader) : Reader :=
  match object with
  | Some a =>
      with_objects (<[uniqueId := a]> (_objects r))
        (with_store (alter (over_Object (set_uniqueId uniqueId)) a (store r)) r)
  | None => r
  end.

(** The reader state an outcome carries. *)
Definition final_state {A} (o : outcome A) : option Reader :=
  match o with
  | Ok _ r | Throw _ r => Some r
  | OutOfFuel => None
  end.

(** A reader over [buffer] as [readHeader] leaves it for version 100 with
    brackets, the cursor at the start of [buffer]. *)
Definition Reader_v100 (buffer : list byte) : Reader :=
  with_useBinaryBrackets true (with_version 100 (Reader_new buffer)).

(** The first bytes of an inline image, of an inline array and of an
    object, each cut right before its payload. *)
Definition image_start : list byte := u8 1 ++ str "osg::Image" ++ u32 2.
Definition array_start : list byte := u8 1 ++ u32 7 ++ u32 16.
Definition object_start : list byte := str "osg::Group" ++ u32 0 ++ u32 5.

(** The Drawable layer in the order C7 gives: state set, initial bound,
    the six callbacks, and the three booleans after them. *)
Definition readObjectFields_Drawable_claimed (readObject : M ptr) (obj : nat) : M unit :=
  o ← readObjectIfTrue readObject;
  c ← dynamic_pointer_cast is_StateSet o;
  assign obj (over_Node (set_stateSet c));;
  b ← read_bool;
  when b (read_n 8 6;; ret tt);;
  readObjectIfTrue readObject;;
  readObjectIfTrue readObject;;
  readObjectIfTrue readObject;;
  readObjectIfTrue readObject;;
  readObjectIfTrue readObject;;
  readObjectIfTrue readObject;;
  read_bool;;
  read_bool;;
  read_bool;;
  ret tt.

(** A fresh Geometry at address 0 and the cursor on a Drawable layer with
    no state set, no bound, no callback, and the three booleans true. *)
Definition Drawable_reader : Reader :=
  with_store [IGeometry Geometry0] (Reader_v100 Drawable_fields).

(** [store_blind m]: [m] neither reads nor writes the store. *)
Definition store_blind {A} (m : M A) : Prop :=
  forall st r,
    m (with_store st r) =
    match m r with
    | Ok a r' => Ok a (with_store st r')
    | Throw e r' => Throw e (with_store st r')
    | OutOfFuel => OutOfFuel
    end.

(** What the stream holds: [n] strings, and [n] pairs of floats, read one
    after the other. *)
Fixpoint read_strings (n : nat) : M (list string) :=
  match n with
  | O => ret []
  | S n' => s ← read_string; ss ← read_strings n'; ret (s :: ss)
  end.

Fixpoint read_float_pairs (n : nat) : M (list (Z * Z)) :=
  match n with
  | O => ret []
  | S n' =>
      x ← read_float; y ← read_float; ps ← read_float_pairs n'; ret ((x, y) :: ps)
  end.

(** The filenames [names] written from index [i] on, and the
    (priorityOffset, priorityScale) pairs likewise. *)
Fixpoint set_names (i : nat) (names : list string) (l : list RangeData) : list RangeData :=
  match names with
  | [] => l
  | s :: ss => set_names (S i) ss (alter (set_filename s) i l)
  end.

Fixpoint set_pairs (i : nat) (pairs : list (Z * Z)) (l : list RangeData) : list RangeData :=
  match pairs with
  | [] => l
  | (po, ps) :: pairs' =>
      set_pairs (S i) pairs'
        (alter (set_priorityScale ps) i (alter (set_priorityOffset po) i l))
  end.

(** The RangeDataList block of the specification's scenario under the
    cursor (version 120, no brackets): two filenames, three pairs
    (0.0, 1.0), (0.5, 1.5), (0.25, 1.25) as IEEE-754 bits; a fresh
    PagedLOD at address 0. *)
Definition RangeDataList_bytes : list byte :=
  u32 2 ++ str "a.osgb" ++ str "b.osgb" ++ u32 3
  ++ u32 0 ++ u32 0x3F800000 ++ u32 0x3F000000 ++ u32 0x3FC00000
  ++ u32 0x3E800000 ++ u32 0x3FA00000.
Definition RangeDataList_reader : Reader :=
  with_store [IPagedLOD PagedLOD0] (with_version 120 (Reader_new RangeDataList_bytes)).

(** [std::dynamic_pointer_cast<T>(p)] against a given store. *)
Definition cast_in (is_T : Instance -> bool) (st : list Instance) (p : ptr) : ptr :=
  match p with
  | Some a =>
      match st !! a with
      | Some i => if is_T i then Some a else None
      | None => None
      end
  | None => None
  end.

(** The run of a children loop, element by element.
    [child_reads readObject is_T set obj i r ocs r']: from [r], with the
    next slot [i], the dispatcher is called once per element of [ocs];
    each call reads one object in full and returns the pointer [o], whose
    cast [c] is assigned to slot [i] of the object at [obj]; the next call
    starts from there; the last assignment leaves [r']. *)
Inductive child_reads (readObject : M ptr) (is_T : Instance -> bool)
    (set : Z -> ptr -> Instance -> Instance) (obj : nat) :
    Z -> Reader -> list (ptr * ptr) -> Reader -> Prop :=
| child_reads_nil i r : child_reads readObject is_T set obj i r [] r
| child_reads_cons i r o r1 ocs r' :
    readObject r = Ok o r1 ->
    child_reads readObject is_T set obj (i + 1)
      (with_store (alter (set i (cast_in is_T (store r1) o)) obj (store r1)) r1)
      ocs r' ->
    child_reads readObject is_T set obj i r
      ((o, cast_in is_T (store r1) o) :: ocs) r'.

(** The slot assignments of the three layers, and the sequence they fill. *)
Definition set_child (i : Z) (c : ptr) : Instance -> Instance :=
  over_Group (over_children (vector_set i c)).
Definition set_drawable (i : Z) (c : ptr) : Instance -> Instance :=
  over_Geode (over_drawables (vector_set i c)).
Definition children_of (i : Instance) : option (list ptr) := children <$> as_Group i.
Definition drawables_of (i : Instance) : option (list ptr) := drawables <$> as_Geode i.

(** What C9 says of a children block that read [size] as its count and
    ended in [r']: the dispatcher was called [size] times in a row from
    [r], and the sequence of the object at [obj] is, in order, the cast of
    each pointer it returned; a cast is null or the pointer itself, the
    latter when it points to a [T]. *)
Definition keeps_every_child (readObject : M ptr) (is_T : Instance -> bool)
    (set : Z -> ptr -> Instance -> Instance)
    (get : Instance -> option (list ptr))
    (obj : nat) (size : Z) (r r' : Reader) : Prop :=
  exists ocs inst,
    child_reads readObject is_T set obj 0 r ocs r' /\
    length ocs = Z.to_nat size /\
    store r' !! obj = Some inst /\
    get inst = Some (ocs.*2) /\
    Forall (fun oc =>
      oc.2 = None \/
      oc.2 = oc.1 /\ exists a i, oc.1 = Some a /\ store r' !! a = Some i /\ is_T i = true)
      ocs.

(** An [osg::StateSet] with every optional block absent. *)
Definition StateSet_bytes (id : Z) : list byte :=
  str "osg::StateSet" ++ u32 0 ++ u32 id ++ Object_fields
  ++ u8 0 ++ u8 0 ++ u8 0 ++ u8 0 ++ u8 0 ++ u32 0 ++ u32 0 ++ u32 0 ++ str ""
  ++ u8 0 ++ u8 0 ++ u8 0.

(** A Group layer with three children under the cursor: a Group, a
    StateSet, and a null; a fresh Group at address 0. *)
Definition children_bytes : list byte :=
  u8 1 ++ u32 3 ++ u32 0 ++ Group_bytes 6 [] ++ StateSet_bytes 7 ++ str "".
Definition children_reader : Reader :=
  with_store [IGroup Group0] (Reader_v100 children_bytes).

(** ** Vocabulary of the termination proof *)

(** The counts an instance holds are [unsigned int]s. *)
Definition inst_ok (i : Instance) : Prop :=
  match i with
  | IVec2Array o | IVec3Array o | IVec4Array o => 0 <= elementCount o < 4294967296
  | IPrimitiveSet o | IDrawElementsUInt o => 0 <= indexCount o < 4294967296
  | _ => True
  end.

(** A reader over a buffer of less than 2^62 bytes whose instances are
    [inst_ok]. *)
Definition good (r : Reader) : Prop :=
  0 <= _pos r /\ _length r < 4611686018427387904 /\ Forall inst_ok (store r).

(** How far past the end of the buffer a call may leave the cursor: an
    unchecked skip is below 2^36 bytes, a bracket is 8. *)
Definition dirty : Z := 137438953472.

(** [bounded_with Q rem d c m]: from a good state with at most [rem] bytes
    left whose cursor is at most [d] bytes past the end, [m] does not run
    out of fuel, and when it returns, its value satisfies [Q], the state
    is good, the buffer is the same, and the cursor has not moved back and
    is at most [c] bytes past the end. *)
Definition bounded_with {A} (Q : A -> Prop) (rem d c : Z) (m : M A) : Prop :=
  forall r,
    good r -> 0 <= rem -> _length r - _pos r <= rem -> _pos r <= _length r + d ->
    match m r with
    | Ok a r' =>
        Q a /\ good r' /\ _buffer r' = _buffer r /\
        _pos r <= _pos r' <= _length r + c
    | Throw _ _ => True
    | OutOfFuel => False
    end.

Definition bounded {A} (rem d c : Z) (m : M A) : Prop :=
  bounded_with (fun _ => True) rem d c m.

(** The same buffer and the same store. *)
Definition moved (r r' : Reader) : Prop :=
  _buffer r' = _buffer r /\ store r' = store r.

(** ** Vocabulary of the further properties *)

(** A reader holding a Vec3Array at address 0, bound to identity 7, and an
    image at address 1, bound to identity 9; in the buffer a null object,
    then an inline array with identity 7, or an inline image with
    identity 9. *)
Definition bound_identities (buffer : list byte) : Reader :=
  with_images {[ 9 := 1%nat ]}
    (with_arrays {[ 7 := 0%nat ]}
       (with_store [IVec3Array Vec3Array0; IImage Image0] (Reader_v100 buffer))).

Definition null_then_array : Reader :=
  bound_identities (str "" ++ u8 1 ++ u32 7).
Definition null_then_image : Reader :=
  bound_identities (str "" ++ u8 1 ++ str "osg::Image" ++ u32 9).

(** A reader holding a Group at address 0, the cursor on an empty Geode
    with identity 3. *)
Definition Geode_after_Group : Reader :=
  with_store [IGroup Group0]
    (Reader_v100
       (str "osg::Geode" ++ u32 0 ++ u32 3 ++ Object_fields ++ Node_fields ++ u8 0)).

(** [same_classes r r']: every instance of [r] is in [r'] at the same
    address, with the same dynamic type. *)
Definition same_classes (r r' : Reader) : Prop :=
  forall a i, store r !! a = Some i ->
    exists i', store r' !! a = Some i' /\ className i' = className i.

(** The number of floats in an element of an array. *)
Definition floats_per_element (i : Instance) : Z :=
  match i with
  | IVec2Array _ => 2
  | IVec3Array _ => 3
  | IVec4Array _ => 4
  | _ => 0
  end.

(** An array of three Vec3f elements whose data starts at offset 4 of a
    buffer of 40 bytes. *)
Definition three_Vec3f : Instance :=
  IVec3Array (set_elementData (Some 4) (set_elementCount 3 Vec3Array0)).
Definition forty_bytes : list byte := replicate 40 x00.

(** The cursor is inside a buffer of less than 2^62 bytes. *)
Definition in_buffer (r : Reader) : Prop :=
  0 <= _pos r <= _length r /\ _length r < 4611686018427387904.

(** The prologue [readHeader] reads: magic, type, version, attributes,
    and the compressor name "0". *)
Definition prologue (type version attributes : Z) : list byte :=
  u64 0x1AFB45456C910EA1 ++ u32 type ++ u32 version ++ u32 attributes ++ str "0".

(** The state [readHeader] leaves. *)
Definition after_prologue (version attributes : Z) (buffer : list byte) : Reader :=
  with_pos 25
    (with_useBinaryBrackets (negb (Z.land attributes 0x04 =? 0))
       (with_version version (Reader_new buffer))).

(** The bytes from the cursor on. *)
Definition rest_at (r : Reader) : list byte :=
  drop (Z.to_nat (_pos r)) (_buffer r).

(** The classes the dispatcher instantiates, by their names in the
    stream. *)
Definition supported_classes : list string :=
  ["osg::PagedLOD"; "osg::Group"; "osg::Geode"; "osg::Geometry"; "osg::StateSet";
   "osg::Material"; "osg::Texture2D"; "osg::DefaultUserDataContainer";
   "osg::DrawElementsUInt"; "osg::Vec3Array"; "osg::Vec2Array"]%string.

(** A RangeDataList block with two filenames and one pair of priorities
    (0.5, 1.5) under the cursor (version 120, no brackets); a fresh
    PagedLOD at address 0. *)
Definition fewer_priorities_bytes : list byte :=
  u32 2 ++ str "a.osgb" ++ str "b.osgb" ++ u32 1 ++ u32 0x3F000000 ++ u32 0x3FC00000.
Definition fewer_priorities_reader : Reader :=
  with_store [IPagedLOD PagedLOD0] (with_version 120 (Reader_new fewer_priorities_bytes)).

(** ** Vocabulary of the slices and of trailing bytes *)

(** [ext extra r]: the reader [r] over its buffer followed by [extra]. *)
Definition ext (extra : list byte) (r : Reader) : Reader :=
  {| _buffer := _buffer r ++ extra; _pos := _pos r; _version := _version r;
     _useBinaryBrackets := _useBinaryBrackets r; _objects := _objects r;
     _images := _images r; _arrays := _arrays r; store := store r |}.

(** What the constructors and the reads of [unsigned int]s give: the
    element size of the class, and counts below 2^32. *)
Definition shape_ok (i : Instance) : Prop :=
  match i with
  | IVec2Array o => elementSize o = 8 /\ 0 <= elementCount o < 4294967296
  | IVec3Array o => elementSize o = 12 /\ 0 <= elementCount o < 4294967296
  | IVec4Array o => elementSize o = 16 /\ 0 <= elementCount o < 4294967296
  | IPrimitiveSet o | IDrawElementsUInt o => 0 <= indexCount o < 4294967296
  | IImage o => 0 <= dataLength o < 4294967296
  | _ => True
  end.

(** The slice an instance records ends at or before offset [p]; of an
    array, the slice of [elementCount * elementSize] bytes as the inline
    reader computes it, in 32 bits. *)
Definition slice_ok (p : Z) (i : Instance) : Prop :=
  match i with
  | IVec2Array o | IVec3Array o | IVec4Array o =>
      match elementData o with
      | Some q => 0 <= q /\ q + uint (elementCount o * elementSize o) <= p
      | None => elementCount o = 0
      end
  | IPrimitiveSet o | IDrawElementsUInt o =>
      slice_in_buffer (indexData o) (indexCount o) 4 p
  | IImage o => slice_in_buffer (data o) (dataLength o) 1 p
  | _ => True
  end.

(** Every instance has its shape, and every one but the one at [X] its
    slice before the cursor. *)
Definition slices (X : option nat) (r : Reader) : Prop :=
  forall a i, store r !! a = Some i ->
    shape_ok i /\ (X <> Some a -> slice_ok (_pos r) i).

Definition tidy (extra : list byte) (r : Reader) : Prop :=
  0 <= _pos r /\ _length r + Z.of_nat (length extra) < 4611686018427387904.

(** [sound_at extra Q X d c m r]: from [r], tidy, with its slices, and
    the cursor at most [d] bytes past the end ([d] below zero: that many
    bytes are left), when [m] returns a value it satisfies [Q], the state
    is tidy and has its slices, the buffer is the same, the cursor has
    not moved back and is at most [c] bytes past the end; and if it is
    not past the end, [m] does the same over the buffer followed by
    [extra]. *)
Definition sound_at (extra : list byte) {A} (Q : A -> Prop) (X : option nat)
    (d c : Z) (m : M A) (r : Reader) : Prop :=
  tidy extra r -> slices X r -> _pos r <= _length r + d ->
  match m r with
  | Ok a r' =>
      Q a /\ tidy extra r' /\ slices X r' /\ _buffer r' = _buffer r /\
      _pos r <= _pos r' <= _length r + c /\
      (_pos r' <= _length r -> m (ext extra r) = Ok a (ext extra r'))
  | Throw _ _ | OutOfFuel => True
  end.

Definition sound_with (extra : list byte) {A} (Q : A -> Prop) (X : option nat)
    (d c : Z) (m : M A) : Prop :=
  forall r, sound_at extra Q X d c m r.

Definition sound (extra : list byte) {A} (X : option nat) (d c : Z) (m : M A) : Prop :=
  sound_with extra (fun _ => True) X d c m.

(** The slices of an instance lie in a buffer of [len] bytes; of an
    array, provided its size in bytes fits 32 bits. *)
Definition slices_within (len : Z) (i : Instance) : Prop :=
  match i with
  | IVec2Array o | IVec3Array o | IVec4Array o =>
      elementCount o * elementSize o < 4294967296 ->
      slice_in_buffer (elementData o) (elementCount o) (elementSize o) len
  | IPrimitiveSet o | IDrawElementsUInt o =>
      slice_in_buffer (indexData o) (indexCount o) 4 len
  | IImage o => slice_in_buffer (data o) (dataLength o) 1 len
  | _ => True
  end.

(** What [ReadArray] does once the new array is registered: from the
    element count to the end. *)
Definition ReadArray_payload (arr : nat) : M ptr :=
  elementCount ← read_uint;
  assign arr (over_Array (set_elementCount elementCount));;
  when (elementCount >? 0)
    (pos ← gets _pos; assign arr (over_Array (set_elementData (Some pos))));;
  o ← load_Array arr;
  advance (uint (elementCount * elementSize o));;
  hasIndices ← read_bool;
  if hasIndices then throw "unsupported feature: array with indices"
  else
    b ← read_enum;
    assign arr (over_Array (set_binding b));;
    n ← read_uint;
    assign arr (over_Array (set_normalize (negb (n =? 0))));;
    ret (Some arr).

(** The inline payload of [readImage]. *)
Definition readImage_payload (image : nat) : M unit :=
  size ← read_uint;
  pos ← gets _pos;
  assign image (over_Image (set_data (Some pos)));;
  assign image (over_Image (set_dataLength size));;
  advance size.

(** One primitive set of the legacy Geometry layer, from its index count
    on. *)
Definition legacy_primitive_payload (obj : nat) (p : Z) (prim : nat) : M unit :=
  indexCount ← read_uint;
  assign prim (over_PrimitiveSet (set_indexCount indexCount));;
  when (indexCount >? 0)
    (pos ← gets _pos;
     assign prim (over_PrimitiveSet (set_indexData (Some pos)));;
     advance (size_t (4 * indexCount)));;
  assign obj (over_Geometry (over_primitives (vector_set p (Some prim)))).

(** The layers of [readObjectData] after the Object layer, for the
    classes that end in a skip. *)
Definition DrawElementsUInt_layers (obj : nat) : M ptr :=
  readObjectFields_PrimitiveSet obj;;
  readObjectFields_DrawElementsUInt obj;;
  ret (Some obj).
Definition Vec2Array_layers (obj : nat) : M ptr :=
  readObjectFields_Array obj;;
  readObjectFields_Vec2Array obj;;
  ret (Some obj).
Definition Vec3Array_layers (obj : nat) : M ptr :=
  readObjectFields_Array obj;;
  readObjectFields_Vec3Array obj;;
  ret (Some obj).

(** A file holding one Vec3Array of five elements, and the instance the
    reader makes of it: the 60 bytes of the elements start at offset 70. *)
Definition five_Vec3f_file : list byte := elements_past_end ++ replicate 60 x00.
Definition five_Vec3f : Instance :=
  IVec3Array
    {| Array_Object := {| uniqueId := 1 |}; arrayType := 28; elementSize := 12;
       elementCount := 5; elementData := Some 70; binding := 4;
       normalize := false |}.
Definition five_Vec3f_data : Data :=
  {| rootObject := Some 0%nat; objects := [five_Vec3f] |}.

(** [objects_kept r r']: every identity the object registry of [r] binds
    is bound to the same instance in [r']. *)
Definition objects_kept (r r' : Reader) : Prop := _objects r ⊆ _objects r'.

(** [between u r s]: what a parse may do after one call of the
    dispatcher has returned in [r] and before a later call starts in
    [s], short of completing an object that carries the identity [u].
    The field readers move the cursor (reads and skips), write to the
    store (allocations and assignments to fields), read inline arrays
    and inline images, and call the dispatcher, each call run to its
    end, returning or throwing; and a call of the dispatcher that was
    under way, for an object with an identity other than [u], comes to
    its end and registers its object. *)
Inductive between (u : Z) : Reader -> Reader -> Prop :=
| between_refl r : between u r r
| between_cursor pos r s : between u (with_pos pos r) s -> between u r s
| between_store st r s : between u (with_store st r) s -> between u r s
| between_readObject fuel r r1 s :
    final_state (readObject fuel r) = Some r1 -> between u r1 s -> between u r s
| between_ReadArray r r1 s :
    final_state (ReadArray r) = Some r1 -> between u r1 s -> between u r s
| between_readImage fuel r r1 s :
    final_state (readImage (readObject fuel) r) = Some r1 -> between u r1 s ->
    between u r s
| between_registered u' a r s :
    u' <> u -> between u (with_objects (<[u' := a]> (_objects r)) r) s ->
    between u r s.

(** Three objects one after the other: a Group 5, a Group 6 and a
    reference to 5. *)
Definition three_siblings : Reader :=
  Reader_v100 (Group_bytes 5 [] ++ Group_bytes 6 [] ++ reference_bytes "osg::Group" 5).

(** The states the first and the second of them leave. *)
Definition after_first : Reader :=
  default three_siblings (final_state (readObject 2 three_siblings)).
Definition after_second : Reader :=
  default after_first (final_state (readObject 2 after_first)).

(** ** A graph at the addresses of a run

    [placed alloc base]: a graph whose instances are named by the number
    of their allocation and whose data pointers are offsets, laid out as
    the run with [alloc] and [base] has it: the instance of allocation
    [k] at the address [alloc k], the byte at offset [p] of the buffer
    at the address [base + p].  Every member that is no pointer is kept
    as it is. *)

Section Placed.

Context (alloc : nat -> nat) (base : Z).

#[using="alloc base"] Definition placed_ptr (p : ptr) : ptr := alloc <$> p.
#[using="alloc base"] Definition placed_bufptr (p : bufptr) : bufptr :=
  Z.add base <$> p.
#[using="alloc base"] Definition placed_pair (x : ptr * Z) : ptr * Z :=
  (placed_ptr x.1, x.2).
#[using="alloc base"] Definition placed_pairs (l : list (ptr * Z))
    : list (ptr * Z) :=
  placed_pair <$> l.

#[using="alloc base"] Definition placed_Node (o : Node) : Node :=
  {| Node_Object := Node_Object o; stateSet := placed_ptr (stateSet o) |}.
#[using="alloc base"] Definition placed_Group (o : Group) : Group :=
  {| Group_Node := placed_Node (Group_Node o);
     children := placed_ptr <$> children o |}.
#[using="alloc base"] Definition placed_LOD (o : LOD) : LOD :=
  {| LOD_Group := placed_Group (LOD_Group o); centerMode := centerMode o;
     userDefinedCenter := userDefinedCenter o;
     userDefinedRadius := userDefinedRadius o; rangeList := rangeList o |}.
#[using="alloc base"] Definition placed_PagedLOD (o : PagedLOD) : PagedLOD :=
  {| PagedLOD_LOD := placed_LOD (PagedLOD_LOD o);
     rangeDataList := rangeDataList o |}.
#[using="alloc base"] Definition placed_Geode (o : Geode) : Geode :=
  {| Geode_Node := placed_Node (Geode_Node o);
     drawables := placed_ptr <$> drawables o |}.
#[using="alloc base"] Definition placed_Geometry (o : Geometry) : Geometry :=
  {| Geometry_Drawable := placed_Node (Geometry_Drawable o);
     primitives := placed_ptr <$> primitives o;
     vertexData := placed_ptr (vertexData o);
     normalData := placed_ptr (normalData o);
     colorData := placed_ptr (colorData o);
     secondaryColorData := placed_ptr (secondaryColorData o);
     fogCoordData := placed_ptr (fogCoordData o);
     texCoordDataList := placed_ptr <$> texCoordDataList o |}.
#[using="alloc base"] Definition placed_StateSet (o : StateSet) : StateSet :=
  {| StateSet_Object := StateSet_Object o; modes := modes o;
     attributes := placed_pairs (attributes o);
     textureModesList := textureModesList o;
     textureAttributesList := placed_pairs <$> textureAttributesList o;
     renderingHint := renderingHint o |}.
#[using="alloc base"] Definition placed_Texture2D (o : Texture2D) : Texture2D :=
  {| Texture2D_Texture := Texture2D_Texture o; image := placed_ptr (image o) |}.
#[using="alloc base"] Definition placed_PrimitiveSet (o : PrimitiveSet)
    : PrimitiveSet :=
  {| PrimitiveSet_Object := PrimitiveSet_Object o; mode := mode o;
     indexData := placed_bufptr (indexData o); indexCount := indexCount o |}.
#[using="alloc base"] Definition placed_Array (o : Array) : Array :=
  {| Array_Object := Array_Object o; arrayType := arrayType o;
     elementSize := elementSize o; elementCount := elementCount o;
     elementData := placed_bufptr (elementData o); binding := binding o;
     normalize := normalize o |}.
#[using="alloc base"] Definition placed_Image (o : Image) : Image :=
  {| Image_Object := Image_Object o; data := placed_bufptr (data o);
     dataLength := dataLength o |}.

#[using="alloc base"] Definition placed_Instance (i : Instance) : Instance :=
  match i with
  | IPagedLOD o => IPagedLOD (placed_PagedLOD o)
  | IGroup o => IGroup (placed_Group o)
  | IGeode o => IGeode (placed_Geode o)
  | IGeometry o => IGeometry (placed_Geometry o)
  | IStateSet o => IStateSet (placed_StateSet o)
  | IMaterial o => IMaterial o
  | ITexture2D o => ITexture2D (placed_Texture2D o)
  | IDefaultUserDataContainer o => IDefaultUserDataContainer o
  | IPrimitiveSet o => IPrimitiveSet (placed_PrimitiveSet o)
  | IDrawElementsUInt o => IDrawElementsUInt (placed_PrimitiveSet o)
  | IVec2Array o => IVec2Array (placed_Array o)
  | IVec3Array o => IVec3Array (placed_Array o)
  | IVec4Array o => IVec4Array (placed_Array o)
  | IImage o => IImage (placed_Image o)
  end.

(** The reader state of the run: the registries hold addresses. *)
#[using="alloc base"] Definition placed_Reader (r : Reader) : Reader :=
  {| _buffer := _buffer r; _pos := _pos r; _version := _version r;
     _useBinaryBrackets := _useBinaryBrackets r;
     _objects := alloc <$> _objects r; _images := alloc <$> _images r;
     _arrays := alloc <$> _arrays r; store := placed_Instance <$> store r |}.

#[using="alloc base"] Definition placed_outcome {A} (at_ : A -> A)
    (o : outcome A) : outcome A :=
  match o with
  | Ok a r => Ok (at_ a) (placed_Reader r)
  | Throw e r => Throw e (placed_Reader r)
  | OutOfFuel => OutOfFuel
  end.

#[using="alloc base"] Definition placed_Data (d : Data) : Data :=
  {| rootObject := placed_ptr (rootObject d);
     objects := placed_Instance <$> objects d |}.

#[using="alloc base"] Definition placed_Result (res : Result) : Result :=
  match res with
  | Parsed d => Parsed (placed_Data d)
  | Null e => Null e
  end.

(** [commutes at_ m' m]: run from the state of the run, [m'] does what
    [m] does from the state in allocation numbers and offsets, laid out
    at the addresses of the run; [at_] lays out the value returned. *)
#[using="alloc base"] Definition commutes {A} (at_ : A -> A) (m' m : M A) : Prop :=
  forall r, m' (placed_Reader r) = placed_outcome at_ (m r).

End Placed.

(** Where a second run may put things: every eighth address from 4096
    on, the buffer at 65536. *)
Definition alloc_8 (k : nat) : nat := (4096 + 8 * k)%nat.
(** * Properties *)

(** ** Outcomes and the monad *)

Lemma bind_Ok {A B} (m : M A) (k : A -> M B) r a r' :
  m r = Ok a r' -> bind m k r = k a r'.
Proof. intros H. unfold bind. by rewrite H. Qed.

Lemma bind_Throw {A B} (m : M A) (k : A -> M B) r e r' :
  m r = Throw e r' -> bind m k r = Throw e r'.
Proof. intros H. unfold bind. by rewrite H. Qed.

Lemma bind_inv_Ok {A B} (m : M A) (k : A -> M B) r b r' :
  bind m k r = Ok b r' -> exists a r1, m r = Ok a r1 /\ k a r1 = Ok b r'.
Proof. unfold bind. destruct (m r) as [a r1|e r1|]; [eauto | done | done]. Qed.

Section Preserves.

Context (P : Reader -> Reader -> Prop) `{!Invariant P}.

Lemma preserves_ret {A} (a : A) : preserves P (ret a).
Proof. intros r. apply P_refl. Qed.

Lemma preserves_throw {A} msg : preserves P (throw (A:=A) msg).
Proof. intros r. apply P_refl. Qed.

Lemma preserves_get : preserves P get.
Proof. intros r. apply P_refl. Qed.

Lemma preserves_gets {A} (f : Reader -> A) : preserves P (gets f).
Proof. intros r. apply P_refl. Qed.

Lemma preserves_bind {A B} (m : M A) (k : A -> M B) :
  preserves P m -> (forall a, preserves P (k a)) -> preserves P (bind m k).
Proof.
  intros Hm Hk r. unfold bind. specialize (Hm r).
  destruct (m r) as [a r1|e r1|]; [|done|done].
  specialize (Hk a r1). destruct (k a r1) as [b r2|e r2|]; [| |done].
  - by apply (P_trans r r1 r2).
  - by apply (P_trans r r1 r2).
Qed.

Lemma preserves_fmap {A B} (f : A -> B) (m : M A) :
  preserves P m -> preserves P (fmap_M f m).
Proof. intros Hm. apply preserves_bind; [done|]. intros. apply preserves_ret. Qed.

Lemma preserves_when b (m : M unit) : preserves P m -> preserves P (when b m).
Proof. intros Hm. destruct b; [done|]. apply preserves_ret. Qed.

Lemma preserves_for_from n i (body : Z -> M unit) :
  (forall j, preserves P (body j)) -> preserves P (for_from n i body).
Proof.
  intros Hb. revert i. induction n as [|n IH]; intros i; simpl.
  - apply preserves_ret.
  - apply preserves_bind; [apply Hb | intros _; apply IH].
Qed.

Lemma preserves_for_ size (body : Z -> M unit) :
  (forall j, preserves P (body j)) -> preserves P (for_ size body).
Proof. apply preserves_for_from. Qed.

Lemma preserves_for_acc {A} size (acc : A) (body : Z -> A -> M A) :
  (forall j x, preserves P (body j x)) -> preserves P (for_acc size acc body).
Proof.
  intros Hb. unfold for_acc. generalize 0. revert acc.
  induction (Z.to_nat size) as [|n IH]; intros acc i; simpl.
  - apply preserves_ret.
  - apply preserves_bind; [apply Hb | intros x; apply IH].
Qed.

Lemma preserves_modify (f : Reader -> Reader) :
  (forall r, P r (f r)) -> preserves P (modify f).
Proof. intros Hf r. apply Hf. Qed.

(** Moving the cursor is all the primitive reads do to the state. *)

Lemma preserves_advance n : preserves P (advance n).
Proof. apply preserves_modify. intros r. apply P_pos. Qed.

Lemma preserves_check n : preserves P (check n).
Proof. intros r. unfold check, throw. destruct (_ >? _); apply P_refl. Qed.

Lemma preserves_read_raw n : preserves P (read_raw n).
Proof.
  apply preserves_bind; [apply preserves_get|]. intros r.
  apply preserves_bind; [apply preserves_advance|]. intros _. apply preserves_ret.
Qed.

Lemma preserves_read n : preserves P (read n).
Proof.
  apply preserves_bind; [apply preserves_check|]. intros _.
  apply preserves_fmap, preserves_read_raw.
Qed.

Lemma preserves_read_uint : preserves P read_uint.
Proof. apply preserves_read. Qed.

Lemma preserves_read_int : preserves P read_int.
Proof. apply preserves_fmap, preserves_read. Qed.

Lemma preserves_read_enum : preserves P read_enum.
Proof. apply preserves_read_int. Qed.

Lemma preserves_read_float : preserves P read_float.
Proof. apply preserves_read. Qed.

Lemma preserves_read_double : preserves P read_double.
Proof. apply preserves_read. Qed.

Lemma preserves_read_Vec3d : preserves P read_Vec3d.
Proof.
  apply preserves_bind; [apply preserves_check|]. intros _.
  apply preserves_bind; [apply preserves_read_raw|]. intros. apply preserves_ret.
Qed.

Lemma preserves_read_Vec4f : preserves P read_Vec4f.
Proof.
  apply preserves_bind; [apply preserves_check|]. intros _.
  apply preserves_bind; [apply preserves_read_raw|]. intros. apply preserves_ret.
Qed.

Lemma preserves_read_each n count : preserves P (read_each n count).
Proof.
  induction count as [|c IH]; simpl; [apply preserves_ret|].
  apply preserves_bind; [apply preserves_read_raw|]. intros v.
  apply preserves_bind; [apply IH|]. intros vs. apply preserves_ret.
Qed.

Lemma preserves_read_n n count : preserves P (read_n n count).
Proof.
  apply preserves_bind; [apply preserves_check|]. intros _. apply preserves_read_each.
Qed.

Lemma preserves_read_bool : preserves P read_bool.
Proof.
  apply preserves_bind; [apply preserves_check|]. intros _.
  apply preserves_bind; [apply preserves_get|]. intros r.
  cbv zeta. destruct (_ && _); [apply preserves_throw|].
  apply preserves_bind; [apply preserves_advance|]. intros _. apply preserves_ret.
Qed.

Lemma preserves_read_string : preserves P read_string.
Proof.
  apply preserves_bind; [apply preserves_read_int|]. intros size.
  destruct (_ <? _); [apply preserves_throw|].
  apply preserves_bind; [apply preserves_read_n|]. intros s. apply preserves_ret.
Qed.

Lemma preserves_ReadBeginBracket : preserves P ReadBeginBracket.
Proof.
  apply preserves_bind; [apply preserves_get|]. intros r.
  destruct (_useBinaryBrackets r); [|apply preserves_ret].
  destruct (_ >? _); apply preserves_advance.
Qed.

Lemma preserves_ReadEndBracket : preserves P ReadEndBracket.
Proof. apply preserves_ret. Qed.

Lemma preserves_dynamic_pointer_cast is_T p : preserves P (dynamic_pointer_cast is_T p).
Proof. apply preserves_gets. Qed.

Lemma preserves_load_Array a : preserves P (load_Array a).
Proof. apply preserves_gets. Qed.

Lemma preserves_load_PrimitiveSet a : preserves P (load_PrimitiveSet a).
Proof. apply preserves_gets. Qed.

End Preserves.

#[global] Instance stable_Invariant n : Invariant (stable n).
Proof.
  split.
  - intros r Hn. by split.
  - intros r1 r2 r3 H12 H23 Hn. destruct (H12 Hn).
    destruct (H23 stable_length0). split; try congruence.
    + by etrans.
    + by etrans.
    + intros a Ha. rewrite stable_store1, stable_store0; auto.
  - intros v r Hn. by split.
Qed.

Lemma stable_assign n a f : (n <= a)%nat -> preserves (stable n) (assign a f).
Proof.
  intros Hna r Hn. split; simpl; try done.
  - by rewrite length_alter.
  - intros b Hb. apply list_lookup_alter_ne. lia.
Qed.

(** An allocation adds an address that is not below [n]. *)
Lemma stable_make_shared_bind n {A} i (k : nat -> M A) :
  (forall a, (n <= a)%nat -> preserves (stable n) (k a)) ->
  preserves (stable n) (bind (make_shared i) k).
Proof.
  intros Hk r. unfold bind, make_shared.
  destruct (decide (n <= length (store r))%nat) as [Hn|Hn].
  - specialize (Hk _ Hn (with_store (store r ++ [i]) r)).
    assert (stable n r (with_store (store r ++ [i]) r)) as H0.
    { intros _. split; simpl; try done.
      - rewrite length_app. lia.
      - intros a Ha. apply lookup_app_l. lia. }
    destruct (k _ _); [| |done]; by eapply P_trans.
  - destruct (k _ _); [| |done]; intros ?; lia.
Qed.

(** The tactic that walks through a reader function, one construct at a
    time; the leaves are closed from the hint database [pres]. *)
Create HintDb pres discriminated.

#[global] Hint Resolve preserves_ret preserves_throw preserves_get preserves_gets
  preserves_advance preserves_check preserves_read_raw preserves_read
  preserves_read_uint preserves_read_int preserves_read_enum preserves_read_float
  preserves_read_double preserves_read_Vec3d preserves_read_Vec4f
  preserves_read_n preserves_read_bool preserves_read_string
  preserves_ReadBeginBracket preserves_ReadEndBracket
  preserves_dynamic_pointer_cast preserves_load_Array
  preserves_load_PrimitiveSet : pres.

Ltac pres_step :=
  lazymatch goal with
  | |- preserves _ (bind (make_shared _) _) =>
      apply stable_make_shared_bind; intros ? ?
  | |- preserves _ (bind _ _) => refine (preserves_bind _ _ _ _ _); [ | intros ? ]
  | |- preserves _ (when _ _) => refine (preserves_when _ _ _ _)
  | |- preserves _ (for_ _ _) => refine (preserves_for_ _ _ _ _); intros ?
  | |- preserves _ (for_acc _ _ _) => refine (preserves_for_acc _ _ _ _ _); intros ? ?
  | |- preserves _ (assign _ _) => apply stable_assign; lia
  | |- preserves _ (if ?b then _ else _) => destruct b
  | |- preserves _ (match ?x with _ => _ end) => destruct x
  | |- preserves _ _ => solve [eauto with pres typeclass_instances]
  end.

Ltac pres := repeat pres_step.

Lemma read_Ok n r v r1 :
  read n r = Ok v r1 ->
  r1 = with_pos (size_t (_pos r + n)) r /\ v = le_val (bytes_at r n) /\
  size_t (_pos r + n) <= _length r.
Proof.
  unfold read, bind, fmap_M, bind, check, read_raw, bind, get, advance, modify, ret, throw.
  destruct (_ >? _) eqn:E; [done|]. intros [= <- <-]. repeat split. lia.
Qed.

Lemma read_Throw n r e r1 :
  read n r = Throw e r1 ->
  r1 = r /\ e = {| offset := _pos r; message := "read beyond data length" |} /\
  size_t (_pos r + n) > _length r.
Proof.
  unfold read, bind, fmap_M, bind, check, read_raw, bind, get, advance, modify, ret, throw.
  destruct (_ >? _) eqn:E; [|done]. intros [= <- <-]. repeat split. lia.
Qed.

Lemma read_int_Ok r v r1 :
  read_int r = Ok v r1 ->
  r1 = with_pos (size_t (_pos r + 4)) r /\ v = to_int (le_val (bytes_at r 4)) /\
  size_t (_pos r + 4) <= _length r.
Proof.
  unfold read_int, fmap_M, bind, ret. destruct (read 4 r) eqn:E; try done.
  intros [= <- <-]. apply read_Ok in E as (-> & -> & ?). done.
Qed.

Lemma stable_vacuous n {A} (m : M A) r :
  ¬ (n <= length (store r))%nat -> post (stable n) m r.
Proof. intros Hn. unfold post. destruct (m r); [| |done]; intros ?; lia. Qed.

(** Allocation, then registration under an identity that was not found:
    the pattern of the two inline readers. *)
Lemma stable_make_shared_register n {A} i f (reg : nat -> Reader -> Reader)
    (rest : nat -> M A) r :
  (forall a, stable n (with_store (alter f a (store r ++ [i])) r)
               (reg a (with_store (alter f a (store r ++ [i])) r))) ->
  (forall a, (n <= a)%nat -> preserves (stable n) (rest a)) ->
  post (stable n)
    (bind (make_shared i) (fun a =>
       bind (assign a f) (fun _ => bind (modify (reg a)) (fun _ => rest a)))) r.
Proof.
  intros Hreg Hrest.
  destruct (decide (n <= length (store r))%nat) as [Hn|Hn];
    [|by apply stable_vacuous].
  unfold post, bind, make_shared, assign, modify. simpl.
  specialize (Hrest _ Hn). specialize (Hreg (length (store r))).
  match goal with |- context [rest _ ?r'] => specialize (Hrest r'); set (r4 := r') in * end.
  assert (stable n r r4) as H0.
  { eapply P_trans; [|apply Hreg]. intros _. split; simpl; try done.
    - rewrite length_alter, length_app. lia.
    - intros a Ha. rewrite list_lookup_alter_ne by lia. apply lookup_app_l. lia. }
  destruct (rest _ r4); [| |done]; by eapply P_trans.
Qed.

Lemma post_trans P `{!Invariant P} {A} (m : M A) r0 r :
  P r0 r -> post P m r ->
  match m r with
  | Ok _ r' | Throw _ r' => P r0 r'
  | OutOfFuel => True
  end.
Proof. unfold post. destruct (m r); [| |done]; intros; by eapply P_trans. Qed.

Lemma preserves_ReadArray n : preserves (stable n) ReadArray.
Proof.
  unfold ReadArray. refine (preserves_bind _ _ _ _ _); [pres|]. intros [|]; [|pres].
  refine (preserves_bind _ _ _ _ _); [pres|]. intros u r. unfold bind at 1, get.
  destruct (_arrays r !! u) eqn:E; [apply P_refl|].
  unfold bind at 1. destruct (read_int r) as [type r1|e r1|] eqn:E1; [| |done].
  2:{ pose proof (preserves_read_int (stable n) r) as H. by rewrite E1 in H. }
  apply read_int_Ok in E1 as (-> & _ & _).
  apply post_trans; [apply _|apply P_pos|].
  repeat (destruct (_ =? _);
    [apply stable_make_shared_register;
       [intros a Hn; split; simpl in *; try done; by apply insert_subseteq
       |intros a Ha; pres]|]).
  unfold post, bind, throw. apply P_refl.
Qed.

Section StableFieldReaders.

Context (n : nat) (readObject : M ptr).
Hypothesis readObject_stable : preserves (stable n) readObject.

#[local] Hint Resolve readObject_stable preserves_ReadArray : pres.

Lemma preserves_readObjectIfTrue : preserves (stable n) (readObjectIfTrue readObject).
Proof. unfold readObjectIfTrue. pres. Qed.
#[local] Hint Resolve preserves_readObjectIfTrue : pres.

Lemma preserves_readObjectFields_Object obj :
  preserves (stable n) (readObjectFields_Object readObject obj).
Proof. unfold readObjectFields_Object. pres. Qed.
#[local] Hint Resolve preserves_readObjectFields_Object : pres.

Lemma preserves_readObjectFields_Node obj :
  (n <= obj)%nat -> preserves (stable n) (readObjectFields_Node readObject obj).
Proof. intros. unfold readObjectFields_Node. pres. Qed.

Lemma preserves_readObjectFields_Group obj :
  (n <= obj)%nat -> preserves (stable n) (readObjectFields_Group readObject obj).
Proof. intros. unfold readObjectFields_Group. pres. Qed.

Lemma preserves_readObjectFields_LOD obj :
  (n <= obj)%nat -> preserves (stable n) (readObjectFields_LOD obj).
Proof. intros. unfold readObjectFields_LOD. pres. Qed.

Lemma preserves_readObjectFields_PagedLOD obj :
  (n <= obj)%nat -> preserves (stable n) (readObjectFields_PagedLOD readObject obj).
Proof.
  intros. unfold readObjectFields_PagedLOD, readObjectFields_PagedLOD_RangeDataList,
    readObjectFields_PagedLOD_Children. pres.
Qed.

Lemma preserves_readObjectFields_Geode obj :
  (n <= obj)%nat -> preserves (stable n) (readObjectFields_Geode readObject obj).
Proof. intros. unfold readObjectFields_Geode. pres. Qed.

Lemma preserves_readObjectFields_Drawable obj :
  (n <= obj)%nat -> preserves (stable n) (readObjectFields_Drawable readObject obj).
Proof. intros. unfold readObjectFields_Drawable. pres. Qed.

Lemma preserves_readObjectFields_PrimitiveSet obj :
  (n <= obj)%nat -> preserves (stable n) (readObjectFields_PrimitiveSet obj).
Proof. intros. unfold readObjectFields_PrimitiveSet. pres. Qed.

Lemma preserves_readObjectFields_DrawElementsUInt obj :
  preserves (stable n) (readObjectFields_DrawElementsUInt obj).
Proof. unfold readObjectFields_DrawElementsUInt. pres. Qed.

Lemma preserves_readObjectFields_Geometry obj :
  (n <= obj)%nat -> preserves (stable n) (readObjectFields_Geometry readObject obj).
Proof. intros. unfold readObjectFields_Geometry, skip_inline_array. pres. Qed.

Lemma preserves_readObjectFields_StateSet obj :
  (n <= obj)%nat -> preserves (stable n) (readObjectFields_StateSet readObject obj).
Proof.
  intros. unfold readObjectFields_StateSet, read_modes, read_attributes. pres.
Qed.

Lemma preserves_readObjectFields_StateAttribute obj :
  preserves (stable n) (readObjectFields_StateAttribute readObject obj).
Proof. unfold readObjectFields_StateAttribute. pres. Qed.

Lemma preserves_readObjectFields_Material obj :
  (n <= obj)%nat -> preserves (stable n) (readObjectFields_Material obj).
Proof.
  intros. unfold readObjectFields_Material, read_Property_Vec4f. pres.
Qed.

Lemma preserves_readObjectFields_Texture obj :
  (n <= obj)%nat -> preserves (stable n) (readObjectFields_Texture obj).
Proof.
  intros. unfold readObjectFields_Texture, skip_optional_uint. pres.
Qed.

Lemma preserves_readImage : preserves (stable n) (readImage readObject).
Proof.
  unfold readImage. refine (preserves_bind _ _ _ _ _); [pres|]. intros [|]; [|pres].
  refine (preserves_bind _ _ _ _ _); [pres|]. intros version.
  refine (preserves_bind _ _ _ _ _); [pres|]. intros _.
  refine (preserves_bind _ _ _ _ _); [pres|]. intros u r. unfold bind at 1, get.
  destruct (_images r !! u) eqn:E; [apply P_refl|].
  apply stable_make_shared_register.
  - intros a Hn. split; simpl in *; try done. by apply insert_subseteq.
  - intros a Ha. pres.
Qed.
#[local] Hint Resolve preserves_readImage : pres.

Lemma preserves_readObjectFields_Texture2D obj :
  (n <= obj)%nat -> preserves (stable n) (readObjectFields_Texture2D readObject obj).
Proof. intros. unfold readObjectFields_Texture2D. pres. Qed.

Lemma preserves_readObjectFields_DefaultUserDataContainer obj :
  preserves (stable n) (readObjectFields_DefaultUserDataContainer readObject obj).
Proof. unfold readObjectFields_DefaultUserDataContainer. pres. Qed.

Lemma preserves_readObjectFields_Array obj :
  (n <= obj)%nat -> preserves (stable n) (readObjectFields_Array obj).
Proof. intros. unfold readObjectFields_Array. pres. Qed.

Lemma preserves_readObjectFields_Vec2Array obj :
  preserves (stable n) (readObjectFields_Vec2Array obj).
Proof. unfold readObjectFields_Vec2Array. pres. Qed.

Lemma preserves_readObjectFields_Vec3Array obj :
  preserves (stable n) (readObjectFields_Vec3Array obj).
Proof. unfold readObjectFields_Vec3Array. pres. Qed.

#[local] Hint Resolve preserves_readObjectFields_Node
  preserves_readObjectFields_Group preserves_readObjectFields_LOD
  preserves_readObjectFields_PagedLOD preserves_readObjectFields_Geode
  preserves_readObjectFields_Drawable preserves_readObjectFields_PrimitiveSet
  preserves_readObjectFields_DrawElementsUInt preserves_readObjectFields_Geometry
  preserves_readObjectFields_StateSet preserves_readObjectFields_StateAttribute
  preserves_readObjectFields_Material preserves_readObjectFields_Texture
  preserves_readObjectFields_Texture2D
  preserves_readObjectFields_DefaultUserDataContainer
  preserves_readObjectFields_Array preserves_readObjectFields_Vec2Array
  preserves_readObjectFields_Vec3Array : pres.

Lemma preserves_dispatch className : preserves (stable n) (dispatch readObject className).
Proof.
  unfold dispatch, readObjectData_PagedLOD, readObjectData_Group,
    readObjectData_Geode, readObjectData_Geometry, readObjectData_StateSet,
    readObjectData_Material, readObjectData_Texture2D,
    readObjectData_DefaultUserDataContainer, readObjectData_DrawElementsUInt,
    readObjectData_Vec3Array, readObjectData_Vec2Array.
  pres.
Qed.

End StableFieldReaders.

Lemma returns_ret {A} (v : A) : returns v (ret v).
Proof. by intros r a r' [= <-]. Qed.

Lemma returns_bind {A B} (v : B) (m : M A) (k : A -> M B) :
  (forall x, returns v (k x)) -> returns v (bind m k).
Proof. intros Hk r b r' (a & r1 & _ & H)%bind_inv_Ok. by eapply Hk. Qed.

Lemma returns_make_shared_bind i (k : nat -> M ptr) r p r' :
  (forall a, returns (Some a) (k a)) ->
  bind (make_shared i) k r = Ok p r' -> p = Some (length (store r)).
Proof. intros Hk H. unfold bind, make_shared in H. by eapply Hk. Qed.

Lemma dispatch_returns readObject className r p r' :
  dispatch readObject className r = Ok p r' -> p = Some (length (store r)).
Proof.
  unfold dispatch.
  repeat (destruct (String.eqb className _);
    [apply returns_make_shared_bind; intros a;
     repeat (apply returns_bind; intros ?); apply returns_ret|]).
  done.
Qed.

Lemma stable_with_objects n v r : stable n r (with_objects v r).
Proof. intros Hn. by split. Qed.

Lemma preserves_readObject_body n readObject :
  preserves (stable n) readObject ->
  preserves (stable n) (readObject_body readObject).
Proof.
  intros Hrec. unfold readObject_body.
  refine (preserves_bind _ _ _ _ _); [pres|]. intros className.
  destruct (String.eqb className ""); [pres|].
  refine (preserves_bind _ _ _ _ _); [pres|]. intros _.
  refine (preserves_bind _ _ _ _ _); [pres|]. intros uniqueId.
  refine (preserves_bind _ _ _ _ _); [pres|]. intros r0.
  destruct (_objects r0 !! uniqueId); [pres|].
  intros r.
  destruct (decide (n <= length (store r))%nat) as [Hn|Hn];
    [|by apply stable_vacuous].
  pose proof (preserves_dispatch n readObject Hrec className r) as Hd.
  unfold bind at 1.
  destruct (dispatch readObject className r) as [p r1|e r1|] eqn:E; [|done|done].
  apply dispatch_returns in E as ->.
  apply post_trans; [apply _|done|].
  match goal with
  | |- post _ ?m _ => assert (preserves (stable n) m) as HK; [|apply HK]
  end.
  pres. apply preserves_modify. intros r2. apply stable_with_objects.
Qed.

(** Whatever the fuel, a call of [readObject] leaves alone what [stable]
    lists. *)
Lemma preserves_readObject n fuel : preserves (stable n) (readObject fuel).
Proof.
  induction fuel as [|fuel IH]; [done|]. simpl. by apply preserves_readObject_body.
Qed.

(** In particular the instances that exist when it is called. *)
Lemma readObject_frame fuel r p r' a i :
  readObject fuel r = Ok p r' -> store r !! a = Some i -> store r' !! a = Some i.
Proof.
  intros H Ha. pose proof (preserves_readObject (length (store r)) fuel r) as Hs.
  rewrite H in Hs. destruct (Hs (le_n _)) as [_ _ _ _ _ _ Hst].
  rewrite Hst; [done|]. by eapply lookup_lt_Some.
Qed.

Lemma refines_refl {A} (m : M A) : refines m m.
Proof. by intros r _. Qed.

Lemma refines_bind {A B} (m m' : M A) (k k' : A -> M B) :
  refines m m' -> (forall a, refines (k a) (k' a)) ->
  refines (bind m k) (bind m' k').
Proof.
  intros Hm Hk r. unfold bind. intros H.
  rewrite Hm by (by intros E; rewrite E in H).
  destruct (m r) as [a r1|e r1|]; [|done|done]. by apply Hk.
Qed.

Lemma refines_when b (m m' : M unit) : refines m m' -> refines (when b m) (when b m').
Proof. intros H. destruct b; [done|apply refines_refl]. Qed.

Lemma refines_for_from n i (body body' : Z -> M unit) :
  (forall j, refines (body j) (body' j)) ->
  refines (for_from n i body) (for_from n i body').
Proof.
  intros Hb. revert i. induction n as [|n IH]; intros i; simpl.
  - apply refines_refl.
  - apply refines_bind; [apply Hb | intros _; apply IH].
Qed.

Lemma refines_for_ size (body body' : Z -> M unit) :
  (forall j, refines (body j) (body' j)) -> refines (for_ size body) (for_ size body').
Proof. apply refines_for_from. Qed.

Lemma refines_for_acc {A} size (acc : A) (body body' : Z -> A -> M A) :
  (forall j x, refines (body j x) (body' j x)) ->
  refines (for_acc size acc body) (for_acc size acc body').
Proof.
  intros Hb. unfold for_acc. generalize 0. revert acc.
  induction (Z.to_nat size) as [|n IH]; intros acc i; simpl.
  - apply refines_refl.
  - apply refines_bind; [apply Hb | intros x; apply IH].
Qed.

Create HintDb mono discriminated.

Ltac mono_step :=
  lazymatch goal with
  | |- refines ?m ?m => apply refines_refl
  | |- refines (bind _ _) (bind _ _) => apply refines_bind; [ | intros ? ]
  | |- refines (when _ _) (when _ _) => apply refines_when
  | |- refines (for_ _ _) (for_ _ _) => apply refines_for_; intros ?
  | |- refines (for_acc _ _ _) (for_acc _ _ _) => apply refines_for_acc; intros ? ?
  | |- refines (if ?b then _ else _) (if ?b then _ else _) => destruct b
  | |- refines (match ?x with _ => _ end) (match ?x with _ => _ end) => destruct x
  | |- refines _ _ => solve [eauto with mono]
  end.

Ltac mono := repeat mono_step.

Section FuelFieldReaders.

Context (readObject readObject' : M ptr).
Hypothesis readObject_refines : refines readObject readObject'.

#[local] Hint Resolve readObject_refines : mono.

Lemma refines_readObjectIfTrue :
  refines (readObjectIfTrue readObject) (readObjectIfTrue readObject').
Proof. unfold readObjectIfTrue. mono. Qed.
#[local] Hint Resolve refines_readObjectIfTrue : mono.

Lemma refines_readObjectFields_Object obj :
  refines (readObjectFields_Object readObject obj)
          (readObjectFields_Object readObject' obj).
Proof. unfold readObjectFields_Object. mono. Qed.
#[local] Hint Resolve refines_readObjectFields_Object : mono.

Lemma refines_readObjectFields_Node obj :
  refines (readObjectFields_Node readObject obj)
          (readObjectFields_Node readObject' obj).
Proof. unfold readObjectFields_Node. mono. Qed.

Lemma refines_readObjectFields_Group obj :
  refines (readObjectFields_Group readObject obj)
          (readObjectFields_Group readObject' obj).
Proof. unfold readObjectFields_Group. mono. Qed.

Lemma refines_readObjectFields_PagedLOD obj :
  refines (readObjectFields_PagedLOD readObject obj)
          (readObjectFields_PagedLOD readObject' obj).
Proof. unfold readObjectFields_PagedLOD, readObjectFields_PagedLOD_Children. mono. Qed.

Lemma refines_readObjectFields_Geode obj :
  refines (readObjectFields_Geode readObject obj)
          (readObjectFields_Geode readObject' obj).
Proof. unfold readObjectFields_Geode. mono. Qed.

Lemma refines_readObjectFields_Drawable obj :
  refines (readObjectFields_Drawable readObject obj)
          (readObjectFields_Drawable readObject' obj).
Proof. unfold readObjectFields_Drawable. mono. Qed.

Lemma refines_readObjectFields_Geometry obj :
  refines (readObjectFields_Geometry readObject obj)
          (readObjectFields_Geometry readObject' obj).
Proof. unfold readObjectFields_Geometry. mono. Qed.

Lemma refines_readObjectFields_StateSet obj :
  refines (readObjectFields_StateSet readObject obj)
          (readObjectFields_StateSet readObject' obj).
Proof. unfold readObjectFields_StateSet, read_attributes. mono. Qed.

Lemma refines_readObjectFields_StateAttribute obj :
  refines (readObjectFields_StateAttribute readObject obj)
          (readObjectFields_StateAttribute readObject' obj).
Proof. unfold readObjectFields_StateAttribute. mono. Qed.

Lemma refines_readImage : refines (readImage readObject) (readImage readObject').
Proof. unfold readImage. mono. Qed.
#[local] Hint Resolve refines_readImage : mono.

Lemma refines_readObjectFields_Texture2D obj :
  refines (readObjectFields_Texture2D readObject obj)
          (readObjectFields_Texture2D readObject' obj).
Proof. unfold readObjectFields_Texture2D. mono. Qed.

Lemma refines_readObjectFields_DefaultUserDataContainer obj :
  refines (readObjectFields_DefaultUserDataContainer readObject obj)
          (readObjectFields_DefaultUserDataContainer readObject' obj).
Proof. unfold readObjectFields_DefaultUserDataContainer. mono. Qed.

#[local] Hint Resolve refines_readObjectFields_Node
  refines_readObjectFields_Group refines_readObjectFields_PagedLOD
  refines_readObjectFields_Geode refines_readObjectFields_Drawable
  refines_readObjectFields_Geometry refines_readObjectFields_StateSet
  refines_readObjectFields_StateAttribute refines_readObjectFields_Texture2D
  refines_readObjectFields_DefaultUserDataContainer : mono.

Lemma refines_dispatch className :
  refines (dispatch readObject className) (dispatch readObject' className).
Proof.
  unfold dispatch, readObjectData_PagedLOD, readObjectData_Group,
    readObjectData_Geode, readObjectData_Geometry, readObjectData_StateSet,
    readObjectData_Material, readObjectData_Texture2D,
    readObjectData_DefaultUserDataContainer, readObjectData_DrawElementsUInt,
    readObjectData_Vec3Array, readObjectData_Vec2Array.
  mono.
Qed.
#[local] Hint Resolve refines_dispatch : mono.

Lemma refines_readObject_body :
  refines (readObject_body readObject) (readObject_body readObject').
Proof. unfold readObject_body. mono. Qed.

End FuelFieldReaders.

(** More fuel does not change an outcome that did not need it. *)
Lemma readObject_fuel_S fuel : refines (readObject fuel) (readObject (S fuel)).
Proof.
  induction fuel as [|fuel IH]; [by intros r H|].
  change (refines (readObject_body (readObject fuel))
                  (readObject_body (readObject (S fuel)))).
  by apply refines_readObject_body.
Qed.

Lemma readObject_fuel_le fuel fuel' :
  (fuel <= fuel')%nat -> refines (readObject fuel) (readObject fuel').
Proof.
  induction 1 as [|fuel' _ IH]; [apply refines_refl|].
  intros r H. rewrite <- (IH r H). apply readObject_fuel_S. by rewrite (IH r H).
Qed.

Lemma Data_read_fuel_le fuel fuel' buffer res :
  (fuel <= fuel')%nat ->
  Data_read_fuel fuel buffer = Some res -> Data_read_fuel fuel' buffer = Some res.
Proof.
  intros Hle. unfold Data_read_fuel.
  pose proof (refines_bind readHeader readHeader (fun _ => readObject fuel)
    (fun _ => readObject fuel') (refines_refl _)
    (fun _ => readObject_fuel_le _ _ Hle) (Reader_new buffer)) as H.
  unfold parse.
  destruct (bind readHeader (fun _ => readObject fuel) _) eqn:E; [| |done].
  - by rewrite H.
  - by rewrite H.
Qed.

(** * The cursor *)

Lemma bytes_at_lookup r b :
  0 <= _pos r -> _buffer r !! Z.to_nat (_pos r) = Some b -> bytes_at r 1 = [b].
Proof.
  intros _ H. unfold bytes_at. rewrite (drop_S _ _ _ H). reflexivity.
Qed.

Lemma size_t_le z : 0 <= z -> size_t z <= z.
Proof. intros. unfold size_t, wrap. apply Z.mod_le; lia. Qed.

(** C5.  Wherever the reader reads a boolean, a byte other than 0 and 1
    under the cursor raises "invalid bool value" with the offset of that
    byte, and nothing that follows the read is run: the whole computation
    ends in that error, which [Data::read] reports with the offset. *)
Theorem read_bool_invalid {A} (r : Reader) (b : byte) (k : bool -> M A) :
  0 <= _pos r ->
  _buffer r !! Z.to_nat (_pos r) = Some b ->
  byte_val b <> 0 ->
  byte_val b <> 1 ->
  bind read_bool k r
    = Throw {| offset := _pos r; message := "invalid bool value" |} r /\
  error_message {| offset := _pos r; message := "invalid bool value" |}
    = String.append "miniosgb reader error at offset "
        (String.append (to_string (_pos r)) ": invalid bool value").
Proof.
  intros Hpos Hb H0 H1. split; [|reflexivity].
  pose proof (lookup_lt_Some _ _ _ Hb) as Hlt.
  unfold bind, read_bool, bind, check, get, throw.
  assert ((size_t (_pos r + 1) >? _length r) = false) as ->.
  { pose proof (size_t_le (_pos r + 1)). unfold _length. lia. }
  rewrite (bytes_at_lookup r b Hpos Hb).
  change (le_val [b]) with (byte_val b + 256 * 0).
  replace (byte_val b + 256 * 0) with (byte_val b) by lia.
  destruct (byte_val b =? 1) eqn:E1; [lia|].
  destruct (byte_val b =? 0) eqn:E0; [lia|]. reflexivity.
Qed.

Lemma read_bool_invalid_witness :
  bind read_bool ret (with_pos 2 (Reader_new [x01; x00; x02]))
    = Throw {| offset := 2; message := "invalid bool value" |}
        (with_pos 2 (Reader_new [x01; x00; x02])) /\
  error_message {| offset := 2; message := "invalid bool value" |}
    = "miniosgb reader error at offset 2: invalid bool value".
Proof.
  apply (read_bool_invalid (with_pos 2 (Reader_new [x01; x00; x02])) x02 ret).
  - simpl. lia.
  - reflexivity.
  - vm_compute. discriminate.
  - vm_compute. discriminate.
Defined.

(** * The entry point *)

(** [Data::read] hands back a [Data] only with a root in it. *)
Lemma Data_read_root fuel buffer d :
  Data_read_fuel fuel buffer = Some (Parsed d) -> is_Some (rootObject d).
Proof.
  unfold Data_read_fuel. destruct (parse fuel buffer) as [root r|e r|]; [|done|done].
  destruct (bool_decide (is_Some root)) eqn:E; simpl; [|done].
  destruct (ended r); [|done]. intros [= <-]. simpl. by apply bool_decide_eq_true in E.
Qed.

(** C2, as the code has it.  On the empty scene of the specification the
    prologue is accepted and the dispatcher takes the four zero bytes that
    follow it for an empty class name: it returns a null root at offset 29
    of 33, so [ended()] is false, nothing is thrown, and [Data::read]
    returns null without a message.  The same holds for the scene without
    the bracket, where the buffer is consumed to its end: a null root is
    never handed back in a [Data]. *)
Theorem empty_scene_is_null :
  (exists r, parse 1 empty_scene = Ok None r /\
             _pos r = 29 /\ _length r = 33 /\ ended r = false) /\
  Data_read empty_scene = Some (Null None) /\
  (exists r, parse 1 null_root = Ok None r /\ ended r = true) /\
  Data_read null_root = Some (Null None).
Proof.
  split; [|split; [|split]].
  - eexists. split; [vm_compute; reflexivity|]. by vm_compute.
  - by vm_compute.
  - eexists. split; [vm_compute; reflexivity|]. by vm_compute.
  - by vm_compute.
Qed.

(** C2 as claimed fails: the empty scene does not give a [Data] with a
    null root. *)
Lemma empty_scene_not_parsed :
  ~ exists d, Data_read empty_scene = Some (Parsed d) /\ rootObject d = None.
Proof. intros (d & H & _). vm_compute in H. discriminate. Qed.

(** * Skips *)

(** C10.  [ReadBeginBracket] and the payload layers of Vec2Array,
    Vec3Array and DrawElementsUInt return from every state: they move the
    cursor and check nothing.  Inputs exist on which each kind of skip,
    that of the inline image included, puts the cursor past the end of the
    buffer, the failure coming only later: from the next read, whose
    error carries an offset beyond the length, or from [ended()] being
    false once the root is read. *)
Theorem skips_are_unchecked :
  (forall r, exists r', ReadBeginBracket r = Ok tt r') /\
  (forall obj r, exists r', readObjectFields_Vec2Array obj r = Ok tt r') /\
  (forall obj r, exists r', readObjectFields_Vec3Array obj r = Ok tt r') /\
  (forall obj r, exists r', readObjectFields_DrawElementsUInt obj r = Ok tt r') /\
  (exists r,
     parse 1 bracket_past_end
       = Throw {| offset := 43; message := "read beyond data length" |} r /\
     _length r = 39 /\
     Data_read bracket_past_end
       = Some (Null (Some "miniosgb reader error at offset 43: read beyond data length"))) /\
  (exists r,
     parse 1 elements_past_end = Ok (Some 0%nat) r /\
     _pos r = 130 /\ _length r = 70 /\
     Data_read elements_past_end = Some (Null None)) /\
  (exists r,
     parse 1 indices_past_end = Ok (Some 0%nat) r /\
     _pos r = 479 /\ _length r = 79 /\
     Data_read indices_past_end = Some (Null None)) /\
  (exists r,
     parse 1 image_past_end
       = Throw {| offset := 1168; message := "read beyond data length" |} r /\
     _length r = 168 /\
     Data_read image_past_end
       = Some (Null (Some "miniosgb reader error at offset 1168: read beyond data length"))).
Proof.
  repeat split.
  - intros r. unfold ReadBeginBracket, bind, get, advance, modify, ret.
    destruct (_useBinaryBrackets r); [|eauto]. destruct (_ >? _); eauto.
  - intros obj r. unfold readObjectFields_Vec2Array, bind, load_Array, gets,
      advance, modify. eauto.
  - intros obj r. unfold readObjectFields_Vec3Array, bind, load_Array, gets,
      advance, modify. eauto.
  - intros obj r. unfold readObjectFields_DrawElementsUInt, bind,
      load_PrimitiveSet, gets, advance, modify. eauto.
  - eexists. split; [vm_compute; reflexivity|]. by vm_compute.
  - eexists. split; [vm_compute; reflexivity|]. by vm_compute.
  - eexists. split; [vm_compute; reflexivity|]. by vm_compute.
  - eexists. split; [vm_compute; reflexivity|]. by vm_compute.
Qed.

(** * Payload slices *)

(** C4 at its failing input.  The inline array reader advances the cursor
    by [elementCount * elementSize] computed in 32 bits.  A Vec4Array
    announcing 0x10000000 elements moves it by 0 bytes; the parse of a
    100-byte buffer succeeds, and its vertex array claims 4 GiB from
    offset 84. *)
Theorem inline_array_slice_overflows :
  exists d g a,
    Data_read overflowing_inline_array = Some (Parsed d) /\
    rootObject d = Some 0%nat /\
    objects d !! 0%nat = Some (IGeometry g) /\
    vertexData g = Some 1%nat /\
    objects d !! 1%nat = Some (IVec4Array a) /\
    elementCount a = 0x10000000 /\ elementSize a = 16 /\
    elementData a = Some 84 /\
    uint (elementCount a * elementSize a) = 0 /\
    Z.of_nat (length overflowing_inline_array) = 100 /\
    ~ slice_in_buffer (elementData a) (elementCount a) (elementSize a)
        (Z.of_nat (length overflowing_inline_array)).
Proof.
  eexists _, _, _. split; [vm_compute; reflexivity|].
  repeat split; try reflexivity.
  vm_compute. intros [_ H]. by apply H.
Qed.

(** * The registries *)

#[global] Instance cursor_moved_Invariant : Invariant cursor_moved.
Proof.
  split.
  - by intros [].
  - unfold cursor_moved. intros r1 r2 r3 -> ->. reflexivity.
  - intros v r. reflexivity.
Qed.

Lemma read_string_cursor r s r' : read_string r = Ok s r' -> cursor_moved r r'.
Proof. intros H. pose proof (preserves_read_string cursor_moved r). by rewrite H in *. Qed.

Lemma read_uint_cursor r v r' : read_uint r = Ok v r' -> cursor_moved r r'.
Proof. intros H. pose proof (preserves_read_uint cursor_moved r). by rewrite H in *. Qed.

Lemma read_int_cursor r v r' : read_int r = Ok v r' -> cursor_moved r r'.
Proof. intros H. pose proof (preserves_read_int cursor_moved r). by rewrite H in *. Qed.

Lemma read_bool_cursor r v r' : read_bool r = Ok v r' -> cursor_moved r r'.
Proof. intros H. pose proof (preserves_read_bool cursor_moved r). by rewrite H in *. Qed.

Lemma ReadBeginBracket_cursor r v r' : ReadBeginBracket r = Ok v r' -> cursor_moved r r'.
Proof.
  intros H. pose proof (preserves_ReadBeginBracket cursor_moved r). by rewrite H in *.
Qed.

Lemma cursor_moved_trans r1 r2 r3 :
  cursor_moved r1 r2 -> cursor_moved r2 r3 -> cursor_moved r1 r3.
Proof. apply P_trans. Qed.

(** The lookup branch of the dispatcher.  When it reads a class name that
    is not empty, the bracket prefix and an identity that is in the object
    registry at that moment, it returns the registered instance; the state
    it leaves is the one after these three reads, which differs from the
    state before only in the cursor.  One unit of fuel is enough. *)
Lemma readObject_lookup fuel r className r1 r2 r3 uniqueId a :
  read_string r = Ok className r1 ->
  className <> EmptyString ->
  ReadBeginBracket r1 = Ok tt r2 ->
  read_uint r2 = Ok uniqueId r3 ->
  _objects r !! uniqueId = Some a ->
  readObject (S fuel) r = Ok (Some a) r3 /\ cursor_moved r r3.
Proof.
  intros H1 Hne H2 H3 Ha.
  assert (cursor_moved r r3) as Hc.
  { eapply cursor_moved_trans; [by eapply read_string_cursor|].
    eapply cursor_moved_trans; [by eapply ReadBeginBracket_cursor|].
    by eapply read_uint_cursor. }
  split; [|done]. simpl. unfold readObject_body.
  rewrite (bind_Ok _ _ _ _ _ H1).
  destruct (String.eqb_spec className ""); [done|].
  rewrite (bind_Ok _ _ _ _ _ H2), (bind_Ok _ _ _ _ _ H3).
  unfold bind at 1, get. rewrite Hc. simpl. by rewrite Ha.
Qed.


(** ** Registration and field readers *)

Lemma final_state_preserves P {A} (m : M A) r r' :
  preserves P m -> final_state (m r) = Some r' -> P r r'.
Proof. intros H. specialize (H r). destruct (m r); simpl; congruence. Qed.

(** The image reader registers first: once the identity has been read and
    not found, every way the call can end, a throw from the first payload
    read included, leaves the new image in the registry. *)
Lemma readImage_registers_first fuel r r1 r2 r3 u r' :
  read_bool r = Ok true r1 ->
  when (_version r1 >? 94) (read_string;; ret tt) r1 = Ok tt r2 ->
  read_uint r2 = Ok u r3 ->
  _images r3 !! u = None ->
  final_state (readImage (readObject fuel) r) = Some r' ->
  _images r' !! u = Some (length (store r)).
Proof.
  intros H1 H2 H3 Hu.
  assert (store r3 = store r) as <-.
  { apply read_bool_cursor in H1. apply read_uint_cursor in H3.
    assert (cursor_moved r1 r2) as H2'.
    { pose proof (preserves_when cursor_moved (_version r1 >? 94)
        (read_string;; ret tt)) as Hw.
      eapply final_state_preserves; [apply Hw; pres|]. by rewrite H2. }
    rewrite H3, H2', H1. reflexivity. }
  unfold readImage.
  rewrite (bind_Ok _ _ _ _ _ H1). unfold bind at 1, gets.
  rewrite (bind_Ok _ _ _ _ _ H2), (bind_Ok _ _ _ _ _ H3).
  unfold bind at 1, get. rewrite Hu.
  unfold bind at 1, make_shared. unfold bind at 1, assign at 1, modify at 1.
  unfold bind at 1, modify at 1. intros Hf.
  pose proof (preserves_readObjectFields_Object 0 _ (preserves_readObject 0 fuel)) as HO.
  match type of Hf with
  | final_state (bind ?m ?k ?r4) = _ =>
      assert (preserves (stable 0) (bind m k)) as Hs by pres;
      apply (final_state_preserves _ _ _ _ Hs) in Hf
  end.
  destruct (Hf (Nat.le_0_l _)) as [_ _ _ Hi _ _ _].
  eapply lookup_weaken; [|exact Hi]. simpl. apply lookup_insert_eq.
Qed.

(** So does the inline array reader. *)
Lemma ReadArray_registers_first r r1 r2 r3 u type r' :
  read_bool r = Ok true r1 ->
  read_uint r1 = Ok u r2 ->
  _arrays r2 !! u = None ->
  read_int r2 = Ok type r3 ->
  type = 15 \/ type = 16 \/ type = 17 ->
  final_state (ReadArray r) = Some r' ->
  _arrays r' !! u = Some (length (store r)).
Proof.
  intros H1 H2 Hu H3 Ht.
  assert (store r3 = store r) as Hst.
  { apply read_bool_cursor in H1. apply read_uint_cursor in H2.
    apply read_int_cursor in H3. rewrite H3, H2, H1. reflexivity. }
  rewrite <- Hst. unfold ReadArray.
  rewrite (bind_Ok _ _ _ _ _ H1), (bind_Ok _ _ _ _ _ H2).
  unfold bind at 1, get. rewrite Hu. rewrite (bind_Ok _ _ _ _ _ H3).
  assert (forall i,
    final_state (bind (make_shared i) (fun arr =>
      assign arr (over_Object (set_uniqueId u));;
      modify (fun r => with_arrays (<[u := arr]> (_arrays r)) r);;
      elementCount ← read_uint;
      assign arr (over_Array (set_elementCount elementCount));;
      when (elementCount >? 0)
        (pos ← gets _pos; assign arr (over_Array (set_elementData (Some pos))));;
      o ← load_Array arr;
      advance (uint (elementCount * elementSize o));;
      hasIndices ← read_bool;
      if hasIndices then throw "unsupported feature: array with indices"
      else
        b ← read_enum;
        assign arr (over_Array (set_binding b));;
        n ← read_uint;
        assign arr (over_Array (set_normalize (negb (n =? 0))));;
        ret (Some arr)) r3) = Some r' ->
    _arrays r' !! u = Some (length (store r3))) as Hgen.
  { intros i. unfold bind at 1, make_shared. unfold bind at 1, assign at 1, modify at 1.
    unfold bind at 1, modify at 1. intros Hf.
    match type of Hf with
    | final_state (bind ?m ?k ?r4) = _ =>
        assert (preserves (stable 0) (bind m k)) as Hs by pres;
        apply (final_state_preserves _ _ _ _ Hs) in Hf
    end.
    destruct (Hf (Nat.le_0_l _)) as [_ _ _ _ Hi _ _].
    eapply lookup_weaken; [|exact Hi]. simpl. apply lookup_insert_eq. }
  destruct Ht as [->|[->| ->]]; apply Hgen.
Qed.

(** The dispatcher registers last: the field readers start from a state
    in which the identity is not registered, and the insertion is applied
    to the state they return; when they throw, the dispatcher stops in the
    state of the throw, nothing registered by this call. *)
Lemma readObject_registers_last fuel r className r1 r2 r3 u :
  read_string r = Ok className r1 ->
  className <> EmptyString ->
  ReadBeginBracket r1 = Ok tt r2 ->
  read_uint r2 = Ok u r3 ->
  _objects r3 !! u = None ->
  readObject (S fuel) r =
    match dispatch (readObject fuel) className r3 with
    | Ok object r4 => Ok object (registered u object r4)
    | Throw e r4 => Throw e r4
    | OutOfFuel => OutOfFuel
    end.
Proof.
  intros H1 Hne H2 H3 Hu. simpl. unfold readObject_body.
  rewrite (bind_Ok _ _ _ _ _ H1).
  destruct (String.eqb_spec className ""); [done|].
  rewrite (bind_Ok _ _ _ _ _ H2), (bind_Ok _ _ _ _ _ H3).
  unfold bind at 1, get. rewrite Hu. unfold bind at 1.
  destruct (dispatch _ _ _) as [[a|] r4|e r4|]; reflexivity.
Qed.

(** C3, as the code has it.  The inline image reader and the inline array
    reader insert the new instance into their registry before any payload
    read: whatever the outcome of the call, a throw from the first payload
    read included, the state it ends in has the identity registered to the
    new address.  The object dispatcher inserts after: the field readers
    run from a state in which the identity is not registered, and the
    dispatcher registers the object in the state they return, or stops in
    the state of their throw.  A reference to an image from inside its own
    fields resolves to that image: in [image_self_reference] the texture
    read as user data of image 2 gets the image its owner has. *)
Theorem registration_order :
  (forall fuel r r1 r2 r3 u r',
     read_bool r = Ok true r1 ->
     when (_version r1 >? 94) (read_string;; ret tt) r1 = Ok tt r2 ->
     read_uint r2 = Ok u r3 ->
     _images r3 !! u = None ->
     final_state (readImage (readObject fuel) r) = Some r' ->
     _images r' !! u = Some (length (store r))) /\
  (forall r r1 r2 r3 u type r',
     read_bool r = Ok true r1 ->
     read_uint r1 = Ok u r2 ->
     _arrays r2 !! u = None ->
     read_int r2 = Ok type r3 ->
     type = 15 \/ type = 16 \/ type = 17 ->
     final_state (ReadArray r) = Some r' ->
     _arrays r' !! u = Some (length (store r))) /\
  (forall fuel r className r1 r2 r3 u,
     read_string r = Ok className r1 ->
     className <> EmptyString ->
     ReadBeginBracket r1 = Ok tt r2 ->
     read_uint r2 = Ok u r3 ->
     _objects r3 !! u = None ->
     readObject (S fuel) r =
       match dispatch (readObject fuel) className r3 with
       | Ok object r4 => Ok object (registered u object r4)
       | Throw e r4 => Throw e r4
       | OutOfFuel => OutOfFuel
       end) /\
  (exists d t1 i2 t3,
     Data_read image_self_reference = Some (Parsed d) /\
     objects d = [ITexture2D t1; IImage i2; ITexture2D t3] /\
     image t1 = Some 1%nat /\ image t3 = Some 1%nat /\
     uniqueId (Image_Object i2) = 2).
Proof.
  split; [|split; [|split]].
  - intros. by eapply readImage_registers_first.
  - intros. by eapply ReadArray_registers_first.
  - intros. by eapply readObject_registers_last.
  - eexists _, _, _, _. split; [vm_compute; reflexivity|]. repeat split.
Qed.

Lemma registration_order_witness :
  (exists e r',
     readImage (readObject 1) (Reader_v100 image_start) = Throw e r' /\
     _images r' !! 2 = Some 0%nat) /\
  (exists e r',
     ReadArray (Reader_v100 array_start) = Throw e r' /\
     _arrays r' !! 7 = Some 0%nat) /\
  (exists e r',
     readObject 1 (Reader_v100 object_start) = Throw e r' /\
     _objects r' !! 5 = None /\ store r' = [IGroup Group0]).
Proof.
  destruct registration_order as (Himage & Harray & Hobject & _).
  split; [|split].
  - eexists _, _. split; [vm_compute; reflexivity|].
    eapply (Himage 1%nat (Reader_v100 image_start)).
    + vm_compute. reflexivity.
    + vm_compute. reflexivity.
    + vm_compute. reflexivity.
    + vm_compute. reflexivity.
    + vm_compute. reflexivity.
  - eexists _, _. split; [vm_compute; reflexivity|].
    eapply (Harray (Reader_v100 array_start)).
    + vm_compute. reflexivity.
    + vm_compute. reflexivity.
    + vm_compute. reflexivity.
    + vm_compute. reflexivity.
    + right. left. reflexivity.
    + vm_compute. reflexivity.
  - eexists _, _. split.
    + etrans.
      * eapply (Hobject 0%nat (Reader_v100 object_start) "osg::Group").
        -- vm_compute. reflexivity.
        -- discriminate.
        -- vm_compute. reflexivity.
        -- vm_compute. reflexivity.
        -- vm_compute. reflexivity.
      * vm_compute. reflexivity.
    + split; vm_compute; reflexivity.
Defined.

(** C3 as claimed fails for the objects of the dispatcher.  On a Group
    cut right after its identity the first field read throws in a state
    where the Group is allocated and the object registry is empty; and a
    Group that meets its own identity among its children does not get
    itself back: the child is a second instance. *)
Lemma object_not_registered_before_fields :
  (exists e r,
     parse 1 cut_after_identity = Throw e r /\
     store r = [IGroup Group0] /\ _objects r = ∅) /\
  (exists d g g',
     Data_read nested_same_identity = Some (Parsed d) /\
     rootObject d = Some 0%nat /\
     objects d = [IGroup g; IGroup g'] /\
     uniqueId (Node_Object (Group_Node g)) = 5 /\
     children g = [Some 1%nat] /\
     uniqueId (Node_Object (Group_Node g')) = 5).
Proof.
  split.
  - eexists _, _. split; [vm_compute; reflexivity|]. split; reflexivity.
  - eexists _, _, _. split; [vm_compute; reflexivity|]. repeat split.
Qed.

(** * The Drawable layer *)

(** C7, as the code has it.  The Drawable layer returns exactly when its
    reads succeed one after the other in this order: the optional state
    set, the flag and the six doubles of the initial bound, two optional
    objects (compute-bounding-box callback, shape), the three booleans
    (supportsDisplayList, useDisplayList, useVertexBufferObjects), then
    four optional objects (update, event, cull and draw callbacks); each
    read starts where the one before it stopped. *)
Theorem Drawable_layer_order readObject obj r r' :
  readObjectFields_Drawable readObject obj r = Ok tt r' <->
  exists stateSet_ r1 c r2 bound r3 r4
         computeBoundingBoxCallback r5 shape r6
         supportsDisplayList r7 useDisplayList r8 useVertexBufferObjects r9
         updateCallback r10 eventCallback r11 cullCallback r12 drawCallback,
    readObjectIfTrue readObject r = Ok stateSet_ r1 /\
    dynamic_pointer_cast is_StateSet stateSet_ r1 = Ok c r1 /\
    assign obj (over_Node (set_stateSet c)) r1 = Ok tt r2 /\
    read_bool r2 = Ok bound r3 /\
    when bound (read_n 8 6;; ret tt) r3 = Ok tt r4 /\
    readObjectIfTrue readObject r4 = Ok computeBoundingBoxCallback r5 /\
    readObjectIfTrue readObject r5 = Ok shape r6 /\
    read_bool r6 = Ok supportsDisplayList r7 /\
    read_bool r7 = Ok useDisplayList r8 /\
    read_bool r8 = Ok useVertexBufferObjects r9 /\
    readObjectIfTrue readObject r9 = Ok updateCallback r10 /\
    readObjectIfTrue readObject r10 = Ok eventCallback r11 /\
    readObjectIfTrue readObject r11 = Ok cullCallback r12 /\
    readObjectIfTrue readObject r12 = Ok drawCallback r'.
Proof.
  unfold readObjectFields_Drawable. split.
  - intros H.
    repeat match type of H with
           | bind _ _ _ = Ok _ _ =>
               let E := fresh "E" in
               apply bind_inv_Ok in H as (? & ? & E & H)
           end.
    injection H as <-.
    match goal with
    | E : dynamic_pointer_cast _ _ _ = Ok _ _ |- _ =>
        pose proof E as E'; unfold dynamic_pointer_cast, gets in E';
        injection E' as _ <-
    end.
    repeat match goal with u : unit |- _ => destruct u end.
    do 24 eexists. repeat (apply conj; [eassumption|]). eassumption.
  - intros (stateSet_ & r1 & c & r2 & bound & r3 & r4 & p1 & r5 & p2 & r6 &
            d1 & r7 & d2 & r8 & d3 & r9 & p3 & r10 & p4 & r11 & p5 & r12 & p6 &
            H1 & H2 & H3 & H4 & H5 & H6 & H7 & H8 & H9 & H10 & H11 & H12 & H13 & H14).
    rewrite (bind_Ok _ _ _ _ _ H1), (bind_Ok _ _ _ _ _ H2), (bind_Ok _ _ _ _ _ H3),
      (bind_Ok _ _ _ _ _ H4), (bind_Ok _ _ _ _ _ H5), (bind_Ok _ _ _ _ _ H6),
      (bind_Ok _ _ _ _ _ H7), (bind_Ok _ _ _ _ _ H8), (bind_Ok _ _ _ _ _ H9),
      (bind_Ok _ _ _ _ _ H10), (bind_Ok _ _ _ _ _ H11), (bind_Ok _ _ _ _ _ H12),
      (bind_Ok _ _ _ _ _ H13), (bind_Ok _ _ _ _ _ H14).
    reflexivity.
Qed.

(** C7 as claimed fails: the three booleans are not after the callbacks.
    With the bytes 0 0 0 0 1 1 1 0 0 0 0 under the cursor, the layer of the
    code returns after 11 bytes without a call of the dispatcher, the
    fifth to seventh bytes being its booleans; read in the claimed order
    the fifth byte is the flag of the third callback, the dispatcher is
    called, and the layer throws. *)
Lemma Drawable_booleans_before_callbacks :
  (forall readObject, exists r',
     readObjectFields_Drawable readObject 0 Drawable_reader = Ok tt r' /\
     _pos r' = 11) /\
  (exists e r',
     readObjectFields_Drawable_claimed (readObject 1) 0 Drawable_reader
       = Throw e r').
Proof.
  split.
  - intros readObject. eexists. split; [vm_compute; reflexivity|]. reflexivity.
  - eexists _, _. vm_compute. reflexivity.
Qed.

(** * The RangeDataList block of PagedLOD *)

Lemma store_blind_ret {A} (a : A) : store_blind (ret a).
Proof. by intros st r. Qed.

Lemma store_blind_bind {A B} (m : M A) (k : A -> M B) :
  store_blind m -> (forall a, store_blind (k a)) -> store_blind (bind m k).
Proof.
  intros Hm Hk st r. unfold bind. rewrite Hm.
  destruct (m r) as [a r1|e r1|]; [|done|done]. apply Hk.
Qed.

Lemma store_blind_throw {A} msg : store_blind (throw (A:=A) msg).
Proof. by intros st r. Qed.

Lemma store_blind_check n : store_blind (check n).
Proof. intros st r. unfold check, throw. simpl. by destruct (_ >? _). Qed.

Lemma store_blind_read_raw n : store_blind (read_raw n).
Proof. by intros st r. Qed.

Lemma store_blind_fmap {A B} (f : A -> B) m : store_blind m -> store_blind (fmap_M f m).
Proof. intros. apply store_blind_bind; [done|]. intros. apply store_blind_ret. Qed.

Lemma store_blind_read n : store_blind (read n).
Proof.
  apply store_blind_bind; [apply store_blind_check|]. intros _.
  apply store_blind_fmap, store_blind_read_raw.
Qed.

Lemma store_blind_read_float : store_blind read_float.
Proof. apply store_blind_read. Qed.

Lemma store_blind_read_uint : store_blind read_uint.
Proof. apply store_blind_read. Qed.

Lemma store_blind_read_each n count : store_blind (read_each n count).
Proof.
  induction count as [|c IH]; simpl; [apply store_blind_ret|].
  apply store_blind_bind; [apply store_blind_read_raw|]. intros v.
  apply store_blind_bind; [apply IH|]. intros vs. apply store_blind_ret.
Qed.

Lemma store_blind_read_string : store_blind read_string.
Proof.
  apply store_blind_bind; [apply store_blind_fmap, store_blind_read|]. intros size.
  destruct (_ <? _); [apply store_blind_throw|].
  apply store_blind_bind; [|intros; apply store_blind_ret].
  apply store_blind_bind; [apply store_blind_check|]. intros _.
  apply store_blind_read_each.
Qed.

Lemma store_blind_ReadBeginBracket : store_blind ReadBeginBracket.
Proof.
  intros st r. unfold ReadBeginBracket, bind, get. simpl.
  destruct (_useBinaryBrackets r); [|done]. by destruct (_ >? _).
Qed.

Lemma store_blind_Ok {A} (m : M A) st r a r' :
  store_blind m -> m r = Ok a r' -> m (with_store st r) = Ok a (with_store st r').
Proof. intros Hm H. by rewrite Hm, H. Qed.

Lemma read_strings_S n r names r' :
  read_strings (S n) r = Ok names r' ->
  exists s r1 ss,
    read_string r = Ok s r1 /\ read_strings n r1 = Ok ss r' /\ names = s :: ss.
Proof.
  simpl. intros (s & r1 & H1 & (ss & r2 & H2 & [= <- <-])%bind_inv_Ok)%bind_inv_Ok.
  eauto 6.
Qed.

Lemma read_strings_length n r names r' :
  read_strings n r = Ok names r' -> length names = n.
Proof.
  revert r names. induction n as [|n IH]; intros r names.
  - by intros [= <- <-].
  - intros (s & r1 & ss & _ & H & ->)%read_strings_S. simpl. f_equal. by eapply IH.
Qed.

Lemma read_float_pairs_S n r pairs r' :
  read_float_pairs (S n) r = Ok pairs r' ->
  exists x r1 y r2 ps,
    read_float r = Ok x r1 /\ read_float r1 = Ok y r2 /\
    read_float_pairs n r2 = Ok ps r' /\ pairs = (x, y) :: ps.
Proof.
  simpl. intros (x & r1 & H1 & (y & r2 & H2 &
    (ps & r3 & H3 & [= <- <-])%bind_inv_Ok)%bind_inv_Ok)%bind_inv_Ok.
  eauto 10.
Qed.

Lemma read_float_pairs_length n r pairs r' :
  read_float_pairs n r = Ok pairs r' -> length pairs = n.
Proof.
  revert r pairs. induction n as [|n IH]; intros r pairs.
  - by intros [= <- <-].
  - intros (x & r1 & y & r2 & ps & _ & _ & H & ->)%read_float_pairs_S.
    simpl. f_equal. by eapply IH.
Qed.

(** The two loops of the block, as updates of the list in the store. *)
Lemma filename_loop obj n k st r names r' :
  read_strings n r = Ok names r' ->
  for_from n (Z.of_nat k)
    (fun i =>
       s ← read_string;
       assign obj (over_PagedLOD (over_rangeDataList (vector_over i (set_filename s)))))
    (with_store st r)
  = Ok tt (with_store
             (alter (over_PagedLOD (over_rangeDataList (set_names k names))) obj st) r').
Proof.
  revert k st r names. induction n as [|n IH]; intros k st r names.
  - intros [= <- <-]. simpl. unfold ret. rewrite list_alter_id; [done|].
    intros []; try done. by destruct o.
  - intros (s & r1 & ss & H1 & H2 & ->)%read_strings_S.
    cbn [for_from]. unfold bind at 1. unfold bind at 1.
    rewrite (store_blind_Ok _ st _ _ _ store_blind_read_string H1).
    unfold assign, modify. cbn [with_store store].
    replace (Z.of_nat k + 1) with (Z.of_nat (S k)) by lia.
    change (with_store ?st' (with_store st r1)) with (with_store st' r1).
    rewrite (IH (S k) _ r1 ss H2). f_equal. f_equal.
    rewrite list_alter_alter_eq. apply list_alter_ext; [|done].
    intros [] _; try done. simpl. unfold vector_over. by rewrite Nat2Z.id.
Qed.

Lemma priority_loop obj n k st r pairs r' :
  read_float_pairs n r = Ok pairs r' ->
  for_from n (Z.of_nat k)
    (fun i =>
       po ← read_float;
       assign obj (over_PagedLOD (over_rangeDataList (vector_over i (set_priorityOffset po))));;
       ps ← read_float;
       assign obj (over_PagedLOD (over_rangeDataList (vector_over i (set_priorityScale ps)))))
    (with_store st r)
  = Ok tt (with_store
             (alter (over_PagedLOD (over_rangeDataList (set_pairs k pairs))) obj st) r').
Proof.
  revert k st r pairs. induction n as [|n IH]; intros k st r pairs.
  - intros [= <- <-]. simpl. unfold ret. rewrite list_alter_id; [done|].
    intros []; try done. by destruct o.
  - intros (x & r1 & y & r2 & ps & H1 & H2 & H3 & ->)%read_float_pairs_S.
    cbn [for_from]. unfold bind at 1. unfold bind at 1.
    rewrite (store_blind_Ok _ st _ _ _ store_blind_read_float H1).
    unfold bind at 1. unfold assign at 1, modify at 1. cbn [with_store store].
    change (with_store ?st' (with_store st r1)) with (with_store st' r1).
    unfold bind at 1.
    rewrite (store_blind_Ok _ _ _ _ _ store_blind_read_float H2).
    unfold assign at 1, modify at 1. cbn [with_store store].
    match goal with
    | |- context [with_store ?st' (with_store ?st'' r2)] =>
        change (with_store st' (with_store st'' r2)) with (with_store st' r2)
    end.
    replace (Z.of_nat k + 1) with (Z.of_nat (S k)) by lia.
    rewrite (IH (S k) _ r2 ps H3). f_equal. f_equal.
    rewrite !list_alter_alter_eq. apply list_alter_ext; [|done].
    intros [] _; try done. simpl. unfold vector_over. by rewrite Nat2Z.id.
Qed.

Lemma set_names_length i names l : length (set_names i names l) = length l.
Proof.
  revert i l. induction names as [|s ss IH]; intros i l; simpl; [done|].
  by rewrite IH, length_alter.
Qed.

Lemma set_names_lookup_lt i names l j :
  (j < i)%nat -> set_names i names l !! j = l !! j.
Proof.
  revert i l. induction names as [|s ss IH]; intros i l Hj; simpl; [done|].
  rewrite IH by lia. apply list_lookup_alter_ne. lia.
Qed.

Lemma set_names_lookup i names l k s :
  names !! k = Some s ->
  set_names i names l !! (i + k)%nat = set_filename s <$> l !! (i + k)%nat.
Proof.
  revert i l k. induction names as [|s' ss IH]; intros i l k Hk; [done|].
  destruct k as [|k]; simpl in *.
  - injection Hk as ->. rewrite Nat.add_0_r.
    rewrite set_names_lookup_lt by lia. apply list_lookup_alter_eq.
  - replace (i + S k)%nat with (S i + k)%nat by lia.
    rewrite (IH (S i) _ k Hk). by rewrite list_lookup_alter_ne by lia.
Qed.

Lemma set_names_lookup_ge i names l j :
  (i + length names <= j)%nat -> set_names i names l !! j = l !! j.
Proof.
  revert i l. induction names as [|s ss IH]; intros i l Hj; simpl in *; [done|].
  rewrite IH by lia. apply list_lookup_alter_ne. lia.
Qed.

Lemma set_pairs_length i pairs l : length (set_pairs i pairs l) = length l.
Proof.
  revert i l. induction pairs as [|[po ps] pairs IH]; intros i l; simpl; [done|].
  by rewrite IH, !length_alter.
Qed.

Lemma set_pairs_lookup_lt i pairs l j :
  (j < i)%nat -> set_pairs i pairs l !! j = l !! j.
Proof.
  revert i l. induction pairs as [|[po ps] pairs IH]; intros i l Hj; simpl; [done|].
  rewrite IH by lia. rewrite !list_lookup_alter_ne by lia. done.
Qed.

Lemma set_pairs_lookup i pairs l k po ps :
  pairs !! k = Some (po, ps) ->
  set_pairs i pairs l !! (i + k)%nat
  = (fun d => set_priorityScale ps (set_priorityOffset po d)) <$> l !! (i + k)%nat.
Proof.
  revert i l k. induction pairs as [|[po' ps'] pairs IH]; intros i l k Hk; [done|].
  destruct k as [|k]; simpl in *.
  - injection Hk as -> ->. rewrite Nat.add_0_r.
    rewrite set_pairs_lookup_lt by lia. rewrite !list_lookup_alter_eq.
    by destruct (l !! i).
  - replace (i + S k)%nat with (S i + k)%nat by lia.
    rewrite (IH (S i) _ k Hk). by rewrite !list_lookup_alter_ne by lia.
Qed.

(** C6.  On a fresh PagedLOD, when the stream holds [fsize], [fsize]
    filenames, a larger [psize] and [psize] pairs of floats, the block
    returns at the end of the pairs with a [rangeDataList] of length
    [psize] whose first [fsize] entries carry the filenames in order,
    whose other entries have the empty filename, and whose entry [i]
    carries the [i]-th (priorityOffset, priorityScale) pair, for every
    [i] below [psize]. *)
Theorem PagedLOD_RangeDataList_expands
    obj r p fsize r1 r2 names r3 psize r4 r5 pairs r6 :
  store r !! obj = Some (IPagedLOD p) ->
  rangeDataList p = [] ->
  read_uint r = Ok fsize r1 ->
  ReadBeginBracket r1 = Ok tt r2 ->
  read_strings (Z.to_nat fsize) r2 = Ok names r3 ->
  read_uint r3 = Ok psize r4 ->
  fsize < psize ->
  ReadBeginBracket r4 = Ok tt r5 ->
  read_float_pairs (Z.to_nat psize) r5 = Ok pairs r6 ->
  exists st p',
    readObjectFields_PagedLOD_RangeDataList obj r = Ok tt (with_store st r6) /\
    st !! obj = Some (IPagedLOD p') /\
    PagedLOD_LOD p' = PagedLOD_LOD p /\
    length (rangeDataList p') = Z.to_nat psize /\
    length names = Z.to_nat fsize /\
    length pairs = Z.to_nat psize /\
    (forall i name,
       names !! i = Some name -> filename <$> rangeDataList p' !! i = Some name) /\
    (forall i,
       (Z.to_nat fsize <= i < Z.to_nat psize)%nat ->
       filename <$> rangeDataList p' !! i = Some EmptyString) /\
    (forall i po ps,
       pairs !! i = Some (po, ps) ->
       priorityOffset <$> rangeDataList p' !! i = Some po /\
       priorityScale <$> rangeDataList p' !! i = Some ps).
Proof.
  intros Hobj Hnil H1 H2 H3 H4 Hlt H5 H6.
  pose proof (read_strings_length _ _ _ _ H3) as Hnames.
  pose proof (read_float_pairs_length _ _ _ _ H6) as Hpairs.
  set (l1 := vector_resize fsize RangeData0 (rangeDataList p)).
  set (l2 := set_names 0 names l1).
  set (l3 := vector_resize psize RangeData0 l2).
  set (l4 := set_pairs 0 pairs l3).
  exists (<[obj := IPagedLOD (over_rangeDataList (fun _ => l4) p)]> (store r)),
         (over_rangeDataList (fun _ => l4) p).
  assert (length l1 = Z.to_nat fsize) as Hl1 by apply length_resize.
  assert (length l3 = Z.to_nat psize) as Hl3 by apply length_resize.
  assert (forall i, (i < Z.to_nat psize)%nat ->
            l3 !! i = Some (if decide (i < Z.to_nat fsize)%nat
                            then default RangeData0 (l2 !! i) else RangeData0)) as Hl3i.
  { intros i Hi. unfold l3, vector_resize.
    assert (length l2 = Z.to_nat fsize) as Hl2 by (unfold l2; by rewrite set_names_length).
    case_decide.
    - rewrite lookup_resize by lia. destruct (lookup_lt_is_Some_2 l2 i) as [x ->]; [lia|done].
    - by rewrite lookup_resize_new by lia. }
  split; [|split; [|split; [|split; [|split; [|split; [|split; [|split]]]]]]].
  - unfold readObjectFields_PagedLOD_RangeDataList.
    rewrite (bind_Ok _ _ _ _ _ H1).
    unfold bind at 1, assign at 1, modify at 1.
    unfold bind at 1.
    rewrite (store_blind_Ok _ _ _ _ _ store_blind_ReadBeginBracket H2).
    unfold bind at 1, for_.
    rewrite (filename_loop obj _ 0 _ _ _ _ H3).
    unfold bind at 1, ReadEndBracket at 1, ret at 1. unfold bind at 1.
    rewrite (store_blind_Ok _ _ _ _ _ store_blind_read_uint H4).
    assert ((psize >? fsize) = true) as -> by lia.
    unfold bind at 1, when, assign at 1, modify at 1.
    cbn [with_store store]. unfold bind at 1.
    match goal with
    | |- context [ReadBeginBracket (with_store ?st' (with_store ?st'' r4))] =>
        change (with_store st' (with_store st'' r4)) with (with_store st' r4)
    end.
    rewrite (store_blind_Ok _ _ _ _ _ store_blind_ReadBeginBracket H5).
    unfold bind at 1.
    rewrite (priority_loop obj _ 0 _ _ _ _ H6).
    unfold ReadEndBracket, ret. f_equal. f_equal.
    apply read_uint_cursor in H1. rewrite H1. cbn [store with_pos].
    rewrite !list_alter_alter_eq.
    apply list_eq. intros a. destruct (decide (a = obj)) as [->|Hne].
    + rewrite list_lookup_alter_eq, Hobj. rewrite list_lookup_insert_eq
        by (by eapply lookup_lt_Some). reflexivity.
    + by rewrite list_lookup_alter_ne, list_lookup_insert_ne.
  - apply list_lookup_insert_eq. by eapply lookup_lt_Some.
  - reflexivity.
  - simpl. unfold l4. by rewrite set_pairs_length.
  - done.
  - done.
  - intros i name Hi. simpl. pose proof (lookup_lt_Some _ _ _ Hi) as Hlti.
    destruct (lookup_lt_is_Some_2 pairs i) as [[po ps] Hp]; [lia|].
    unfold l4. rewrite (set_pairs_lookup 0 pairs l3 i po ps Hp : _ !! i = _). simpl.
    rewrite Hl3i by lia. rewrite decide_True by lia. simpl.
    unfold l2. rewrite (set_names_lookup 0 names l1 i name Hi : _ !! i = _). simpl.
    destruct (lookup_lt_is_Some_2 l1 i) as [x ->]; [lia|]. reflexivity.
  - intros i Hi. simpl.
    destruct (lookup_lt_is_Some_2 pairs i) as [[po ps] Hp]; [lia|].
    unfold l4. rewrite (set_pairs_lookup 0 pairs l3 i po ps Hp : _ !! i = _). simpl.
    rewrite Hl3i by lia. rewrite decide_False by lia. reflexivity.
  - intros i po ps Hp. simpl. pose proof (lookup_lt_Some _ _ _ Hp) as Hlti.
    unfold l4. rewrite (set_pairs_lookup 0 pairs l3 i po ps Hp : _ !! i = _). simpl.
    rewrite Hl3i by lia. done.
Qed.

Lemma PagedLOD_RangeDataList_expands_witness :
  exists st p',
    readObjectFields_PagedLOD_RangeDataList 0 RangeDataList_reader
      = Ok tt (with_store st (with_pos 52 RangeDataList_reader)) /\
    st !! 0%nat = Some (IPagedLOD p') /\
    length (rangeDataList p') = 3%nat /\
    filename <$> rangeDataList p' !! 0%nat = Some "a.osgb"%string /\
    filename <$> rangeDataList p' !! 1%nat = Some "b.osgb"%string /\
    filename <$> rangeDataList p' !! 2%nat = Some EmptyString /\
    priorityOffset <$> rangeDataList p' !! 2%nat = Some 0x3E800000 /\
    priorityScale <$> rangeDataList p' !! 2%nat = Some 0x3FA00000.
Proof.
  destruct (PagedLOD_RangeDataList_expands 0 RangeDataList_reader PagedLOD0
              2 (with_pos 4 RangeDataList_reader) (with_pos 4 RangeDataList_reader)
              ["a.osgb"; "b.osgb"]%string (with_pos 24 RangeDataList_reader)
              3 (with_pos 28 RangeDataList_reader) (with_pos 28 RangeDataList_reader)
              [(0, 0x3F800000); (0x3F000000, 0x3FC00000); (0x3E800000, 0x3FA00000)]
              (with_pos 52 RangeDataList_reader))
    as (st & p' & Hrun & Hst & _ & Hlen & _ & _ & Hnames & Hempty & Hpairs).
  - reflexivity.
  - reflexivity.
  - vm_compute. reflexivity.
  - vm_compute. reflexivity.
  - vm_compute. reflexivity.
  - vm_compute. reflexivity.
  - lia.
  - vm_compute. reflexivity.
  - vm_compute. reflexivity.
  - exists st, p'. split; [exact Hrun|]. split; [exact Hst|]. split; [exact Hlen|].
    split; [by apply Hnames|]. split; [by apply Hnames|].
    split; [apply Hempty; simpl; lia|].
    by apply (Hpairs 2%nat 0x3E800000 0x3FA00000).
Defined.

(** * Children and drawables *)

Section ChildrenLoop.

Context (fuel : nat) (is_T : Instance -> bool)
        (set : Z -> ptr -> Instance -> Instance)
        (get : Instance -> option (list ptr)) (obj : nat).

Hypothesis get_set :
  forall i c inst l, get inst = Some l -> get (set i c inst) = Some (vector_set i c l).
Hypothesis is_T_set : forall i c inst, is_T (set i c inst) = is_T inst.

Let body (i : Z) : M unit :=
  o ← readObject fuel;
  c ← dynamic_pointer_cast is_T o;
  assign obj (set i c).

Lemma children_loop_reads n i r r' :
  for_from n i body r = Ok tt r' ->
  exists ocs,
    child_reads (readObject fuel) is_T set obj i r ocs r' /\ length ocs = n.
Proof.
  revert i r. induction n as [|n IH]; intros i r; simpl.
  - intros [= <-]. exists []. split; [constructor|done].
  - intros ([] & r3 & Hb & Hloop)%bind_inv_Ok. unfold body in Hb.
    apply bind_inv_Ok in Hb as (o & r1 & Ho & Hb).
    apply bind_inv_Ok in Hb as (c & r2 & Hc & Hb).
    unfold dynamic_pointer_cast, gets in Hc. injection Hc as <- <-.
    unfold assign, modify in Hb. injection Hb as <-.
    destruct (IH _ _ Hloop) as (ocs & Hreads & Hlen).
    eexists (_ :: ocs). split; [|simpl; by rewrite Hlen].
    by eapply child_reads_cons.
Qed.

(** Later elements leave the earlier slots and the classes alone. *)
Lemma child_reads_store i r ocs r' :
  child_reads (readObject fuel) is_T set obj i r ocs r' ->
  forall a inst,
    store r !! a = Some inst ->
    exists inst', store r' !! a = Some inst' /\ is_T inst' = is_T inst.
Proof.
  induction 1 as [i r|i r o r1 ocs r' Ho _ IH]; intros a inst Ha; [eauto|].
  pose proof (readObject_frame _ _ _ _ _ _ Ho Ha) as Ha1.
  destruct (decide (a = obj)) as [->|Hne].
  - destruct (IH obj (set i (cast_in is_T (store r1) o) inst)) as (inst' & Hl & HT).
    { simpl. by rewrite list_lookup_alter_eq, Ha1. }
    exists inst'. split; [done|]. rewrite HT. apply is_T_set.
  - apply IH. simpl. by rewrite list_lookup_alter_ne.
Qed.

Lemma child_reads_sequence i r ocs r' :
  child_reads (readObject fuel) is_T set obj i r ocs r' ->
  forall k inst l,
    i = Z.of_nat k ->
    store r !! obj = Some inst ->
    get inst = Some l ->
    (k + length ocs <= length l)%nat ->
    exists inst',
      store r' !! obj = Some inst' /\
      get inst' = Some (take k l ++ ocs.*2 ++ drop (k + length ocs) l).
Proof.
  induction 1 as [i r|i r o r1 ocs r' Ho _ IH]; intros k inst l -> Hobj Hget Hlen.
  - exists inst. split; [done|]. simpl. by rewrite Nat.add_0_r, take_drop.
  - simpl in Hlen.
    pose proof (readObject_frame _ _ _ _ _ _ Ho Hobj) as Hobj1.
    destruct (IH (S k) (set (Z.of_nat k) (cast_in is_T (store r1) o) inst)
                (vector_set (Z.of_nat k) (cast_in is_T (store r1) o) l))
      as (inst' & Hobj' & Hget').
    + lia.
    + simpl. by rewrite list_lookup_alter_eq, Hobj1.
    + by apply get_set.
    + unfold vector_set. rewrite length_insert. lia.
    + exists inst'. split; [done|]. rewrite Hget'. f_equal.
      unfold vector_set. rewrite Nat2Z.id. simpl.
      rewrite (take_S_r _ _ (cast_in is_T (store r1) o))
        by (apply list_lookup_insert_eq; lia).
      rewrite take_insert_ge by lia.
      rewrite drop_insert_lt by lia.
      rewrite <- app_assoc. simpl.
      by replace (S (k + length ocs)) with (k + S (length ocs))%nat by lia.
Qed.

Lemma child_reads_casts i r ocs r' :
  child_reads (readObject fuel) is_T set obj i r ocs r' ->
  Forall (fun oc =>
    oc.2 = None \/
    oc.2 = oc.1 /\ exists a inst, oc.1 = Some a /\ store r' !! a = Some inst /\ is_T inst = true)
    ocs.
Proof.
  induction 1 as [i r|i r o r1 ocs r' Ho Hrest IH]; constructor; [|done].
  simpl. destruct o as [a|]; simpl; [|by left].
  destruct (store r1 !! a) as [inst|] eqn:Ha; [|by left].
  destruct (is_T inst) eqn:HT; [|by left]. right. split; [done|].
  assert (cast_in is_T (store r1) (Some a) = Some a) as Hc
    by (simpl; by rewrite Ha, HT).
  rewrite Hc in Hrest.
  destruct (child_reads_store _ _ _ _ Hrest a
              (if decide (a = obj) then set i (Some a) inst else inst))
    as (inst' & Ha' & HT').
  { simpl. case_decide as Hd.
    - subst a. by rewrite list_lookup_alter_eq, Ha.
    - by rewrite list_lookup_alter_ne. }
  exists a, inst'. split; [done|]. split; [done|].
  rewrite HT'. case_decide; [by rewrite is_T_set|done].
Qed.

(** The loop after [v.resize(size)], whatever the sequence held before. *)
Lemma children_loop_keeps size r r' inst l :
  store r !! obj = Some inst ->
  get inst = Some l ->
  length l = Z.to_nat size ->
  for_ size body r = Ok tt r' ->
  keeps_every_child (readObject fuel) is_T set get obj size r r'.
Proof.
  intros Hobj Hget Hlen Hloop.
  destruct (children_loop_reads _ _ _ _ Hloop) as (ocs & Hreads & Hn).
  destruct (child_reads_sequence _ _ _ _ Hreads 0%nat inst l) as (inst' & Hobj' & Hget');
    [done..|lia|].
  exists ocs, inst'. split; [done|]. split; [done|]. split; [done|].
  split; [|by eapply child_reads_casts].
  rewrite Hget'. simpl. rewrite drop_ge by lia. by rewrite app_nil_r.
Qed.

End ChildrenLoop.

Lemma children_of_set_child i c inst l :
  children_of inst = Some l -> children_of (set_child i c inst) = Some (vector_set i c l).
Proof. destruct inst; simpl; try done; by intros [= <-]. Qed.

Lemma is_Node_set_child i c inst : is_Node (set_child i c inst) = is_Node inst.
Proof. by destruct inst. Qed.

Lemma drawables_of_set_drawable i c inst l :
  drawables_of inst = Some l ->
  drawables_of (set_drawable i c inst) = Some (vector_set i c l).
Proof. destruct inst; simpl; try done; by intros [= <-]. Qed.

Lemma is_Drawable_set_drawable i c inst :
  is_Drawable (set_drawable i c inst) = is_Drawable inst.
Proof. by destruct inst. Qed.

Lemma children_of_resize size inst l :
  children_of inst = Some l ->
  children_of (over_Group (over_children (vector_resize size None)) inst)
  = Some (vector_resize size None l).
Proof. destruct inst; simpl; try done; by intros [= <-]. Qed.

Lemma drawables_of_resize size inst l :
  drawables_of inst = Some l ->
  drawables_of (over_Geode (over_drawables (vector_resize size None)) inst)
  = Some (vector_resize size None l).
Proof. destruct inst; simpl; try done; by intros [= <-]. Qed.

(** The block shared by the three layers, from the count on. *)
Lemma children_block_keeps fuel is_T (set : Z -> ptr -> Instance -> Instance)
    (get : Instance -> option (list ptr))
    (over : (list ptr -> list ptr) -> Instance -> Instance)
    obj r size r2 r' inst l :
  (forall i c inst l, get inst = Some l -> get (set i c inst) = Some (vector_set i c l)) ->
  (forall i c inst, is_T (set i c inst) = is_T inst) ->
  (forall inst l, get inst = Some l ->
     get (over (vector_resize size None) inst) = Some (vector_resize size None l)) ->
  store r !! obj = Some inst ->
  get inst = Some l ->
  read_uint r = Ok size r2 ->
  (size ← read_uint;
   assign obj (over (vector_resize size None));;
   ReadBeginBracket;;
   for_ size (fun i =>
     o ← readObject fuel;
     c ← dynamic_pointer_cast is_T o;
     assign obj (set i c));;
   ReadEndBracket) r = Ok tt r' ->
  exists r3,
    ReadBeginBracket
      (with_store (alter (over (vector_resize size None)) obj (store r2)) r2)
      = Ok tt r3 /\
    keeps_every_child (readObject fuel) is_T set get obj size r3 r'.
Proof.
  intros Hgs HTs Hgr Hobj Hget Hsize Hrun.
  rewrite (bind_Ok _ _ _ _ _ Hsize) in Hrun.
  unfold bind at 1, assign at 1, modify at 1 in Hrun.
  apply bind_inv_Ok in Hrun as ([] & r3 & Hbr & Hrun).
  apply bind_inv_Ok in Hrun as ([] & r4 & Hloop & Hend).
  injection Hend as <-.
  exists r3. split; [done|].
  pose proof (ReadBeginBracket_cursor _ _ _ Hbr) as Hc3.
  pose proof (read_uint_cursor _ _ _ Hsize) as Hc2.
  eapply (children_loop_keeps fuel is_T set get obj Hgs HTs size r3 r4
            (over (vector_resize size None) inst) (vector_resize size None l)).
  - rewrite Hc3. simpl. rewrite list_lookup_alter_eq. rewrite Hc2. simpl.
    by rewrite Hobj.
  - by apply Hgr.
  - apply length_resize.
  - done.
Qed.

(** C9.  In the Group layer, in the Geode layer and in the children block
    of the PagedLOD layer, once the count [size] is read the dispatcher is
    called [size] times in a row, each call reading its object in full,
    and the children (drawables) sequence of the object ends up holding,
    in the order of the calls, the cast of each returned pointer: [size]
    entries, of which an entry is the returned pointer when that points to
    a Node (Drawable), and null otherwise; nothing is dropped. *)
Theorem children_are_kept fuel obj inst :
  (forall r r1 size r2 r' l,
     store r !! obj = Some inst ->
     children_of inst = Some l ->
     read_bool r = Ok true r1 ->
     read_uint r1 = Ok size r2 ->
     readObjectFields_Group (readObject fuel) obj r = Ok tt r' ->
     exists r3,
       ReadBeginBracket
         (with_store
            (alter (over_Group (over_children (vector_resize size None))) obj (store r2))
            r2) = Ok tt r3 /\
       keeps_every_child (readObject fuel) is_Node set_child children_of obj size r3 r') /\
  (forall r r1 size r2 r' l,
     store r !! obj = Some inst ->
     drawables_of inst = Some l ->
     read_bool r = Ok true r1 ->
     read_uint r1 = Ok size r2 ->
     readObjectFields_Geode (readObject fuel) obj r = Ok tt r' ->
     exists r3,
       ReadBeginBracket
         (with_store
            (alter (over_Geode (over_drawables (vector_resize size None))) obj (store r2))
            r2) = Ok tt r3 /\
       keeps_every_child (readObject fuel) is_Drawable set_drawable drawables_of
         obj size r3 r') /\
  (forall r size r2 r' l,
     store r !! obj = Some inst ->
     children_of inst = Some l ->
     read_uint r = Ok size r2 ->
     readObjectFields_PagedLOD_Children (readObject fuel) obj r = Ok tt r' ->
     exists r3,
       ReadBeginBracket
         (with_store
            (alter (over_Group (over_children (vector_resize size None))) obj (store r2))
            r2) = Ok tt r3 /\
       keeps_every_child (readObject fuel) is_Node set_child children_of obj size r3 r').
Proof.
  split; [|split].
  - intros r r1 size r2 r' l Hobj Hget Hb Hsize Hrun.
    unfold readObjectFields_Group in Hrun. rewrite (bind_Ok _ _ _ _ _ Hb) in Hrun.
    apply read_bool_cursor in Hb.
    eapply (children_block_keeps fuel is_Node set_child children_of
              (fun f => over_Group (over_children f)) obj r1 size r2 r' inst l);
      eauto using children_of_set_child, is_Node_set_child, children_of_resize.
    by rewrite Hb.
  - intros r r1 size r2 r' l Hobj Hget Hb Hsize Hrun.
    unfold readObjectFields_Geode in Hrun. rewrite (bind_Ok _ _ _ _ _ Hb) in Hrun.
    apply read_bool_cursor in Hb.
    eapply (children_block_keeps fuel is_Drawable set_drawable drawables_of
              (fun f => over_Geode (over_drawables f)) obj r1 size r2 r' inst l);
      eauto using drawables_of_set_drawable, is_Drawable_set_drawable,
        drawables_of_resize.
    by rewrite Hb.
  - intros r size r2 r' l Hobj Hget Hsize Hrun.
    eapply (children_block_keeps fuel is_Node set_child children_of
              (fun f => over_Group (over_children f)) obj r size r2 r' inst l);
      eauto using children_of_set_child, is_Node_set_child, children_of_resize.
Qed.

Lemma children_are_kept_witness :
  exists r3 r',
    readObjectFields_Group (readObject 1) 0 children_reader = Ok tt r' /\
    keeps_every_child (readObject 1) is_Node set_child children_of 0 3 r3 r' /\
    (store r' !! 0%nat ≫= children_of) = Some [Some 1%nat; None; None] /\
    length (store r') = 3%nat.
Proof.
  destruct (children_are_kept 1 0 (IGroup Group0)) as (HGroup & _ & _).
  assert (exists r', readObjectFields_Group (readObject 1) 0 children_reader = Ok tt r' /\
            (store r' !! 0%nat ≫= children_of) = Some [Some 1%nat; None; None] /\
            length (store r') = 3%nat) as (r' & Hrun & Hchildren & Hlen).
  { eexists. split; [vm_compute; reflexivity|]. split; reflexivity. }
  destruct (HGroup children_reader (with_pos 1 children_reader) 3
              (with_pos 5 children_reader) r' [])
    as (r3 & _ & Hkeeps).
  - reflexivity.
  - reflexivity.
  - vm_compute. reflexivity.
  - vm_compute. reflexivity.
  - exact Hrun.
  - exists r3, r'. split; [exact Hrun|]. split; [exact Hkeeps|]. split; assumption.
Defined.

(** * Termination

    With a buffer of less than 2^62 bytes the cursor cannot wrap around:
    every unchecked skip is followed by a checked read before the next
    one.  A call of [readObject] reads four bytes before it calls itself,
    so the fuel [Data_read] takes is enough. *)

Ltac bd_lia := unfold dirty in *; lia.

Lemma size_t_small z : 0 <= z < 18446744073709551616 -> size_t z = z.
Proof. intros. unfold size_t, wrap. apply Z.mod_small. exact H. Qed.

Lemma byte_val_range b : 0 <= byte_val b < 256.
Proof. unfold byte_val. pose proof (Byte.to_N_bounded b). lia. Qed.

Lemma le_val_range l : 0 <= le_val l < 256 ^ Z.of_nat (length l).
Proof.
  induction l as [|b l IH]; simpl length; [simpl; lia|].
  rewrite Nat2Z.inj_succ, Z.pow_succ_r by lia. simpl le_val.
  pose proof (byte_val_range b). nia.
Qed.

Lemma le_val_bytes_at r n : 0 <= n -> 0 <= le_val (bytes_at r n) < 256 ^ n.
Proof.
  intros Hn. pose proof (le_val_range (bytes_at r n)) as H.
  assert (Z.of_nat (length (bytes_at r n)) <= n) as Hl.
  { unfold bytes_at. rewrite length_take. lia. }
  split; [lia|]. eapply Z.lt_le_trans; [apply H|].
  apply Z.pow_le_mono_r; lia.
Qed.

Lemma good_length r r' : _buffer r' = _buffer r -> _length r' = _length r.
Proof. unfold _length. by intros ->. Qed.

Section Bounded.

Context (rem : Z).

Lemma bounded_with_ret {A} (Q : A -> Prop) d (a : A) : Q a -> bounded_with Q rem d d (ret a).
Proof. intros HQ r Hg Hr Hlo Hd. simpl. split; [done|split; [done|split; [done|lia]]]. Qed.

Lemma bounded_ret {A} d (a : A) : bounded rem d d (ret a).
Proof. by apply bounded_with_ret. Qed.

Lemma bounded_throw {A} d c msg : bounded rem d c (throw (A:=A) msg).
Proof. by intros r Hg Hr Hlo Hd. Qed.

Lemma bounded_gets {A} d (f : Reader -> A) : bounded rem d d (gets f).
Proof. intros r Hg Hr Hlo Hd. simpl. split; [done|split; [done|split; [done|lia]]]. Qed.

Lemma bounded_get d : bounded rem d d get.
Proof. intros r Hg Hr Hlo Hd. simpl. split; [done|split; [done|split; [done|lia]]]. Qed.

Lemma bounded_with_bind {A B} (Q : A -> Prop) (Q' : B -> Prop) d e c
    (m : M A) (k : A -> M B) :
  bounded_with Q rem d e m ->
  (forall a, Q a -> bounded_with Q' rem e c (k a)) ->
  bounded_with Q' rem d c (bind m k).
Proof.
  intros Hm Hk r Hg Hr Hlo Hd. unfold bind. specialize (Hm r Hg Hr Hlo Hd).
  destruct (m r) as [a r1|e1 r1|]; [|done|done].
  destruct Hm as (HQ & Hg1 & Hb1 & Hp1).
  pose proof (good_length _ _ Hb1) as HL.
  specialize (Hk a HQ r1 Hg1 Hr). rewrite HL in Hk.
  destruct (k a r1) as [b r2|e2 r2|]; [|done|apply Hk; lia].
  destruct Hk as (HQ2 & Hg2 & Hb2 & Hp2); [lia..|].
  split; [done|split; [done|split; [congruence|lia]]].
Qed.

Lemma bounded_bind {A B} d e c (m : M A) (k : A -> M B) :
  bounded rem d e m -> (forall a, bounded rem e c (k a)) -> bounded rem d c (bind m k).
Proof. intros Hm Hk. eapply bounded_with_bind; [exact Hm|]. intros a _. apply Hk. Qed.

Lemma bounded_with_weaken {A} (Q Q' : A -> Prop) d d' c c' (m : M A) :
  bounded_with Q rem d c m -> (forall a, Q a -> Q' a) -> d' <= d -> c <= c' ->
  bounded_with Q' rem d' c' m.
Proof.
  intros Hm HQ Hd' Hc r Hg Hr Hlo Hd. specialize (Hm r Hg Hr Hlo).
  destruct (m r); [|done|apply Hm; lia].
  destruct Hm as (? & ? & ? & ?); [lia|]. split; [by apply HQ|split; [done|split; [done|lia]]].
Qed.

Lemma bounded_forget {A} (Q : A -> Prop) d c (m : M A) :
  bounded_with Q rem d c m -> bounded rem d c m.
Proof. intros Hm. eapply bounded_with_weaken; [exact Hm|done|lia|lia]. Qed.

Lemma bounded_post {A} d c c' (m : M A) :
  bounded rem d c m -> c <= c' -> bounded rem d c' m.
Proof. intros Hm Hc. eapply bounded_with_weaken; [exact Hm|done|lia|lia]. Qed.

Lemma bounded_pre {A} d d' c (m : M A) :
  bounded rem d c m -> d' <= d -> bounded rem d' c m.
Proof. intros Hm Hc. eapply bounded_with_weaken; [exact Hm|done|lia|lia]. Qed.

Lemma bounded_when d c b (m : M unit) :
  bounded rem d c m -> bounded rem d (Z.max d c) (when b m).
Proof.
  intros Hm. destruct b; simpl.
  - eapply bounded_post; [done|lia].
  - eapply bounded_post; [apply bounded_ret|lia].
Qed.

Lemma bounded_if {A} d c1 c2 (b : bool) (m1 m2 : M A) :
  bounded rem d c1 m1 -> bounded rem d c2 m2 ->
  bounded rem d (Z.max c1 c2) (if b then m1 else m2).
Proof. intros H1 H2. destruct b; (eapply bounded_post; [done|lia]). Qed.

Lemma bounded_match_option {A B} d c1 c2 (x : option B) (f : B -> M A) (m2 : M A) :
  (forall a, bounded rem d c1 (f a)) -> bounded rem d c2 m2 ->
  bounded rem d (Z.max c1 c2) (match x with Some a => f a | None => m2 end).
Proof. intros H1 H2. destruct x; (eapply bounded_post; [done|lia]). Qed.

Lemma bounded_for_from n i d (body : Z -> M unit) :
  (forall j, bounded rem d d (body j)) -> bounded rem d d (for_from n i body).
Proof.
  intros Hb. revert i. induction n as [|n IH]; intros i; simpl.
  - apply bounded_ret.
  - eapply bounded_bind; [apply Hb|]. intros _. apply IH.
Qed.

Lemma bounded_for_ size d (body : Z -> M unit) :
  d <= dirty ->
  (forall j, bounded rem dirty dirty (body j)) -> bounded rem d dirty (for_ size body).
Proof.
  intros Hd Hb. eapply bounded_pre; [|exact Hd]. by apply bounded_for_from.
Qed.

Lemma bounded_for_acc {A} size d (acc : A) (body : Z -> A -> M A) :
  d <= dirty ->
  (forall j x, bounded rem dirty dirty (body j x)) ->
  bounded rem d dirty (for_acc size acc body).
Proof.
  intros Hd Hb. eapply bounded_pre; [|exact Hd]. unfold for_acc.
  generalize 0. revert acc. induction (Z.to_nat size) as [|n IH]; intros acc i; simpl.
  - apply bounded_ret.
  - eapply bounded_bind; [apply Hb|]. intros x. apply IH.
Qed.

(** *** The store *)

Lemma bounded_make_shared d i : inst_ok i -> bounded rem d d (make_shared i).
Proof.
  intros Hi r (Hp & HL & Hst) Hr Hlo Hd. unfold make_shared.
  split; [done|]. split; [|split; [done|simpl; lia]].
  split; [done|]. split; [done|]. simpl. apply Forall_app. split; [done|]. by apply Forall_singleton.
Qed.

Lemma bounded_assign d a f :
  (forall i, inst_ok i -> inst_ok (f i)) -> bounded rem d d (assign a f).
Proof.
  intros Hf r (Hp & HL & Hst) Hr Hlo Hd. unfold assign, modify.
  split; [done|]. split; [|split; [done|simpl; lia]].
  split; [done|]. split; [done|]. simpl.
  apply Forall_lookup. intros j x Hj.
  destruct (decide (j = a)) as [->|Hne].
  - rewrite list_lookup_alter_eq in Hj.
    destruct (store r !! a) as [y|] eqn:Hy; simplify_eq/=.
    apply Hf. by eapply (Forall_lookup_1 _ _ _ _ Hst).
  - rewrite list_lookup_alter_ne in Hj by done. by eapply (Forall_lookup_1 _ _ _ _ Hst).
Qed.

Lemma bounded_modify d f :
  (forall r, _buffer (f r) = _buffer r /\ _pos (f r) = _pos r /\ store (f r) = store r) ->
  bounded rem d d (modify f).
Proof.
  intros Hf r (Hp & HL & Hst) Hr Hlo Hd. unfold modify.
  destruct (Hf r) as (Hb & Hq & Hs).
  split; [done|]. split; [|split; [done|lia]].
  unfold good, _length. rewrite Hb, Hq, Hs. done.
Qed.

Lemma bounded_dynamic_pointer_cast d is_T p : bounded rem d d (dynamic_pointer_cast is_T p).
Proof. apply bounded_gets. Qed.

Lemma bounded_with_load_Array d a :
  bounded_with (fun o => 0 <= elementCount o < 4294967296) rem d d (load_Array a).
Proof.
  intros r (Hp & HL & Hst) Hr Hlo Hd. unfold load_Array, gets.
  split; [|split; [done|split; [done|lia]]].
  destruct (store r !! a) as [i|] eqn:Hi; simpl; [|lia].
  pose proof (Forall_lookup_1 _ _ _ _ Hst Hi) as Hok.
  destruct i; simpl in *; lia.
Qed.

Lemma bounded_with_load_PrimitiveSet d a :
  bounded_with (fun o => 0 <= indexCount o < 4294967296) rem d d (load_PrimitiveSet a).
Proof.
  intros r (Hp & HL & Hst) Hr Hlo Hd. unfold load_PrimitiveSet, gets.
  split; [|split; [done|split; [done|lia]]].
  destruct (store r !! a) as [i|] eqn:Hi; simpl; [|lia].
  pose proof (Forall_lookup_1 _ _ _ _ Hst Hi) as Hok.
  destruct i; simpl in *; lia.
Qed.

(** *** The cursor *)

Lemma bounded_advance d s :
  0 <= s <= 68719476736 -> d <= 4 * dirty -> bounded rem d (d + s) (advance s).
Proof.
  intros Hs Hd r (Hp & HL & Hst) Hr Hlo Hq. unfold advance, modify.
  rewrite size_t_small by bd_lia.
  split; [done|]. split; [|split; [done|simpl; lia]].
  split; [simpl; lia|done].
Qed.

Lemma check_spec d n r :
  0 <= n <= 4294967296 -> d <= 4 * dirty ->
  good r -> _pos r <= _length r + d ->
  match check n r with
  | Ok _ r' => r' = r /\ _pos r + n <= _length r
  | Throw _ _ => True
  | OutOfFuel => False
  end.
Proof.
  intros Hn Hd (Hp & HL & Hst) Hq. unfold check, throw.
  rewrite size_t_small by bd_lia. destruct (_ >? _) eqn:E; [done|]. split; [done|lia].
Qed.

(** A checked read of [n] bytes leaves [n] bytes less. *)
Lemma read_spec d n r :
  0 <= n <= 4294967296 -> d <= 4 * dirty ->
  good r -> _pos r <= _length r + d ->
  match read n r with
  | Ok v r' =>
      0 <= v < 256 ^ n /\ good r' /\ moved r r' /\ _pos r' = _pos r + n /\
      _pos r' <= _length r
  | Throw _ _ => True
  | OutOfFuel => False
  end.
Proof.
  intros Hn Hd Hg Hq. pose proof (check_spec d n r Hn Hd Hg Hq) as Hc.
  unfold read, bind at 1. destruct (check n r) as [[] r1|e r1|]; [|done|done].
  destruct Hc as [-> Hc]. unfold fmap_M, bind, read_raw, bind, get, advance, modify, ret.
  pose proof Hg as (Hp & HL & Hst). rewrite size_t_small by bd_lia.
  split; [apply le_val_bytes_at; lia|].
  split; [split; [simpl; lia|done]|]. split; [done|]. simpl. lia.
Qed.

Lemma bounded_with_read d n :
  0 <= n <= 4294967296 -> d <= 4 * dirty ->
  bounded_with (fun v => 0 <= v < 256 ^ n) rem d 0 (read n).
Proof.
  intros Hn Hd r Hg Hr Hlo Hq. pose proof (read_spec d n r Hn Hd Hg Hq) as H.
  destruct (read n r) as [v r1|e r1|]; [|done|done].
  destruct H as (Hv & Hg1 & [Hb Hs] & Hp1 & Hp2).
  split; [done|split; [done|split; [done|lia]]].
Qed.

Lemma bounded_with_read_uint d :
  d <= 4 * dirty ->
  bounded_with (fun v => 0 <= v < 4294967296) rem d 0 read_uint.
Proof. intros Hd. apply (bounded_with_read d 4); [lia|done]. Qed.

Lemma bounded_read d n :
  0 <= n <= 4294967296 -> d <= 4 * dirty -> bounded rem d 0 (read n).
Proof. intros. eapply bounded_forget. by apply bounded_with_read. Qed.

Lemma bounded_fmap_M {A B} d c (f : A -> B) (m : M A) :
  bounded rem d c m -> bounded rem d c (fmap_M f m).
Proof. intros Hm. unfold fmap_M. eapply bounded_bind; [exact Hm|]. intros a. apply bounded_ret. Qed.

Lemma bounded_read_uint d : d <= 4 * dirty -> bounded rem d 0 read_uint.
Proof. intros. apply bounded_read; [lia|done]. Qed.
Lemma bounded_read_float d : d <= 4 * dirty -> bounded rem d 0 read_float.
Proof. intros. apply bounded_read; [lia|done]. Qed.
Lemma bounded_read_double d : d <= 4 * dirty -> bounded rem d 0 read_double.
Proof. intros. apply bounded_read; [lia|done]. Qed.
Lemma bounded_read_int d : d <= 4 * dirty -> bounded rem d 0 read_int.
Proof. intros. apply bounded_fmap_M, bounded_read; [lia|done]. Qed.
Lemma bounded_read_enum d : d <= 4 * dirty -> bounded rem d 0 read_enum.
Proof. apply bounded_read_int. Qed.
Lemma bounded_read_longlong d : d <= 4 * dirty -> bounded rem d 0 read_longlong.
Proof. intros. apply bounded_fmap_M, bounded_read; [lia|done]. Qed.

Lemma bounded_checked {A} d n (m : M A) :
  0 <= n <= 4294967296 -> d <= 4 * dirty ->
  (forall r, good r -> _pos r + n <= _length r ->
     match m r with
     | Ok _ r' => good r' /\ _buffer r' = _buffer r /\ _pos r <= _pos r' <= _length r
     | Throw _ _ => True
     | OutOfFuel => False
     end) ->
  bounded rem d 0 (check n;; m).
Proof.
  intros Hn Hd Hm r Hg Hr Hlo Hq. pose proof (check_spec d n r Hn Hd Hg Hq) as Hc.
  unfold bind. destruct (check n r) as [[] r1|e r1|]; [|done|done].
  destruct Hc as [-> Hc]. specialize (Hm r Hg Hc).
  destruct (m r); [|done|done]. split; [done|]. destruct Hm as (? & ? & ?).
  split; [done|split; [done|lia]].
Qed.

Lemma read_raw_spec n r :
  0 <= n -> good r -> _pos r + n <= _length r ->
  read_raw n r = Ok (bytes_at r n) (with_pos (_pos r + n) r).
Proof.
  intros Hn (Hp & HL & Hst) Hq. unfold read_raw, bind, get, advance, modify, ret.
  by rewrite size_t_small by lia.
Qed.

Lemma bounded_read_Vec3d d : d <= 4 * dirty -> bounded rem d 0 read_Vec3d.
Proof.
  intros Hd. apply bounded_checked; [lia|done|]. intros r Hg Hq.
  unfold bind. rewrite read_raw_spec by (done || lia). simpl.
  destruct Hg as (Hp & HL & Hst). split; [split; [simpl; lia|done]|]. split; [done|lia].
Qed.

Lemma bounded_read_Vec4f d : d <= 4 * dirty -> bounded rem d 0 read_Vec4f.
Proof.
  intros Hd. apply bounded_checked; [lia|done|]. intros r Hg Hq.
  unfold bind. rewrite read_raw_spec by (done || lia). simpl.
  destruct Hg as (Hp & HL & Hst). split; [split; [simpl; lia|done]|]. split; [done|lia].
Qed.

Lemma bounded_read_bool d : d <= 4 * dirty -> bounded rem d 0 read_bool.
Proof.
  intros Hd. apply bounded_checked; [lia|done|]. intros r Hg Hq.
  unfold bind, get. cbv zeta. destruct (_ && _); [done|].
  unfold advance, modify, ret. destruct Hg as (Hp & HL & Hst).
  rewrite size_t_small by lia. split; [split; [simpl; lia|done]|]. split; [done|simpl; lia].
Qed.

Lemma read_each_spec n count r :
  0 <= n -> good r -> _pos r + n * Z.of_nat count <= _length r ->
  exists vs r', read_each n count r = Ok vs r' /\
    moved r r' /\ _pos r' = _pos r + n * Z.of_nat count.
Proof.
  intros Hn. revert r. induction count as [|c IH]; intros r Hg Hq.
  - exists [], r. split; [done|]. split; [done|lia].
  - simpl read_each. unfold bind at 1. rewrite read_raw_spec by (done || lia).
    destruct Hg as (Hp & HL & Hst).
    destruct (IH (with_pos (_pos r + n) r)) as (vs & r' & Hvs & [Hb Hs] & Hp').
    { split; [simpl; lia|done]. }
    { change (_length (with_pos (_pos r + n) r)) with (_length r). simpl. lia. }
    unfold bind. rewrite Hvs. eexists _, r'. split; [done|]. split; [done|].
    simpl in Hp'. lia.
Qed.

Lemma bounded_read_n d n count :
  0 <= n -> 0 <= count -> n * count <= 4294967296 -> d <= 4 * dirty ->
  bounded rem d 0 (read_n n count).
Proof.
  intros Hn Hc Hnc Hd. unfold read_n. rewrite size_t_small by nia.
  apply bounded_checked; [nia|done|]. intros r Hg Hq.
  destruct (read_each_spec n (Z.to_nat count) r Hn Hg) as (vs & r' & -> & [Hb Hs] & Hp').
  { rewrite Z2Nat.id by done. lia. }
  rewrite Z2Nat.id in Hp' by done. destruct Hg as (Hp & HL & Hst).
  split; [split; [lia|split; [by rewrite (good_length _ _ Hb)|by rewrite Hs]]|].
  split; [done|nia].
Qed.

End Bounded.

Lemma to_int_range v : 0 <= v < 4294967296 -> -2147483648 <= to_int v < 2147483648.
Proof.
  intros Hv. unfold to_int. change (2 ^ 31) with 2147483648.
  change (2 ^ 32) with 4294967296. destruct (v <? 2147483648) eqn:E; lia.
Qed.

(** A string takes at least the four bytes of its length. *)
Lemma read_string_spec d r :
  d <= 4 * dirty -> good r -> _pos r <= _length r + d ->
  match read_string r with
  | Ok _ r' =>
      good r' /\ _buffer r' = _buffer r /\ _pos r + 4 <= _pos r' <= _length r
  | Throw _ _ => True
  | OutOfFuel => False
  end.
Proof.
  intros Hd Hg Hq. pose proof (read_spec d 4 r ltac:(lia) Hd Hg Hq) as H.
  unfold read_string, read_int, fmap_M, bind at 1 2, ret.
  destruct (read 4 r) as [v r1|e r1|]; [|done|done].
  destruct H as (Hv & Hg1 & [Hb Hs] & Hp1 & Hp2).
  change (256 ^ 4) with 4294967296 in Hv. pose proof (to_int_range v Hv) as Hi.
  destruct (to_int v <? 0) eqn:E; [done|].
  pose proof (good_length _ _ Hb) as HL.
  pose proof (bounded_read_n (_length r1 - _pos r1) 0 1 (to_int v)
                ltac:(lia) ltac:(lia) ltac:(lia) ltac:(bd_lia)) as Hn.
  specialize (Hn r1 Hg1 ltac:(lia) ltac:(lia) ltac:(lia)).
  unfold bind. destruct (read_n 1 (to_int v) r1) as [s r2|e r2|]; [|done|done].
  destruct Hn as (_ & Hg2 & Hb2 & Hp3). split; [done|]. split; [congruence|lia].
Qed.

Section BoundedReaders.

Context (rem : Z).

Lemma bounded_read_string d : d <= 4 * dirty -> bounded rem d 0 read_string.
Proof.
  intros Hd r Hg Hr Hlo Hq. pose proof (read_string_spec d r Hd Hg Hq) as H.
  destruct (read_string r); [|done|done]. destruct H as (? & ? & ?).
  split; [done|split; [done|split; [done|lia]]].
Qed.

(** What follows a string has four bytes less to read. *)
Lemma bounded_bind_read_string {A} d c (k : string -> M A) :
  d <= 4 * dirty ->
  (forall s, bounded (rem - 4) 0 c (k s)) ->
  bounded rem d c (bind read_string k).
Proof.
  intros Hd Hk r Hg Hr Hlo Hq. pose proof (read_string_spec d r Hd Hg Hq) as H.
  unfold bind. destruct (read_string r) as [s r1|e r1|]; [|done|done].
  destruct H as (Hg1 & Hb1 & Hp1). pose proof (good_length _ _ Hb1) as HL.
  specialize (Hk s r1 Hg1). rewrite HL in Hk.
  destruct (k s r1) as [b r2|e2 r2|]; [|done|apply Hk; lia].
  destruct Hk as (_ & Hg2 & Hb2 & Hp2); [lia..|].
  split; [done|split; [done|split; [congruence|lia]]].
Qed.

Lemma bounded_ReadBeginBracket d :
  d <= 4 * dirty -> bounded rem d (d + 8) ReadBeginBracket.
Proof.
  intros Hd. unfold ReadBeginBracket.
  eapply bounded_bind; [apply bounded_get|]. intros r.
  destruct (_useBinaryBrackets r).
  - destruct (_ >? _).
    + apply bounded_advance; [lia|done].
    + eapply bounded_post; [apply (bounded_advance _ d 4); [lia|done]|lia].
  - eapply bounded_post; [apply bounded_ret|lia].
Qed.

Lemma bounded_ReadEndBracket d : bounded rem d d ReadEndBracket.
Proof. apply bounded_ret. Qed.

End BoundedReaders.

Lemma uint_range z : 0 <= uint z < 4294967296.
Proof. unfold uint, wrap. change (2 ^ 32) with 4294967296. apply Z.mod_pos_bound. lia. Qed.

Lemma bounded_throw_here {A} rem d msg : bounded rem d 0 (throw (A:=A) msg).
Proof. apply bounded_throw. Qed.

(** An unchecked skip, of less than 2^36 bytes. *)
Lemma bounded_skip rem d s :
  0 <= s <= 68719476736 -> d <= 4 * dirty ->
  bounded rem d (d + 68719476736) (advance s).
Proof. intros Hs Hd. eapply bounded_post; [by apply bounded_advance|lia]. Qed.

Lemma bounded_bind_with {A B} (Q : A -> Prop) rem d e c (m : M A) (k : A -> M B) :
  bounded_with Q rem d e m ->
  (forall a, Q a -> bounded rem e c (k a)) ->
  bounded rem d c (bind m k).
Proof. apply bounded_with_bind. Qed.

Create HintDb bd.

#[global] Hint Resolve bounded_ret bounded_throw_here bounded_gets bounded_get
  bounded_dynamic_pointer_cast bounded_ReadEndBracket bounded_ReadBeginBracket
  bounded_read_bool bounded_read_uint bounded_read_int bounded_read_enum
  bounded_read_float bounded_read_double bounded_read_longlong
  bounded_read_Vec3d bounded_read_Vec4f bounded_read_string : bd.
#[global] Hint Extern 1 (Z.le _ _) => bd_lia : bd.
#[global] Hint Extern 1 (Z.lt _ _) => bd_lia : bd.
#[global] Hint Extern 1 (_ /\ _) => bd_lia : bd.

(** The setters keep the counts in range. *)
Ltac inst_tac :=
  let i := fresh "i" in
  let H := fresh "H" in
  intros i H; destruct i; simpl in *; first [done | lia].

Ltac skip_range :=
  repeat match goal with
         | |- context [size_t ?z] => rewrite (size_t_small z) by lia
         end;
  try match goal with
      | |- context [uint ?z] => pose proof (uint_range z)
      end;
  lia.

Ltac bd :=
  lazymatch goal with
  | |- bounded _ _ ?c _ =>
      tryif is_evar c then bd_go
      else (eapply bounded_post; [bd_go | bd_lia])
  end
with bd_go :=
  lazymatch goal with
  | |- bounded _ _ _ (bind read_uint _) =>
      eapply bounded_bind_with;
      [apply bounded_with_read_uint; bd_lia | intros ? ?; cbv beta in *; bd]
  | |- bounded _ _ _ (bind (load_Array _) _) =>
      eapply bounded_bind_with; [apply bounded_with_load_Array | intros ? ?; cbv beta in *; bd]
  | |- bounded _ _ _ (bind (load_PrimitiveSet _) _) =>
      eapply bounded_bind_with; [apply bounded_with_load_PrimitiveSet | intros ? ?; cbv beta in *; bd]
  | |- bounded _ _ _ (bind _ _) =>
      eapply bounded_bind; [bd | intros ?; bd]
  | |- bounded _ _ _ (when _ _) => eapply bounded_when; bd
  | |- bounded _ _ _ (for_ _ _) =>
      eapply bounded_for_; [bd_lia | intros ?; bd]
  | |- bounded _ _ _ (for_acc _ _ _) =>
      eapply bounded_for_acc; [bd_lia | intros ? ?; cbv beta in *; bd]
  | |- bounded _ _ _ (match _ with Some _ => _ | None => _ end) =>
      eapply bounded_match_option; [intros ?; bd | bd]
  | |- bounded _ _ _ (if _ then _ else _) => eapply bounded_if; bd
  | |- bounded _ _ _ (make_shared _) =>
      apply bounded_make_shared; simpl; first [done | lia]
  | |- bounded _ _ _ (assign _ _) => apply bounded_assign; inst_tac
  | |- bounded _ _ _ (modify _) => apply bounded_modify; done
  | |- bounded _ _ _ (advance _) => apply bounded_skip; [skip_range | bd_lia]
  | |- bounded _ _ _ (read_n _ _) => apply bounded_read_n; bd_lia
  | |- _ => solve [eauto 3 with bd]
  end.

Section BoundedHeader.

Context (rem : Z).

Lemma bounded_readHeader : bounded rem 0 0 readHeader.
Proof. unfold readHeader. bd. Qed.

Lemma bounded_ReadArray d : d <= 2 * dirty -> bounded rem d 0 ReadArray.
Proof. intros Hd. unfold ReadArray. bd. Qed.

End BoundedHeader.

(** ** The field readers

    Every reader may start up to [2 * dirty] bytes past the end and ends
    at most [dirty] bytes past it; the layers a skip follows end inside
    the buffer. *)

Section BoundedFieldReaders.

Context (rem : Z) (readObject : M ptr).
Hypothesis Hrec : forall d, d <= 2 * dirty -> bounded rem d dirty readObject.

#[local] Hint Resolve bounded_ReadArray : bd.

Lemma bounded_readObjectIfTrue d :
  d <= 2 * dirty -> bounded rem d dirty (readObjectIfTrue readObject).
Proof using Hrec. intros Hd. unfold readObjectIfTrue. bd. Qed.
#[local] Hint Resolve bounded_readObjectIfTrue : bd.

Lemma bounded_readObjectFields_Object obj d :
  d <= 2 * dirty -> bounded rem d dirty (readObjectFields_Object readObject obj).
Proof using Hrec. intros Hd. unfold readObjectFields_Object. bd. Qed.
#[local] Hint Resolve bounded_readObjectFields_Object : bd.

Lemma bounded_readObjectFields_Node obj d :
  d <= 2 * dirty -> bounded rem d dirty (readObjectFields_Node readObject obj).
Proof using Hrec. intros Hd. unfold readObjectFields_Node. bd. Qed.
#[local] Hint Resolve bounded_readObjectFields_Node : bd.

Lemma bounded_readObjectFields_Group obj d :
  d <= 2 * dirty -> bounded rem d dirty (readObjectFields_Group readObject obj).
Proof using Hrec. intros Hd. unfold readObjectFields_Group. bd. Qed.
#[local] Hint Resolve bounded_readObjectFields_Group : bd.

Lemma bounded_readObjectFields_LOD obj d :
  d <= 2 * dirty -> bounded rem d dirty (readObjectFields_LOD obj).
Proof using Hrec. intros Hd. unfold readObjectFields_LOD. bd. Qed.
#[local] Hint Resolve bounded_readObjectFields_LOD : bd.

Lemma bounded_readObjectFields_PagedLOD_RangeDataList obj d :
  d <= 2 * dirty -> bounded rem d dirty (readObjectFields_PagedLOD_RangeDataList obj).
Proof using Hrec. intros Hd. unfold readObjectFields_PagedLOD_RangeDataList. bd. Qed.
#[local] Hint Resolve bounded_readObjectFields_PagedLOD_RangeDataList : bd.

Lemma bounded_readObjectFields_PagedLOD_Children obj d :
  d <= 2 * dirty -> bounded rem d dirty (readObjectFields_PagedLOD_Children readObject obj).
Proof using Hrec. intros Hd. unfold readObjectFields_PagedLOD_Children. bd. Qed.
#[local] Hint Resolve bounded_readObjectFields_PagedLOD_Children : bd.

Lemma bounded_readObjectFields_PagedLOD obj d :
  d <= 2 * dirty -> bounded rem d dirty (readObjectFields_PagedLOD readObject obj).
Proof using Hrec. intros Hd. unfold readObjectFields_PagedLOD. bd. Qed.
#[local] Hint Resolve bounded_readObjectFields_PagedLOD : bd.

Lemma bounded_readObjectFields_Geode obj d :
  d <= 2 * dirty -> bounded rem d dirty (readObjectFields_Geode readObject obj).
Proof using Hrec. intros Hd. unfold readObjectFields_Geode. bd. Qed.
#[local] Hint Resolve bounded_readObjectFields_Geode : bd.

Lemma bounded_readObjectFields_Drawable obj d :
  d <= 2 * dirty -> bounded rem d dirty (readObjectFields_Drawable readObject obj).
Proof using Hrec. intros Hd. unfold readObjectFields_Drawable. bd. Qed.
#[local] Hint Resolve bounded_readObjectFields_Drawable : bd.

Lemma bounded_readObjectFields_PrimitiveSet obj d :
  d <= 2 * dirty -> bounded rem d 0 (readObjectFields_PrimitiveSet obj).
Proof using Hrec. intros Hd. unfold readObjectFields_PrimitiveSet. bd. Qed.
#[local] Hint Resolve bounded_readObjectFields_PrimitiveSet : bd.

Lemma bounded_readObjectFields_DrawElementsUInt obj d :
  d <= 16 -> bounded rem d dirty (readObjectFields_DrawElementsUInt obj).
Proof using Hrec. intros Hd. unfold readObjectFields_DrawElementsUInt. bd. Qed.
#[local] Hint Resolve bounded_readObjectFields_DrawElementsUInt : bd.

Lemma bounded_skip_inline_array d :
  d <= 2 * dirty -> bounded rem d dirty skip_inline_array.
Proof using Hrec. intros Hd. unfold skip_inline_array. bd. Qed.
#[local] Hint Resolve bounded_skip_inline_array : bd.

Lemma bounded_readObjectFields_Geometry obj d :
  d <= 2 * dirty -> bounded rem d dirty (readObjectFields_Geometry readObject obj).
Proof using Hrec. intros Hd. unfold readObjectFields_Geometry. bd. Qed.
#[local] Hint Resolve bounded_readObjectFields_Geometry : bd.

Lemma bounded_read_modes size l d :
  d <= dirty -> bounded rem d dirty (read_modes size l).
Proof using Hrec. intros Hd. unfold read_modes. bd. Qed.
#[local] Hint Resolve bounded_read_modes : bd.

Lemma bounded_read_attributes size l d :
  d <= dirty -> bounded rem d dirty (read_attributes readObject size l).
Proof using Hrec. intros Hd. unfold read_attributes. bd. Qed.
#[local] Hint Resolve bounded_read_attributes : bd.

Lemma bounded_readObjectFields_StateSet obj d :
  d <= 2 * dirty -> bounded rem d dirty (readObjectFields_StateSet readObject obj).
Proof using Hrec. intros Hd. unfold readObjectFields_StateSet. bd. Qed.
#[local] Hint Resolve bounded_readObjectFields_StateSet : bd.

Lemma bounded_readObjectFields_StateAttribute obj d :
  d <= 2 * dirty -> bounded rem d dirty (readObjectFields_StateAttribute readObject obj).
Proof using Hrec. intros Hd. unfold readObjectFields_StateAttribute. bd. Qed.
#[local] Hint Resolve bounded_readObjectFields_StateAttribute : bd.

Lemma bounded_read_Property_Vec4f obj over d :
  d <= 2 * dirty -> bounded rem d dirty (read_Property_Vec4f obj over).
Proof using Hrec. intros Hd. unfold read_Property_Vec4f. bd. Qed.
#[local] Hint Resolve bounded_read_Property_Vec4f : bd.

Lemma bounded_readObjectFields_Material obj d :
  d <= 2 * dirty -> bounded rem d dirty (readObjectFields_Material obj).
Proof using Hrec. intros Hd. unfold readObjectFields_Material. bd. Qed.
#[local] Hint Resolve bounded_readObjectFields_Material : bd.

Lemma bounded_skip_optional_uint d :
  d <= 2 * dirty -> bounded rem d dirty skip_optional_uint.
Proof using Hrec. intros Hd. unfold skip_optional_uint. bd. Qed.
#[local] Hint Resolve bounded_skip_optional_uint : bd.

Lemma bounded_readObjectFields_Texture obj d :
  d <= 2 * dirty -> bounded rem d dirty (readObjectFields_Texture obj).
Proof using Hrec. intros Hd. unfold readObjectFields_Texture. bd. Qed.
#[local] Hint Resolve bounded_readObjectFields_Texture : bd.

Lemma bounded_readImage d :
  d <= 2 * dirty -> bounded rem d dirty (readImage readObject).
Proof using Hrec. intros Hd. unfold readImage. bd. Qed.
#[local] Hint Resolve bounded_readImage : bd.

Lemma bounded_readObjectFields_Texture2D obj d :
  d <= 2 * dirty -> bounded rem d dirty (readObjectFields_Texture2D readObject obj).
Proof using Hrec. intros Hd. unfold readObjectFields_Texture2D. bd. Qed.
#[local] Hint Resolve bounded_readObjectFields_Texture2D : bd.

Lemma bounded_readObjectFields_DefaultUserDataContainer obj d :
  d <= 2 * dirty -> bounded rem d dirty (readObjectFields_DefaultUserDataContainer readObject obj).
Proof using Hrec. intros Hd. unfold readObjectFields_DefaultUserDataContainer. bd. Qed.
#[local] Hint Resolve bounded_readObjectFields_DefaultUserDataContainer : bd.

Lemma bounded_readObjectFields_Array obj d :
  d <= 2 * dirty -> bounded rem d 0 (readObjectFields_Array obj).
Proof using Hrec. intros Hd. unfold readObjectFields_Array. bd. Qed.
#[local] Hint Resolve bounded_readObjectFields_Array : bd.

Lemma bounded_readObjectFields_Vec2Array obj d :
  d <= 16 -> bounded rem d dirty (readObjectFields_Vec2Array obj).
Proof using Hrec. intros Hd. unfold readObjectFields_Vec2Array. bd. Qed.
#[local] Hint Resolve bounded_readObjectFields_Vec2Array : bd.

Lemma bounded_readObjectFields_Vec3Array obj d :
  d <= 16 -> bounded rem d dirty (readObjectFields_Vec3Array obj).
Proof using Hrec. intros Hd. unfold readObjectFields_Vec3Array. bd. Qed.
#[local] Hint Resolve bounded_readObjectFields_Vec3Array : bd.

Lemma bounded_readObjectData_PagedLOD d :
  d <= 2 * dirty -> bounded rem d dirty (readObjectData_PagedLOD readObject).
Proof using Hrec. intros Hd. unfold readObjectData_PagedLOD. bd. Qed.
#[local] Hint Resolve bounded_readObjectData_PagedLOD : bd.

Lemma bounded_readObjectData_Group d :
  d <= 2 * dirty -> bounded rem d dirty (readObjectData_Group readObject).
Proof using Hrec. intros Hd. unfold readObjectData_Group. bd. Qed.
#[local] Hint Resolve bounded_readObjectData_Group : bd.

Lemma bounded_readObjectData_Geode d :
  d <= 2 * dirty -> bounded rem d dirty (readObjectData_Geode readObject).
Proof using Hrec. intros Hd. unfold readObjectData_Geode. bd. Qed.
#[local] Hint Resolve bounded_readObjectData_Geode : bd.

Lemma bounded_readObjectData_Geometry d :
  d <= 2 * dirty -> bounded rem d dirty (readObjectData_Geometry readObject).
Proof using Hrec. intros Hd. unfold readObjectData_Geometry. bd. Qed.
#[local] Hint Resolve bounded_readObjectData_Geometry : bd.

Lemma bounded_readObjectData_DrawElementsUInt d :
  d <= 2 * dirty -> bounded rem d dirty (readObjectData_DrawElementsUInt readObject).
Proof using Hrec. intros Hd. unfold readObjectData_DrawElementsUInt. bd. Qed.
#[local] Hint Resolve bounded_readObjectData_DrawElementsUInt : bd.

Lemma bounded_readObjectData_StateSet d :
  d <= 2 * dirty -> bounded rem d dirty (readObjectData_StateSet readObject).
Proof using Hrec. intros Hd. unfold readObjectData_StateSet. bd. Qed.
#[local] Hint Resolve bounded_readObjectData_StateSet : bd.

Lemma bounded_readObjectData_Material d :
  d <= 2 * dirty -> bounded rem d dirty (readObjectData_Material readObject).
Proof using Hrec. intros Hd. unfold readObjectData_Material. bd. Qed.
#[local] Hint Resolve bounded_readObjectData_Material : bd.

Lemma bounded_readObjectData_Texture2D d :
  d <= 2 * dirty -> bounded rem d dirty (readObjectData_Texture2D readObject).
Proof using Hrec. intros Hd. unfold readObjectData_Texture2D. bd. Qed.
#[local] Hint Resolve bounded_readObjectData_Texture2D : bd.

Lemma bounded_readObjectData_DefaultUserDataContainer d :
  d <= 2 * dirty -> bounded rem d dirty (readObjectData_DefaultUserDataContainer readObject).
Proof using Hrec. intros Hd. unfold readObjectData_DefaultUserDataContainer. bd. Qed.
#[local] Hint Resolve bounded_readObjectData_DefaultUserDataContainer : bd.

Lemma bounded_readObjectData_Vec3Array d :
  d <= 2 * dirty -> bounded rem d dirty (readObjectData_Vec3Array readObject).
Proof using Hrec. intros Hd. unfold readObjectData_Vec3Array. bd. Qed.
#[local] Hint Resolve bounded_readObjectData_Vec3Array : bd.

Lemma bounded_readObjectData_Vec2Array d :
  d <= 2 * dirty -> bounded rem d dirty (readObjectData_Vec2Array readObject).
Proof using Hrec. intros Hd. unfold readObjectData_Vec2Array. bd. Qed.
#[local] Hint Resolve bounded_readObjectData_Vec2Array : bd.

Lemma bounded_dispatch className d :
  d <= 2 * dirty -> bounded rem d dirty (dispatch readObject className).
Proof using Hrec. intros Hd. unfold dispatch. bd. Qed.
#[local] Hint Resolve bounded_dispatch : bd.

End BoundedFieldReaders.

(** ** The dispatcher *)

(** The nested calls start after the class name, with four bytes less to
    read. *)
Lemma bounded_readObject_body rem rec d :
  (forall d, d <= 2 * dirty -> bounded (rem - 4) d dirty rec) ->
  d <= 2 * dirty -> bounded rem d dirty (readObject_body rec).
Proof.
  intros Hrec Hd. unfold readObject_body.
  eapply bounded_bind_read_string; [bd_lia|]. intros className.
  pose proof (bounded_dispatch (rem - 4) rec Hrec) as Hdispatch.
  bd.
Qed.

(** A quarter of the bytes left, rounded up, is fuel enough. *)
Lemma bounded_readObject fuel rem d :
  rem < 4 * Z.of_nat fuel -> d <= 2 * dirty -> bounded rem d dirty (readObject fuel).
Proof.
  revert rem d. induction fuel as [|fuel IH]; intros rem d Hrem Hd.
  - intros r _ Hr. lia.
  - simpl readObject. apply bounded_readObject_body; [|done].
    intros d' Hd'. apply IH; [lia|done].
Qed.

Lemma good_Reader_new buffer :
  Z.of_nat (length buffer) < 4611686018427387904 -> good (Reader_new buffer).
Proof. intros Hl. split; [done|]. split; [exact Hl|]. apply Forall_nil_2. Qed.

Lemma parse_returns buffer fuel :
  Z.of_nat (length buffer) < 4611686018427387904 ->
  (length buffer < fuel)%nat ->
  parse fuel buffer <> OutOfFuel.
Proof.
  intros Hl Hf. unfold parse.
  assert (bounded (Z.of_nat (length buffer)) 0 dirty (readHeader;; readObject fuel)) as Hb.
  { eapply bounded_bind; [apply bounded_readHeader|]. intros _.
    apply bounded_readObject; [lia|bd_lia]. }
  specialize (Hb (Reader_new buffer) (good_Reader_new buffer Hl)).
  intros E. rewrite E in Hb. apply Hb; unfold _length; simpl; lia.
Qed.

(** [Data_read] hands back a result for every buffer of less than 2^62
    bytes. *)
Lemma Data_read_returns buffer :
  Z.of_nat (length buffer) < 4611686018427387904 ->
  exists res, Data_read buffer = Some res.
Proof.
  intros Hl. unfold Data_read, Data_read_fuel.
  pose proof (parse_returns buffer (S (length buffer)) Hl ltac:(lia)) as Hp.
  destruct (parse _ buffer) as [root reader|ex reader|]; [|by eexists|done].
  destruct (_ && _); by eexists.
Qed.


(** * Fuel *)

(** The fuel has no say in a result. *)
Lemma Data_read_fuel_agree buffer fuel1 fuel2 res1 res2 :
  Data_read_fuel fuel1 buffer = Some res1 ->
  Data_read_fuel fuel2 buffer = Some res2 ->
  res1 = res2.
Proof.
  intros H1 H2. destruct (Nat.le_ge_cases fuel1 fuel2) as [Hle|Hle].
  - apply (Data_read_fuel_le _ _ _ _ Hle) in H1. congruence.
  - apply (Data_read_fuel_le _ _ _ _ Hle) in H2. congruence.
Qed.


(** * Further properties of the reader *)

(** ** Depth of nesting *)

(** X1.  How deep a buffer can make the dispatcher nest.  Take every
    allocation to succeed, as the model does.  On a buffer of less than
    2^62 bytes, a run of [Data::read] in which the calls of [readObject]
    may nest to a depth of more than a quarter of the length of the
    buffer comes to its end, with a [Data] or with null: every nested
    call is preceded by the four bytes of a class-name length, and no
    loop or unchecked skip keeps the reader going.  The source sets no
    limit to the depth and allocates vectors and strings of the size it
    has read before it checks any bound, so this bounds what a buffer
    can ask for; that the C++ returns is not claimed. *)
Theorem readObject_nesting_bound buffer fuel :
  Z.of_nat (length buffer) < 4611686018427387904 ->
  Z.of_nat (length buffer) < 4 * Z.of_nat fuel ->
  exists res, Data_read_fuel fuel buffer = Some res.
Proof.
  intros Hl Hf. unfold Data_read_fuel, parse.
  assert (bounded (Z.of_nat (length buffer)) 0 dirty (readHeader;; readObject fuel)) as Hb.
  { eapply bounded_bind; [apply bounded_readHeader|]. intros _.
    apply bounded_readObject; [lia|bd_lia]. }
  specialize (Hb (Reader_new buffer) (good_Reader_new buffer Hl)).
  destruct ((readHeader;; readObject fuel) (Reader_new buffer)) as [root reader|ex reader|].
  - destruct (_ && _); by eexists.
  - by eexists.
  - exfalso. apply Hb; unfold _length; simpl; lia.
Qed.

Lemma readObject_nesting_bound_witness :
  exists res, Data_read_fuel 32 nested_same_identity = Some res.
Proof. apply (readObject_nesting_bound nested_same_identity 32); vm_compute; reflexivity. Defined.

(** ** What a call of [readObject] leaves alone *)

(** X2.  However a call of [readObject] ends, returning or throwing, the
    buffer, the version and the bracket flag are as before, the store has
    not shrunk, and every instance that existed before the call is
    unchanged: the call writes only to the instances it allocates. *)
Theorem readObject_writes_only_new_instances fuel r r' :
  final_state (readObject fuel r) = Some r' ->
  _buffer r' = _buffer r /\
  _version r' = _version r /\
  _useBinaryBrackets r' = _useBinaryBrackets r /\
  (length (store r) <= length (store r'))%nat /\
  forall a i, store r !! a = Some i -> store r' !! a = Some i.
Proof.
  intros H.
  apply (final_state_preserves _ _ _ _ (preserves_readObject (length (store r)) fuel)) in H.
  destruct (H (le_n _)) as [Hb Hv Hk _ _ Hl Hst].
  split; [done|]. split; [done|]. split; [done|]. split; [done|].
  intros a i Ha. rewrite Hst; [done|]. by eapply lookup_lt_Some.
Qed.

Lemma readObject_writes_only_new_instances_witness :
  exists r',
    final_state (readObject 2 Geode_after_Group) = Some r' /\
    length (store r') = 2%nat /\
    store r' !! 0%nat = Some (IGroup Group0).
Proof.
  eexists. split; [vm_compute; reflexivity|]. split; [vm_compute; reflexivity|].
  eapply (readObject_writes_only_new_instances 2 Geode_after_Group).
  - vm_compute. reflexivity.
  - reflexivity.
Defined.

(** ** Identities of inline arrays and images *)

Lemma readObject_keeps_inline_registries fuel r r' :
  final_state (readObject fuel r) = Some r' ->
  _images r ⊆ _images r' /\ _arrays r ⊆ _arrays r'.
Proof.
  intros H.
  apply (final_state_preserves _ _ _ _ (preserves_readObject 0 fuel)) in H.
  by destruct (H (Nat.le_0_l _)) as [_ _ _ Hi Ha _ _].
Qed.

(** X3.  An identity bound in the array registry stays bound to the same
    instance across a call of [readObject], however the call ends; an
    inline array read after it with that identity is that instance, and
    takes the flag and the identity, five bytes, from the buffer. *)
Theorem inline_array_identity_is_kept fuel r0 r r1 r2 u a :
  _arrays r0 !! u = Some a ->
  final_state (readObject fuel r0) = Some r ->
  read_bool r = Ok true r1 ->
  read_uint r1 = Ok u r2 ->
  _arrays r !! u = Some a /\ ReadArray r = Ok (Some a) r2 /\ cursor_moved r r2.
Proof.
  intros Ha H0 H1 H2.
  destruct (readObject_keeps_inline_registries _ _ _ H0) as [_ Hsub].
  pose proof (lookup_weaken _ _ _ _ Ha Hsub) as Ha'.
  assert (cursor_moved r r2) as Hc.
  { eapply cursor_moved_trans; [by eapply read_bool_cursor|by eapply read_uint_cursor]. }
  split; [done|]. split; [|done]. unfold ReadArray.
  rewrite (bind_Ok _ _ _ _ _ H1), (bind_Ok _ _ _ _ _ H2).
  unfold bind at 1, get. rewrite Hc. simpl. by rewrite Ha'.
Qed.

Lemma inline_array_identity_is_kept_witness :
  exists r r1 r2,
    final_state (readObject 1 null_then_array) = Some r /\
    read_bool r = Ok true r1 /\
    read_uint r1 = Ok 7 r2 /\
    ReadArray r = Ok (Some 0%nat) r2.
Proof.
  eexists _, _, _. split; [vm_compute; reflexivity|].
  split; [vm_compute; reflexivity|]. split; [vm_compute; reflexivity|].
  eapply (inline_array_identity_is_kept 1 null_then_array _ _ _ 7 0%nat).
  - vm_compute. reflexivity.
  - vm_compute. reflexivity.
  - vm_compute. reflexivity.
  - vm_compute. reflexivity.
Defined.

(** X4.  The same for the image registry: an inline image read after the call
    with a bound identity is the bound instance, and nothing after the
    identity is read. *)
Theorem inline_image_identity_is_kept fuel fuel' r0 r r1 r2 r3 u a :
  _images r0 !! u = Some a ->
  final_state (readObject fuel r0) = Some r ->
  read_bool r = Ok true r1 ->
  when (_version r1 >? 94) (read_string;; ret tt) r1 = Ok tt r2 ->
  read_uint r2 = Ok u r3 ->
  _images r !! u = Some a /\
  readImage (readObject fuel') r = Ok (Some a) r3 /\ cursor_moved r r3.
Proof.
  intros Ha H0 H1 H2 H3.
  destruct (readObject_keeps_inline_registries _ _ _ H0) as [Hsub _].
  pose proof (lookup_weaken _ _ _ _ Ha Hsub) as Ha'.
  assert (cursor_moved r1 r2) as H2'.
  { pose proof (preserves_when cursor_moved (_version r1 >? 94)
      (read_string;; ret tt)) as Hw.
    eapply final_state_preserves; [apply Hw; pres|]. by rewrite H2. }
  assert (cursor_moved r r3) as Hc.
  { eapply cursor_moved_trans; [by eapply read_bool_cursor|].
    eapply cursor_moved_trans; [exact H2'|by eapply read_uint_cursor]. }
  split; [done|]. split; [|done]. unfold readImage.
  rewrite (bind_Ok _ _ _ _ _ H1). unfold bind at 1, gets.
  rewrite (bind_Ok _ _ _ _ _ H2), (bind_Ok _ _ _ _ _ H3).
  unfold bind at 1, get. rewrite Hc. simpl. by rewrite Ha'.
Qed.

Lemma inline_image_identity_is_kept_witness :
  exists r r1 r2 r3,
    final_state (readObject 1 null_then_image) = Some r /\
    read_bool r = Ok true r1 /\
    when (_version r1 >? 94) (read_string;; ret tt) r1 = Ok tt r2 /\
    read_uint r2 = Ok 9 r3 /\
    readImage (readObject 0) r = Ok (Some 1%nat) r3.
Proof.
  eexists _, _, _, _. split; [vm_compute; reflexivity|].
  split; [vm_compute; reflexivity|]. split; [vm_compute; reflexivity|].
  split; [vm_compute; reflexivity|].
  eapply (inline_image_identity_is_kept 1 0 null_then_image _ _ _ _ 9 1%nat).
  - vm_compute. reflexivity.
  - vm_compute. reflexivity.
  - vm_compute. reflexivity.
  - vm_compute. reflexivity.
  - vm_compute. reflexivity.
Defined.

(** ** The driver *)


(** ** The accessor of the arrays *)

(** The copy of one element: the body the three overrides share. *)
Lemma readFloats_n_in_slice n buffer o index count :
  0 <= n -> elementSize o = 4 * n ->
  slice_in_buffer (elementData o) (elementCount o) (elementSize o)
    (Z.of_nat (length buffer)) ->
  0 <= index -> 0 <= count ->
  match readFloats_n n buffer o index count with
  | Refused => elementCount o <= index \/ n < count
  | Copied dest =>
      index < elementCount o /\ count <= n /\ Z.of_nat (length dest) = 4 * count
  | OutsideBuffer => False
  end.
Proof.
  intros Hn0 Hs Hsl Hi Hc. unfold readFloats_n.
  destruct (index >=? elementCount o) eqn:E1; simpl; [lia|].
  destruct (count >? n) eqn:E2; simpl; [lia|].
  unfold slice_in_buffer in Hsl. destruct (elementData o) as [off|]; [|lia].
  cbv zeta. destruct Hsl as [Hoff Hend].
  assert (off + index * (4 * n) + 4 * count <= Z.of_nat (length buffer)) as Hin by nia.
  destruct (_ && _) eqn:E3; [|apply andb_false_iff in E3 as [E3|E3]; nia].
  split; [lia|]. split; [lia|]. rewrite length_take, length_drop. lia.
Qed.

Lemma readFloats_as_readFloats_n buffer i o index count :
  as_Array i = Some o ->
  0 <= floats_per_element i /\
  readFloats buffer i index count =
    Some (readFloats_n (floats_per_element i) buffer o index count).
Proof. intros Ho. destruct i; try done; simpl in *; by simplify_eq. Qed.

(** X6.  [readFloats] stays inside the slice of its array: when the
    [elementCount * elementSize] bytes at [elementData] are in the buffer,
    a call with any index and count either refuses, which it does exactly
    when the index is not below [elementCount] or the count exceeds the
    floats of an element, or copies [4 * count] bytes that lie inside
    the buffer.  A null [elementData] is never read, for the slice is
    then empty and every index is refused. *)
Theorem readFloats_stays_in_slice buffer i o index count :
  as_Array i = Some o ->
  elementSize o = 4 * floats_per_element i ->
  slice_in_buffer (elementData o) (elementCount o) (elementSize o)
    (Z.of_nat (length buffer)) ->
  0 <= index -> 0 <= count ->
  match readFloats buffer i index count with
  | Some Refused => elementCount o <= index \/ floats_per_element i < count
  | Some (Copied dest) =>
      index < elementCount o /\ count <= floats_per_element i /\
      Z.of_nat (length dest) = 4 * count
  | Some OutsideBuffer | None => False
  end.
Proof.
  intros Ho Hs Hsl Hi Hc.
  destruct (readFloats_as_readFloats_n buffer i o index count Ho) as [Hn ->].
  by apply readFloats_n_in_slice.
Qed.

Lemma readFloats_stays_in_slice_witness :
  match readFloats forty_bytes three_Vec3f 2 3 with
  | Some Refused => 3 <= 2 \/ 3 < 3
  | Some (Copied dest) => 2 < 3 /\ 3 <= 3 /\ Z.of_nat (length dest) = 4 * 3
  | Some OutsideBuffer | None => False
  end.
Proof.
  apply (readFloats_stays_in_slice forty_bytes three_Vec3f
           (set_elementData (Some 4) (set_elementCount 3 Vec3Array0)) 2 3).
  - reflexivity.
  - reflexivity.
  - vm_compute. split; discriminate.
  - lia.
  - lia.
Defined.

(** ** Dynamic types *)

#[global] Instance same_classes_Invariant : Invariant same_classes.
Proof.
  split.
  - intros r a i Ha. by exists i.
  - intros r1 r2 r3 H12 H23 a i Ha.
    destruct (H12 a i Ha) as (i2 & Ha2 & Hc2).
    destruct (H23 a i2 Ha2) as (i3 & Ha3 & Hc3). exists i3. split; [done|congruence].
  - intros v r a i Ha. by exists i.
Qed.

Lemma same_classes_assign a f :
  (forall i, className (f i) = className i) -> preserves same_classes (assign a f).
Proof.
  intros Hf r b i Hb. simpl. destruct (decide (b = a)) as [->|Hne].
  - exists (f i). rewrite list_lookup_alter_eq, Hb. by split.
  - exists i. by rewrite list_lookup_alter_ne.
Qed.

Lemma same_classes_make_shared i : preserves same_classes (make_shared i).
Proof. intros r a j Ha. exists j. split; [|done]. simpl. by apply lookup_app_l_Some. Qed.

Lemma same_classes_same_store r r' : store r' = store r -> same_classes r r'.
Proof. intros Hs a i Ha. exists i. by rewrite Hs. Qed.

Create HintDb cls discriminated.

Ltac cls_step :=
  lazymatch goal with
  | |- preserves _ (bind _ _) => refine (preserves_bind _ _ _ _ _); [ | intros ? ]
  | |- preserves _ (when _ _) => refine (preserves_when _ _ _ _)
  | |- preserves _ (for_ _ _) => refine (preserves_for_ _ _ _ _); intros ?
  | |- preserves _ (for_acc _ _ _) => refine (preserves_for_acc _ _ _ _ _); intros ? ?
  | |- preserves _ (assign _ _) => apply same_classes_assign; intros []; reflexivity
  | |- preserves _ (make_shared _) => apply same_classes_make_shared
  | |- preserves _ (modify _) =>
      refine (preserves_modify _ _ _); intros ?; apply same_classes_same_store; reflexivity
  | |- preserves _ (if ?b then _ else _) => destruct b
  | |- preserves _ (match ?x with _ => _ end) => destruct x
  | |- preserves _ _ => solve [eauto with pres cls typeclass_instances]
  end.

Ltac cls := repeat cls_step.

Lemma same_classes_ReadArray : preserves same_classes ReadArray.
Proof. unfold ReadArray. cls. Qed.

Section ClassesFieldReaders.

Context (readObject : M ptr).
Hypothesis readObject_classes : preserves same_classes readObject.

#[local] Hint Resolve readObject_classes same_classes_ReadArray : cls.

Lemma same_classes_readObjectIfTrue :
  preserves same_classes (readObjectIfTrue readObject).
Proof using readObject_classes. unfold readObjectIfTrue. cls. Qed.
#[local] Hint Resolve same_classes_readObjectIfTrue : cls.

Lemma same_classes_readObjectFields_Object obj :
  preserves same_classes (readObjectFields_Object readObject obj).
Proof using readObject_classes. unfold readObjectFields_Object. cls. Qed.
#[local] Hint Resolve same_classes_readObjectFields_Object : cls.

Lemma same_classes_readObjectFields_Node obj :
  preserves same_classes (readObjectFields_Node readObject obj).
Proof using readObject_classes. unfold readObjectFields_Node. cls. Qed.
#[local] Hint Resolve same_classes_readObjectFields_Node : cls.

Lemma same_classes_readObjectFields_Group obj :
  preserves same_classes (readObjectFields_Group readObject obj).
Proof using readObject_classes. unfold readObjectFields_Group. cls. Qed.
#[local] Hint Resolve same_classes_readObjectFields_Group : cls.

Lemma same_classes_readObjectFields_LOD obj :
  preserves same_classes (readObjectFields_LOD obj).
Proof using readObject_classes. unfold readObjectFields_LOD. cls. Qed.
#[local] Hint Resolve same_classes_readObjectFields_LOD : cls.

Lemma same_classes_readObjectFields_PagedLOD_RangeDataList obj :
  preserves same_classes (readObjectFields_PagedLOD_RangeDataList obj).
Proof using readObject_classes. unfold readObjectFields_PagedLOD_RangeDataList. cls. Qed.
#[local] Hint Resolve same_classes_readObjectFields_PagedLOD_RangeDataList : cls.

Lemma same_classes_readObjectFields_PagedLOD_Children obj :
  preserves same_classes (readObjectFields_PagedLOD_Children readObject obj).
Proof using readObject_classes. unfold readObjectFields_PagedLOD_Children. cls. Qed.
#[local] Hint Resolve same_classes_readObjectFields_PagedLOD_Children : cls.

Lemma same_classes_readObjectFields_PagedLOD obj :
  preserves same_classes (readObjectFields_PagedLOD readObject obj).
Proof using readObject_classes. unfold readObjectFields_PagedLOD. cls. Qed.
#[local] Hint Resolve same_classes_readObjectFields_PagedLOD : cls.

Lemma same_classes_readObjectFields_Geode obj :
  preserves same_classes (readObjectFields_Geode readObject obj).
Proof using readObject_classes. unfold readObjectFields_Geode. cls. Qed.
#[local] Hint Resolve same_classes_readObjectFields_Geode : cls.

Lemma same_classes_readObjectFields_Drawable obj :
  preserves same_classes (readObjectFields_Drawable readObject obj).
Proof using readObject_classes. unfold readObjectFields_Drawable. cls. Qed.
#[local] Hint Resolve same_classes_readObjectFields_Drawable : cls.

Lemma same_classes_readObjectFields_PrimitiveSet obj :
  preserves same_classes (readObjectFields_PrimitiveSet obj).
Proof using readObject_classes. unfold readObjectFields_PrimitiveSet. cls. Qed.
#[local] Hint Resolve same_classes_readObjectFields_PrimitiveSet : cls.

Lemma same_classes_readObjectFields_DrawElementsUInt obj :
  preserves same_classes (readObjectFields_DrawElementsUInt obj).
Proof using readObject_classes. unfold readObjectFields_DrawElementsUInt. cls. Qed.
#[local] Hint Resolve same_classes_readObjectFields_DrawElementsUInt : cls.

Lemma same_classes_skip_inline_array :
  preserves same_classes skip_inline_array.
Proof using readObject_classes. unfold skip_inline_array. cls. Qed.
#[local] Hint Resolve same_classes_skip_inline_array : cls.

Lemma same_classes_readObjectFields_Geometry obj :
  preserves same_classes (readObjectFields_Geometry readObject obj).
Proof using readObject_classes. unfold readObjectFields_Geometry. cls. Qed.
#[local] Hint Resolve same_classes_readObjectFields_Geometry : cls.

Lemma same_classes_read_modes size l :
  preserves same_classes (read_modes size l).
Proof using readObject_classes. unfold read_modes. cls. Qed.
#[local] Hint Resolve same_classes_read_modes : cls.

Lemma same_classes_read_attributes size l :
  preserves same_classes (read_attributes readObject size l).
Proof using readObject_classes. unfold read_attributes. cls. Qed.
#[local] Hint Resolve same_classes_read_attributes : cls.

Lemma same_classes_readObjectFields_StateSet obj :
  preserves same_classes (readObjectFields_StateSet readObject obj).
Proof using readObject_classes. unfold readObjectFields_StateSet. cls. Qed.
#[local] Hint Resolve same_classes_readObjectFields_StateSet : cls.

Lemma same_classes_readObjectFields_StateAttribute obj :
  preserves same_classes (readObjectFields_StateAttribute readObject obj).
Proof using readObject_classes. unfold readObjectFields_StateAttribute. cls. Qed.
#[local] Hint Resolve same_classes_readObjectFields_StateAttribute : cls.

Lemma same_classes_read_Property_Vec4f obj over :
  preserves same_classes (read_Property_Vec4f obj over).
Proof using readObject_classes. unfold read_Property_Vec4f. cls. Qed.
#[local] Hint Resolve same_classes_read_Property_Vec4f : cls.

Lemma same_classes_readObjectFields_Material obj :
  preserves same_classes (readObjectFields_Material obj).
Proof using readObject_classes. unfold readObjectFields_Material. cls. Qed.
#[local] Hint Resolve same_classes_readObjectFields_Material : cls.

Lemma same_classes_skip_optional_uint :
  preserves same_classes skip_optional_uint.
Proof using readObject_classes. unfold skip_optional_uint. cls. Qed.
#[local] Hint Resolve same_classes_skip_optional_uint : cls.

Lemma same_classes_readObjectFields_Texture obj :
  preserves same_classes (readObjectFields_Texture obj).
Proof using readObject_classes. unfold readObjectFields_Texture. cls. Qed.
#[local] Hint Resolve same_classes_readObjectFields_Texture : cls.

Lemma same_classes_readImage :
  preserves same_classes (readImage readObject).
Proof using readObject_classes. unfold readImage. cls. Qed.
#[local] Hint Resolve same_classes_readImage : cls.

Lemma same_classes_readObjectFields_Texture2D obj :
  preserves same_classes (readObjectFields_Texture2D readObject obj).
Proof using readObject_classes. unfold readObjectFields_Texture2D. cls. Qed.
#[local] Hint Resolve same_classes_readObjectFields_Texture2D : cls.

Lemma same_classes_readObjectFields_DefaultUserDataContainer obj :
  preserves same_classes (readObjectFields_DefaultUserDataContainer readObject obj).
Proof using readObject_classes. unfold readObjectFields_DefaultUserDataContainer. cls. Qed.
#[local] Hint Resolve same_classes_readObjectFields_DefaultUserDataContainer : cls.

Lemma same_classes_readObjectFields_Array obj :
  preserves same_classes (readObjectFields_Array obj).
Proof using readObject_classes. unfold readObjectFields_Array. cls. Qed.
#[local] Hint Resolve same_classes_readObjectFields_Array : cls.

Lemma same_classes_readObjectFields_Vec2Array obj :
  preserves same_classes (readObjectFields_Vec2Array obj).
Proof using readObject_classes. unfold readObjectFields_Vec2Array. cls. Qed.
#[local] Hint Resolve same_classes_readObjectFields_Vec2Array : cls.

Lemma same_classes_readObjectFields_Vec3Array obj :
  preserves same_classes (readObjectFields_Vec3Array obj).
Proof using readObject_classes. unfold readObjectFields_Vec3Array. cls. Qed.
#[local] Hint Resolve same_classes_readObjectFields_Vec3Array : cls.

(** An allocation followed by readers that keep the classes: the new
    instance is still of the class it was allocated with. *)
Lemma make_shared_class {A} i (k : nat -> M A) r p r' :
  preserves same_classes (k (length (store r))) ->
  bind (make_shared i) k r = Ok p r' ->
  exists i', store r' !! length (store r) = Some i' /\ className i' = className i.
Proof.
  intros Hk H. unfold bind, make_shared in H.
  specialize (Hk (with_store (store r ++ [i]) r)). rewrite H in Hk.
  apply Hk. simpl. by apply list_lookup_middle.
Qed.

Lemma dispatch_class tag r p r' :
  dispatch readObject tag r = Ok p r' ->
  exists i, store r' !! length (store r) = Some i /\
            tag = String.append "osg::" (className i).
Proof using readObject_classes.
  unfold dispatch, readObjectData_PagedLOD, readObjectData_Group, readObjectData_Geode, readObjectData_Geometry, readObjectData_DrawElementsUInt, readObjectData_StateSet, readObjectData_Material, readObjectData_Texture2D, readObjectData_DefaultUserDataContainer, readObjectData_Vec3Array, readObjectData_Vec2Array.
  repeat (
    match goal with
    | |- context [String.eqb tag ?s] => destruct (String.eqb_spec tag s) as [->|_]
    end;
    [intros H; apply make_shared_class in H as (i' & ? & Hc);
       [exists i'; split; [done|]; by rewrite Hc|cls]|]).
  done.
Qed.

Lemma same_classes_dispatch tag : preserves same_classes (dispatch readObject tag).
Proof using readObject_classes.
  unfold dispatch, readObjectData_PagedLOD, readObjectData_Group, readObjectData_Geode, readObjectData_Geometry, readObjectData_DrawElementsUInt, readObjectData_StateSet, readObjectData_Material, readObjectData_Texture2D, readObjectData_DefaultUserDataContainer, readObjectData_Vec3Array, readObjectData_Vec2Array. cls.
Qed.
#[local] Hint Resolve same_classes_dispatch : cls.

Lemma same_classes_readObject_body :
  preserves same_classes (readObject_body readObject).
Proof using readObject_classes. unfold readObject_body, ReadEndBracket. cls. Qed.

End ClassesFieldReaders.

Lemma same_classes_readObject fuel : preserves same_classes (readObject fuel).
Proof.
  induction fuel as [|fuel IH]; [done|]. simpl. by apply same_classes_readObject_body.
Qed.

Lemma className_over_Object f i : className (over_Object f i) = className i.
Proof. by destruct i. Qed.

Lemma uniqueId_set_uniqueId u i :
  uniqueId (as_Object (over_Object (set_uniqueId u) i)) = u.
Proof. by destruct i. Qed.

(** X7.  The first sighting of an identity.  When the dispatcher reads a class
    name that is not empty and an identity that is not in the object
    registry, and returns, it returns the instance it allocated, at the
    next free address; that instance is of the class the name says (the
    name is [osg::] followed by what [className()] gives), it carries the
    identity, and the registry binds the identity to it. *)
Theorem readObject_first_sighting fuel r tag r1 r2 r3 u p r' :
  read_string r = Ok tag r1 ->
  tag <> EmptyString ->
  ReadBeginBracket r1 = Ok tt r2 ->
  read_uint r2 = Ok u r3 ->
  _objects r !! u = None ->
  readObject (S fuel) r = Ok p r' ->
  exists i,
    p = Some (length (store r)) /\
    store r' !! length (store r) = Some i /\
    tag = String.append "osg::" (className i) /\
    uniqueId (as_Object i) = u /\
    _objects r' !! u = Some (length (store r)).
Proof.
  intros H1 Hne H2 H3 Hu.
  assert (cursor_moved r r3) as Hc.
  { eapply cursor_moved_trans; [by eapply read_string_cursor|].
    eapply cursor_moved_trans; [by eapply ReadBeginBracket_cursor|].
    by eapply read_uint_cursor. }
  assert (store r3 = store r) as Hst by (by rewrite Hc).
  assert (_objects r3 !! u = None) as Hu3 by (by rewrite Hc).
  simpl. unfold readObject_body.
  rewrite (bind_Ok _ _ _ _ _ H1).
  destruct (String.eqb_spec tag ""); [done|].
  rewrite (bind_Ok _ _ _ _ _ H2), (bind_Ok _ _ _ _ _ H3).
  unfold bind at 1, get. rewrite Hu3. unfold bind at 1.
  destruct (dispatch (readObject fuel) tag r3) as [p0 r4|e r4|] eqn:E; [|done|done].
  pose proof (dispatch_returns _ _ _ _ _ E) as ->.
  apply (dispatch_class _ (same_classes_readObject fuel)) in E as (i & Hi & Ht).
  rewrite Hst in *.
  unfold ReadEndBracket, bind, ret, assign, modify. intros [= <- <-].
  exists (over_Object (set_uniqueId u) i). simpl.
  split; [done|]. split; [by rewrite list_lookup_alter_eq, Hi|].
  split; [by rewrite className_over_Object|].
  split; [apply uniqueId_set_uniqueId|apply lookup_insert_eq].
Qed.

Lemma readObject_first_sighting_witness :
  exists p r' i,
    readObject 2 Geode_after_Group = Ok p r' /\
    p = Some 1%nat /\
    store r' !! 1%nat = Some i /\
    className i = "Geode" /\
    uniqueId (as_Object i) = 3 /\
    _objects r' !! 3 = Some 1%nat.
Proof.
  destruct (readObject 2 Geode_after_Group) as [p r'|e r'|] eqn:E;
    [|vm_compute in E; discriminate..].
  destruct (readObject_first_sighting 1 Geode_after_Group "osg::Geode" _ _ _ 3 p r'
              ltac:(vm_compute; reflexivity) ltac:(discriminate)
              ltac:(vm_compute; reflexivity) ltac:(vm_compute; reflexivity)
              ltac:(vm_compute; reflexivity) E)
    as (i & Hp & Hi & Ht & Hid & Hreg).
  exists p, r', i. split; [done|]. split; [exact Hp|]. split; [exact Hi|].
  split; [|split; [exact Hid|exact Hreg]].
  cbv [String.append] in Ht. congruence.
Defined.

(** ** The primitive reads in closed form *)

Lemma with_pos_same r : with_pos (_pos r) r = r.
Proof. by destruct r. Qed.

Lemma byte_of_byte_val b : byte_of (byte_val b) = b.
Proof.
  unfold byte_of. pose proof (byte_val_range b) as Hb.
  rewrite Z.mod_small by lia. unfold byte_val. rewrite N2Z.id, Byte.of_to_N. done.
Qed.

Lemma byte_val_byte_of z : byte_val (byte_of z) = z mod 256.
Proof.
  unfold byte_of, byte_val. pose proof (Z.mod_pos_bound z 256 ltac:(lia)) as Hz.
  destruct (Byte.of_N (Z.to_N (z mod 256))) as [b|] eqn:E; simpl.
  - apply Byte.to_of_N in E. rewrite E. lia.
  - apply Byte.of_N_None_iff in E. lia.
Qed.

Lemma byte_of_mod z : byte_of (z mod 256) = byte_of z.
Proof. unfold byte_of. by rewrite Z.mod_mod. Qed.

Lemma length_le n z : length (le n z) = n.
Proof. revert z. induction n as [|n IH]; intros z; simpl; [done|]. by rewrite IH. Qed.

Lemma le_le_val l : le (length l) (le_val l) = l.
Proof.
  induction l as [|b l IH]; [done|]. simpl. pose proof (byte_val_range b) as Hb.
  assert ((byte_val b + 256 * le_val l) mod 256 = byte_val b) as Hm.
  { rewrite Z.mul_comm, Z.mod_add by lia. apply Z.mod_small. lia. }
  assert ((byte_val b + 256 * le_val l) / 256 = le_val l) as Hd.
  { rewrite Z.mul_comm, Z.div_add by lia.
    rewrite (Z.div_small (byte_val b)) by lia. lia. }
  rewrite Hd, IH. f_equal. rewrite <- byte_of_mod, Hm. apply byte_of_byte_val.
Qed.

Lemma le_val_le n z : 0 <= z < 256 ^ Z.of_nat n -> le_val (le n z) = z.
Proof.
  revert z. induction n as [|n IH]; intros z Hz.
  - simpl in *. lia.
  - rewrite Nat2Z.inj_succ, Z.pow_succ_r in Hz by lia. simpl.
    rewrite byte_val_byte_of, IH.
    + pose proof (Z.div_mod z 256 ltac:(lia)). lia.
    + split; [apply Z.div_pos; lia|]. apply Z.div_lt_upper_bound; lia.
Qed.

Lemma length_bytes_at r n :
  0 <= n -> 0 <= _pos r -> _pos r + n <= _length r ->
  length (bytes_at r n) = Z.to_nat n.
Proof.
  intros Hn Hp Hl. unfold bytes_at, _length in *. rewrite length_take, length_drop. lia.
Qed.

Lemma bytes_at_add r n m :
  0 <= n -> 0 <= m -> 0 <= _pos r ->
  bytes_at r n ++ bytes_at (with_pos (_pos r + n) r) m = bytes_at r (n + m).
Proof.
  intros Hn Hm Hp. unfold bytes_at. simpl.
  rewrite (Z2Nat.inj_add (_pos r)) by lia. rewrite <- drop_drop.
  rewrite Z2Nat.inj_add by lia. apply take_take_drop.
Qed.

Lemma read_closed_form n r :
  0 <= n <= 4294967296 -> in_buffer r ->
  read n r =
    if _pos r + n <=? _length r
    then Ok (le_val (bytes_at r n)) (with_pos (_pos r + n) r)
    else Throw {| offset := _pos r; message := "read beyond data length" |} r.
Proof.
  intros Hn [Hp HL].
  unfold read, bind, fmap_M, bind, check, read_raw, bind, get, advance, modify, ret, throw.
  rewrite size_t_small by lia.
  destruct (_ >? _) eqn:E1; destruct (_ <=? _) eqn:E2; try lia; [done|].
  by rewrite size_t_small by lia.
Qed.

Lemma read_each_closed_form n count r :
  0 <= n -> in_buffer r -> _pos r + n * Z.of_nat count <= _length r ->
  exists vs,
    read_each n count r = Ok vs (with_pos (_pos r + n * Z.of_nat count) r) /\
    concat vs = bytes_at r (n * Z.of_nat count).
Proof.
  intros Hn. revert r. induction count as [|c IH]; intros r [Hp HL] Hq.
  - exists []. simpl. rewrite Z.mul_0_r, Z.add_0_r, with_pos_same. split; [done|].
    unfold bytes_at. by rewrite take_0.
  - simpl read_each. unfold bind at 1, read_raw, bind, get, advance, modify, ret.
    rewrite size_t_small by lia.
    destruct (IH (with_pos (_pos r + n) r)) as (vs & Hvs & Hc).
    { split; [|done]. change (_length (with_pos (_pos r + n) r)) with (_length r).
      simpl. nia. }
    { change (_length (with_pos (_pos r + n) r)) with (_length r). simpl. lia. }
    rewrite Hvs. exists (bytes_at r n :: vs). split.
    + unfold ret. f_equal. unfold with_pos. simpl. f_equal. lia.
    + simpl. rewrite Hc. rewrite bytes_at_add by lia. f_equal. lia.
Qed.

(** [read<std::string>()] unfolded, with its three checks. *)
Lemma read_string_unfold r :
  in_buffer r ->
  read_string r =
    if _length r - _pos r <? 4
    then Throw {| offset := _pos r; message := "read beyond data length" |} r
    else
      let size := to_int (le_val (bytes_at r 4)) in
      let r1 := with_pos (_pos r + 4) r in
      if size <? 0
      then Throw {| offset := _pos r + 4; message := "invalid string length" |} r1
      else if _length r - (_pos r + 4) <? size
      then Throw {| offset := _pos r + 4; message := "read beyond data length" |} r1
      else Ok (string_of_list_byte (bytes_at r1 size))
              (with_pos (_pos r + 4 + size) r).
Proof.
  intros Hr. pose proof Hr as [Hp HL].
  unfold read_string, read_int, fmap_M, bind at 1 2.
  rewrite (read_closed_form 4 r) by (done || lia).
  destruct (_length r - _pos r <? 4) eqn:E0.
  { destruct (_ <=? _) eqn:E; [lia|done]. }
  destruct (_ <=? _) eqn:E; [|lia]. unfold ret at 1. cbv zeta.
  pose proof (le_val_bytes_at r 4 ltac:(lia)) as Hv.
  change (256 ^ 4) with 4294967296 in Hv.
  pose proof (to_int_range _ Hv) as Hi.
  set (size := to_int (le_val (bytes_at r 4))) in *.
  destruct (size <? 0) eqn:E1; [done|].
  unfold read_n, bind, check, throw. rewrite Z.mul_1_l.
  rewrite (size_t_small size) by lia. simpl _pos.
  change (_length (with_pos (_pos r + 4) r)) with (_length r).
  rewrite size_t_small by lia.
  destruct (_ >? _) eqn:E2; destruct (_length r - (_pos r + 4) <? size) eqn:E3;
    try lia; [done|].
  destruct (read_each_closed_form 1 (Z.to_nat size) (with_pos (_pos r + 4) r))
    as (vs & -> & Hc).
  { lia. }
  { split; [|done]. change (_length (with_pos (_pos r + 4) r)) with (_length r).
    simpl. lia. }
  { change (_length (with_pos (_pos r + 4) r)) with (_length r). simpl. lia. }
  unfold ret. rewrite Hc, Z.mul_1_l, Z2Nat.id by lia. reflexivity.
Qed.

(** X8.  [read<std::string>()] in closed form.  With the cursor inside the
    buffer: fewer than four bytes left raise "read beyond data length" at
    the cursor; otherwise the four bytes are taken as an [int], the
    cursor moves past them, and a negative length raises "invalid string
    length", a length beyond what is left "read beyond data length", both
    with the offset after the length; otherwise the string is the bytes
    that follow and the cursor ends after them, never past the end. *)
Theorem read_string_closed_form r :
  in_buffer r ->
  read_string r =
    if _length r - _pos r <? 4
    then Throw {| offset := _pos r; message := "read beyond data length" |} r
    else
      let size := to_int (le_val (bytes_at r 4)) in
      let r1 := with_pos (_pos r + 4) r in
      if size <? 0
      then Throw {| offset := _pos r + 4; message := "invalid string length" |} r1
      else if _length r - (_pos r + 4) <? size
      then Throw {| offset := _pos r + 4; message := "read beyond data length" |} r1
      else Ok (string_of_list_byte (bytes_at r1 size))
              (with_pos (_pos r + 4 + size) r).
Proof. intros Hin. by apply read_string_unfold. Qed.

Lemma read_string_closed_form_witness :
  in_buffer (Reader_new (str "osg::Group")) /\
  read_string (Reader_new (str "osg::Group")) =
    Ok "osg::Group" (with_pos 14 (Reader_new (str "osg::Group"))) /\
  read_string (Reader_new (u32 0xffffffff)) =
    Throw {| offset := 4; message := "invalid string length" |}
          (with_pos 4 (Reader_new (u32 0xffffffff))) /\
  read_string (Reader_new (u32 5 ++ u8 1)) =
    Throw {| offset := 4; message := "read beyond data length" |}
          (with_pos 4 (Reader_new (u32 5 ++ u8 1))).
Proof.
  assert (forall l, (length l < 100)%nat -> in_buffer (Reader_new l)) as Hin.
  { intros l Hl. unfold in_buffer, _length, Reader_new. cbn [_pos _buffer]. lia. }
  assert (in_buffer (Reader_new (str "osg::Group"))) as H1
    by (apply Hin; vm_compute; lia).
  assert (in_buffer (Reader_new (u32 0xffffffff))) as H2
    by (apply Hin; vm_compute; lia).
  assert (in_buffer (Reader_new (u32 5 ++ u8 1))) as H3
    by (apply Hin; vm_compute; lia).
  split; [exact H1|]. split; [|split].
  - rewrite (read_string_closed_form _ H1). reflexivity.
  - rewrite (read_string_closed_form _ H2). reflexivity.
  - rewrite (read_string_closed_form _ H3). reflexivity.
Defined.

(** ** Reading and writing *)

Lemma length_list_byte_of_string s :
  length (list_byte_of_string s) = String.length s.
Proof. induction s as [|c s IH]; [done|]. simpl. by rewrite <- IH. Qed.

Lemma rest_at_length r :
  0 <= _pos r -> Z.of_nat (length (rest_at r)) = Z.max 0 (_length r - _pos r).
Proof. intros Hp. unfold rest_at, _length. rewrite length_drop. lia. Qed.

Lemma rest_at_bytes_at r n :
  0 <= n -> 0 <= _pos r ->
  rest_at r = bytes_at r n ++ rest_at (with_pos (_pos r + n) r).
Proof.
  intros Hn Hp. unfold rest_at, bytes_at. simpl.
  rewrite Z2Nat.inj_add by lia. by rewrite <- drop_drop, take_drop.
Qed.

Lemma rest_at_app r bs rest n :
  rest_at r = bs ++ rest -> 0 <= _pos r <= _length r -> n = Z.of_nat (length bs) ->
  bytes_at r n = bs /\ rest_at (with_pos (_pos r + n) r) = rest /\
  _pos r + n <= _length r.
Proof.
  intros Hr [Hp Hp'] ->. pose proof (rest_at_length r Hp) as Hl.
  rewrite Hr, length_app in Hl.
  unfold bytes_at. fold (rest_at r). rewrite Hr, Nat2Z.id.
  split; [by rewrite take_app_length|]. split; [|lia].
  unfold rest_at in *. simpl. rewrite Z2Nat.inj_add, Nat2Z.id by lia.
  by rewrite <- drop_drop, Hr, drop_app_length.
Qed.

(** A checked read takes the little-endian bytes of its value off the
    front of what is left, and only those. *)
Lemma read_le_iff n r v r' :
  0 <= n <= 8 -> in_buffer r ->
  read n r = Ok v r' <->
  exists rest,
    rest_at r = le (Z.to_nat n) v ++ rest /\ 0 <= v < 256 ^ n /\
    r' = with_pos (_pos r + n) r.
Proof.
  intros Hn Hr. pose proof Hr as [Hp HL].
  rewrite read_closed_form by (done || lia). split.
  - destruct (_ <=? _) eqn:E; [|done]. intros [= <- <-].
    exists (rest_at (with_pos (_pos r + n) r)).
    split; [|split; [apply le_val_bytes_at; lia|done]].
    rewrite <- (length_bytes_at r n) by lia. rewrite le_le_val.
    apply rest_at_bytes_at; lia.
  - intros (rest & Hrest & Hv & ->).
    destruct (rest_at_app r _ rest n Hrest) as (Hb & _ & Hl); [lia| |].
    { rewrite length_le. lia. }
    destruct (_ <=? _) eqn:E; [|lia]. rewrite Hb, le_val_le; [done|].
    by rewrite Z2Nat.id by lia.
Qed.

(** [read<std::string>()] takes [str s] off the front of what is left. *)
Lemma read_string_iff r s r' :
  in_buffer r ->
  read_string r = Ok s r' <->
  exists rest,
    rest_at r = str s ++ rest /\ Z.of_nat (String.length s) < 2147483648 /\
    r' = with_pos (_pos r + 4 + Z.of_nat (String.length s)) r.
Proof.
  intros Hr. pose proof Hr as [Hp HL].
  rewrite read_string_unfold by done. cbv zeta.
  pose proof (le_val_bytes_at r 4 ltac:(lia)) as Hv.
  change (256 ^ 4) with 4294967296 in Hv.
  split.
  - destruct (_ <? 4) eqn:E0; [done|].
    pose proof (to_int_range _ Hv) as Hi.
    destruct (_ <? 0) eqn:E1; [done|].
    destruct (_ <? to_int _) eqn:E2; [done|].
    set (size := to_int (le_val (bytes_at r 4))) in *.
    intros [= <- <-].
    assert (le_val (bytes_at r 4) = size) as Hsize.
    { unfold size, to_int in *. change (2 ^ 31) with 2147483648 in *.
      change (2 ^ 32) with 4294967296 in *.
      destruct (le_val (bytes_at r 4) <? 2147483648) eqn:E; lia. }
    assert (length (bytes_at (with_pos (_pos r + 4) r) size) = Z.to_nat size) as Hlen.
    { apply length_bytes_at; [lia|simpl; lia|].
      change (_length (with_pos (_pos r + 4) r)) with (_length r). simpl. lia. }
    assert (Z.of_nat (String.length
              (string_of_list_byte (bytes_at (with_pos (_pos r + 4) r) size))) = size)
      as Hslen.
    { rewrite <- length_list_byte_of_string, list_byte_of_string_of_list_byte, Hlen. lia. }
    exists (rest_at (with_pos (_pos r + 4 + size) r)).
    rewrite Hslen. split; [|split; [lia|done]].
    unfold str. rewrite Hslen, list_byte_of_string_of_list_byte.
    rewrite (rest_at_bytes_at r 4) by lia.
    rewrite <- app_assoc. f_equal.
    + unfold u32. rewrite <- Hsize.
      rewrite <- (le_le_val (bytes_at r 4)) at 1.
      by rewrite (length_bytes_at r 4) by lia.
    + rewrite (rest_at_bytes_at (with_pos (_pos r + 4) r) size) by (simpl; lia). done.
  - intros (rest & Hrest & Hs & ->). unfold str in Hrest. rewrite <- app_assoc in Hrest.
    destruct (rest_at_app r _ _ 4 Hrest) as (Hb & Hrest1 & Hl); [lia|done|].
    destruct (rest_at_app (with_pos (_pos r + 4) r) _ _
                (Z.of_nat (String.length s)) Hrest1) as (Hb1 & _ & Hl1).
    { change (_length (with_pos (_pos r + 4) r)) with (_length r). simpl. lia. }
    { by rewrite length_list_byte_of_string. }
    change (_length (with_pos (_pos r + 4) r)) with (_length r) in Hl1. simpl in Hl1.
    rewrite Hb. unfold u32. rewrite le_val_le by (simpl; lia).
    assert (to_int (Z.of_nat (String.length s)) = Z.of_nat (String.length s)) as ->.
    { unfold to_int. change (2 ^ 31) with 2147483648.
      destruct (_ <? 2147483648) eqn:E; lia. }
    destruct (_ <? 4) eqn:E0; [lia|]. destruct (_ <? 0) eqn:E1; [lia|].
    destruct (_ <? Z.of_nat _) eqn:E2; [lia|].
    by rewrite Hb1, string_of_list_byte_of_string.
Qed.

Lemma read_le_step n r v r' :
  0 <= n <= 8 -> in_buffer r -> read n r = Ok v r' ->
  exists rest,
    rest_at r = le (Z.to_nat n) v ++ rest /\ 0 <= v < 256 ^ n /\
    r' = with_pos (_pos r + n) r /\ in_buffer r' /\ rest_at r' = rest.
Proof.
  intros Hn Hr H. apply read_le_iff in H as (rest & Hrest & Hv & ->); [|done..].
  exists rest. split; [done|]. split; [done|]. split; [done|].
  destruct Hr as [Hp HL].
  destruct (rest_at_app r _ rest n Hrest Hp) as (_ & Hrest' & Hl).
  { rewrite length_le. lia. }
  split; [|done]. split; [|done].
  change (_length (with_pos (_pos r + n) r)) with (_length r). simpl. lia.
Qed.

Lemma read_le_run n r v rest :
  0 <= n <= 8 -> in_buffer r ->
  rest_at r = le (Z.to_nat n) v ++ rest -> 0 <= v < 256 ^ n ->
  read n r = Ok v (with_pos (_pos r + n) r) /\
  in_buffer (with_pos (_pos r + n) r) /\
  rest_at (with_pos (_pos r + n) r) = rest.
Proof.
  intros Hn Hr Hrest Hv.
  assert (read n r = Ok v (with_pos (_pos r + n) r)) as H.
  { apply read_le_iff; [done..|]. by exists rest. }
  split; [done|]. apply read_le_step in H as (rest' & Hrest' & _ & _ & Hin & Hr'); [|done..].
  split; [done|]. rewrite Hr'. rewrite Hrest in Hrest'.
  apply app_inj_1 in Hrest' as [_ ?]; [done|]. by rewrite !length_le.
Qed.

Lemma bind_guard (c : bool) msg {B} (k : unit -> M B) r :
  c = false -> bind (if c then throw msg else ret tt) k r = k tt r.
Proof. by intros ->. Qed.

Lemma bind_modify f {B} (k : unit -> M B) r : bind (modify f) k r = k tt (f r).
Proof. done. Qed.

Lemma to_longlong_magic v :
  0 <= v < 256 ^ 8 -> to_longlong v = 0x1AFB45456C910EA1 -> v = 0x1AFB45456C910EA1.
Proof.
  intros Hv. unfold to_longlong. change (2 ^ 63) with 9223372036854775808.
  change (2 ^ 64) with 18446744073709551616. change (256 ^ 8) with 18446744073709551616 in Hv.
  destruct (v <? 9223372036854775808) eqn:E; lia.
Qed.

(** X9.  [readHeader] accepts exactly the buffers that start with a prologue:
    the magic, a type other than 0, a version, attributes without the
    bits 0x01 and 0x02, and the compressor name "0", 25 bytes in all.  It
    then leaves the cursor at offset 25, the version set, and the bracket
    flag set from bit 0x04 of the attributes. *)
Theorem readHeader_accepts_prologue buffer r' :
  Z.of_nat (length buffer) < 4611686018427387904 ->
  readHeader (Reader_new buffer) = Ok tt r' <->
  exists type version attributes rest,
    buffer = prologue type version attributes ++ rest /\
    0 < type < 4294967296 /\
    0 <= version < 4294967296 /\
    0 <= attributes < 4294967296 /\
    Z.land attributes 0x01 = 0 /\ Z.land attributes 0x02 = 0 /\
    r' = after_prologue version attributes buffer.
Proof.
  intros HL.
  assert (in_buffer (Reader_new buffer)) as Hin.
  { unfold in_buffer, _length, Reader_new. cbn [_pos _buffer]. lia. }
  assert (rest_at (Reader_new buffer) = buffer) as Hrest0 by done.
  split.
  - unfold readHeader, read_longlong, read_uint, fmap_M. intros H.
    apply bind_inv_Ok in H as (magic & r1 & H1 & H).
    apply bind_inv_Ok in H1 as (v & r1' & H1 & [= <- <-]).
    apply read_le_step in H1 as (rest1 & Hb1 & Hv1 & -> & Hin1 & Hr1); [|lia|done].
    apply bind_inv_Ok in H as ([] & r2 & H2 & H).
    destruct (to_longlong v =? _) eqn:Em; [|done]. injection H2 as <-.
    apply Z.eqb_eq, to_longlong_magic in Em; [|done]. subst v.
    apply bind_inv_Ok in H as (type & r3 & H3 & H).
    apply read_le_step in H3 as (rest2 & Hb2 & Hv2 & -> & Hin2 & Hr2); [|lia|done].
    apply bind_inv_Ok in H as ([] & r4 & H4 & H).
    destruct (type =? 0) eqn:Et; [done|]. injection H4 as <-.
    apply bind_inv_Ok in H as (version & r5 & H5 & H).
    apply read_le_step in H5 as (rest3 & Hb3 & Hv3 & -> & Hin3 & Hr3); [|lia|done].
    apply bind_inv_Ok in H as ([] & r6 & [= <-] & H).
    apply bind_inv_Ok in H as (attributes & r7 & H7 & H).
    apply read_le_step in H7 as (rest4 & Hb4 & Hv4 & -> & Hin4 & Hr4); [|lia|done].
    apply bind_inv_Ok in H as ([] & r8 & H8 & H).
    destruct (_ || _) eqn:Ea; [done|]. injection H8 as <-.
    apply orb_false_iff in Ea as [Ea1 Ea2].
    apply negb_false_iff, Z.eqb_eq in Ea1, Ea2.
    apply bind_inv_Ok in H as ([] & r9 & [= <-] & H).
    apply bind_inv_Ok in H as (name & r10 & H10 & H).
    destruct (String.eqb_spec name "0") as [->|]; [|done]. injection H as <-.
    apply read_string_iff in H10 as (rest5 & Hb5 & _ & ->); [|done].
    exists type, version, attributes, rest5.
    assert (rest1 = le 4 type ++ rest2) as -> by (rewrite <- Hr1; exact Hb2).
    assert (rest2 = le 4 version ++ rest3) as -> by (rewrite <- Hr2; exact Hb3).
    assert (rest3 = le 4 attributes ++ rest4) as -> by (rewrite <- Hr3; exact Hb4).
    assert (rest4 = str "0" ++ rest5) as -> by (rewrite <- Hr4; exact Hb5).
    split; [rewrite <- Hrest0, Hb1; unfold prologue; by rewrite <- !app_assoc|].
    change (256 ^ 4) with 4294967296 in *.
    split; [lia|]. split; [done|]. split; [done|]. split; [done|]. split; [done|].
    reflexivity.
  - intros (type & version & attributes & rest & -> & Ht & Hv & Ha & Ha1 & Ha2 & ->).
    unfold prologue in Hrest0. rewrite <- !app_assoc in Hrest0.
    unfold readHeader, read_uint.
    destruct (read_le_run 8 _ _ _ ltac:(lia) Hin Hrest0 ltac:(done)) as (H1 & Hin1 & Hr1).
    assert (read_longlong (Reader_new (prologue type version attributes ++ rest))
            = Ok 0x1AFB45456C910EA1
                 (with_pos 8 (Reader_new (prologue type version attributes ++ rest))))
      as H1'.
    { unfold read_longlong, fmap_M. rewrite (bind_Ok _ _ _ _ _ H1). reflexivity. }
    destruct (read_le_run 4 _ _ _ ltac:(lia) Hin1 Hr1 ltac:(simpl; lia)) as (H2 & Hin2 & Hr2).
    destruct (read_le_run 4 _ _ _ ltac:(lia) Hin2 Hr2 ltac:(simpl; lia)) as (H3 & Hin3 & Hr3).
    etrans; [exact (bind_Ok _ _ _ _ _ H1')|].
    etrans; [by apply bind_guard|]. cbv beta.
    etrans; [exact (bind_Ok _ _ _ _ _ H2)|].
    etrans; [apply bind_guard, Z.eqb_neq; lia|]. cbv beta.
    etrans; [exact (bind_Ok _ _ _ _ _ H3)|].
    etrans; [apply bind_modify|]. cbv beta.
    match goal with
    | |- bind _ _ ?r = _ =>
        destruct (read_le_run 4 r attributes (str "0" ++ rest) ltac:(lia) Hin3 Hr3
                    ltac:(simpl; lia)) as (H4 & Hin4 & Hr4)
    end.
    etrans; [exact (bind_Ok _ _ _ _ _ H4)|].
    etrans; [apply bind_guard; by rewrite Ha1, Ha2|]. cbv beta.
    etrans; [apply bind_modify|]. cbv beta.
    match goal with
    | |- bind _ _ ?r = _ =>
        assert (read_string r = Ok "0" (with_pos (_pos r + 4 + 1) r)) as H5
    end.
    { apply read_string_iff; [exact Hin4|]. exists rest. split; [exact Hr4|]. by split. }
    etrans; [exact (bind_Ok _ _ _ _ _ H5)|]. reflexivity.
Qed.

Lemma readHeader_accepts_prologue_witness :
  readHeader (Reader_new (header 100 4 ++ str "")) = Ok tt (after_prologue 100 4 (header 100 4 ++ str "")) <->
  exists type version attributes rest,
    header 100 4 ++ str "" = prologue type version attributes ++ rest /\
    0 < type < 4294967296 /\
    0 <= version < 4294967296 /\
    0 <= attributes < 4294967296 /\
    Z.land attributes 0x01 = 0 /\ Z.land attributes 0x02 = 0 /\
    after_prologue 100 4 (header 100 4 ++ str "") = after_prologue version attributes (header 100 4 ++ str "").
Proof. apply (readHeader_accepts_prologue (header 100 4 ++ str "")). vm_compute. reflexivity. Defined.

(** X17.  The error for unsupported attributes carries the type.  On a
    buffer that starts with the magic, a type other than 0, a version,
    and attributes with the bit 0x01 or the bit 0x02 set, [Data::read]
    hands back null with "unsupported attribute: " followed by the
    decimal of the type field, not of the attributes, at offset 20. *)
Theorem unsupported_attribute_reports_type type version attributes rest :
  0 < type < 4294967296 ->
  0 <= version < 4294967296 ->
  0 <= attributes < 4294967296 ->
  Z.land attributes 0x01 <> 0 \/ Z.land attributes 0x02 <> 0 ->
  Z.of_nat (length rest) < 4611686018427387904 - 20 ->
  Data_read (u64 0x1AFB45456C910EA1 ++ u32 type ++ u32 version ++ u32 attributes ++ rest) =
    Some (Null (Some (error_message
      {| offset := 20;
         message := String.append "unsupported attribute: " (to_string type) |}))).
Proof.
  intros Ht Hv Ha Hbits HL.
  set (buffer := u64 _ ++ _).
  assert (Z.of_nat (length buffer) = 20 + Z.of_nat (length rest)) as Hlen.
  { unfold buffer, u64, u32. rewrite !length_app, !length_le. lia. }
  assert (in_buffer (Reader_new buffer)) as Hin.
  { unfold in_buffer, _length, Reader_new. cbn [_pos _buffer]. lia. }
  assert (rest_at (Reader_new buffer) =
            le 8 0x1AFB45456C910EA1 ++ u32 type ++ u32 version ++ u32 attributes ++ rest)
    as Hrest0 by done.
  assert (exists r',
            readHeader (Reader_new buffer) =
              Throw {| offset := 20;
                       message := String.append "unsupported attribute: " (to_string type) |}
                    r') as [r' H].
  { unfold readHeader, read_uint.
    destruct (read_le_run 8 _ _ _ ltac:(lia) Hin Hrest0 ltac:(done)) as (H1 & Hin1 & Hr1).
    assert (read_longlong (Reader_new buffer)
            = Ok 0x1AFB45456C910EA1 (with_pos 8 (Reader_new buffer))) as H1'.
    { unfold read_longlong, fmap_M. rewrite (bind_Ok _ _ _ _ _ H1). reflexivity. }
    destruct (read_le_run 4 _ _ _ ltac:(lia) Hin1 Hr1 ltac:(simpl; lia)) as (H2 & Hin2 & Hr2).
    destruct (read_le_run 4 _ _ _ ltac:(lia) Hin2 Hr2 ltac:(simpl; lia)) as (H3 & Hin3 & Hr3).
    eexists.
    etrans; [exact (bind_Ok _ _ _ _ _ H1')|].
    etrans; [by apply bind_guard|]. cbv beta.
    etrans; [exact (bind_Ok _ _ _ _ _ H2)|].
    etrans; [apply bind_guard, Z.eqb_neq; lia|]. cbv beta.
    etrans; [exact (bind_Ok _ _ _ _ _ H3)|].
    etrans; [apply bind_modify|]. cbv beta.
    match goal with
    | |- bind _ _ ?r = _ =>
        destruct (read_le_run 4 r attributes rest ltac:(lia) Hin3 Hr3
                    ltac:(simpl; lia)) as (H4 & Hin4 & Hr4)
    end.
    etrans; [exact (bind_Ok _ _ _ _ _ H4)|].
    assert (negb (Z.land attributes 1 =? 0) || negb (Z.land attributes 2 =? 0) = true)
      as ->.
    { apply orb_true_iff. destruct Hbits as [Hb|Hb]; [left|right];
        apply negb_true_iff, Z.eqb_neq; exact Hb. }
    reflexivity. }
  unfold Data_read, Data_read_fuel, parse. by rewrite (bind_Throw _ _ _ _ _ H).
Qed.

Lemma unsupported_attribute_reports_type_witness :
  Data_read (u64 0x1AFB45456C910EA1 ++ u32 7 ++ u32 100 ++ u32 1 ++ str "0") =
    Some (Null (Some "miniosgb reader error at offset 20: unsupported attribute: 7")).
Proof.
  rewrite (unsupported_attribute_reports_type 7 100 1 (str "0")).
  - reflexivity.
  - lia.
  - lia.
  - lia.
  - left. discriminate.
  - vm_compute. reflexivity.
Defined.

(** X10.  What [Data::read] reports for a buffer that does not start with the
    magic: with fewer than eight bytes, "read beyond data length" at
    offset 0; otherwise "invalid data magic" at offset 8, the offset
    after the bytes that were compared. *)
Theorem Data_read_without_magic buffer :
  Z.of_nat (length buffer) < 4611686018427387904 ->
  take 8 buffer <> u64 0x1AFB45456C910EA1 ->
  Data_read buffer =
    Some (Null (Some (error_message
      (if Z.of_nat (length buffer) <? 8
       then {| offset := 0; message := "read beyond data length" |}
       else {| offset := 8; message := "invalid data magic" |})))).
Proof.
  intros HL Hm.
  assert (in_buffer (Reader_new buffer)) as Hin.
  { unfold in_buffer, _length, Reader_new. cbn [_pos _buffer]. lia. }
  unfold Data_read, Data_read_fuel, parse, readHeader, read_longlong, fmap_M.
  unfold bind at 1 2 3. rewrite (read_closed_form 8 _ ltac:(lia) Hin).
  change (_pos (Reader_new buffer) + 8) with 8.
  change (_length (Reader_new buffer)) with (Z.of_nat (length buffer)).
  destruct (8 <=? _) eqn:E; destruct (_ <? 8) eqn:E'; try lia; [|done].
  unfold ret at 1.
  destruct (to_longlong _ =? _) eqn:Em; [|done]. exfalso. apply Hm.
  apply Z.eqb_eq, to_longlong_magic in Em.
  2:{ apply le_val_bytes_at. lia. }
  unfold u64. rewrite <- Em.
  assert (length (take 8 buffer) = 8%nat) as Hlen by (rewrite length_take; lia).
  rewrite <- Hlen at 2. symmetry. apply le_le_val.
Qed.

Lemma Data_read_without_magic_witness :
  Data_read (str "osg::Group") =
    Some (Null (Some "miniosgb reader error at offset 8: invalid data magic")) /\
  Data_read (u32 7) =
    Some (Null (Some "miniosgb reader error at offset 0: read beyond data length")).
Proof.
  split.
  - rewrite (Data_read_without_magic (str "osg::Group")); [reflexivity| |].
    + vm_compute. reflexivity.
    + vm_compute. discriminate.
  - rewrite (Data_read_without_magic (u32 7)); [reflexivity| |].
    + vm_compute. reflexivity.
    + vm_compute. discriminate.
Defined.

(** ** The dispatcher on a null object and on an unknown class *)

(** X11.  A class name of length zero is the null object: the dispatcher
    returns null after the four bytes of the length, reads neither a
    bracket nor an identity, and leaves store and registries alone. *)
Theorem readObject_null_object fuel r rest :
  in_buffer r ->
  rest_at r = str "" ++ rest ->
  readObject (S fuel) r = Ok None (with_pos (_pos r + 4) r).
Proof.
  intros Hin Hrest. simpl. unfold readObject_body.
  assert (read_string r = Ok EmptyString (with_pos (_pos r + 4 + 0) r)) as H.
  { apply read_string_iff; [done|]. exists rest. split; [done|]. by split. }
  rewrite (bind_Ok _ _ _ _ _ H). simpl. unfold ret. do 2 f_equal. lia.
Qed.

Lemma readObject_null_object_witness :
  readObject 1 (with_pos 25 (Reader_v100 null_root)) =
  Ok None (with_pos (25 + 4) (with_pos 25 (Reader_v100 null_root))).
Proof.
  apply (readObject_null_object 0 (with_pos 25 (Reader_v100 null_root)) []).
  - unfold in_buffer, _length. vm_compute. repeat split; discriminate.
  - vm_compute. reflexivity.
Defined.



(** ** The RangeDataList of a PagedLOD with fewer priorities than filenames *)

Lemma set_pairs_lookup_ge i pairs l j :
  (i + length pairs <= j)%nat -> set_pairs i pairs l !! j = l !! j.
Proof.
  revert i l. induction pairs as [|[po ps] pairs IH]; intros i l Hj; simpl in *; [done|].
  rewrite IH by lia. rewrite !list_lookup_alter_ne by lia. done.
Qed.

Lemma set_pairs_filename i pairs l j :
  filename <$> set_pairs i pairs l !! j = filename <$> l !! j.
Proof.
  revert i l. induction pairs as [|[po ps] pairs IH]; intros i l; simpl; [done|].
  rewrite IH. destruct (decide (j = i)) as [->|Hne].
  - rewrite !list_lookup_alter_eq. by destruct (l !! i).
  - by rewrite !list_lookup_alter_ne.
Qed.

(** X13.  The list is never shrunk.  On a fresh PagedLOD, when the stream holds
    [fsize] filenames and then a [psize] that is not larger, the block
    returns with a [rangeDataList] that still has [fsize] entries, all
    with their filenames; the first [psize] of them carry the pairs read,
    and the others keep the priorities 0 and 0 they were created with. *)
Theorem PagedLOD_RangeDataList_is_not_shrunk
    obj r p fsize r1 r2 names r3 psize r4 r5 pairs r6 :
  store r !! obj = Some (IPagedLOD p) ->
  rangeDataList p = [] ->
  read_uint r = Ok fsize r1 ->
  ReadBeginBracket r1 = Ok tt r2 ->
  read_strings (Z.to_nat fsize) r2 = Ok names r3 ->
  read_uint r3 = Ok psize r4 ->
  psize <= fsize ->
  ReadBeginBracket r4 = Ok tt r5 ->
  read_float_pairs (Z.to_nat psize) r5 = Ok pairs r6 ->
  exists st p',
    readObjectFields_PagedLOD_RangeDataList obj r = Ok tt (with_store st r6) /\
    st !! obj = Some (IPagedLOD p') /\
    length (rangeDataList p') = Z.to_nat fsize /\
    (forall i name,
       names !! i = Some name -> filename <$> rangeDataList p' !! i = Some name) /\
    (forall i po ps,
       pairs !! i = Some (po, ps) ->
       priorityOffset <$> rangeDataList p' !! i = Some po /\
       priorityScale <$> rangeDataList p' !! i = Some ps) /\
    (forall i,
       (Z.to_nat psize <= i < Z.to_nat fsize)%nat ->
       priorityOffset <$> rangeDataList p' !! i = Some 0 /\
       priorityScale <$> rangeDataList p' !! i = Some 0).
Proof.
  intros Hobj Hnil H1 H2 H3 H4 Hle H5 H6.
  pose proof (read_strings_length _ _ _ _ H3) as Hnames.
  pose proof (read_float_pairs_length _ _ _ _ H6) as Hpairs.
  set (l1 := vector_resize fsize RangeData0 (rangeDataList p)).
  set (l2 := set_names 0 names l1).
  set (l4 := set_pairs 0 pairs l2).
  exists (<[obj := IPagedLOD (over_rangeDataList (fun _ => l4) p)]> (store r)),
         (over_rangeDataList (fun _ => l4) p).
  assert (length l1 = Z.to_nat fsize) as Hl1 by apply length_resize.
  assert (length l2 = Z.to_nat fsize) as Hl2 by (unfold l2; by rewrite set_names_length).
  assert (forall i, (i < Z.to_nat fsize)%nat -> l1 !! i = Some RangeData0) as Hl1i.
  { intros i Hi. unfold l1, vector_resize. rewrite Hnil.
    by rewrite lookup_resize_new by (simpl; lia). }
  split; [|split; [|split; [|split; [|split]]]].
  - unfold readObjectFields_PagedLOD_RangeDataList.
    rewrite (bind_Ok _ _ _ _ _ H1).
    unfold bind at 1, assign at 1, modify at 1.
    unfold bind at 1.
    rewrite (store_blind_Ok _ _ _ _ _ store_blind_ReadBeginBracket H2).
    unfold bind at 1, for_.
    rewrite (filename_loop obj _ 0 _ _ _ _ H3).
    unfold bind at 1, ReadEndBracket at 1, ret at 1. unfold bind at 1.
    rewrite (store_blind_Ok _ _ _ _ _ store_blind_read_uint H4).
    assert ((psize >? fsize) = false) as -> by lia.
    unfold bind at 1, when, ret at 1. unfold bind at 1.
    rewrite (store_blind_Ok _ _ _ _ _ store_blind_ReadBeginBracket H5).
    unfold bind at 1.
    rewrite (priority_loop obj _ 0 _ _ _ _ H6).
    unfold ReadEndBracket, ret. f_equal. f_equal.
    apply read_uint_cursor in H1. rewrite H1. cbn [store with_pos].
    rewrite !list_alter_alter_eq.
    apply list_eq. intros a. destruct (decide (a = obj)) as [->|Hne].
    + rewrite list_lookup_alter_eq, Hobj. rewrite list_lookup_insert_eq
        by (by eapply lookup_lt_Some). reflexivity.
    + by rewrite list_lookup_alter_ne, list_lookup_insert_ne.
  - apply list_lookup_insert_eq. by eapply lookup_lt_Some.
  - simpl. unfold l4. by rewrite set_pairs_length.
  - intros i name Hi. simpl. pose proof (lookup_lt_Some _ _ _ Hi) as Hlti.
    unfold l4. rewrite set_pairs_filename.
    unfold l2. rewrite (set_names_lookup 0 names l1 i name Hi : _ !! i = _).
    rewrite Hl1i by lia. reflexivity.
  - intros i po ps Hp. simpl. pose proof (lookup_lt_Some _ _ _ Hp) as Hlti.
    unfold l4. rewrite (set_pairs_lookup 0 pairs l2 i po ps Hp : _ !! i = _).
    change (0 + i)%nat with i.
    destruct (lookup_lt_is_Some_2 l2 i) as [x ->]; [lia|]. done.
  - intros i Hi. simpl. unfold l4. rewrite set_pairs_lookup_ge by lia.
    destruct (lookup_lt_is_Some_2 names i) as [name Hn]; [lia|].
    unfold l2. rewrite (set_names_lookup 0 names l1 i name Hn : _ !! i = _).
    rewrite Hl1i by lia. done.
Qed.

Lemma PagedLOD_RangeDataList_is_not_shrunk_witness :
  exists st p',
    readObjectFields_PagedLOD_RangeDataList 0 fewer_priorities_reader
      = Ok tt (with_store st (with_pos 36 fewer_priorities_reader)) /\
    st !! 0%nat = Some (IPagedLOD p') /\
    length (rangeDataList p') = 2%nat /\
    filename <$> rangeDataList p' !! 1%nat = Some "b.osgb"%string /\
    priorityOffset <$> rangeDataList p' !! 0%nat = Some 0x3F000000 /\
    priorityOffset <$> rangeDataList p' !! 1%nat = Some 0.
Proof.
  destruct (PagedLOD_RangeDataList_is_not_shrunk 0 fewer_priorities_reader PagedLOD0
              2 (with_pos 4 fewer_priorities_reader) (with_pos 4 fewer_priorities_reader)
              ["a.osgb"; "b.osgb"]%string (with_pos 24 fewer_priorities_reader)
              1 (with_pos 28 fewer_priorities_reader) (with_pos 28 fewer_priorities_reader)
              [(0x3F000000, 0x3FC00000)]
              (with_pos 36 fewer_priorities_reader))
    as (st & p' & Hrun & Hst & Hlen & Hnames & Hpairs & Hrest).
  - reflexivity.
  - reflexivity.
  - vm_compute. reflexivity.
  - vm_compute. reflexivity.
  - vm_compute. reflexivity.
  - vm_compute. reflexivity.
  - lia.
  - vm_compute. reflexivity.
  - vm_compute. reflexivity.
  - exists st, p'. split; [exact Hrun|]. split; [exact Hst|]. split; [exact Hlen|].
    split; [by apply Hnames|].
    split; [by apply (Hpairs 0%nat 0x3F000000 0x3FC00000)|].
    apply Hrest. simpl. lia.
Defined.


(** * Slices and trailing bytes

    One walk through the reader shows two things of a parse of a buffer
    of less than 2^62 bytes.  The cursor never wraps and never moves
    back, so a slice that ends before the cursor when it is recorded
    still does at the end; and a run that ends inside the buffer does
    not depend on what follows the buffer. *)

Lemma length_ext extra r : _length (ext extra r) = _length r + Z.of_nat (length extra).
Proof. unfold _length, ext. simpl. rewrite length_app. lia. Qed.

Lemma slice_ok_mono p p' i : p <= p' -> slice_ok p i -> slice_ok p' i.
Proof.
  intros Hp. destruct i; simpl; try done; unfold slice_in_buffer;
    repeat case_match; intros; try done; lia.
Qed.

Lemma slices_pos X v r : _pos r <= v -> slices X r -> slices X (with_pos v r).
Proof.
  intros Hv Hs a i Ha. destruct (Hs a i Ha) as [H1 H2]. split; [done|].
  intros HX. eapply slice_ok_mono; [|by apply H2]. done.
Qed.

Lemma slices_open a r : slices None r -> slices (Some a) r.
Proof. intros Hs b i Hb. destruct (Hs b i Hb) as [H1 H2]. split; [done|]. intros _. by apply H2. Qed.

Lemma bytes_at_ext extra r n :
  0 <= n -> 0 <= _pos r -> _pos r + n <= _length r ->
  bytes_at (ext extra r) n = bytes_at r n.
Proof.
  intros Hn Hp Hl. unfold bytes_at, ext, _length in *. simpl.
  rewrite drop_app_le by lia. rewrite take_app_le; [done|]. rewrite length_drop. lia.
Qed.

Ltac snd_split := split; [|split; [|split; [|split; [|split]]]].

Section Sound.

Context (extra : list byte).

Lemma sound_at_bind {A B} (Q : A -> Prop) (Q' : B -> Prop) X d e c
    (m : M A) (k : A -> M B) r :
  sound_at extra Q X d e m r ->
  (forall a r1, m r = Ok a r1 -> Q a -> sound_at extra Q' X e c (k a) r1) ->
  sound_at extra Q' X d c (bind m k) r.
Proof.
  intros Hm Hk Ht Hs Hd. specialize (Hm Ht Hs Hd).
  unfold bind at 1. destruct (m r) as [a r1|e1 r1|] eqn:Em; [|done|done].
  destruct Hm as (HQ & Ht1 & Hs1 & Hb1 & Hp1 & Hl1).
  pose proof (good_length _ _ Hb1) as HL.
  specialize (Hk a r1 eq_refl HQ Ht1 Hs1). rewrite HL in Hk.
  destruct (k a r1) as [b r2|e2 r2|] eqn:Ek; [|done|done].
  destruct Hk as (HQ2 & Ht2 & Hs2 & Hb2 & Hp2 & Hl2); [lia|].
  snd_split; [done|done|done|congruence|lia|].
  intros Hle. unfold bind. rewrite Hl1 by lia. apply Hl2. lia.
Qed.

Lemma sound_with_bind {A B} (Q : A -> Prop) (Q' : B -> Prop) X d e c
    (m : M A) (k : A -> M B) :
  sound_with extra Q X d e m ->
  (forall a, Q a -> sound_with extra Q' X e c (k a)) ->
  sound_with extra Q' X d c (bind m k).
Proof.
  intros Hm Hk r. eapply sound_at_bind; [apply Hm|]. intros a r1 _ HQ. by apply Hk.
Qed.

Lemma sound_bind {A B} X d e c (m : M A) (k : A -> M B) :
  sound extra X d e m -> (forall a, sound extra X e c (k a)) ->
  sound extra X d c (bind m k).
Proof. intros Hm Hk. eapply sound_with_bind; [exact Hm|]. intros a _. apply Hk. Qed.

Lemma sound_bind_with {A B} (Q : A -> Prop) X d e c (m : M A) (k : A -> M B) :
  sound_with extra Q X d e m -> (forall a, Q a -> sound extra X e c (k a)) ->
  sound extra X d c (bind m k).
Proof. apply sound_with_bind. Qed.

Lemma sound_at_weaken {A} (Q Q' : A -> Prop) X d d' c c' (m : M A) r :
  sound_at extra Q X d c m r -> (forall a, Q a -> Q' a) -> d' <= d -> c <= c' ->
  sound_at extra Q' X d' c' m r.
Proof.
  intros Hm HQ Hd' Hc Ht Hs Hd. specialize (Hm Ht Hs).
  destruct (m r); [|done|done].
  destruct Hm as (? & ? & ? & ? & ? & ?); [lia|].
  snd_split; [by apply HQ|done|done|done|lia|done].
Qed.

Lemma sound_with_weaken {A} (Q Q' : A -> Prop) X d d' c c' (m : M A) :
  sound_with extra Q X d c m -> (forall a, Q a -> Q' a) -> d' <= d -> c <= c' ->
  sound_with extra Q' X d' c' m.
Proof. intros Hm HQ Hd Hc r. by eapply sound_at_weaken. Qed.

Lemma sound_forget {A} (Q : A -> Prop) X d c (m : M A) :
  sound_with extra Q X d c m -> sound extra X d c m.
Proof. intros Hm. eapply sound_with_weaken; [exact Hm|done|lia|lia]. Qed.

Lemma sound_post {A} X d c c' (m : M A) :
  sound extra X d c m -> c <= c' -> sound extra X d c' m.
Proof. intros Hm Hc. eapply sound_with_weaken; [exact Hm|done|lia|lia]. Qed.

Lemma sound_pre {A} X d d' c (m : M A) :
  sound extra X d c m -> d' <= d -> sound extra X d' c m.
Proof. intros Hm Hc. eapply sound_with_weaken; [exact Hm|done|lia|lia]. Qed.

(** What a returned value is known to satisfy may be added. *)
Lemma sound_with_value {A} (Q : A -> Prop) X d c (m : M A) :
  sound extra X d c m -> (forall r a r', m r = Ok a r' -> Q a) ->
  sound_with extra Q X d c m.
Proof.
  intros Hm HQ r Ht Hs Hd. specialize (Hm r Ht Hs Hd). specialize (HQ r).
  destruct (m r); [|done|done]. destruct Hm as (_ & ?). split; [by eapply HQ|done].
Qed.

Lemma sound_with_ret {A} (Q : A -> Prop) X d (a : A) :
  Q a -> sound_with extra Q X d d (ret a).
Proof. intros HQ r Ht Hs Hd. simpl. snd_split; [done|done|done|done|lia|done]. Qed.

Lemma sound_ret {A} X d (a : A) : sound extra X d d (ret a).
Proof. by apply sound_with_ret. Qed.

Lemma sound_throw {A} X d msg : sound extra X d (Z.min d 0) (throw (A:=A) msg).
Proof. by intros r Ht Hs Hd. Qed.

Lemma sound_gets {A} X d (f : Reader -> A) :
  (forall r, f (ext extra r) = f r) -> sound extra X d d (gets f).
Proof.
  intros Hf r Ht Hs Hd. simpl. snd_split; [done|done|done|done|lia|].
  intros _. unfold gets. by rewrite Hf.
Qed.

(** [get] hands the state to what follows, which may look at its bytes
    as far as they are known to be there. *)
Lemma sound_bind_get {A} (Q : A -> Prop) X d c (k : Reader -> M A) :
  (forall r0, sound_with extra Q X d c (k r0)) ->
  (forall r0 s, tidy extra r0 -> _pos r0 <= _length r0 + d ->
     k (ext extra r0) s = k r0 s) ->
  sound_with extra Q X d c (bind get k).
Proof.
  intros Hk Hext r Ht Hs Hd. specialize (Hk r r Ht Hs Hd).
  change (bind get k r) with (k r r). destruct (k r r) as [a r'|e r'|]; [|done|done].
  destruct Hk as (HQ & Ht' & Hs' & Hb' & Hp' & Hl').
  snd_split; [done|done|done|done|done|]. intros Hle.
  change (bind get k (ext extra r)) with (k (ext extra r) (ext extra r)).
  rewrite Hext by done. by apply Hl'.
Qed.

Lemma sound_when X d c b (m : M unit) :
  sound extra X d c m -> sound extra X d (Z.max d c) (when b m).
Proof.
  intros Hm. destruct b; simpl.
  - eapply sound_post; [done|lia].
  - eapply sound_post; [apply sound_ret|lia].
Qed.

Lemma sound_if {A} X d c1 c2 (b : bool) (m1 m2 : M A) :
  sound extra X d c1 m1 -> sound extra X d c2 m2 ->
  sound extra X d (Z.max c1 c2) (if b then m1 else m2).
Proof. intros H1 H2. destruct b; (eapply sound_post; [done|lia]). Qed.

Lemma sound_match_option {A B} X d c1 c2 (x : option B) (f : B -> M A) (m2 : M A) :
  (forall a, sound extra X d c1 (f a)) -> sound extra X d c2 m2 ->
  sound extra X d (Z.max c1 c2) (match x with Some a => f a | None => m2 end).
Proof. intros H1 H2. destruct x; (eapply sound_post; [done|lia]). Qed.

Lemma sound_for_from X n i d (body : Z -> M unit) :
  (forall j, sound extra X d d (body j)) -> sound extra X d d (for_from n i body).
Proof.
  intros Hb. revert i. induction n as [|n IH]; intros i; simpl.
  - apply sound_ret.
  - eapply sound_bind; [apply Hb|]. intros _. apply IH.
Qed.

Lemma sound_for_ X size d (body : Z -> M unit) :
  d <= dirty ->
  (forall j, sound extra X dirty dirty (body j)) ->
  sound extra X d dirty (for_ size body).
Proof. intros Hd Hb. eapply sound_pre; [|exact Hd]. by apply sound_for_from. Qed.

Lemma sound_for_acc {A} X size d (acc : A) (body : Z -> A -> M A) :
  d <= dirty ->
  (forall j x, sound extra X dirty dirty (body j x)) ->
  sound extra X d dirty (for_acc size acc body).
Proof.
  intros Hd Hb. eapply sound_pre; [|exact Hd]. unfold for_acc.
  generalize 0. revert acc. induction (Z.to_nat size) as [|n IH]; intros acc i; simpl.
  - apply sound_ret.
  - eapply sound_bind; [apply Hb|]. intros x. apply IH.
Qed.

(** *** The store *)

Lemma sound_make_shared X d i :
  shape_ok i -> (forall p, 0 <= p -> slice_ok p i) ->
  sound extra X d d (make_shared i).
Proof.
  intros Hsh Hsl r Ht Hs Hd. unfold make_shared.
  snd_split; [done|done| |done|simpl; lia|done].
  intros a j Ha. simpl in Ha. apply lookup_app_Some in Ha as [Ha|[_ Ha]].
  - destruct (Hs a j Ha) as [H1 H2]. by split.
  - apply list_lookup_singleton_Some in Ha as [_ <-]. split; [done|].
    intros _. apply Hsl. apply Ht.
Qed.

Lemma sound_assign X d a f :
  (forall i, shape_ok i -> shape_ok (f i)) ->
  X = Some a \/ (forall p i, slice_ok p i -> slice_ok p (f i)) ->
  sound extra X d d (assign a f).
Proof.
  intros Hsh Hsl r Ht Hs Hd. unfold assign, modify.
  snd_split; [done|done| |done|simpl; lia|done].
  intros b j Hb. simpl in Hb. destruct (decide (b = a)) as [->|Hne].
  - rewrite list_lookup_alter_eq in Hb.
    destruct (store r !! a) as [y|] eqn:Hy; simplify_eq/=.
    destruct (Hs a y Hy) as [H1 H2]. split; [by apply Hsh|].
    intros HX. destruct Hsl as [->|Hsl]; [done|]. apply Hsl. by apply H2.
  - rewrite list_lookup_alter_ne in Hb by done. by apply Hs.
Qed.

Lemma sound_modify X d f :
  (forall r, _buffer (f r) = _buffer r /\ _pos (f r) = _pos r /\ store (f r) = store r) ->
  (forall r, f (ext extra r) = ext extra (f r)) ->
  sound extra X d d (modify f).
Proof.
  intros Hf Hext r Ht Hs Hd. unfold modify. destruct (Hf r) as (Hb & Hp & Hst).
  snd_split; [done| | |done|lia|].
  - unfold tidy, _length in *. by rewrite Hb, Hp.
  - intros a i Ha. rewrite Hst in Ha. rewrite Hp. by apply Hs.
  - intros _. by rewrite Hext.
Qed.

(** *** The cursor *)

Lemma sound_advance X d s :
  0 <= s <= 68719476736 -> d <= 4 * dirty -> sound extra X d (d + s) (advance s).
Proof.
  intros Hs Hd r [Hp HL] Hsl Hq. unfold advance, modify.
  rewrite size_t_small by bd_lia.
  snd_split; [done| | |done|cbn [_pos with_pos]; lia|].
  - split; [cbn [_pos with_pos]; lia|done].
  - apply slices_pos; [lia|done].
  - intros _. change (_pos (ext extra r)) with (_pos r).
    by rewrite size_t_small by bd_lia.
Qed.

Lemma sound_check X d n :
  0 <= n <= 4294967296 -> d <= 4 * dirty -> sound extra X d (- n) (check n).
Proof.
  intros Hn Hd r [Hp HL] Hsl Hq. unfold check, throw.
  rewrite size_t_small by bd_lia. destruct (_ >? _) eqn:E; [done|].
  snd_split; [done|done|done|done|lia|].
  intros _. simpl _pos. rewrite size_t_small by bd_lia. rewrite length_ext.
  destruct (_pos r + n >? _length r + _) eqn:E'; [lia|done].
Qed.

Lemma sound_read_raw X d n :
  0 <= n <= 4294967296 -> d <= - n -> sound extra X d (d + n) (read_raw n).
Proof.
  intros Hn Hd. unfold read_raw. apply sound_bind_get.
  - intros r0. eapply sound_bind; [apply sound_advance; [lia|bd_lia]|].
    intros _. apply sound_ret.
  - intros r0 s [Hp HL] Hq. by rewrite bytes_at_ext by lia.
Qed.

Lemma sound_bind_get' {A} X d c (k : Reader -> M A) :
  (forall r0, sound extra X d c (k r0)) ->
  (forall r0 s, tidy extra r0 -> _pos r0 <= _length r0 + d ->
     k (ext extra r0) s = k r0 s) ->
  sound extra X d c (bind get k).
Proof. apply sound_bind_get. Qed.

Lemma sound_fmap_M {A B} X d c (f : A -> B) (m : M A) :
  sound extra X d c m -> sound extra X d c (fmap_M f m).
Proof. intros Hm. unfold fmap_M. eapply sound_bind; [exact Hm|]. intros a. apply sound_ret. Qed.

Lemma sound_read X d n :
  0 <= n <= 4294967296 -> d <= 4 * dirty -> sound extra X d 0 (read n).
Proof.
  intros Hn Hd. unfold read. eapply sound_bind; [by apply sound_check|]. intros _.
  apply sound_fmap_M. eapply sound_post; [apply sound_read_raw; lia|lia].
Qed.

Lemma read_value n r v r' : 0 <= n -> read n r = Ok v r' -> 0 <= v < 256 ^ n.
Proof. intros Hn H. apply read_Ok in H as (_ & -> & _). by apply le_val_bytes_at. Qed.

Lemma sound_with_read_uint X d :
  d <= 4 * dirty ->
  sound_with extra (fun v => 0 <= v < 4294967296) X d 0 read_uint.
Proof.
  intros Hd. apply sound_with_value; [apply sound_read; [lia|done]|].
  intros r v r' H. by apply (read_value 4) in H.
Qed.

Lemma sound_read_uint X d : d <= 4 * dirty -> sound extra X d 0 read_uint.
Proof. intros. apply sound_read; [lia|done]. Qed.
Lemma sound_read_float X d : d <= 4 * dirty -> sound extra X d 0 read_float.
Proof. intros. apply sound_read; [lia|done]. Qed.
Lemma sound_read_double X d : d <= 4 * dirty -> sound extra X d 0 read_double.
Proof. intros. apply sound_read; [lia|done]. Qed.
Lemma sound_read_int X d : d <= 4 * dirty -> sound extra X d 0 read_int.
Proof. intros. apply sound_fmap_M, sound_read; [lia|done]. Qed.
Lemma sound_read_enum X d : d <= 4 * dirty -> sound extra X d 0 read_enum.
Proof. apply sound_read_int. Qed.
Lemma sound_read_longlong X d : d <= 4 * dirty -> sound extra X d 0 read_longlong.
Proof. intros. apply sound_fmap_M, sound_read; [lia|done]. Qed.

Lemma sound_with_read_int X d :
  d <= 4 * dirty ->
  sound_with extra (fun v => -2147483648 <= v < 2147483648) X d 0 read_int.
Proof.
  intros Hd. apply sound_with_value; [by apply sound_read_int|].
  intros r v r' H. apply read_int_Ok in H as (_ & -> & _).
  apply to_int_range. by apply (le_val_bytes_at r 4).
Qed.

Lemma sound_read_Vec3d X d : d <= 4 * dirty -> sound extra X d 0 read_Vec3d.
Proof.
  intros Hd. unfold read_Vec3d. eapply sound_bind; [by apply sound_check|]. intros _.
  eapply sound_bind; [apply sound_read_raw; lia|]. intros bs.
  eapply sound_post; [apply sound_ret|lia].
Qed.

Lemma sound_read_Vec4f X d : d <= 4 * dirty -> sound extra X d 0 read_Vec4f.
Proof.
  intros Hd. unfold read_Vec4f. eapply sound_bind; [by apply sound_check|]. intros _.
  eapply sound_bind; [apply sound_read_raw; lia|]. intros bs.
  eapply sound_post; [apply sound_ret|lia].
Qed.

Lemma sound_read_bool X d : d <= 4 * dirty -> sound extra X d 0 read_bool.
Proof.
  intros Hd. unfold read_bool. eapply sound_bind; [by apply sound_check|]. intros _.
  apply sound_bind_get'.
  - intros r0. cbv zeta. destruct (_ && _).
    + eapply sound_post; [apply sound_throw|lia].
    + eapply sound_bind; [apply sound_advance; [lia|bd_lia]|]. intros _.
      eapply sound_post; [apply sound_ret|lia].
  - intros r0 s [Hp HL] Hq. cbv zeta. by rewrite bytes_at_ext by lia.
Qed.

Lemma sound_read_each X n count d :
  0 <= n <= 4294967296 -> d <= - (n * Z.of_nat count) ->
  sound extra X d (d + n * Z.of_nat count) (read_each n count).
Proof.
  intros Hn. revert d. induction count as [|c IH]; intros d Hd; simpl read_each.
  - eapply sound_post; [apply sound_ret|lia].
  - eapply sound_bind; [apply sound_read_raw; lia|]. intros v.
    eapply sound_bind; [apply IH; lia|]. intros vs.
    eapply sound_post; [apply sound_ret|lia].
Qed.

Lemma sound_read_n X d n count :
  0 <= n -> 0 <= count -> n * count <= 4294967296 -> d <= 4 * dirty ->
  sound extra X d 0 (read_n n count).
Proof.
  intros Hn Hc Hnc Hd. unfold read_n. rewrite size_t_small by nia.
  eapply sound_bind; [apply sound_check; [nia|done]|]. intros _.
  destruct (decide (count = 0)) as [->|Hne].
  - simpl. eapply sound_post; [apply sound_ret|lia].
  - eapply sound_post; [apply sound_read_each; [nia|]|]; rewrite Z2Nat.id by lia; lia.
Qed.

Lemma sound_read_string X d : d <= 4 * dirty -> sound extra X d 0 read_string.
Proof.
  intros Hd. unfold read_string.
  eapply sound_bind_with; [by apply sound_with_read_int|]. intros size Hsize.
  cbv beta in Hsize. destruct (size <? 0) eqn:E.
  - eapply sound_post; [apply sound_throw|lia].
  - eapply sound_bind; [apply sound_read_n; bd_lia|]. intros s. apply sound_ret.
Qed.

Lemma sound_ReadBeginBracket X d :
  d <= 4 * dirty -> sound extra X d (d + 8) ReadBeginBracket.
Proof.
  intros Hd. unfold ReadBeginBracket. apply sound_bind_get'; [|done].
  intros r. destruct (_useBinaryBrackets r).
  - destruct (_ >? _).
    + apply sound_advance; [lia|done].
    + eapply sound_post; [apply (sound_advance _ d 4); [lia|done]|lia].
  - eapply sound_post; [apply sound_ret|lia].
Qed.

Lemma sound_ReadEndBracket X d : sound extra X d d ReadEndBracket.
Proof. apply sound_ret. Qed.

Lemma sound_dynamic_pointer_cast X d is_T p :
  sound extra X d d (dynamic_pointer_cast is_T p).
Proof. by apply sound_gets. Qed.

Lemma sound_with_load_Array X d a :
  sound_with extra (fun o => 0 <= elementCount o < 4294967296) X d d (load_Array a).
Proof.
  intros r Ht Hs Hd. unfold load_Array, gets.
  snd_split; [|done|done|done|lia|done].
  destruct (store r !! a) as [i|] eqn:Hi; simpl; [|lia].
  destruct (Hs a i Hi) as [Hsh _]. destruct i; simpl in *; lia.
Qed.

Lemma sound_with_load_PrimitiveSet X d a :
  sound_with extra (fun o => 0 <= indexCount o < 4294967296) X d d (load_PrimitiveSet a).
Proof.
  intros r Ht Hs Hd. unfold load_PrimitiveSet, gets.
  snd_split; [|done|done|done|lia|done].
  destruct (store r !! a) as [i|] eqn:Hi; simpl; [|lia].
  destruct (Hs a i Hi) as [Hsh _]. destruct i; simpl in *; lia.
Qed.

(** An unchecked skip, of less than 2^36 bytes. *)
Lemma sound_skip X d s :
  0 <= s <= 68719476736 -> d <= 4 * dirty ->
  sound extra X d (d + 68719476736) (advance s).
Proof. intros Hs Hd. eapply sound_post; [by apply sound_advance|lia]. Qed.

Lemma sound_throw_any {A} X d msg : sound extra X d 0 (throw (A:=A) msg).
Proof. by intros r Ht Hs Hd. Qed.

End Sound.

Create HintDb snd.

#[global] Hint Resolve sound_ret sound_throw_any sound_ReadEndBracket
  sound_ReadBeginBracket sound_dynamic_pointer_cast
  sound_read_bool sound_read_uint sound_read_int sound_read_enum
  sound_read_float sound_read_double sound_read_longlong
  sound_read_Vec3d sound_read_Vec4f sound_read_string : snd.
#[global] Hint Extern 1 (Z.le _ _) => bd_lia : snd.
#[global] Hint Extern 1 (Z.lt _ _) => bd_lia : snd.
#[global] Hint Extern 1 (_ /\ _) => bd_lia : snd.

(** The setters keep shapes and slices. *)
Ltac shape_tac :=
  let i := fresh "i" in
  let H := fresh "H" in
  intros i H; destruct i; simpl in *; first [done | lia].

Ltac slice_tac :=
  first
  [ left; reflexivity
  | right;
    let p := fresh "p" in
    let i := fresh "i" in
    let H := fresh "H" in
    intros p i H; destruct i; simpl in *; first [done | lia] ].

Ltac fresh_tac :=
  first
  [ done
  | simpl; lia
  | intros; simpl; unfold slice_in_buffer; simpl; first [done | lia] ].

Ltac sn :=
  lazymatch goal with
  | |- sound _ _ _ ?c _ =>
      tryif is_evar c then sn_go
      else (eapply sound_post; [sn_go | bd_lia])
  end
with sn_go :=
  first
  [ solve [eauto 2 with snd]
  | lazymatch goal with
    | |- sound _ _ _ _ (bind read_uint _) =>
        eapply sound_bind_with;
        [apply sound_with_read_uint; bd_lia | intros ? ?; cbv beta in *; sn]
    | |- sound _ _ _ _ (bind (load_Array _) _) =>
        eapply sound_bind_with;
        [apply sound_with_load_Array | intros ? ?; cbv beta in *; sn]
    | |- sound _ _ _ _ (bind (load_PrimitiveSet _) _) =>
        eapply sound_bind_with;
        [apply sound_with_load_PrimitiveSet | intros ? ?; cbv beta in *; sn]
    | |- sound _ _ _ _ (bind get _) =>
        eapply sound_bind_get'; [intros ?; sn | intros; reflexivity]
    | |- sound _ _ _ _ (bind _ _) =>
        eapply sound_bind; [sn | intros ?; sn]
    | |- sound _ _ _ _ (when _ _) => eapply sound_when; sn
    | |- sound _ _ _ _ (for_ _ _) =>
        eapply sound_for_; [bd_lia | intros ?; sn]
    | |- sound _ _ _ _ (for_acc _ _ _) =>
        eapply sound_for_acc; [bd_lia | intros ? ?; sn]
    | |- sound _ _ _ _ (match _ with Some _ => _ | None => _ end) =>
        eapply sound_match_option; [intros ?; sn | sn]
    | |- sound _ _ _ _ (if _ then _ else _) => eapply sound_if; sn
    | |- sound _ _ _ _ (make_shared _) =>
        apply sound_make_shared; fresh_tac
    | |- sound _ _ _ _ (assign _ _) => apply sound_assign; [shape_tac | slice_tac]
    | |- sound _ _ _ _ (modify _) =>
        apply sound_modify; [done | intros; reflexivity]
    | |- sound _ _ _ _ (gets _) => apply sound_gets; intros; reflexivity
    | |- sound _ _ _ _ (advance _) => apply sound_skip; [skip_range | bd_lia]
    | |- sound _ _ _ _ (read_n _ _) => apply sound_read_n; bd_lia
    end ].

(** *** One instance at a time

    Between the assignment of a count or of a data pointer and the skip
    over the payload, the instance written does not have its slice
    before the cursor; it does once the skip is done. *)

Lemma sound_at_close extra {A} (Q : A -> Prop) a d c (m : M A) r :
  sound_at extra Q (Some a) d c m r ->
  (tidy extra r -> slices None r -> _pos r <= _length r + d ->
   forall v r', m r = Ok v r' ->
   forall i, store r' !! a = Some i -> slice_ok (_pos r') i) ->
  sound_at extra Q None d c m r.
Proof.
  intros Hm Hcell Ht Hs Hd. specialize (Hm Ht (slices_open a r Hs) Hd).
  specialize (Hcell Ht Hs Hd).
  destruct (m r) as [v r'|e r'|]; [|done|done].
  destruct Hm as (HQ & Ht' & Hs' & Hb' & Hp' & Hl').
  snd_split; [done|done| |done|done|done].
  intros b i Hb. destruct (Hs' b i Hb) as [H1 H2]. split; [done|]. intros _.
  destruct (decide (b = a)) as [->|Hne].
  - by eapply Hcell.
  - apply H2. congruence.
Qed.

Lemma read_step n r v r' :
  0 <= n <= 4294967296 -> 0 <= _pos r < 9223372036854775808 ->
  read n r = Ok v r' ->
  r' = with_pos (_pos r + n) r /\ _pos r + n <= _length r /\ 0 <= v < 256 ^ n.
Proof.
  intros Hn Hp H. pose proof (read_value n r v r' ltac:(lia) H) as Hv.
  apply read_Ok in H as (-> & _ & Hl). rewrite size_t_small in * by lia. done.
Qed.

Lemma read_int_step r v r' :
  0 <= _pos r < 9223372036854775808 ->
  read_int r = Ok v r' ->
  r' = with_pos (_pos r + 4) r /\ _pos r + 4 <= _length r.
Proof.
  intros Hp H. apply read_int_Ok in H as (-> & _ & Hl).
  rewrite size_t_small in * by lia. done.
Qed.

Lemma read_bool_step r v r' :
  0 <= _pos r < 9223372036854775808 ->
  read_bool r = Ok v r' ->
  r' = with_pos (_pos r + 1) r /\ _pos r + 1 <= _length r.
Proof.
  intros Hp. unfold read_bool, bind, check, get, throw. cbv zeta.
  rewrite size_t_small by lia. destruct (_ >? _) eqn:E; [done|].
  destruct (_ && _); [done|]. unfold advance, modify, ret.
  rewrite size_t_small by lia. intros [= <- <-]. split; [done|lia].
Qed.

(** Taking a computation apart. *)
Ltac inv_bind H :=
  let a := fresh "a" in
  let r := fresh "r" in
  let E := fresh "E" in
  apply bind_inv_Ok in H as (a & r & E & H).

Tactic Notation "inv_step" hyp(H) "as" ident(a) ident(r) ident(E) :=
  apply bind_inv_Ok in H as (a & r & E & H).

Ltac norm_state :=
  unfold _length in *; cbn [_pos _buffer with_pos with_store store] in *.

(** The range of every 32-bit product in sight. *)
Ltac uint_facts :=
  repeat match goal with
  | |- context [uint ?x] =>
      lazymatch goal with
      | _ : 0 <= uint x < 4294967296 |- _ => fail
      | _ => pose proof (uint_range x)
      end
  | _ : context [uint ?x] |- _ =>
      lazymatch goal with
      | _ : 0 <= uint x < 4294967296 |- _ => fail
      | _ => pose proof (uint_range x)
      end
  end.

Ltac cell_tac :=
  unfold slice_in_buffer in *; simpl in *; repeat case_match; simplify_eq/=;
  uint_facts; lia.

Section Payloads.

Context (extra : list byte).

Lemma readImage_payload_cell image d r v r' :
  d <= 2 * dirty ->
  tidy extra r -> slices None r -> _pos r <= _length r + d ->
  readImage_payload image r = Ok v r' ->
  forall i, store r' !! image = Some i -> slice_ok (_pos r') i.
Proof.
  intros Hd [Hp HL] Hs Hq H i Hi. unfold readImage_payload in H.
  inv_bind H. apply read_step in E as (-> & Hl & Hv); [|lia|bd_lia].
  change (256 ^ 4) with 4294967296 in Hv.
  unfold bind, gets, assign, advance, modify in H. simpl in H.
  rewrite size_t_small in H by lia. injection H as <- <-.
  simpl in Hi. rewrite !list_lookup_alter_eq in Hi.
  destruct (store r !! image) as [i0|] eqn:E0; simplify_eq/=.
  destruct (Hs image i0 E0) as [Hsh Hsl]. specialize (Hsl ltac:(done)).
  destruct i0; simpl in *; try (eapply (slice_ok_mono (_pos r)); [lia|done]);
    unfold slice_in_buffer in *; simpl in *; repeat case_match; lia.
Qed.

Lemma sound_readImage_payload image d :
  d <= 2 * dirty -> sound extra None d dirty (readImage_payload image).
Proof.
  intros Hd r. apply (sound_at_close extra _ image).
  - revert r. change (sound extra (Some image) d dirty (readImage_payload image)).
    unfold readImage_payload. sn.
  - intros Ht Hs Hq v r' H. by eapply readImage_payload_cell.
Qed.

Lemma legacy_primitive_payload_cell obj p prim d r v r' :
  d <= 2 * dirty ->
  tidy extra r -> slices None r -> _pos r <= _length r + d ->
  legacy_primitive_payload obj p prim r = Ok v r' ->
  forall i, store r' !! prim = Some i -> slice_ok (_pos r') i.
Proof.
  intros Hd [Hp HL] Hs Hq H i Hi. unfold legacy_primitive_payload in H.
  inv_bind H. apply (read_step 4) in E as (-> & Hl & Hv); [|lia|bd_lia].
  change (256 ^ 4) with 4294967296 in Hv.
  unfold bind, when, gets, assign, advance, modify, ret in H.
  assert (store r' !! prim =
          (if decide (prim = obj)
           then over_Geometry (over_primitives (vector_set p (Some prim)))
           else fun x => x) <$>
            ((if a >? 0 then over_PrimitiveSet (set_indexData (Some (_pos r + 4)))
              else fun x => x) <$>
               (over_PrimitiveSet (set_indexCount a) <$> store r !! prim)) /\
          _pos r' = _pos r + 4 + (if a >? 0 then 4 * a else 0)) as [Hst Hpos].
  { destruct (a >? 0) eqn:Ea; simpl in H.
    - rewrite (size_t_small (4 * a)) in H by lia. rewrite size_t_small in H by lia.
      injection H as <- <-. simpl. split; [|lia].
      destruct (decide (prim = obj)) as [->|Hne].
      + rewrite !list_lookup_alter_eq. by destruct (store r !! obj).
      + rewrite list_lookup_alter_ne by done. rewrite !list_lookup_alter_eq.
        by destruct (store r !! prim).
    - injection H as <- <-. simpl. split; [|lia].
      destruct (decide (prim = obj)) as [->|Hne].
      + rewrite !list_lookup_alter_eq. by destruct (store r !! obj).
      + rewrite list_lookup_alter_ne by done. rewrite !list_lookup_alter_eq.
        by destruct (store r !! prim). }
  rewrite Hi in Hst. rewrite Hpos.
  destruct (store r !! prim) as [i0|] eqn:E0; [|done].
  destruct (Hs prim i0 E0) as [Hsh Hsl]. specialize (Hsl ltac:(done)).
  assert (0 <= (if a >? 0 then 4 * a else 0)) as Hge by (destruct (a >? 0) eqn:Ea; lia).
  destruct (decide (prim = obj)); destruct i0; simpl in Hst;
    destruct (a >? 0) eqn:Ea; simpl in Hst;
    injection Hst as ->; simpl in *;
    try (eapply (slice_ok_mono (_pos r)); [lia|done]);
    unfold slice_in_buffer in *; simpl in *; repeat case_match; lia.
Qed.

Lemma sound_legacy_primitive_payload obj p prim d :
  d <= 2 * dirty -> sound extra None d dirty (legacy_primitive_payload obj p prim).
Proof.
  intros Hd r. apply (sound_at_close extra _ prim).
  - revert r.
    change (sound extra (Some prim) d dirty (legacy_primitive_payload obj p prim)).
    unfold legacy_primitive_payload. sn.
  - intros Ht Hs Hq v r' H. by eapply legacy_primitive_payload_cell.
Qed.

Lemma ReadArray_payload_cell arr d r v r' :
  d <= 2 * dirty ->
  tidy extra r -> slices None r -> _pos r <= _length r + d ->
  ReadArray_payload arr r = Ok v r' ->
  forall i, store r' !! arr = Some i -> slice_ok (_pos r') i.
Proof.
  intros Hd [Hp HL] Hs Hq H i Hi. unfold ReadArray_payload in H.
  inv_step H as c r1 E. apply (read_step 4) in E as (-> & Hl & Hv); [|lia|bd_lia].
  change (256 ^ 4) with 4294967296 in Hv.
  inv_step H as u1 r2 E. unfold assign, modify in E. injection E as <- <-.
  inv_step H as u2 r3 E.
  assert (exists st,
            r3 = with_store st (with_pos (_pos r + 4) r) /\
            st !! arr =
              (if c >? 0 then over_Array (set_elementData (Some (_pos r + 4)))
               else fun x => x) <$>
                (over_Array (set_elementCount c) <$> store r !! arr))
    as (st & -> & Hst).
  { unfold when, bind, gets, assign, modify, ret in E. destruct (c >? 0) eqn:Ec;
      injection E as <- <-; eexists; (split; [reflexivity|]); simpl.
    - rewrite !list_lookup_alter_eq. by destruct (store r !! arr).
    - rewrite !list_lookup_alter_eq. by destruct (store r !! arr). }
  clear E.
  inv_step H as o r4 E. unfold load_Array, gets in E. injection E as <- <-.
  inv_step H as u3 r5 E. unfold advance, modify in E. injection E as <- <-.
  cbn [store with_store with_pos _pos] in H.
  pose proof (uint_range (c * elementSize (default Vec4Array0 (st !! arr ≫= as_Array))))
    as Hu.
  rewrite size_t_small in H by lia.
  set (skip := uint (c * elementSize (default Vec4Array0 (st !! arr ≫= as_Array)))) in *.
  inv_step H as hasIndices r6 E.
  apply read_bool_step in E as (-> & Hl1); [|norm_state; lia]. norm_state.
  destruct hasIndices; [done|].
  inv_step H as b r7 E.
  apply read_int_step in E as (-> & Hl2); [|norm_state; lia]. norm_state.
  inv_step H as u4 r8 E. unfold assign, modify in E. injection E as <- <-.
  inv_step H as n r9 E.
  apply (read_step 4) in E as (-> & Hl3 & _); [|lia|norm_state; lia].
  norm_state.
  inv_step H as u5 r10 E. unfold assign, modify in E. injection E as <- <-.
  injection H as <- <-. norm_state.
  rewrite !list_lookup_alter_eq, Hst in Hi.
  destruct (store r !! arr) as [i0|] eqn:E0; [|done].
  destruct (Hs arr i0 E0) as [Hsh Hsl]. specialize (Hsl ltac:(done)).
  unfold skip in *. rewrite Hst in *. clear Hst skip.
  destruct i0; simpl in Hi; destruct (c >? 0) eqn:Ec; simpl in Hi;
    injection Hi as <-; simpl in *; try done; cell_tac.
Qed.

Lemma sound_ReadArray_payload arr d :
  d <= 2 * dirty -> sound extra None d 0 (ReadArray_payload arr).
Proof.
  intros Hd r. apply (sound_at_close extra _ arr).
  - revert r. change (sound extra (Some arr) d 0 (ReadArray_payload arr)).
    unfold ReadArray_payload. sn.
  - intros Ht Hs Hq v r' H. by eapply ReadArray_payload_cell.
Qed.

Lemma DrawElementsUInt_layers_cell obj d r v r' :
  d <= 2 * dirty ->
  tidy extra r -> slices None r -> _pos r <= _length r + d ->
  DrawElementsUInt_layers obj r = Ok v r' ->
  forall i, store r' !! obj = Some i -> slice_ok (_pos r') i.
Proof.
  intros Hd [Hp HL] Hs Hq H i Hi.
  unfold DrawElementsUInt_layers, readObjectFields_PrimitiveSet,
    readObjectFields_DrawElementsUInt in H.
  inv_step H as u0 r1 E.
  inv_step E as x r2 E1. apply read_int_step in E1 as (-> & Hl1); [|bd_lia].
  inv_step E as m r3 E1.
  apply (read_step 4) in E1 as (-> & Hl2 & _); [|lia|norm_state; lia].
  inv_step E as u1 r4 E1. unfold assign, modify in E1. injection E1 as <- <-.
  inv_step E as c r5 E1.
  apply (read_step 4) in E1 as (-> & Hl3 & Hc); [|lia|norm_state; lia].
  change (256 ^ 4) with 4294967296 in Hc.
  inv_step E as u2 r6 E1. unfold assign, modify in E1. injection E1 as <- <-.
  inv_step E as pos r7 E1. unfold gets in E1. injection E1 as <- <-.
  unfold assign, modify in E. injection E as <- <-.
  inv_step H as u3 r8 E. inv_step E as o r9 E1.
  unfold load_PrimitiveSet, gets in E1. injection E1 as <- <-.
  unfold advance, modify in E. injection E as <- <-.
  injection H as <- <-. norm_state.
  rewrite !list_lookup_alter_eq in *.
  destruct (store r !! obj) as [i0|] eqn:E0; [|done].
  destruct (Hs obj i0 E0) as [Hsh Hsl]. specialize (Hsl ltac:(done)).
  destruct i0; simpl in *; injection Hi as <-; simpl in *;
    rewrite ?(size_t_small (c * 4)), ?(size_t_small (0 * 4)), ?size_t_small by lia;
    try done; cell_tac.
Qed.

Lemma sound_DrawElementsUInt_layers obj d :
  d <= 2 * dirty -> sound extra None d dirty (DrawElementsUInt_layers obj).
Proof.
  intros Hd r. apply (sound_at_close extra _ obj).
  - revert r. change (sound extra (Some obj) d dirty (DrawElementsUInt_layers obj)).
    unfold DrawElementsUInt_layers, readObjectFields_PrimitiveSet,
      readObjectFields_DrawElementsUInt. sn.
  - intros Ht Hs Hq v r' H. by eapply DrawElementsUInt_layers_cell.
Qed.

Lemma Vec2Array_layers_cell obj d r v r' :
  d <= 2 * dirty ->
  tidy extra r -> slices None r -> _pos r <= _length r + d ->
  (forall i0, store r !! obj = Some i0 -> className i0 = "Vec2Array") ->
  Vec2Array_layers obj r = Ok v r' ->
  forall i, store r' !! obj = Some i -> slice_ok (_pos r') i.
Proof.
  intros Hd [Hp HL] Hs Hq Hcl H i Hi.
  unfold Vec2Array_layers, readObjectFields_Array,
    readObjectFields_Vec2Array in H.
  inv_step H as u0 r1 E.
  inv_step E as b r2 E1. apply read_int_step in E1 as (-> & Hl1); [|bd_lia].
  inv_step E as u1 r3 E1. unfold assign, modify in E1. injection E1 as <- <-.
  inv_step E as n r4 E1.
  apply read_bool_step in E1 as (-> & Hl2); [|norm_state; lia]. norm_state.
  inv_step E as u2 r5 E1. unfold assign, modify in E1. injection E1 as <- <-.
  inv_step E as n' r6 E1.
  apply read_bool_step in E1 as (-> & Hl3); [|norm_state; lia]. norm_state.
  inv_step E as c r7 E1.
  apply (read_step 4) in E1 as (-> & Hl4 & Hc); [|lia|norm_state; lia].
  change (256 ^ 4) with 4294967296 in Hc. norm_state.
  inv_step E as u3 r8 E1. unfold assign, modify in E1. injection E1 as <- <-.
  inv_step E as pos r9 E1. unfold gets in E1. injection E1 as <- <-.
  unfold assign, modify in E. injection E as <- <-.
  inv_step H as u4 r10 E. inv_step E as o r11 E1.
  unfold load_Array, gets in E1. injection E1 as <- <-.
  unfold advance, modify in E. injection E as <- <-.
  injection H as <- <-. norm_state.
  rewrite !list_lookup_alter_eq in *.
  destruct (store r !! obj) as [i0|] eqn:E0; [|done].
  destruct (Hs obj i0 E0) as [Hsh Hsl]. specialize (Hsl ltac:(done)).
  specialize (Hcl i0 eq_refl).
  destruct i0; try discriminate Hcl; simpl in *; injection Hi as <-; simpl in *.
  rewrite (size_t_small (c * 4)), (size_t_small (c * 4 * 2)), size_t_small by lia.
  destruct Hsh as [-> _].
  pose proof (Z.mod_le (c * 8) 4294967296 ltac:(lia) ltac:(lia)) as Hle.
  unfold uint, wrap in *. change (2 ^ 32) with 4294967296 in *. lia.
Qed.

Lemma sound_Vec2Array_layers_at obj d r :
  d <= 2 * dirty ->
  (forall i0, store r !! obj = Some i0 -> className i0 = "Vec2Array") ->
  sound_at extra (fun _ => True) None d dirty (Vec2Array_layers obj) r.
Proof.
  intros Hd Hcl. apply (sound_at_close extra _ obj).
  - revert r Hcl. intros r _. revert r.
    change (sound extra (Some obj) d dirty (Vec2Array_layers obj)).
    unfold Vec2Array_layers, readObjectFields_Array,
      readObjectFields_Vec2Array. sn.
  - intros Ht Hs Hq v r' H. by eapply Vec2Array_layers_cell.
Qed.

Lemma Vec3Array_layers_cell obj d r v r' :
  d <= 2 * dirty ->
  tidy extra r -> slices None r -> _pos r <= _length r + d ->
  (forall i0, store r !! obj = Some i0 -> className i0 = "Vec3Array") ->
  Vec3Array_layers obj r = Ok v r' ->
  forall i, store r' !! obj = Some i -> slice_ok (_pos r') i.
Proof.
  intros Hd [Hp HL] Hs Hq Hcl H i Hi.
  unfold Vec3Array_layers, readObjectFields_Array,
    readObjectFields_Vec3Array in H.
  inv_step H as u0 r1 E.
  inv_step E as b r2 E1. apply read_int_step in E1 as (-> & Hl1); [|bd_lia].
  inv_step E as u1 r3 E1. unfold assign, modify in E1. injection E1 as <- <-.
  inv_step E as n r4 E1.
  apply read_bool_step in E1 as (-> & Hl2); [|norm_state; lia]. norm_state.
  inv_step E as u2 r5 E1. unfold assign, modify in E1. injection E1 as <- <-.
  inv_step E as n' r6 E1.
  apply read_bool_step in E1 as (-> & Hl3); [|norm_state; lia]. norm_state.
  inv_step E as c r7 E1.
  apply (read_step 4) in E1 as (-> & Hl4 & Hc); [|lia|norm_state; lia].
  change (256 ^ 4) with 4294967296 in Hc. norm_state.
  inv_step E as u3 r8 E1. unfold assign, modify in E1. injection E1 as <- <-.
  inv_step E as pos r9 E1. unfold gets in E1. injection E1 as <- <-.
  unfold assign, modify in E. injection E as <- <-.
  inv_step H as u4 r10 E. inv_step E as o r11 E1.
  unfold load_Array, gets in E1. injection E1 as <- <-.
  unfold advance, modify in E. injection E as <- <-.
  injection H as <- <-. norm_state.
  rewrite !list_lookup_alter_eq in *.
  destruct (store r !! obj) as [i0|] eqn:E0; [|done].
  destruct (Hs obj i0 E0) as [Hsh Hsl]. specialize (Hsl ltac:(done)).
  specialize (Hcl i0 eq_refl).
  destruct i0; try discriminate Hcl; simpl in *; injection Hi as <-; simpl in *.
  rewrite (size_t_small (c * 4)), (size_t_small (c * 4 * 3)), size_t_small by lia.
  destruct Hsh as [-> _].
  pose proof (Z.mod_le (c * 12) 4294967296 ltac:(lia) ltac:(lia)) as Hle.
  unfold uint, wrap in *. change (2 ^ 32) with 4294967296 in *. lia.
Qed.

Lemma sound_Vec3Array_layers_at obj d r :
  d <= 2 * dirty ->
  (forall i0, store r !! obj = Some i0 -> className i0 = "Vec3Array") ->
  sound_at extra (fun _ => True) None d dirty (Vec3Array_layers obj) r.
Proof.
  intros Hd Hcl. apply (sound_at_close extra _ obj).
  - revert r Hcl. intros r _. revert r.
    change (sound extra (Some obj) d dirty (Vec3Array_layers obj)).
    unfold Vec3Array_layers, readObjectFields_Array,
      readObjectFields_Vec3Array. sn.
  - intros Ht Hs Hq v r' H. by eapply Vec3Array_layers_cell.
Qed.

End Payloads.

Section SoundHeader.

Context (extra : list byte).

Lemma sound_readHeader : sound extra None 0 0 readHeader.
Proof. unfold readHeader. sn. Qed.

End SoundHeader.

(** ** The field readers

    Every reader keeps the slices of the store before the cursor and runs
    alike on a longer buffer as long as it ends inside the shorter one. *)

Section SoundFieldReaders.

Context (extra : list byte) (readObject : M ptr).
Hypothesis Hrec : forall d, d <= 2 * dirty -> sound extra None d dirty readObject.
Hypothesis Hcls : preserves same_classes readObject.

Lemma sound_ReadArray d : d <= 2 * dirty -> sound extra None d dirty ReadArray.
Proof using Type.
  intros Hd. unfold ReadArray.
  change (sound extra None d dirty
    (hasArray ← read_bool;
     if hasArray then
       uniqueId ← read_uint;
       r ← get;
       match _arrays r !! uniqueId with
       | Some a => ret (Some a)
       | None =>
           type ← read_int;
           arr ← (if type =? 15 then make_shared (IVec2Array Vec2Array0)
                  else if type =? 16 then make_shared (IVec3Array Vec3Array0)
                  else if type =? 17 then make_shared (IVec4Array Vec4Array0)
                  else throw ("unsupported array type: " ++ to_string type));
           assign arr (over_Object (set_uniqueId uniqueId));;
           modify (fun r => with_arrays (<[uniqueId := arr]> (_arrays r)) r);;
           ReadArray_payload arr
       end
     else ret None)).
  pose proof (sound_ReadArray_payload extra) as Hpayload.
  sn.
Qed.

#[local] Hint Resolve Hrec sound_ReadArray sound_readImage_payload
  sound_legacy_primitive_payload sound_DrawElementsUInt_layers : snd.
#[local] Hint Extern 0 (sound _ None _ _ (bind read_uint _)) =>
  first [ apply sound_readImage_payload
        | apply sound_legacy_primitive_payload ]; bd_lia : snd.
#[local] Hint Extern 0
    (sound _ None _ _ (bind (readObjectFields_PrimitiveSet _) _)) =>
  apply sound_DrawElementsUInt_layers; bd_lia : snd.

Lemma sound_readObjectIfTrue d :
  d <= 2 * dirty -> sound extra None d dirty (readObjectIfTrue readObject).
Proof using Hrec Hcls. intros Hd. unfold readObjectIfTrue. sn. Qed.
#[local] Hint Resolve sound_readObjectIfTrue : snd.

Lemma sound_readObjectFields_Object obj d :
  d <= 2 * dirty -> sound extra None d dirty (readObjectFields_Object readObject obj).
Proof using Hrec Hcls. intros Hd. unfold readObjectFields_Object. sn. Qed.
#[local] Hint Resolve sound_readObjectFields_Object : snd.

Lemma sound_readObjectFields_Node obj d :
  d <= 2 * dirty -> sound extra None d dirty (readObjectFields_Node readObject obj).
Proof using Hrec Hcls. intros Hd. unfold readObjectFields_Node. sn. Qed.
#[local] Hint Resolve sound_readObjectFields_Node : snd.

Lemma sound_readObjectFields_Group obj d :
  d <= 2 * dirty -> sound extra None d dirty (readObjectFields_Group readObject obj).
Proof using Hrec Hcls. intros Hd. unfold readObjectFields_Group. sn. Qed.
#[local] Hint Resolve sound_readObjectFields_Group : snd.

Lemma sound_readObjectFields_LOD obj d :
  d <= 2 * dirty -> sound extra None d dirty (readObjectFields_LOD obj).
Proof using Hrec Hcls. intros Hd. unfold readObjectFields_LOD. sn. Qed.
#[local] Hint Resolve sound_readObjectFields_LOD : snd.

Lemma sound_readObjectFields_PagedLOD_RangeDataList obj d :
  d <= 2 * dirty -> sound extra None d dirty (readObjectFields_PagedLOD_RangeDataList obj).
Proof using Hrec Hcls. intros Hd. unfold readObjectFields_PagedLOD_RangeDataList. sn. Qed.
#[local] Hint Resolve sound_readObjectFields_PagedLOD_RangeDataList : snd.

Lemma sound_readObjectFields_PagedLOD_Children obj d :
  d <= 2 * dirty -> sound extra None d dirty (readObjectFields_PagedLOD_Children readObject obj).
Proof using Hrec Hcls. intros Hd. unfold readObjectFields_PagedLOD_Children. sn. Qed.
#[local] Hint Resolve sound_readObjectFields_PagedLOD_Children : snd.

Lemma sound_readObjectFields_PagedLOD obj d :
  d <= 2 * dirty -> sound extra None d dirty (readObjectFields_PagedLOD readObject obj).
Proof using Hrec Hcls. intros Hd. unfold readObjectFields_PagedLOD. sn. Qed.
#[local] Hint Resolve sound_readObjectFields_PagedLOD : snd.

Lemma sound_readObjectFields_Geode obj d :
  d <= 2 * dirty -> sound extra None d dirty (readObjectFields_Geode readObject obj).
Proof using Hrec Hcls. intros Hd. unfold readObjectFields_Geode. sn. Qed.
#[local] Hint Resolve sound_readObjectFields_Geode : snd.

Lemma sound_readObjectFields_Drawable obj d :
  d <= 2 * dirty -> sound extra None d dirty (readObjectFields_Drawable readObject obj).
Proof using Hrec Hcls. intros Hd. unfold readObjectFields_Drawable. sn. Qed.
#[local] Hint Resolve sound_readObjectFields_Drawable : snd.

Lemma sound_skip_inline_array d :
  d <= 2 * dirty -> sound extra None d dirty skip_inline_array.
Proof using Hrec Hcls. intros Hd. unfold skip_inline_array. sn. Qed.
#[local] Hint Resolve sound_skip_inline_array : snd.

Lemma sound_readObjectFields_Geometry obj d :
  d <= 2 * dirty -> sound extra None d dirty (readObjectFields_Geometry readObject obj).
Proof using Hrec Hcls. intros Hd. unfold readObjectFields_Geometry. sn. Qed.
#[local] Hint Resolve sound_readObjectFields_Geometry : snd.

Lemma sound_read_modes size l d :
  d <= dirty -> sound extra None d dirty (read_modes size l).
Proof using Hrec Hcls. intros Hd. unfold read_modes. sn. Qed.
#[local] Hint Resolve sound_read_modes : snd.

Lemma sound_read_attributes size l d :
  d <= dirty -> sound extra None d dirty (read_attributes readObject size l).
Proof using Hrec Hcls. intros Hd. unfold read_attributes. sn. Qed.
#[local] Hint Resolve sound_read_attributes : snd.

Lemma sound_readObjectFields_StateSet obj d :
  d <= 2 * dirty -> sound extra None d dirty (readObjectFields_StateSet readObject obj).
Proof using Hrec Hcls. intros Hd. unfold readObjectFields_StateSet. sn. Qed.
#[local] Hint Resolve sound_readObjectFields_StateSet : snd.

Lemma sound_readObjectFields_StateAttribute obj d :
  d <= 2 * dirty -> sound extra None d dirty (readObjectFields_StateAttribute readObject obj).
Proof using Hrec Hcls. intros Hd. unfold readObjectFields_StateAttribute. sn. Qed.
#[local] Hint Resolve sound_readObjectFields_StateAttribute : snd.

Lemma sound_read_Property_Vec4f obj over d :
  d <= 2 * dirty -> sound extra None d dirty (read_Property_Vec4f obj over).
Proof using Hrec Hcls. intros Hd. unfold read_Property_Vec4f. sn. Qed.
#[local] Hint Resolve sound_read_Property_Vec4f : snd.

Lemma sound_readObjectFields_Material obj d :
  d <= 2 * dirty -> sound extra None d dirty (readObjectFields_Material obj).
Proof using Hrec Hcls. intros Hd. unfold readObjectFields_Material. sn. Qed.
#[local] Hint Resolve sound_readObjectFields_Material : snd.

Lemma sound_skip_optional_uint d :
  d <= 2 * dirty -> sound extra None d dirty skip_optional_uint.
Proof using Hrec Hcls. intros Hd. unfold skip_optional_uint. sn. Qed.
#[local] Hint Resolve sound_skip_optional_uint : snd.

Lemma sound_readObjectFields_Texture obj d :
  d <= 2 * dirty -> sound extra None d dirty (readObjectFields_Texture obj).
Proof using Hrec Hcls. intros Hd. unfold readObjectFields_Texture. sn. Qed.
#[local] Hint Resolve sound_readObjectFields_Texture : snd.

Lemma sound_readImage d :
  d <= 2 * dirty -> sound extra None d dirty (readImage readObject).
Proof using Hrec Hcls. intros Hd. unfold readImage. sn. Qed.
#[local] Hint Resolve sound_readImage : snd.

Lemma sound_readObjectFields_Texture2D obj d :
  d <= 2 * dirty -> sound extra None d dirty (readObjectFields_Texture2D readObject obj).
Proof using Hrec Hcls. intros Hd. unfold readObjectFields_Texture2D. sn. Qed.
#[local] Hint Resolve sound_readObjectFields_Texture2D : snd.

Lemma sound_readObjectFields_DefaultUserDataContainer obj d :
  d <= 2 * dirty -> sound extra None d dirty (readObjectFields_DefaultUserDataContainer readObject obj).
Proof using Hrec Hcls. intros Hd. unfold readObjectFields_DefaultUserDataContainer. sn. Qed.
#[local] Hint Resolve sound_readObjectFields_DefaultUserDataContainer : snd.

Lemma sound_readObjectData_PagedLOD d :
  d <= 2 * dirty -> sound extra None d dirty (readObjectData_PagedLOD readObject).
Proof using Hrec Hcls. intros Hd. unfold readObjectData_PagedLOD. sn. Qed.
#[local] Hint Resolve sound_readObjectData_PagedLOD : snd.

Lemma sound_readObjectData_Group d :
  d <= 2 * dirty -> sound extra None d dirty (readObjectData_Group readObject).
Proof using Hrec Hcls. intros Hd. unfold readObjectData_Group. sn. Qed.
#[local] Hint Resolve sound_readObjectData_Group : snd.

Lemma sound_readObjectData_Geode d :
  d <= 2 * dirty -> sound extra None d dirty (readObjectData_Geode readObject).
Proof using Hrec Hcls. intros Hd. unfold readObjectData_Geode. sn. Qed.
#[local] Hint Resolve sound_readObjectData_Geode : snd.

Lemma sound_readObjectData_Geometry d :
  d <= 2 * dirty -> sound extra None d dirty (readObjectData_Geometry readObject).
Proof using Hrec Hcls. intros Hd. unfold readObjectData_Geometry. sn. Qed.
#[local] Hint Resolve sound_readObjectData_Geometry : snd.

Lemma sound_readObjectData_DrawElementsUInt d :
  d <= 2 * dirty -> sound extra None d dirty (readObjectData_DrawElementsUInt readObject).
Proof using Hrec Hcls. intros Hd. unfold readObjectData_DrawElementsUInt. sn. Qed.
#[local] Hint Resolve sound_readObjectData_DrawElementsUInt : snd.

Lemma sound_readObjectData_StateSet d :
  d <= 2 * dirty -> sound extra None d dirty (readObjectData_StateSet readObject).
Proof using Hrec Hcls. intros Hd. unfold readObjectData_StateSet. sn. Qed.
#[local] Hint Resolve sound_readObjectData_StateSet : snd.

Lemma sound_readObjectData_Material d :
  d <= 2 * dirty -> sound extra None d dirty (readObjectData_Material readObject).
Proof using Hrec Hcls. intros Hd. unfold readObjectData_Material. sn. Qed.
#[local] Hint Resolve sound_readObjectData_Material : snd.

Lemma sound_readObjectData_Texture2D d :
  d <= 2 * dirty -> sound extra None d dirty (readObjectData_Texture2D readObject).
Proof using Hrec Hcls. intros Hd. unfold readObjectData_Texture2D. sn. Qed.
#[local] Hint Resolve sound_readObjectData_Texture2D : snd.

Lemma sound_readObjectData_DefaultUserDataContainer d :
  d <= 2 * dirty -> sound extra None d dirty (readObjectData_DefaultUserDataContainer readObject).
Proof using Hrec Hcls. intros Hd. unfold readObjectData_DefaultUserDataContainer. sn. Qed.
#[local] Hint Resolve sound_readObjectData_DefaultUserDataContainer : snd.

Lemma sound_readObjectData_Vec3Array d :
  d <= 2 * dirty -> sound extra None d dirty (readObjectData_Vec3Array readObject).
Proof using Hrec Hcls.
  intros Hd r.
  change (readObjectData_Vec3Array readObject) with
    (obj ← make_shared (IVec3Array Vec3Array0);
     readObjectFields_Object readObject obj;; Vec3Array_layers obj).
  eapply sound_at_bind.
  { apply sound_make_shared; fresh_tac. }
  intros obj r1 Em _. eapply sound_at_bind.
  { by apply sound_readObjectFields_Object. }
  intros [] r2 Eo _. apply sound_Vec3Array_layers_at; [done|].
  intros i2 Hi2. unfold make_shared in Em. injection Em as <- <-.
  pose proof (same_classes_readObjectFields_Object readObject Hcls
                (length (store r)) (with_store (store r ++ [IVec3Array Vec3Array0]) r))
    as Hk.
  rewrite Eo in Hk.
  destruct (Hk (length (store r)) (IVec3Array Vec3Array0)) as (i' & Hi' & Hc).
  { simpl. by apply list_lookup_middle. }
  rewrite Hi2 in Hi'. injection Hi' as <-. exact Hc.
Qed.
#[local] Hint Resolve sound_readObjectData_Vec3Array : snd.

Lemma sound_readObjectData_Vec2Array d :
  d <= 2 * dirty -> sound extra None d dirty (readObjectData_Vec2Array readObject).
Proof using Hrec Hcls.
  intros Hd r.
  change (readObjectData_Vec2Array readObject) with
    (obj ← make_shared (IVec2Array Vec2Array0);
     readObjectFields_Object readObject obj;; Vec2Array_layers obj).
  eapply sound_at_bind.
  { apply sound_make_shared; fresh_tac. }
  intros obj r1 Em _. eapply sound_at_bind.
  { by apply sound_readObjectFields_Object. }
  intros [] r2 Eo _. apply sound_Vec2Array_layers_at; [done|].
  intros i2 Hi2. unfold make_shared in Em. injection Em as <- <-.
  pose proof (same_classes_readObjectFields_Object readObject Hcls
                (length (store r)) (with_store (store r ++ [IVec2Array Vec2Array0]) r))
    as Hk.
  rewrite Eo in Hk.
  destruct (Hk (length (store r)) (IVec2Array Vec2Array0)) as (i' & Hi' & Hc).
  { simpl. by apply list_lookup_middle. }
  rewrite Hi2 in Hi'. injection Hi' as <-. exact Hc.
Qed.
#[local] Hint Resolve sound_readObjectData_Vec2Array : snd.

Lemma sound_dispatch className d :
  d <= 2 * dirty -> sound extra None d dirty (dispatch readObject className).
Proof using Hrec Hcls. intros Hd. unfold dispatch. sn. Qed.
#[local] Hint Resolve sound_dispatch : snd.

Lemma sound_readObject_body d :
  d <= 2 * dirty -> sound extra None d dirty (readObject_body readObject).
Proof using Hrec Hcls. intros Hd. unfold readObject_body. sn. Qed.
#[local] Hint Resolve sound_readObject_body : snd.

End SoundFieldReaders.

(** ** The whole parse *)

Lemma sound_readObject extra fuel d :
  d <= 2 * dirty -> sound extra None d dirty (readObject fuel).
Proof.
  revert d. induction fuel as [|fuel IH]; intros d Hd.
  - by intros r Ht Hs Hq.
  - simpl readObject.
    apply sound_readObject_body; [exact IH|apply same_classes_readObject|done].
Qed.

Lemma parse_sound extra buffer fuel root reader :
  Z.of_nat (length buffer) + Z.of_nat (length extra) < 4611686018427387904 ->
  parse fuel buffer = Ok root reader ->
  slices None reader /\ _buffer reader = buffer /\
  (_pos reader <= Z.of_nat (length buffer) ->
   parse fuel (buffer ++ extra) = Ok root (ext extra reader)).
Proof.
  intros Hl H. unfold parse in *.
  assert (sound extra None 0 dirty (readHeader;; readObject fuel)) as Hs.
  { eapply sound_bind; [apply sound_readHeader|]. intros _.
    apply sound_readObject. bd_lia. }
  specialize (Hs (Reader_new buffer)). unfold sound_at in Hs. rewrite H in Hs.
  destruct Hs as (_ & _ & Hsl & Hb & _ & Hloc).
  - split; [done|]. exact Hl.
  - intros a i Ha. done.
  - unfold _length; simpl; lia.
  - split; [done|]. split; [done|]. intros Hp. apply Hloc. exact Hp.
Qed.

Lemma Data_read_fuel_Parsed fuel buffer res :
  Data_read_fuel fuel buffer = Some (Parsed res) ->
  exists root reader,
    parse fuel buffer = Ok root reader /\ _pos reader = _length reader /\
    res = {| rootObject := root; objects := store reader |}.
Proof.
  unfold Data_read_fuel. destruct (parse fuel buffer) as [root reader|e r|]; [|done|done].
  destruct (bool_decide (is_Some root) && ended reader) eqn:E; [|done].
  intros [= <-]. apply andb_true_iff in E as [_ E]. unfold ended in E.
  exists root, reader. split; [done|]. split; [lia|done].
Qed.

Lemma slices_within_of_slice_ok len i :
  shape_ok i -> slice_ok len i -> slices_within len i.
Proof.
  destruct i; simpl; try done; intros [Hsz Hc] H Hfit; unfold slice_in_buffer;
    (destruct (elementData _); [|done]);
    unfold uint, wrap in H; change (2 ^ 32) with 4294967296 in H;
    rewrite Z.mod_small in H by lia; done.
Qed.

Lemma parsed_slices buffer res a i :
  Z.of_nat (length buffer) < 4611686018427387904 ->
  Data_read buffer = Some (Parsed res) ->
  objects res !! a = Some i ->
  shape_ok i /\ slice_ok (Z.of_nat (length buffer)) i.
Proof.
  intros Hl H Hi. unfold Data_read in H.
  apply Data_read_fuel_Parsed in H as (root & reader & Hp & He & ->).
  destruct (parse_sound [] buffer _ _ _ ltac:(simpl; lia) Hp) as (Hs & Hb & _).
  simpl in Hi. destruct (Hs a i Hi) as [Hsh Hok]. specialize (Hok ltac:(done)).
  rewrite He in Hok. unfold _length in Hok. rewrite Hb in Hok. done.
Qed.

(** X14.  Every slice a parsed file records lies inside the buffer it was read
    from: the indices of a primitive set, the bytes of an image, and the
    elements of an array whose size in bytes fits 32 bits. *)
Theorem parsed_slices_lie_in_buffer buffer res a i :
  Z.of_nat (length buffer) < 4611686018427387904 ->
  Data_read buffer = Some (Parsed res) ->
  objects res !! a = Some i ->
  slices_within (Z.of_nat (length buffer)) i.
Proof.
  intros Hl H Hi.
  destruct (parsed_slices buffer res a i Hl H Hi) as [Hsh Hok].
  destruct i; simpl in *; try done; destruct Hsh as [Hsz Hc]; intros Hfit;
    unfold slice_in_buffer;
    (destruct (elementData _) as [q|]; [|done]);
    unfold uint, wrap in Hok; change (2 ^ 32) with 4294967296 in Hok;
    rewrite Z.mod_small in Hok by lia; done.
Qed.

Lemma parsed_slices_lie_in_buffer_witness :
  slices_within (Z.of_nat (length five_Vec3f_file)) five_Vec3f.
Proof.
  apply (parsed_slices_lie_in_buffer five_Vec3f_file five_Vec3f_data 0%nat).
  - vm_compute. reflexivity.
  - vm_compute. reflexivity.
  - reflexivity.
Defined.

(** X15.  [readFloats] on an array of a parsed file, called with the buffer the
    file was read from, never reaches outside that buffer, whatever the
    index and the count, as long as the array's size in bytes fits 32
    bits: it refuses or copies. *)
Theorem readFloats_of_parsed_array_stays_in_buffer buffer res a i o index count :
  Z.of_nat (length buffer) < 4611686018427387904 ->
  Data_read buffer = Some (Parsed res) ->
  objects res !! a = Some i ->
  as_Array i = Some o ->
  elementCount o * elementSize o < 4294967296 ->
  0 <= index -> 0 <= count ->
  exists c, readFloats buffer i index count = Some c /\ c <> OutsideBuffer.
Proof.
  intros Hl H Hi Ho Hfit Hindex Hcount.
  destruct (parsed_slices buffer res a i Hl H Hi) as [Hsh Hok].
  pose proof (slices_within_of_slice_ok _ _ Hsh Hok) as Hin.
  destruct (readFloats_as_readFloats_n buffer i o index count Ho) as [Hn ->].
  eexists. split; [reflexivity|]. intros E.
  assert (elementSize o = 4 * floats_per_element i) as Hsz.
  { destruct i; try done; simpl in *; simplify_eq; lia. }
  assert (slice_in_buffer (elementData o) (elementCount o) (elementSize o)
            (Z.of_nat (length buffer))) as Hsl.
  { destruct i; try done; simpl in *; simplify_eq; by apply Hin. }
  pose proof (readFloats_n_in_slice _ buffer o index count Hn Hsz Hsl Hindex Hcount) as Hr.
  by rewrite E in Hr.
Qed.

Lemma readFloats_of_parsed_array_stays_in_buffer_witness :
  exists c, readFloats five_Vec3f_file five_Vec3f 4 3 = Some c /\ c <> OutsideBuffer.
Proof.
  apply (readFloats_of_parsed_array_stays_in_buffer five_Vec3f_file five_Vec3f_data
           0%nat five_Vec3f
           {| Array_Object := {| uniqueId := 1 |}; arrayType := 28; elementSize := 12;
              elementCount := 5; elementData := Some 70; binding := 4;
              normalize := false |}).
  - vm_compute. reflexivity.
  - vm_compute. reflexivity.
  - reflexivity.
  - reflexivity.
  - vm_compute. reflexivity.
  - lia.
  - lia.
Defined.

(** X16.  A file that parses stops parsing when bytes are appended to it:
    [Data::read] then hands back null, and writes no error message.  So
    no file that parses is the beginning of another one that does. *)
Theorem trailing_bytes_are_rejected buffer extra res :
  Z.of_nat (length (buffer ++ extra)) < 4611686018427387904 ->
  extra <> [] ->
  Data_read buffer = Some (Parsed res) ->
  Data_read (buffer ++ extra) = Some (Null None).
Proof.
  intros Hl Hne H. rewrite length_app in Hl. unfold Data_read in *.
  apply (Data_read_fuel_le (S (length buffer))); [rewrite length_app; lia|].
  apply Data_read_fuel_Parsed in H as (root & reader & Hp & He & ->).
  destruct (parse_sound extra buffer _ _ _ ltac:(lia) Hp) as (_ & Hb & Hloc).
  unfold _length in He. rewrite Hb in He.
  unfold Data_read_fuel. rewrite Hloc by lia.
  assert (ended (ext extra reader) = false) as ->.
  { unfold ended, _length. simpl. rewrite Hb, length_app.
    destruct extra; [done|]. apply Z.eqb_neq. simpl length. lia. }
  by rewrite andb_false_r.
Qed.

Lemma trailing_bytes_are_rejected_witness :
  Data_read (five_Vec3f_file ++ [x00]) = Some (Null None).
Proof.
  apply (trailing_bytes_are_rejected five_Vec3f_file [x00] five_Vec3f_data).
  - vm_compute. reflexivity.
  - discriminate.
  - vm_compute. reflexivity.
Defined.
(** * The object registry across calls *)

#[global] Instance objects_kept_Invariant : Invariant objects_kept.
Proof.
  split.
  - intros r. unfold objects_kept. reflexivity.
  - intros r1 r2 r3 H12 H23. unfold objects_kept in *. by etrans.
  - intros v r. unfold objects_kept. reflexivity.
Qed.

Lemma objects_kept_same r r' : _objects r' = _objects r -> objects_kept r r'.
Proof. unfold objects_kept. by intros ->. Qed.

Lemma objects_kept_assign a f : preserves objects_kept (assign a f).
Proof. intros r. by apply objects_kept_same. Qed.

Lemma objects_kept_make_shared i : preserves objects_kept (make_shared i).
Proof. intros r. by apply objects_kept_same. Qed.

Create HintDb okt discriminated.

Ltac okt_step :=
  lazymatch goal with
  | |- preserves _ (bind _ _) => refine (preserves_bind _ _ _ _ _); [ | intros ? ]
  | |- preserves _ (when _ _) => refine (preserves_when _ _ _ _)
  | |- preserves _ (for_ _ _) => refine (preserves_for_ _ _ _ _); intros ?
  | |- preserves _ (for_acc _ _ _) => refine (preserves_for_acc _ _ _ _ _); intros ? ?
  | |- preserves _ (assign _ _) => apply objects_kept_assign
  | |- preserves _ (make_shared _) => apply objects_kept_make_shared
  | |- preserves _ (modify _) =>
      refine (preserves_modify _ _ _); intros ?; apply objects_kept_same; reflexivity
  | |- preserves _ (if ?b then _ else _) => destruct b
  | |- preserves _ (match ?x with _ => _ end) => destruct x
  | |- preserves _ _ => solve [eauto with pres okt typeclass_instances]
  end.

Ltac okt := repeat okt_step.

(** The inline array reader writes to [_arrays] and to the store. *)
Lemma objects_kept_ReadArray : preserves objects_kept ReadArray.
Proof. unfold ReadArray. okt. Qed.

Section RegistryFieldReaders.

Context (readObject : M ptr).
Hypothesis readObject_kept : preserves objects_kept readObject.

#[local] Hint Resolve readObject_kept objects_kept_ReadArray : okt.

Lemma objects_kept_readObjectIfTrue :
  preserves objects_kept (readObjectIfTrue readObject).
Proof using readObject_kept. unfold readObjectIfTrue. okt. Qed.
#[local] Hint Resolve objects_kept_readObjectIfTrue : okt.

Lemma objects_kept_readObjectFields_Object obj :
  preserves objects_kept (readObjectFields_Object readObject obj).
Proof using readObject_kept. unfold readObjectFields_Object. okt. Qed.
#[local] Hint Resolve objects_kept_readObjectFields_Object : okt.

Lemma objects_kept_readObjectFields_Node obj :
  preserves objects_kept (readObjectFields_Node readObject obj).
Proof using readObject_kept. unfold readObjectFields_Node. okt. Qed.
#[local] Hint Resolve objects_kept_readObjectFields_Node : okt.

Lemma objects_kept_readObjectFields_Group obj :
  preserves objects_kept (readObjectFields_Group readObject obj).
Proof using readObject_kept. unfold readObjectFields_Group. okt. Qed.
#[local] Hint Resolve objects_kept_readObjectFields_Group : okt.

Lemma objects_kept_readObjectFields_LOD obj :
  preserves objects_kept (readObjectFields_LOD obj).
Proof using readObject_kept. unfold readObjectFields_LOD. okt. Qed.
#[local] Hint Resolve objects_kept_readObjectFields_LOD : okt.

Lemma objects_kept_readObjectFields_PagedLOD_RangeDataList obj :
  preserves objects_kept (readObjectFields_PagedLOD_RangeDataList obj).
Proof using readObject_kept. unfold readObjectFields_PagedLOD_RangeDataList. okt. Qed.
#[local] Hint Resolve objects_kept_readObjectFields_PagedLOD_RangeDataList : okt.

Lemma objects_kept_readObjectFields_PagedLOD_Children obj :
  preserves objects_kept (readObjectFields_PagedLOD_Children readObject obj).
Proof using readObject_kept. unfold readObjectFields_PagedLOD_Children. okt. Qed.
#[local] Hint Resolve objects_kept_readObjectFields_PagedLOD_Children : okt.

Lemma objects_kept_readObjectFields_PagedLOD obj :
  preserves objects_kept (readObjectFields_PagedLOD readObject obj).
Proof using readObject_kept. unfold readObjectFields_PagedLOD. okt. Qed.
#[local] Hint Resolve objects_kept_readObjectFields_PagedLOD : okt.

Lemma objects_kept_readObjectFields_Geode obj :
  preserves objects_kept (readObjectFields_Geode readObject obj).
Proof using readObject_kept. unfold readObjectFields_Geode. okt. Qed.
#[local] Hint Resolve objects_kept_readObjectFields_Geode : okt.

Lemma objects_kept_readObjectFields_Drawable obj :
  preserves objects_kept (readObjectFields_Drawable readObject obj).
Proof using readObject_kept. unfold readObjectFields_Drawable. okt. Qed.
#[local] Hint Resolve objects_kept_readObjectFields_Drawable : okt.

Lemma objects_kept_readObjectFields_PrimitiveSet obj :
  preserves objects_kept (readObjectFields_PrimitiveSet obj).
Proof using readObject_kept. unfold readObjectFields_PrimitiveSet. okt. Qed.
#[local] Hint Resolve objects_kept_readObjectFields_PrimitiveSet : okt.

Lemma objects_kept_readObjectFields_DrawElementsUInt obj :
  preserves objects_kept (readObjectFields_DrawElementsUInt obj).
Proof using readObject_kept. unfold readObjectFields_DrawElementsUInt. okt. Qed.
#[local] Hint Resolve objects_kept_readObjectFields_DrawElementsUInt : okt.

Lemma objects_kept_skip_inline_array :
  preserves objects_kept skip_inline_array.
Proof using readObject_kept. unfold skip_inline_array. okt. Qed.
#[local] Hint Resolve objects_kept_skip_inline_array : okt.

Lemma objects_kept_readObjectFields_Geometry obj :
  preserves objects_kept (readObjectFields_Geometry readObject obj).
Proof using readObject_kept. unfold readObjectFields_Geometry. okt. Qed.
#[local] Hint Resolve objects_kept_readObjectFields_Geometry : okt.

Lemma objects_kept_read_modes size l :
  preserves objects_kept (read_modes size l).
Proof using readObject_kept. unfold read_modes. okt. Qed.
#[local] Hint Resolve objects_kept_read_modes : okt.

Lemma objects_kept_read_attributes size l :
  preserves objects_kept (read_attributes readObject size l).
Proof using readObject_kept. unfold read_attributes. okt. Qed.
#[local] Hint Resolve objects_kept_read_attributes : okt.

Lemma objects_kept_readObjectFields_StateSet obj :
  preserves objects_kept (readObjectFields_StateSet readObject obj).
Proof using readObject_kept. unfold readObjectFields_StateSet. okt. Qed.
#[local] Hint Resolve objects_kept_readObjectFields_StateSet : okt.

Lemma objects_kept_readObjectFields_StateAttribute obj :
  preserves objects_kept (readObjectFields_StateAttribute readObject obj).
Proof using readObject_kept. unfold readObjectFields_StateAttribute. okt. Qed.
#[local] Hint Resolve objects_kept_readObjectFields_StateAttribute : okt.

Lemma objects_kept_read_Property_Vec4f obj over :
  preserves objects_kept (read_Property_Vec4f obj over).
Proof using readObject_kept. unfold read_Property_Vec4f. okt. Qed.
#[local] Hint Resolve objects_kept_read_Property_Vec4f : okt.

Lemma objects_kept_readObjectFields_Material obj :
  preserves objects_kept (readObjectFields_Material obj).
Proof using readObject_kept. unfold readObjectFields_Material. okt. Qed.
#[local] Hint Resolve objects_kept_readObjectFields_Material : okt.

Lemma objects_kept_skip_optional_uint :
  preserves objects_kept skip_optional_uint.
Proof using readObject_kept. unfold skip_optional_uint. okt. Qed.
#[local] Hint Resolve objects_kept_skip_optional_uint : okt.

Lemma objects_kept_readObjectFields_Texture obj :
  preserves objects_kept (readObjectFields_Texture obj).
Proof using readObject_kept. unfold readObjectFields_Texture. okt. Qed.
#[local] Hint Resolve objects_kept_readObjectFields_Texture : okt.

Lemma objects_kept_readImage :
  preserves objects_kept (readImage readObject).
Proof using readObject_kept. unfold readImage. okt. Qed.
#[local] Hint Resolve objects_kept_readImage : okt.

Lemma objects_kept_readObjectFields_Texture2D obj :
  preserves objects_kept (readObjectFields_Texture2D readObject obj).
Proof using readObject_kept. unfold readObjectFields_Texture2D. okt. Qed.
#[local] Hint Resolve objects_kept_readObjectFields_Texture2D : okt.

Lemma objects_kept_readObjectFields_DefaultUserDataContainer obj :
  preserves objects_kept (readObjectFields_DefaultUserDataContainer readObject obj).
Proof using readObject_kept. unfold readObjectFields_DefaultUserDataContainer. okt. Qed.
#[local] Hint Resolve objects_kept_readObjectFields_DefaultUserDataContainer : okt.

Lemma objects_kept_readObjectFields_Array obj :
  preserves objects_kept (readObjectFields_Array obj).
Proof using readObject_kept. unfold readObjectFields_Array. okt. Qed.
#[local] Hint Resolve objects_kept_readObjectFields_Array : okt.

Lemma objects_kept_readObjectFields_Vec2Array obj :
  preserves objects_kept (readObjectFields_Vec2Array obj).
Proof using readObject_kept. unfold readObjectFields_Vec2Array. okt. Qed.
#[local] Hint Resolve objects_kept_readObjectFields_Vec2Array : okt.

Lemma objects_kept_readObjectFields_Vec3Array obj :
  preserves objects_kept (readObjectFields_Vec3Array obj).
Proof using readObject_kept. unfold readObjectFields_Vec3Array. okt. Qed.
#[local] Hint Resolve objects_kept_readObjectFields_Vec3Array : okt.

Lemma objects_kept_dispatch tag : preserves objects_kept (dispatch readObject tag).
Proof using readObject_kept.
  unfold dispatch, readObjectData_PagedLOD, readObjectData_Group, readObjectData_Geode, readObjectData_Geometry, readObjectData_DrawElementsUInt, readObjectData_StateSet, readObjectData_Material, readObjectData_Texture2D, readObjectData_DefaultUserDataContainer, readObjectData_Vec3Array, readObjectData_Vec2Array. okt.
Qed.

(** The dispatcher writes to [_objects] in one place, after the field
    readers have returned, and under an identity it did not find in the
    registry before it called them: the bindings it found are kept. *)
Lemma objects_kept_readObject_body :
  preserves objects_kept (readObject_body readObject).
Proof using readObject_kept.
  unfold readObject_body.
  refine (preserves_bind _ _ _ _ _); [okt|]. intros tag.
  destruct (String.eqb tag ""); [okt|].
  refine (preserves_bind _ _ _ _ _); [okt|]. intros _.
  refine (preserves_bind _ _ _ _ _); [okt|]. intros u.
  intros r. unfold bind at 1, get.
  destruct (_objects r !! u) as [a|] eqn:Hu; [apply P_refl|].
  pose proof (objects_kept_dispatch tag r) as Hd.
  unfold bind at 1.
  destruct (dispatch readObject tag r) as [[a|] r1|e r1|]; [| |done|done].
  - unfold objects_kept in *. simpl. by apply insert_subseteq_r.
  - exact Hd.
Qed.

End RegistryFieldReaders.

Lemma objects_kept_readObject fuel : preserves objects_kept (readObject fuel).
Proof.
  induction fuel as [|fuel IH]; [done|]. simpl. by apply objects_kept_readObject_body.
Qed.

(** Nothing a parse does between two calls of the dispatcher unbinds or
    rebinds the identity, as long as no object that carries it is
    completed. *)
Lemma between_keeps u r s a :
  between u r s -> _objects r !! u = Some a -> _objects s !! u = Some a.
Proof.
  induction 1 as [r|pos r s _ IH|st r s _ IH|fuel r r1 s H1 _ IH|r r1 s H1 _ IH
                 |fuel r r1 s H1 _ IH|u' a' r s Hne _ IH]; intros Ha.
  - exact Ha.
  - by apply IH.
  - by apply IH.
  - apply IH. eapply lookup_weaken; [exact Ha|].
    exact (final_state_preserves _ _ _ _ (objects_kept_readObject fuel) H1).
  - apply IH. eapply lookup_weaken; [exact Ha|].
    exact (final_state_preserves _ _ _ _ objects_kept_ReadArray H1).
  - apply IH. eapply lookup_weaken; [exact Ha|].
    exact (final_state_preserves _ _ _ _
             (objects_kept_readImage _ (objects_kept_readObject fuel)) H1).
  - apply IH. simpl. by rewrite lookup_insert_ne.
Qed.

(** What the first sighting of an identity leaves in the registry. *)
Lemma first_sighting_registers fuel r tag r1 r2 r3 u p r' :
  read_string r = Ok tag r1 ->
  tag <> EmptyString ->
  ReadBeginBracket r1 = Ok tt r2 ->
  read_uint r2 = Ok u r3 ->
  _objects r !! u = None ->
  readObject (S fuel) r = Ok p r' ->
  p = Some (length (store r)) /\ _objects r' !! u = Some (length (store r)).
Proof.
  intros H1 Hne H2 H3 Hu H.
  assert (cursor_moved r r3) as Hc.
  { eapply cursor_moved_trans; [by eapply read_string_cursor|].
    eapply cursor_moved_trans; [by eapply ReadBeginBracket_cursor|].
    by eapply read_uint_cursor. }
  assert (store r3 = store r) as Hst by (by rewrite Hc).
  assert (_objects r3 !! u = None) as Hu3 by (by rewrite Hc).
  rewrite (readObject_registers_last _ _ _ _ _ _ _ H1 Hne H2 H3 Hu3) in H.
  destruct (dispatch (readObject fuel) tag r3) as [p0 r4|e r4|] eqn:E; [|done|done].
  injection H as <- <-.
  apply dispatch_returns in E as ->. rewrite Hst. split; [done|].
  simpl. apply lookup_insert_eq.
Qed.


(** * Runs at different addresses *)

Section Commutes.

Context (alloc : nat -> nat) (base : Z).
Hypothesis alloc_inj : forall j k, alloc j = alloc k -> j = k.


Lemma index_of_alloc a n :
  Heap.index_of alloc (alloc a) n = if decide (a < n)%nat then Some a else None.
Proof using alloc_inj.
  unfold Heap.index_of. destruct (decide (a < n)%nat) as [Hlt|Hge].
  - assert (list_find (fun k => alloc k = alloc a) (seq 0 n) = Some (a, a)) as ->; [|done].
    apply list_find_Some. split; [by apply lookup_seq|]. split; [done|].
    intros j y Hj Hlt' Hy. apply lookup_seq in Hj as [-> _].
    apply alloc_inj in Hy. simpl in *. lia.
  - assert (list_find (fun k => alloc k = alloc a) (seq 0 n) = None) as ->; [|done].
    apply list_find_None. apply Forall_forall. intros k Hk Hy.
    apply elem_of_seq in Hk. apply alloc_inj in Hy. lia.
Qed.

Lemma deref_alloc a r :
  Heap.deref alloc (alloc a) (placed_Reader alloc base r) = placed_Instance alloc base <$> store r !! a.
Proof using alloc_inj.
  unfold Heap.deref. rewrite index_of_alloc. cbn [store placed_Reader].
  rewrite length_fmap. destruct (decide (a < length (store r))%nat) as [Hlt|Hge].
  - simpl. by rewrite list_lookup_fmap.
  - simpl. by rewrite lookup_ge_None_2 by lia.
Qed.

Lemma commutes_ret {A} (at_ : A -> A) (a : A) :
  commutes alloc base at_ (ret (at_ a)) (ret a).
Proof. by intros r. Qed.

Lemma commutes_ret_eq {A} (at_ : A -> A) (a' a : A) :
  a' = at_ a -> commutes alloc base at_ (ret a') (ret a).
Proof. intros ->. apply commutes_ret. Qed.

Lemma commutes_throw {A} (at_ : A -> A) msg :
  commutes alloc base at_ (throw msg) (throw msg).
Proof. by intros r. Qed.

Lemma commutes_bind {A B} (at_ : A -> A) (at' : B -> B) (m' m : M A) (k' k : A -> M B) :
  commutes alloc base at_ m' m ->
  (forall a, commutes alloc base at' (k' (at_ a)) (k a)) ->
  commutes alloc base at' (bind m' k') (bind m k).
Proof.
  intros Hm Hk r. unfold bind. rewrite Hm. destruct (m r) as [a r1|e r1|]; simpl; [|done|done].
  apply Hk.
Qed.

Lemma commutes_gets {A} (at_ : A -> A) (f' f : Reader -> A) :
  (forall r, f' (placed_Reader alloc base r) = at_ (f r)) -> commutes alloc base at_ (gets f') (gets f).
Proof. intros Hf r. unfold gets. simpl. by rewrite Hf. Qed.

Lemma commutes_get : commutes alloc base (placed_Reader alloc base) get get.
Proof. by intros r. Qed.

Lemma commutes_modify (g' g : Reader -> Reader) :
  (forall r, g' (placed_Reader alloc base r) = placed_Reader alloc base (g r)) -> commutes alloc base (fun x => x) (modify g') (modify g).
Proof. intros Hg r. unfold modify. simpl. by rewrite Hg. Qed.

Lemma commutes_when b (m' m : M unit) :
  commutes alloc base (fun x => x) m' m -> commutes alloc base (fun x => x) (when b m') (when b m).
Proof. intros Hm. destruct b; [done|]. apply (commutes_ret (fun x => x)). Qed.

Lemma commutes_for_from n i (body' body : Z -> M unit) :
  (forall j, commutes alloc base (fun x => x) (body' j) (body j)) ->
  commutes alloc base (fun x => x) (for_from n i body') (for_from n i body).
Proof.
  intros Hb. revert i. induction n as [|n IH]; intros i; simpl.
  - apply (commutes_ret (fun x => x)).
  - eapply commutes_bind; [apply Hb|]. intros _. apply IH.
Qed.

Lemma commutes_for_ size (body' body : Z -> M unit) :
  (forall j, commutes alloc base (fun x => x) (body' j) (body j)) ->
  commutes alloc base (fun x => x) (for_ size body') (for_ size body).
Proof. apply commutes_for_from. Qed.

Lemma commutes_for_acc {A} (at_ : A -> A) size (acc : A) (body' body : Z -> A -> M A) :
  (forall j x, commutes alloc base at_ (body' j (at_ x)) (body j x)) ->
  commutes alloc base at_ (for_acc size (at_ acc) body') (for_acc size acc body).
Proof.
  intros Hb. unfold for_acc. generalize 0. revert acc.
  induction (Z.to_nat size) as [|n IH]; intros acc i; simpl.
  - apply commutes_ret.
  - eapply commutes_bind; [apply Hb|]. intros x. apply IH.
Qed.

(** *** The store *)

Lemma commutes_make_shared i' i :
  i' = placed_Instance alloc base i ->
  commutes alloc base alloc (Heap.make_shared alloc i') (make_shared i).
Proof.
  intros -> r. unfold Heap.make_shared, make_shared, placed_outcome, placed_Reader, with_store.
  cbn [store _buffer _pos _version _useBinaryBrackets _objects _images _arrays].
  by rewrite length_fmap, fmap_app.
Qed.

Lemma alter_out_of_range {A} (f : A -> A) a (l : list A) :
  (length l <= a)%nat -> alter f a l = l.
Proof.
  intros Hge. apply list_eq. intros j. destruct (decide (a = j)) as [<-|Hne].
  - by rewrite list_lookup_alter_eq, lookup_ge_None_2.
  - by rewrite list_lookup_alter_ne.
Qed.

Lemma commutes_assign a (f' f : Instance -> Instance) :
  (forall i, placed_Instance alloc base (f i) = f' (placed_Instance alloc base i)) ->
  commutes alloc base (fun x => x) (Heap.assign alloc (alloc a) f') (assign a f).
Proof using alloc_inj.
  intros Hf r. unfold Heap.assign, assign, modify, placed_outcome. f_equal.
  rewrite index_of_alloc. cbn [store placed_Reader]. rewrite length_fmap.
  destruct (decide (a < length (store r))%nat) as [Hlt|Hge].
  - unfold placed_Reader, with_store.
    cbn [store _buffer _pos _version _useBinaryBrackets _objects _images _arrays].
    f_equal. symmetry. apply list_fmap_alter. apply Forall_forall. intros x _. apply Hf.
  - unfold placed_Reader, with_store.
    cbn [store _buffer _pos _version _useBinaryBrackets _objects _images _arrays].
    by rewrite alter_out_of_range by lia.
Qed.

Lemma commutes_load_Array a :
  commutes alloc base (placed_Array alloc base)
    (Heap.load_Array alloc (alloc a)) (load_Array a).
Proof using alloc_inj.
  apply commutes_gets. intros r. rewrite deref_alloc.
  destruct (store r !! a) as [[]|]; reflexivity.
Qed.

Lemma commutes_load_PrimitiveSet a :
  commutes alloc base (placed_PrimitiveSet alloc base)
    (Heap.load_PrimitiveSet alloc (alloc a)) (load_PrimitiveSet a).
Proof using alloc_inj.
  apply commutes_gets. intros r. rewrite deref_alloc.
  destruct (store r !! a) as [[]|]; reflexivity.
Qed.

Lemma commutes_dynamic_pointer_cast is_T p :
  (forall i, is_T (placed_Instance alloc base i) = is_T i) ->
  commutes alloc base (placed_ptr alloc base)
    (Heap.dynamic_pointer_cast alloc is_T (placed_ptr alloc base p))
    (dynamic_pointer_cast is_T p).
Proof using alloc_inj.
  intros His. apply commutes_gets. intros r. destruct p as [a|]; [|done]. simpl.
  rewrite deref_alloc. destruct (store r !! a) as [i|]; [|done]. simpl.
  rewrite His. by destruct (is_T i).
Qed.

(** *** The cursor

    The reads look at the buffer, the cursor, the version and the bracket
    flag, and move the cursor: they do the same in every run. *)

Lemma commutes_advance n : commutes alloc base (fun x => x) (advance n) (advance n).
Proof. by intros r. Qed.

Lemma commutes_check n : commutes alloc base (fun x => x) (check n) (check n).
Proof.
  intros r. unfold check, throw, placed_outcome.
  change (_pos (placed_Reader alloc base r)) with (_pos r).
  change (_length (placed_Reader alloc base r)) with (_length r).
  by destruct (_ >? _).
Qed.

Lemma commutes_read_raw n : commutes alloc base (fun x => x) (read_raw n) (read_raw n).
Proof. by intros r. Qed.

Lemma commutes_fmap_M {A B} (f : A -> B) (m : M A) :
  commutes alloc base (fun x => x) m m ->
  commutes alloc base (fun x => x) (fmap_M f m) (fmap_M f m).
Proof.
  intros Hm. unfold fmap_M. eapply commutes_bind; [exact Hm|]. intros a.
  apply (commutes_ret (fun x => x)).
Qed.

Lemma commutes_read n : commutes alloc base (fun x => x) (read n) (read n).
Proof.
  unfold read. eapply commutes_bind; [apply commutes_check|]. intros _.
  apply commutes_fmap_M, commutes_read_raw.
Qed.

Lemma commutes_read_uint : commutes alloc base (fun x => x) read_uint read_uint.
Proof. apply commutes_read. Qed.

Lemma commutes_read_float : commutes alloc base (fun x => x) read_float read_float.
Proof. apply commutes_read. Qed.

Lemma commutes_read_double : commutes alloc base (fun x => x) read_double read_double.
Proof. apply commutes_read. Qed.

Lemma commutes_read_int : commutes alloc base (fun x => x) read_int read_int.
Proof. apply commutes_fmap_M, commutes_read. Qed.

Lemma commutes_read_enum : commutes alloc base (fun x => x) read_enum read_enum.
Proof. apply commutes_read_int. Qed.

Lemma commutes_read_longlong :
  commutes alloc base (fun x => x) read_longlong read_longlong.
Proof. apply commutes_fmap_M, commutes_read. Qed.

Lemma commutes_read_Vec3d : commutes alloc base (fun x => x) read_Vec3d read_Vec3d.
Proof.
  unfold read_Vec3d. eapply commutes_bind; [apply commutes_check|]. intros _.
  eapply commutes_bind; [apply commutes_read_raw|]. intros bs.
  apply (commutes_ret (fun x => x)).
Qed.

Lemma commutes_read_Vec4f : commutes alloc base (fun x => x) read_Vec4f read_Vec4f.
Proof.
  unfold read_Vec4f. eapply commutes_bind; [apply commutes_check|]. intros _.
  eapply commutes_bind; [apply commutes_read_raw|]. intros bs.
  apply (commutes_ret (fun x => x)).
Qed.

Lemma commutes_read_each n count :
  commutes alloc base (fun x => x) (read_each n count) (read_each n count).
Proof.
  induction count as [|c IH]; simpl.
  - apply (commutes_ret (fun x => x)).
  - eapply commutes_bind; [apply commutes_read_raw|]. intros v.
    eapply commutes_bind; [apply IH|]. intros vs. apply (commutes_ret (fun x => x)).
Qed.

Lemma commutes_read_n n count :
  commutes alloc base (fun x => x) (read_n n count) (read_n n count).
Proof.
  unfold read_n. eapply commutes_bind; [apply commutes_check|]. intros _.
  apply commutes_read_each.
Qed.

Lemma commutes_read_bool : commutes alloc base (fun x => x) read_bool read_bool.
Proof.
  unfold read_bool. eapply commutes_bind; [apply commutes_check|]. intros _.
  intros r. unfold bind at 1 3, get. cbv zeta.
  change (bytes_at (placed_Reader alloc base r) 1) with (bytes_at r 1).
  by destruct (_ && _).
Qed.

Lemma commutes_read_string : commutes alloc base (fun x => x) read_string read_string.
Proof.
  unfold read_string. eapply commutes_bind; [apply commutes_read_int|]. intros size.
  cbv beta. destruct (size <? 0); [apply commutes_throw|].
  eapply commutes_bind; [apply commutes_read_n|]. intros bs.
  apply (commutes_ret (fun x => x)).
Qed.

Lemma commutes_ReadBeginBracket :
  commutes alloc base (fun x => x) ReadBeginBracket ReadBeginBracket.
Proof.
  intros r. unfold ReadBeginBracket, bind, get.
  change (_useBinaryBrackets (placed_Reader alloc base r)) with (_useBinaryBrackets r).
  change (_version (placed_Reader alloc base r)) with (_version r).
  destruct (_useBinaryBrackets r); [|done]. by destruct (_ >? _).
Qed.

Lemma commutes_ReadEndBracket :
  commutes alloc base (fun x => x) ReadEndBracket ReadEndBracket.
Proof. by intros r. Qed.

Lemma commutes_readHeader : commutes alloc base (fun x => x) readHeader readHeader.
Proof.
  unfold readHeader.
  eapply commutes_bind; [apply commutes_read_longlong|]. intros magic. cbv beta.
  eapply (commutes_bind (fun x => x)).
  { destruct (negb _); [apply commutes_throw|apply (commutes_ret (fun x => x))]. }
  intros _.
  eapply commutes_bind; [apply commutes_read_uint|]. intros type. cbv beta.
  eapply (commutes_bind (fun x => x)).
  { destruct (type =? 0); [apply commutes_throw|apply (commutes_ret (fun x => x))]. }
  intros _.
  eapply commutes_bind; [apply commutes_read_uint|]. intros version. cbv beta.
  eapply commutes_bind; [by apply commutes_modify|]. intros _.
  eapply commutes_bind; [apply commutes_read_uint|]. intros attributes. cbv beta.
  eapply (commutes_bind (fun x => x)).
  { destruct (_ || _); [apply commutes_throw|apply (commutes_ret (fun x => x))]. }
  intros _.
  eapply commutes_bind; [by apply commutes_modify|]. intros _.
  eapply commutes_bind; [apply commutes_read_string|]. intros name. cbv beta.
  destruct (negb _); [apply commutes_throw|apply (commutes_ret (fun x => x))].
Qed.

End Commutes.

Create HintDb cmt discriminated.

#[global] Hint Resolve commutes_throw commutes_advance commutes_check commutes_read_raw
  commutes_read commutes_read_uint commutes_read_float commutes_read_double
  commutes_read_int commutes_read_enum commutes_read_longlong commutes_read_Vec3d
  commutes_read_Vec4f commutes_read_n commutes_read_bool commutes_read_string
  commutes_ReadBeginBracket commutes_ReadEndBracket commutes_get : cmt.

(** How a value of each type is laid out. *)
Ltac at_for al ba A :=
  lazymatch A with
  | ptr => constr:(placed_ptr al ba)
  | option nat => constr:(placed_ptr al ba)
  | nat => constr:(al)
  | Reader => constr:(placed_Reader al ba)
  | Array => constr:(placed_Array al ba)
  | PrimitiveSet => constr:(placed_PrimitiveSet al ba)
  | list (ptr * Z) => constr:(placed_pairs al ba)
  | list (option nat * Z) => constr:(placed_pairs al ba)
  | _ => constr:(fun x : A => x)
  end.

(** The setters commute with the layout. *)
Ltac rec_tac :=
  repeat match goal with
  | x : ?T |- _ =>
      lazymatch T with
      | PagedLOD => destruct x | LOD => destruct x | Group => destruct x
      | Node => destruct x | Geode => destruct x | Geometry => destruct x
      | StateSet => destruct x | Texture2D => destruct x
      | PrimitiveSet => destruct x | Array => destruct x | Image => destruct x
      end
  end.

Ltac place_tac :=
  let i := fresh "i" in
  intros i; destruct i; try reflexivity; rec_tac;
  cbv [
    set_uniqueId over_Node_Object set_stateSet over_Group_Node
    over_children over_LOD_Group set_centerMode set_userDefinedCenter
    set_userDefinedRadius over_rangeList over_PagedLOD_LOD
    over_rangeDataList set_filename set_priorityOffset set_priorityScale
    over_Geode_Node over_drawables over_Geometry_Drawable over_primitives
    set_vertexData set_normalData set_colorData set_secondaryColorData
    set_fogCoordData over_texCoordDataList over_StateSet_Object over_modes
    over_attributes over_textureModesList over_textureAttributesList
    set_renderingHint set_frontAndBack set_front set_back
    over_Material_Object over_ambient over_diffuse over_specular
    over_emission over_shininess over_Texture_Object set_wrapS set_wrapT
    set_wrapR over_Texture2D_Texture set_image over_PrimitiveSet_Object
    set_mode set_indexData set_indexCount over_Array_Object
    set_elementCount set_elementData set_binding set_normalize
    over_Image_Object set_data set_dataLength over_Object over_Node
    over_Group over_LOD over_PagedLOD over_Geode over_Geometry
    over_StateSet over_Material over_Texture over_Texture2D
    over_PrimitiveSet over_Array over_Image v4_x v4_y v4_z v4_w v3_x v3_y
    v3_z uniqueId Array_Object arrayType elementSize elementCount
    elementData binding normalize StateSet_Object modes attributes
    textureModesList textureAttributesList renderingHint Node_Object
    stateSet PrimitiveSet_Object mode indexData indexCount
    Geometry_Drawable primitives vertexData normalData colorData
    secondaryColorData fogCoordData texCoordDataList Geode_Node drawables
    Group_Node children range_min range_max LOD_Group centerMode
    userDefinedCenter userDefinedRadius rangeList filename priorityOffset
    priorityScale PagedLOD_LOD rangeDataList Material_Object ambient
    diffuse specular emission shininess Texture_Object wrapS wrapT wrapR
    Image_Object data dataLength Texture2D_Texture image placed_Node
    placed_Group placed_LOD placed_PagedLOD placed_Geode placed_Geometry
    placed_StateSet placed_Texture2D placed_PrimitiveSet placed_Array
    placed_Image placed_Instance
    vector_set vector_resize vector_over ];
  unfold placed_pairs;
  rewrite ?list_fmap_insert, ?fmap_resize, ?fmap_app; reflexivity.

Ltac ret_tac :=
  first
  [ reflexivity
  | repeat match goal with
           | |- context [match ?o with Some _ => _ | None => _ end] =>
               is_var o; destruct o
           end;
    unfold placed_pairs; rewrite ?fmap_app; reflexivity ].

Ltac modify_tac :=
  let r := fresh "r" in
  intros r; unfold placed_Reader, with_objects, with_images, with_arrays;
  cbn [store _buffer _pos _version _useBinaryBrackets _objects _images _arrays];
  rewrite ?fmap_insert; reflexivity.

Ltac cm :=
  cbv beta;
  lazymatch goal with
  | |- commutes ?al ?ba _ (bind (gets (Heap.here _)) _) (bind _ _) =>
      eapply (commutes_bind al ba (Z.add ba));
      [apply commutes_gets; intros ?; reflexivity | intros ?; cm]
  | |- commutes ?al ?ba _ (@bind ?A _ _ _) (bind _ _) =>
      let f := at_for al ba A in
      eapply (commutes_bind al ba f); [cm | intros ?; cm]
  | |- commutes _ _ _ _ (ret _) => apply commutes_ret_eq; ret_tac
  | |- commutes _ _ _ _ (throw _) => apply commutes_throw
  | |- commutes _ _ _ _ (when _ _) => apply commutes_when; cm
  | |- commutes _ _ _ _ (for_ _ _) => apply commutes_for_; intros ?; cm
  | |- commutes ?al ?ba ?f (for_acc _ _ ?body') (for_acc ?size ?acc ?body) =>
      apply (commutes_for_acc al ba f size acc body' body); intros ? ?; cm
  | |- commutes ?al ?ba _ (match ?reg (placed_Reader ?al ?ba ?r0) !! ?u with _ => _ end) _ =>
      change (reg (placed_Reader al ba r0)) with (al <$> reg r0);
      rewrite lookup_fmap; destruct (reg r0 !! u);
      cbn [fmap option_fmap option_map]; cm
  | |- commutes ?al ?ba _ (match placed_ptr ?al ?ba ?o with _ => _ end) _ =>
      destruct o; cbn [placed_ptr fmap option_fmap option_map]; cm
  | |- commutes _ _ _ (if ?c then _ else _) (if ?c then _ else _) => destruct c; cm
  | |- commutes _ _ _ _ (make_shared _) => apply commutes_make_shared; reflexivity
  | |- commutes _ _ _ _ (assign _ _) => apply commutes_assign; [assumption | place_tac]
  | |- commutes _ _ _ _ (modify _) => apply commutes_modify; modify_tac
  | |- commutes _ _ _ _ (gets _) => apply commutes_gets; intros ?; reflexivity
  | |- commutes _ _ _ _ (load_Array _) => apply commutes_load_Array; assumption
  | |- commutes _ _ _ _ (load_PrimitiveSet _) =>
      apply commutes_load_PrimitiveSet; assumption
  | |- commutes _ _ _ _ (dynamic_pointer_cast _ _) =>
      apply commutes_dynamic_pointer_cast; [assumption | intros []; reflexivity]
  | |- commutes _ _ _ _ _ => solve [eauto with cmt]
  end.

Section CommutesReaders.

Context (alloc : nat -> nat) (base : Z).
Hypothesis alloc_inj : forall j k, alloc j = alloc k -> j = k.

Lemma commutes_ReadArray :
  commutes alloc base (placed_ptr alloc base) (Heap.ReadArray alloc base) ReadArray.
Proof using alloc_inj. unfold Heap.ReadArray, ReadArray. cm. Qed.

Context (readObject' readObject : M ptr).
Hypothesis readObject_commutes :
  commutes alloc base (placed_ptr alloc base) readObject' readObject.

#[local] Hint Resolve readObject_commutes commutes_ReadArray : cmt.
#[local] Hint Extern 1 (_ = _) => reflexivity : cmt.

Lemma commutes_readObjectIfTrue :
  commutes alloc base (placed_ptr alloc base)
    (Heap.readObjectIfTrue alloc base readObject')
    (readObjectIfTrue readObject).
Proof using alloc_inj readObject_commutes. unfold Heap.readObjectIfTrue, readObjectIfTrue. cm. Qed.
#[local] Hint Resolve commutes_readObjectIfTrue : cmt.

Lemma commutes_readObjectFields_Object obj :
  commutes alloc base (fun x => x)
    (Heap.readObjectFields_Object alloc base readObject' (alloc obj))
    (readObjectFields_Object readObject obj).
Proof using alloc_inj readObject_commutes. unfold Heap.readObjectFields_Object, readObjectFields_Object. cm. Qed.
#[local] Hint Resolve commutes_readObjectFields_Object : cmt.

Lemma commutes_readObjectFields_Node obj :
  commutes alloc base (fun x => x)
    (Heap.readObjectFields_Node alloc base readObject' (alloc obj))
    (readObjectFields_Node readObject obj).
Proof using alloc_inj readObject_commutes. unfold Heap.readObjectFields_Node, readObjectFields_Node. cm. Qed.
#[local] Hint Resolve commutes_readObjectFields_Node : cmt.

Lemma commutes_readObjectFields_Group obj :
  commutes alloc base (fun x => x)
    (Heap.readObjectFields_Group alloc base readObject' (alloc obj))
    (readObjectFields_Group readObject obj).
Proof using alloc_inj readObject_commutes. unfold Heap.readObjectFields_Group, readObjectFields_Group. cm. Qed.
#[local] Hint Resolve commutes_readObjectFields_Group : cmt.

Lemma commutes_readObjectFields_LOD obj :
  commutes alloc base (fun x => x)
    (Heap.readObjectFields_LOD alloc base (alloc obj))
    (readObjectFields_LOD obj).
Proof using alloc_inj readObject_commutes. unfold Heap.readObjectFields_LOD, readObjectFields_LOD. cm. Qed.
#[local] Hint Resolve commutes_readObjectFields_LOD : cmt.

Lemma commutes_readObjectFields_PagedLOD_RangeDataList obj :
  commutes alloc base (fun x => x)
    (Heap.readObjectFields_PagedLOD_RangeDataList alloc base (alloc obj))
    (readObjectFields_PagedLOD_RangeDataList obj).
Proof using alloc_inj readObject_commutes. unfold Heap.readObjectFields_PagedLOD_RangeDataList, readObjectFields_PagedLOD_RangeDataList. cm. Qed.
#[local] Hint Resolve commutes_readObjectFields_PagedLOD_RangeDataList : cmt.

Lemma commutes_readObjectFields_PagedLOD_Children obj :
  commutes alloc base (fun x => x)
    (Heap.readObjectFields_PagedLOD_Children alloc base readObject' (alloc obj))
    (readObjectFields_PagedLOD_Children readObject obj).
Proof using alloc_inj readObject_commutes. unfold Heap.readObjectFields_PagedLOD_Children, readObjectFields_PagedLOD_Children. cm. Qed.
#[local] Hint Resolve commutes_readObjectFields_PagedLOD_Children : cmt.

Lemma commutes_readObjectFields_PagedLOD obj :
  commutes alloc base (fun x => x)
    (Heap.readObjectFields_PagedLOD alloc base readObject' (alloc obj))
    (readObjectFields_PagedLOD readObject obj).
Proof using alloc_inj readObject_commutes. unfold Heap.readObjectFields_PagedLOD, readObjectFields_PagedLOD. cm. Qed.
#[local] Hint Resolve commutes_readObjectFields_PagedLOD : cmt.

Lemma commutes_readObjectFields_Geode obj :
  commutes alloc base (fun x => x)
    (Heap.readObjectFields_Geode alloc base readObject' (alloc obj))
    (readObjectFields_Geode readObject obj).
Proof using alloc_inj readObject_commutes. unfold Heap.readObjectFields_Geode, readObjectFields_Geode. cm. Qed.
#[local] Hint Resolve commutes_readObjectFields_Geode : cmt.

Lemma commutes_readObjectFields_Drawable obj :
  commutes alloc base (fun x => x)
    (Heap.readObjectFields_Drawable alloc base readObject' (alloc obj))
    (readObjectFields_Drawable readObject obj).
Proof using alloc_inj readObject_commutes. unfold Heap.readObjectFields_Drawable, readObjectFields_Drawable. cm. Qed.
#[local] Hint Resolve commutes_readObjectFields_Drawable : cmt.

Lemma commutes_readObjectFields_PrimitiveSet obj :
  commutes alloc base (fun x => x)
    (Heap.readObjectFields_PrimitiveSet alloc base (alloc obj))
    (readObjectFields_PrimitiveSet obj).
Proof using alloc_inj readObject_commutes. unfold Heap.readObjectFields_PrimitiveSet, readObjectFields_PrimitiveSet. cm. Qed.
#[local] Hint Resolve commutes_readObjectFields_PrimitiveSet : cmt.

Lemma commutes_readObjectFields_DrawElementsUInt obj :
  commutes alloc base (fun x => x)
    (Heap.readObjectFields_DrawElementsUInt alloc base (alloc obj))
    (readObjectFields_DrawElementsUInt obj).
Proof using alloc_inj readObject_commutes. unfold Heap.readObjectFields_DrawElementsUInt, readObjectFields_DrawElementsUInt. cm. Qed.
#[local] Hint Resolve commutes_readObjectFields_DrawElementsUInt : cmt.

Lemma commutes_skip_inline_array :
  commutes alloc base (fun x => x)
    (Heap.skip_inline_array alloc base)
    skip_inline_array.
Proof using alloc_inj readObject_commutes. unfold Heap.skip_inline_array, skip_inline_array. cm. Qed.
#[local] Hint Resolve commutes_skip_inline_array : cmt.

Lemma commutes_readObjectFields_Geometry obj :
  commutes alloc base (fun x => x)
    (Heap.readObjectFields_Geometry alloc base readObject' (alloc obj))
    (readObjectFields_Geometry readObject obj).
Proof using alloc_inj readObject_commutes. unfold Heap.readObjectFields_Geometry, readObjectFields_Geometry. cm. Qed.
#[local] Hint Resolve commutes_readObjectFields_Geometry : cmt.

Lemma commutes_read_modes size l :
  commutes alloc base (fun x => x)
    (Heap.read_modes alloc base size l)
    (read_modes size l).
Proof using alloc_inj readObject_commutes. unfold Heap.read_modes, read_modes. cm. Qed.
#[local] Hint Resolve commutes_read_modes : cmt.

Lemma commutes_read_attributes size l' l :
  l' = placed_pairs alloc base l ->
  commutes alloc base (placed_pairs alloc base)
    (Heap.read_attributes alloc base readObject' size l')
    (read_attributes readObject size l).
Proof using alloc_inj readObject_commutes. intros ->. unfold Heap.read_attributes, read_attributes. cm. Qed.
#[local] Hint Resolve commutes_read_attributes : cmt.

Lemma commutes_readObjectFields_StateSet obj :
  commutes alloc base (fun x => x)
    (Heap.readObjectFields_StateSet alloc base readObject' (alloc obj))
    (readObjectFields_StateSet readObject obj).
Proof using alloc_inj readObject_commutes. unfold Heap.readObjectFields_StateSet, readObjectFields_StateSet. cm. Qed.
#[local] Hint Resolve commutes_readObjectFields_StateSet : cmt.

Lemma commutes_readObjectFields_StateAttribute obj :
  commutes alloc base (fun x => x)
    (Heap.readObjectFields_StateAttribute alloc base readObject' (alloc obj))
    (readObjectFields_StateAttribute readObject obj).
Proof using alloc_inj readObject_commutes. unfold Heap.readObjectFields_StateAttribute, readObjectFields_StateAttribute. cm. Qed.
#[local] Hint Resolve commutes_readObjectFields_StateAttribute : cmt.

Lemma commutes_read_Property_Vec4f obj over :
  commutes alloc base (fun x => x)
    (Heap.read_Property_Vec4f alloc base (alloc obj) over)
    (read_Property_Vec4f obj over).
Proof using alloc_inj readObject_commutes. unfold Heap.read_Property_Vec4f, read_Property_Vec4f. cm. Qed.
#[local] Hint Resolve commutes_read_Property_Vec4f : cmt.

Lemma commutes_readObjectFields_Material obj :
  commutes alloc base (fun x => x)
    (Heap.readObjectFields_Material alloc base (alloc obj))
    (readObjectFields_Material obj).
Proof using alloc_inj readObject_commutes. unfold Heap.readObjectFields_Material, readObjectFields_Material. cm. Qed.
#[local] Hint Resolve commutes_readObjectFields_Material : cmt.

Lemma commutes_skip_optional_uint :
  commutes alloc base (fun x => x)
    (Heap.skip_optional_uint alloc base)
    skip_optional_uint.
Proof using alloc_inj readObject_commutes. unfold Heap.skip_optional_uint, skip_optional_uint. cm. Qed.
#[local] Hint Resolve commutes_skip_optional_uint : cmt.

Lemma commutes_readObjectFields_Texture obj :
  commutes alloc base (fun x => x)
    (Heap.readObjectFields_Texture alloc base (alloc obj))
    (readObjectFields_Texture obj).
Proof using alloc_inj readObject_commutes. unfold Heap.readObjectFields_Texture, readObjectFields_Texture. cm. Qed.
#[local] Hint Resolve commutes_readObjectFields_Texture : cmt.

Lemma commutes_readImage :
  commutes alloc base (placed_ptr alloc base)
    (Heap.readImage alloc base readObject')
    (readImage readObject).
Proof using alloc_inj readObject_commutes. unfold Heap.readImage, readImage. cm. Qed.
#[local] Hint Resolve commutes_readImage : cmt.

Lemma commutes_readObjectFields_Texture2D obj :
  commutes alloc base (fun x => x)
    (Heap.readObjectFields_Texture2D alloc base readObject' (alloc obj))
    (readObjectFields_Texture2D readObject obj).
Proof using alloc_inj readObject_commutes. unfold Heap.readObjectFields_Texture2D, readObjectFields_Texture2D. cm. Qed.
#[local] Hint Resolve commutes_readObjectFields_Texture2D : cmt.

Lemma commutes_readObjectFields_DefaultUserDataContainer obj :
  commutes alloc base (fun x => x)
    (Heap.readObjectFields_DefaultUserDataContainer alloc base readObject' (alloc obj))
    (readObjectFields_DefaultUserDataContainer readObject obj).
Proof using alloc_inj readObject_commutes. unfold Heap.readObjectFields_DefaultUserDataContainer, readObjectFields_DefaultUserDataContainer. cm. Qed.
#[local] Hint Resolve commutes_readObjectFields_DefaultUserDataContainer : cmt.

Lemma commutes_readObjectFields_Array obj :
  commutes alloc base (fun x => x)
    (Heap.readObjectFields_Array alloc base (alloc obj))
    (readObjectFields_Array obj).
Proof using alloc_inj readObject_commutes. unfold Heap.readObjectFields_Array, readObjectFields_Array. cm. Qed.
#[local] Hint Resolve commutes_readObjectFields_Array : cmt.

Lemma commutes_readObjectFields_Vec2Array obj :
  commutes alloc base (fun x => x)
    (Heap.readObjectFields_Vec2Array alloc base (alloc obj))
    (readObjectFields_Vec2Array obj).
Proof using alloc_inj readObject_commutes. unfold Heap.readObjectFields_Vec2Array, readObjectFields_Vec2Array. cm. Qed.
#[local] Hint Resolve commutes_readObjectFields_Vec2Array : cmt.

Lemma commutes_readObjectFields_Vec3Array obj :
  commutes alloc base (fun x => x)
    (Heap.readObjectFields_Vec3Array alloc base (alloc obj))
    (readObjectFields_Vec3Array obj).
Proof using alloc_inj readObject_commutes. unfold Heap.readObjectFields_Vec3Array, readObjectFields_Vec3Array. cm. Qed.
#[local] Hint Resolve commutes_readObjectFields_Vec3Array : cmt.

Lemma commutes_readObjectData_PagedLOD :
  commutes alloc base (placed_ptr alloc base)
    (Heap.readObjectData_PagedLOD alloc base readObject')
    (readObjectData_PagedLOD readObject).
Proof using alloc_inj readObject_commutes. unfold Heap.readObjectData_PagedLOD, readObjectData_PagedLOD. cm. Qed.
#[local] Hint Resolve commutes_readObjectData_PagedLOD : cmt.

Lemma commutes_readObjectData_Group :
  commutes alloc base (placed_ptr alloc base)
    (Heap.readObjectData_Group alloc base readObject')
    (readObjectData_Group readObject).
Proof using alloc_inj readObject_commutes. unfold Heap.readObjectData_Group, readObjectData_Group. cm. Qed.
#[local] Hint Resolve commutes_readObjectData_Group : cmt.

Lemma commutes_readObjectData_Geode :
  commutes alloc base (placed_ptr alloc base)
    (Heap.readObjectData_Geode alloc base readObject')
    (readObjectData_Geode readObject).
Proof using alloc_inj readObject_commutes. unfold Heap.readObjectData_Geode, readObjectData_Geode. cm. Qed.
#[local] Hint Resolve commutes_readObjectData_Geode : cmt.

Lemma commutes_readObjectData_Geometry :
  commutes alloc base (placed_ptr alloc base)
    (Heap.readObjectData_Geometry alloc base readObject')
    (readObjectData_Geometry readObject).
Proof using alloc_inj readObject_commutes. unfold Heap.readObjectData_Geometry, readObjectData_Geometry. cm. Qed.
#[local] Hint Resolve commutes_readObjectData_Geometry : cmt.

Lemma commutes_readObjectData_DrawElementsUInt :
  commutes alloc base (placed_ptr alloc base)
    (Heap.readObjectData_DrawElementsUInt alloc base readObject')
    (readObjectData_DrawElementsUInt readObject).
Proof using alloc_inj readObject_commutes. unfold Heap.readObjectData_DrawElementsUInt, readObjectData_DrawElementsUInt. cm. Qed.
#[local] Hint Resolve commutes_readObjectData_DrawElementsUInt : cmt.

Lemma commutes_readObjectData_StateSet :
  commutes alloc base (placed_ptr alloc base)
    (Heap.readObjectData_StateSet alloc base readObject')
    (readObjectData_StateSet readObject).
Proof using alloc_inj readObject_commutes. unfold Heap.readObjectData_StateSet, readObjectData_StateSet. cm. Qed.
#[local] Hint Resolve commutes_readObjectData_StateSet : cmt.

Lemma commutes_readObjectData_Material :
  commutes alloc base (placed_ptr alloc base)
    (Heap.readObjectData_Material alloc base readObject')
    (readObjectData_Material readObject).
Proof using alloc_inj readObject_commutes. unfold Heap.readObjectData_Material, readObjectData_Material. cm. Qed.
#[local] Hint Resolve commutes_readObjectData_Material : cmt.

Lemma commutes_readObjectData_Texture2D :
  commutes alloc base (placed_ptr alloc base)
    (Heap.readObjectData_Texture2D alloc base readObject')
    (readObjectData_Texture2D readObject).
Proof using alloc_inj readObject_commutes. unfold Heap.readObjectData_Texture2D, readObjectData_Texture2D. cm. Qed.
#[local] Hint Resolve commutes_readObjectData_Texture2D : cmt.

Lemma commutes_readObjectData_DefaultUserDataContainer :
  commutes alloc base (placed_ptr alloc base)
    (Heap.readObjectData_DefaultUserDataContainer alloc base readObject')
    (readObjectData_DefaultUserDataContainer readObject).
Proof using alloc_inj readObject_commutes. unfold Heap.readObjectData_DefaultUserDataContainer, readObjectData_DefaultUserDataContainer. cm. Qed.
#[local] Hint Resolve commutes_readObjectData_DefaultUserDataContainer : cmt.

Lemma commutes_readObjectData_Vec3Array :
  commutes alloc base (placed_ptr alloc base)
    (Heap.readObjectData_Vec3Array alloc base readObject')
    (readObjectData_Vec3Array readObject).
Proof using alloc_inj readObject_commutes. unfold Heap.readObjectData_Vec3Array, readObjectData_Vec3Array. cm. Qed.
#[local] Hint Resolve commutes_readObjectData_Vec3Array : cmt.

Lemma commutes_readObjectData_Vec2Array :
  commutes alloc base (placed_ptr alloc base)
    (Heap.readObjectData_Vec2Array alloc base readObject')
    (readObjectData_Vec2Array readObject).
Proof using alloc_inj readObject_commutes. unfold Heap.readObjectData_Vec2Array, readObjectData_Vec2Array. cm. Qed.
#[local] Hint Resolve commutes_readObjectData_Vec2Array : cmt.

Lemma commutes_dispatch className :
  commutes alloc base (placed_ptr alloc base)
    (Heap.dispatch alloc base readObject' className)
    (dispatch readObject className).
Proof using alloc_inj readObject_commutes. unfold Heap.dispatch, dispatch. cm. Qed.
#[local] Hint Resolve commutes_dispatch : cmt.

Lemma commutes_readObject_body :
  commutes alloc base (placed_ptr alloc base)
    (Heap.readObject_body alloc base readObject')
    (readObject_body readObject).
Proof using alloc_inj readObject_commutes. unfold Heap.readObject_body, readObject_body. cm. Qed.
#[local] Hint Resolve commutes_readObject_body : cmt.

End CommutesReaders.

Section CommutesParse.

Context (alloc : nat -> nat) (base : Z).
Hypothesis alloc_inj : forall j k, alloc j = alloc k -> j = k.

Lemma commutes_readObject fuel :
  commutes alloc base (placed_ptr alloc base)
    (Heap.readObject alloc base fuel) (readObject fuel).
Proof using alloc_inj.
  induction fuel as [|fuel IH]; [by intros r|].
  simpl. by apply commutes_readObject_body.
Qed.

Lemma placed_Reader_new buffer :
  placed_Reader alloc base (Reader_new buffer) = Reader_new buffer.
Proof. unfold placed_Reader, Reader_new. simpl. by rewrite fmap_empty. Qed.

Lemma parse_placed fuel buffer :
  Heap.parse alloc base fuel buffer =
    placed_outcome alloc base (placed_ptr alloc base) (parse fuel buffer).
Proof using alloc_inj.
  unfold Heap.parse, parse. rewrite <- (placed_Reader_new buffer) at 1.
  apply (commutes_bind alloc base (fun x => x)).
  - apply commutes_readHeader.
  - intros _. apply commutes_readObject.
Qed.

(** What a run hands back is what the model hands back, laid out at the
    addresses of the run. *)
Lemma Data_read_fuel_placed fuel buffer :
  Heap.Data_read_fuel alloc base fuel buffer =
    placed_Result alloc base <$> Data_read_fuel fuel buffer.
Proof using alloc_inj.
  unfold Heap.Data_read_fuel, Data_read_fuel. rewrite parse_placed.
  destruct (parse fuel buffer) as [root reader|ex reader|]; simpl; [|done|done].
  change (ended (placed_Reader alloc base reader)) with (ended reader).
  destruct root as [a|]; simpl; [|done]. by destruct (ended reader).
Qed.

End CommutesParse.


